(** * ChatWSManager: the persistent chat connection manager

    A shallow embedding of [src/frontend/src/utils/ChatWSManager.ts] and the
    properties of its state machine, authorization gate, outbound queue and
    reconnection scheduler.

    Modelling conventions.
    - The private fields of the class are the record [ChatWSManager]; the parts
      of the browser the class talks to (the timer table of [window], the
      promise closures created by [ensureAuthorized], [localStorage]) are the
      record [Window]. A [World] is the pair of both.
    - Every method is a function [World -> World] (explicit state passing).
    - Platform functions that are not part of the repository ([JSON.parse],
      [JSON.stringify], [Math.random], [Date.now], and whether
      [new WebSocket], [send] and [close] throw) are fields of a [Platform]
      record over which every statement is quantified. The synchronous
      failures are oracles indexed by the number of platform calls made so
      far, so that every behaviour of the environment is covered.
    - Observable effects (callback invocations, frames handed to the
      transport, state assignments, promise resolutions) are appended to a
      log kept in [Window].
    - Caller-supplied callbacks are application code. In the histories of
      operations and events ([exec], [run]) an invocation is recorded in the
      log, returns normally, and does not call back into the manager before
      the handler that invoked it has finished. The handlers are also given
      in a second form ([ws_onopen_with], [ws_onmessage_with],
      [ws_onclose_with]) in which the callback may throw and the [onOpen]
      callback may act on the manager, as the one of the chat page does.
    - [ensureAuthorized] is an [async] function: [ensureAuthorized_begin]
      is the part that runs inside the call, [ensureAuthorized_resume] the
      continuation that runs as a microtask after [await this.connect()]. *)

From Stdlib Require Import String List ZArith QArith Qround Qpower Bool Arith Lia Lqa.
Import ListNotations.
Local Open Scope string_scope.
Local Open Scope list_scope.
Local Open Scope nat_scope.

(** ** JavaScript values produced by [JSON.parse] *)

#[local] Unset Elimination Schemes.
Inductive JsValue : Type :=
| JNull
| JBool (b : bool)
| JNum (q : Q)
| JStr (s : string)
| JArr (items : list JsValue)
| JObj (fields : list (string * JsValue)).
#[local] Set Elimination Schemes.

Module Js.

(** Own-property lookup in the field list of an object; when a key occurs
    twice the later binding is the one [JSON.parse] keeps. *)
Fixpoint lookup_field (k : string) (fs : list (string * JsValue))
  : option JsValue :=
  match fs with
  | [] => None
  | (k', v) :: rest =>
      match lookup_field k rest with
      | Some v' => Some v'
      | None => if (k =? k')%string then Some v else None
      end
  end.

(** [v.k]: [None] stands for [undefined]. Primitives and arrays have no
    property named [type], [state] or [token]. *)
Definition get (v : JsValue) (k : string) : option JsValue :=
  match v with
  | JObj fs => lookup_field k fs
  | _ => None
  end.

(** [v?.k]: short-circuits to [undefined] on [null] and [undefined]. *)
Definition opt_get (v : option JsValue) (k : string) : option JsValue :=
  match v with
  | None | Some JNull => None
  | Some v' => get v' k
  end.

(** ToBoolean. *)
Definition truthy (v : JsValue) : bool :=
  match v with
  | JNull => false
  | JBool b => b
  | JNum q => negb (Qeq_bool q 0)
  | JStr s => negb (s =? "")%string
  | JArr _ | JObj _ => true
  end.

Definition truthy_opt (v : option JsValue) : bool :=
  match v with
  | None => false
  | Some v' => truthy v'
  end.

(** [v.type === name] *)
Definition type_is (v : JsValue) (name : string) : bool :=
  match get v "type" with
  | Some (JStr s) => (s =? name)%string
  | _ => false
  end.

(** Truthiness of a [string | null] field. *)
Definition truthy_str (s : option string) : bool :=
  match s with
  | Some s' => negb (s' =? "")%string
  | None => false
  end.

(** [a === b] on [string | null]. *)
Definition str_eq (a b : option string) : bool :=
  match a, b with
  | Some x, Some y => (x =? y)%string
  | None, None => true
  | _, _ => false
  end.

End Js.

(** ** The platform the manager runs on *)

Record Platform : Type := mkPlatform {
  (** [JSON.parse]; [None] when it throws. *)
  JSON_parse : string -> option JsValue;
  JSON_stringify : JsValue -> string;
  (** Number-to-string conversion used by template literals. *)
  Number_toString : Q -> string;
  (** Does the platform call number [n] throw, when it is
      [new WebSocket(url)], [ws.send(..)], [ws.close()]? *)
  WebSocket_throws : nat -> string -> bool;
  send_throws : nat -> bool;
  close_throws : nat -> bool;
  (** Value returned by [Math.random()] / [Date.now()] at call [n]. *)
  Math_random : nat -> Q;
  Date_now : nat -> Z
}.

(** ToString as applied by the template literal [`Bearer ${token}`] throws
    a [TypeError] on an object with an own property [toString]: the value
    [JSON.parse] stored there is not callable and hides
    [Object.prototype.toString], and the inherited [valueOf] returns the
    object itself. An array is joined, which converts every element other
    than [null]. *)
Fixpoint template_throws (v : JsValue) : bool :=
  match v with
  | JNull | JBool _ | JNum _ | JStr _ => false
  | JArr items => existsb (fun x => template_throws x) items
  | JObj fields =>
      match Js.lookup_field "toString" fields with
      | Some _ => true
      | None => false
      end
  end.

(** The string the conversion yields when it does not throw. *)
Fixpoint template_string (P : Platform) (v : JsValue) : string :=
  match v with
  | JNull => "null"
  | JBool true => "true"
  | JBool false => "false"
  | JNum q => Number_toString P q
  | JStr s => s
  | JArr items =>
      String.concat ","
        (map (fun x => match x with
                       | JNull => ""
                       | _ => template_string P x
                       end) items)
  | JObj _ => "[object Object]"
  end.

(** ** Numbers

    A JavaScript number is a binary64 floating-point number; its value is
    kept as a rational. [*] and [+] return the exact result rounded to the
    nearest binary64 number, ties to the even significand. The values the
    manager computes stay far below [2^1024], so overflow to an infinity
    is not modelled. Integer arithmetic below [2^53] is exact. *)

Module Number.

Local Open Scope Q_scope.

(** [floor (log2 q)] for a positive [q]. *)
Definition exponent (q : Q) : Z :=
  if Qle_bool 1 q then Z.log2 (Qfloor q)
  else (- Z.log2_up (Qceiling (/ q)))%Z.

(** The nearest integer, ties to the even one. *)
Definition nearest_even (q : Q) : Z :=
  match Qcompare (q - inject_Z (Qfloor q)) (1 # 2) with
  | Lt => Qfloor q
  | Gt => (Qfloor q + 1)%Z
  | Eq => if Z.even (Qfloor q) then Qfloor q else (Qfloor q + 1)%Z
  end.

(** The spacing of the binary64 numbers around a positive [q]: 53
    significant bits, subnormal below [2^-1022]. *)
Definition ulp (q : Q) : Q := 2 ^ (Z.max (exponent q) (-1022) - 52).

Definition round_pos (q : Q) : Q :=
  Qred (inject_Z (nearest_even (q / ulp q)) * ulp q).

(** The binary64 number nearest to [q]. *)
Definition round (q : Q) : Q :=
  match Qcompare q 0 with
  | Eq => 0
  | Gt => round_pos q
  | Lt => - round_pos (- q)
  end.

(** [a * b] and [a + b] on numbers. *)
Definition mul (a b : Q) : Q := round (a * b).
Definition add (a b : Q) : Q := round (a + b).

(** The largest binary64 number below one, [1 - 2^-53]. *)
Definition below_one : Q := 9007199254740991 # 9007199254740992.

End Number.

(** ** Data model *)

(** [type ConnectionState] *)
Inductive ConnectionState : Type := idle | connecting | open | closing | closed.

(** [WebSocket.readyState] *)
Inductive ReadyState : Type := CONNECTING | OPEN | CLOSING | CLOSED.

Definition ConnectionState_eqb (a b : ConnectionState) : bool :=
  match a, b with
  | idle, idle | connecting, connecting | open, open
  | closing, closing | closed, closed => true
  | _, _ => false
  end.

Definition ReadyState_eqb (a b : ReadyState) : bool :=
  match a, b with
  | CONNECTING, CONNECTING | OPEN, OPEN | CLOSING, CLOSING | CLOSED, CLOSED => true
  | _, _ => false
  end.

(** The transport object held in [this.ws]. *)
Record WebSocket : Type := mkWebSocket {
  sock_id : nat;
  sock_url : string;
  readyState : ReadyState
}.

(** [ChatWSCallbacks]: every handler is optional; a registered handler is
    known by a handle. *)
Record ChatWSCallbacks : Type := mkCallbacks {
  onOpen : option nat;
  onAuthSuccess : option nat;
  onMessage : option nat;
  onClose : option nat;
  onError : option nat
}.

Definition no_callbacks : ChatWSCallbacks := mkCallbacks None None None None None.

Definition TimerId := positive.

(** The private fields of the class. *)
Record ChatWSManager : Type := mkManager {
  ws : option WebSocket;
  url : option string;
  sessionId : option string;
  isAssistantMode : bool;
  state : ConnectionState;
  callbacks : ChatWSCallbacks;
  heartbeatTimer : option TimerId;
  reconnectTimer : option TimerId;
  reconnectAttempts : nat;
  explicitlyClosed : bool;
  sendQueue : list string;
  authorized : bool;
  (** The resolver closure is known by the index of its promise record. *)
  awaitingAuthResolve : option nat;
  connectedUrl : option string;
  connectedSessionId : option string
}.

(** What a pending timer runs when it fires. *)
Inductive TimerTask : Type :=
| HeartbeatTick
| ReconnectFire
| AuthTimeout (waiter : nat).

Record Timer : Type := mkTimer {
  t_id : TimerId;
  t_task : TimerTask;
  t_delay : Q
}.

(** The closure state of one [new Promise] of [ensureAuthorized]: the local
    [settled], the local [timer], and the value the promise was resolved
    with. *)
Record Waiter : Type := mkWaiter {
  settled : bool;
  w_timer : TimerId;
  outcome : option bool
}.

Inductive Event : Type :=
| StateIs (st : ConnectionState)
| Constructed (id : nat) (u : string)
| ConstructThrew (u : string)
| Sent (id : nat) (payload : string)
| SendThrew (id : nat) (payload : string)
| CloseCalled (id : nat) (threw : bool)
| CallOnOpen (h : nat)
| CallOnAuthSuccess (h : nat)
| CallOnMessage (h : nat) (data : string)
| CallOnClose (h : nat)
| CallOnError (h : nat)
| Resolved (waiter : nat) (v : bool).

Record Window : Type := mkWindow {
  timers : list Timer;
  nextTimer : TimerId;
  waiters : list Waiter;
  localStorage : list (string * string);
  sockets : nat;
  calls : nat;
  log : list Event
}.

Record World : Type := mkWorld {
  this : ChatWSManager;
  win : Window
}.

(** [new ChatWSManager()] in a fresh page with the given storage. *)
Definition new_manager : ChatWSManager :=
  mkManager None None None false idle no_callbacks None None 0 false [] false
            None None None.

Definition new_window (storage : list (string * string)) : Window :=
  mkWindow [] 1%positive [] storage 0 0 [].

Definition initial (storage : list (string * string)) : World :=
  mkWorld new_manager (new_window storage).

(** ** Field assignment *)

Definition set_ws v (m : ChatWSManager) : ChatWSManager :=
  mkManager v (url m) (sessionId m) (isAssistantMode m) (state m) (callbacks m)
    (heartbeatTimer m) (reconnectTimer m) (reconnectAttempts m)
    (explicitlyClosed m) (sendQueue m) (authorized m) (awaitingAuthResolve m)
    (connectedUrl m) (connectedSessionId m).
Definition set_url v (m : ChatWSManager) : ChatWSManager :=
  mkManager (ws m) v (sessionId m) (isAssistantMode m) (state m) (callbacks m)
    (heartbeatTimer m) (reconnectTimer m) (reconnectAttempts m)
    (explicitlyClosed m) (sendQueue m) (authorized m) (awaitingAuthResolve m)
    (connectedUrl m) (connectedSessionId m).
Definition set_sessionId v (m : ChatWSManager) : ChatWSManager :=
  mkManager (ws m) (url m) v (isAssistantMode m) (state m) (callbacks m)
    (heartbeatTimer m) (reconnectTimer m) (reconnectAttempts m)
    (explicitlyClosed m) (sendQueue m) (authorized m) (awaitingAuthResolve m)
    (connectedUrl m) (connectedSessionId m).
Definition set_isAssistantMode v (m : ChatWSManager) : ChatWSManager :=
  mkManager (ws m) (url m) (sessionId m) v (state m) (callbacks m)
    (heartbeatTimer m) (reconnectTimer m) (reconnectAttempts m)
    (explicitlyClosed m) (sendQueue m) (authorized m) (awaitingAuthResolve m)
    (connectedUrl m) (connectedSessionId m).
Definition set_state_field v (m : ChatWSManager) : ChatWSManager :=
  mkManager (ws m) (url m) (sessionId m) (isAssistantMode m) v (callbacks m)
    (heartbeatTimer m) (reconnectTimer m) (reconnectAttempts m)
    (explicitlyClosed m) (sendQueue m) (authorized m) (awaitingAuthResolve m)
    (connectedUrl m) (connectedSessionId m).
Definition set_callbacks v (m : ChatWSManager) : ChatWSManager :=
  mkManager (ws m) (url m) (sessionId m) (isAssistantMode m) (state m) v
    (heartbeatTimer m) (reconnectTimer m) (reconnectAttempts m)
    (explicitlyClosed m) (sendQueue m) (authorized m) (awaitingAuthResolve m)
    (connectedUrl m) (connectedSessionId m).
Definition set_heartbeatTimer v (m : ChatWSManager) : ChatWSManager :=
  mkManager (ws m) (url m) (sessionId m) (isAssistantMode m) (state m)
    (callbacks m) v (reconnectTimer m) (reconnectAttempts m)
    (explicitlyClosed m) (sendQueue m) (authorized m) (awaitingAuthResolve m)
    (connectedUrl m) (connectedSessionId m).
Definition set_reconnectTimer v (m : ChatWSManager) : ChatWSManager :=
  mkManager (ws m) (url m) (sessionId m) (isAssistantMode m) (state m)
    (callbacks m) (heartbeatTimer m) v (reconnectAttempts m)
    (explicitlyClosed m) (sendQueue m) (authorized m) (awaitingAuthResolve m)
    (connectedUrl m) (connectedSessionId m).
Definition set_reconnectAttempts v (m : ChatWSManager) : ChatWSManager :=
  mkManager (ws m) (url m) (sessionId m) (isAssistantMode m) (state m)
    (callbacks m) (heartbeatTimer m) (reconnectTimer m) v
    (explicitlyClosed m) (sendQueue m) (authorized m) (awaitingAuthResolve m)
    (connectedUrl m) (connectedSessionId m).
Definition set_explicitlyClosed v (m : ChatWSManager) : ChatWSManager :=
  mkManager (ws m) (url m) (sessionId m) (isAssistantMode m) (state m)
    (callbacks m) (heartbeatTimer m) (reconnectTimer m) (reconnectAttempts m)
    v (sendQueue m) (authorized m) (awaitingAuthResolve m)
    (connectedUrl m) (connectedSessionId m).
Definition set_sendQueue v (m : ChatWSManager) : ChatWSManager :=
  mkManager (ws m) (url m) (sessionId m) (isAssistantMode m) (state m)
    (callbacks m) (heartbeatTimer m) (reconnectTimer m) (reconnectAttempts m)
    (explicitlyClosed m) v (authorized m) (awaitingAuthResolve m)
    (connectedUrl m) (connectedSessionId m).
Definition set_authorized v (m : ChatWSManager) : ChatWSManager :=
  mkManager (ws m) (url m) (sessionId m) (isAssistantMode m) (state m)
    (callbacks m) (heartbeatTimer m) (reconnectTimer m) (reconnectAttempts m)
    (explicitlyClosed m) (sendQueue m) v (awaitingAuthResolve m)
    (connectedUrl m) (connectedSessionId m).
Definition set_awaitingAuthResolve v (m : ChatWSManager) : ChatWSManager :=
  mkManager (ws m) (url m) (sessionId m) (isAssistantMode m) (state m)
    (callbacks m) (heartbeatTimer m) (reconnectTimer m) (reconnectAttempts m)
    (explicitlyClosed m) (sendQueue m) (authorized m) v
    (connectedUrl m) (connectedSessionId m).
Definition set_connectedUrl v (m : ChatWSManager) : ChatWSManager :=
  mkManager (ws m) (url m) (sessionId m) (isAssistantMode m) (state m)
    (callbacks m) (heartbeatTimer m) (reconnectTimer m) (reconnectAttempts m)
    (explicitlyClosed m) (sendQueue m) (authorized m) (awaitingAuthResolve m)
    v (connectedSessionId m).
Definition set_connectedSessionId v (m : ChatWSManager) : ChatWSManager :=
  mkManager (ws m) (url m) (sessionId m) (isAssistantMode m) (state m)
    (callbacks m) (heartbeatTimer m) (reconnectTimer m) (reconnectAttempts m)
    (explicitlyClosed m) (sendQueue m) (authorized m) (awaitingAuthResolve m)
    (connectedUrl m) v.

Definition set_timers v (b : Window) : Window :=
  mkWindow v (nextTimer b) (waiters b) (localStorage b) (sockets b) (calls b) (log b).
Definition set_nextTimer v (b : Window) : Window :=
  mkWindow (timers b) v (waiters b) (localStorage b) (sockets b) (calls b) (log b).
Definition set_waiters v (b : Window) : Window :=
  mkWindow (timers b) (nextTimer b) v (localStorage b) (sockets b) (calls b) (log b).
Definition set_localStorage v (b : Window) : Window :=
  mkWindow (timers b) (nextTimer b) (waiters b) v (sockets b) (calls b) (log b).
Definition set_sockets v (b : Window) : Window :=
  mkWindow (timers b) (nextTimer b) (waiters b) (localStorage b) v (calls b) (log b).
Definition set_calls v (b : Window) : Window :=
  mkWindow (timers b) (nextTimer b) (waiters b) (localStorage b) (sockets b) v (log b).
Definition set_log v (b : Window) : Window :=
  mkWindow (timers b) (nextTimer b) (waiters b) (localStorage b) (sockets b) (calls b) v.

(** [this.f = v] and the corresponding updates of the browser state. *)
Definition upd (f : ChatWSManager -> ChatWSManager) (w : World) : World :=
  mkWorld (f (this w)) (win w).
Definition updw (f : Window -> Window) (w : World) : World :=
  mkWorld (this w) (f (win w)).

Definition emit (e : Event) (w : World) : World :=
  updw (fun b => set_log (log b ++ [e]) b) w.

(** One more platform call has been made. *)
Definition tick (w : World) : World :=
  updw (fun b => set_calls (S (calls b)) b) w.

(** [this.state = st] *)
Definition set_state (st : ConnectionState) (w : World) : World :=
  emit (StateIs st) (upd (set_state_field st) w).

(** [this.callbacks.f && this.callbacks.f(..)] when the callback returns
    without acting on the manager: the call is recorded. *)
Definition invoke (cb : option nat) (ev : nat -> Event) (w : World) : World :=
  match cb with
  | Some h => emit (ev h) w
  | None => w
  end.

(** ** The methods of the class *)

Section Manager.

Variable P : Platform.

(** *** Timers of [window] *)

(** The timer table after a timer was registered under the next handle. *)
Definition add_timer (task : TimerTask) (delay : Q) (w : World) : World :=
  updw (fun b => set_nextTimer (Pos.succ (nextTimer b))
                   (set_timers (timers b ++ [mkTimer (nextTimer b) task delay]) b))
       w.

(** [window.setTimeout] / [window.setInterval]: a fresh positive handle. *)
Definition setTimer (task : TimerTask) (delay : Q) (w : World)
  : World * TimerId :=
  (add_timer task delay w, nextTimer (win w)).

(** [window.clearTimeout] / [window.clearInterval] *)
Definition clearTimer (id : TimerId) (w : World) : World :=
  updw (fun b => set_timers
                   (filter (fun t => negb (Pos.eqb (t_id t) id)) (timers b)) b)
       w.

(** *** The transport *)

(** [this.ws.send(payload)] inside a [try]: the flag tells whether the call
    returned normally. With no transport the member access itself throws. *)
Definition transport_send (payload : string) (w : World) : World * bool :=
  match ws (this w) with
  | None => (w, false)
  | Some s =>
      if send_throws P (calls (win w))
      then (emit (SendThrew (sock_id s) payload) (tick w), false)
      else (emit (Sent (sock_id s) payload) (tick w), true)
  end.

(** [this.ws && this.ws.readyState === WebSocket.OPEN] *)
Definition ws_is_open (w : World) : bool :=
  match ws (this w) with
  | Some s => ReadyState_eqb (readyState s) OPEN
  | None => false
  end.

(** *** Outbound queue *)

Definition MAX_QUEUE : nat := 100.

(** [private enqueue(payload)] *)
Definition enqueue (payload : string) (w : World) : World :=
  let w1 :=
    if MAX_QUEUE <=? length (sendQueue (this w))
    then upd (fun m => set_sendQueue (tl (sendQueue m)) m) w
    else w in
  upd (fun m => set_sendQueue (sendQueue m ++ [payload]) m) w1.

(** The [while] loop of [flushQueue]; every iteration removes one entry, so
    the length of the queue at entry bounds the number of iterations. The
    [undefined] test cannot succeed on a non-empty array of strings. *)
Fixpoint flush_loop (fuel : nat) (w : World) : World :=
  match fuel with
  | O => w
  | S fuel' =>
      match sendQueue (this w) with
      | [] => w
      | item :: rest =>
          let w1 := upd (set_sendQueue rest) w in
          let (w2, ok) := transport_send item w1 in
          if ok then flush_loop fuel' w2 else w2
      end
  end.

(** [private flushQueue()] *)
Definition flushQueue (w : World) : World :=
  if negb (ws_is_open w) || negb (authorized (this w)) then w
  else flush_loop (length (sendQueue (this w))) w.

(** *** Heartbeat *)

(** [private stopHeartbeat()] *)
Definition stopHeartbeat (w : World) : World :=
  match heartbeatTimer (this w) with
  | Some id => upd (set_heartbeatTimer None) (clearTimer id w)
  | None => w
  end.

(** [private startHeartbeat()] *)
Definition startHeartbeat (w : World) : World :=
  let (w1, id) := setTimer HeartbeatTick (inject_Z 25000) (stopHeartbeat w) in
  upd (set_heartbeatTimer (Some id)) w1.

(** The interval callback installed by [startHeartbeat]. *)
Definition heartbeat_tick (w : World) : World :=
  if ws_is_open w then
    let ts := Date_now P (calls (win w)) in
    let frame := JSON_stringify P
                   (JObj [("type", JStr "ping"); ("ts", JNum (inject_Z ts))]) in
    fst (transport_send frame (tick w))
  else w.

(** *** Reconnection scheduler *)

(** [Math.min(base * Math.pow(2, attempt - 1), max)]; every value involved
    is an integer below [2^53], so the binary64 result is exact. *)
Definition backoff (attempt : nat) : Z :=
  Z.min (1000 * 2 ^ (Z.of_nat attempt - 1)) 15000.

(** [private scheduleReconnect()] *)
Definition scheduleReconnect (w : World) : World :=
  let m := this w in
  if explicitlyClosed m then w
  else if negb (Js.truthy_str (url m)) || negb (Js.truthy_str (sessionId m))
  then w
  else match reconnectTimer m with
       | Some _ => w
       | None =>
           let attempt := Nat.min (reconnectAttempts m + 1) 10 in
           let jitter := Number.mul (Math_random P (calls (win w)))
                                    (inject_Z 300) in
           let delay := Number.add (inject_Z (backoff attempt)) jitter in
           let w1 := upd (set_reconnectAttempts attempt) (tick w) in
           let (w2, id) := setTimer ReconnectFire delay w1 in
           upd (set_reconnectTimer (Some id)) w2
       end.

(** [private clearReconnectTimer()] *)
Definition clearReconnectTimer (w : World) : World :=
  match reconnectTimer (this w) with
  | Some id => upd (set_reconnectTimer None) (clearTimer id w)
  | None => w
  end.

(** *** Authorization frame *)

(** [localStorage.getItem(key)] *)
Fixpoint getItem (key : string) (store : list (string * string))
  : option string :=
  match store with
  | [] => None
  | (k, v) :: rest => if (k =? key)%string then Some v else getItem key rest
  end.

(** The object literal passed to [JSON.stringify] by [sendAuthorization]. *)
Definition authorization_frame (token : JsValue) : JsValue :=
  JObj [("type", JStr "authorization");
        ("token", JStr ("Bearer " ++ template_string P token))].

(** [private sendAuthorization()]. Everything after the first [return] is
    inside a [try] whose [catch] is empty; [this.ws?.send(..)] evaluates
    its argument only when a transport is held. *)
Definition sendAuthorization (w : World) : World :=
  match getItem "auth-storage" (localStorage (win w)) with
  | None => w
  | Some tokenRaw =>
      if (tokenRaw =? "")%string then w
      else match JSON_parse P tokenRaw with
           | None => w
           | Some authData =>
               match Js.opt_get (Js.opt_get (Some authData) "state") "token" with
               | None => w
               | Some token =>
                   if negb (Js.truthy token) then w
                   else match ws (this w) with
                        | None => w
                        | Some _ =>
                            if template_throws token then w
                            else
                              fst (transport_send
                                     (JSON_stringify P (authorization_frame token))
                                     w)
                        end
               end
           end
  end.

(** *** close *)

(** [public close()] *)
Definition close (w : World) : World :=
  let w1 := upd (set_explicitlyClosed true) w in
  let w2 := stopHeartbeat w1 in
  let w3 :=
    match ws (this w2) with
    | Some s =>
        let w31 := set_state closing w2 in
        let threw := close_throws P (calls (win w31)) in
        upd (set_ws None) (emit (CloseCalled (sock_id s) threw) (tick w31))
    | None => w2
    end in
  let w4 := set_state closed w3 in
  let w5 := clearReconnectTimer w4 in
  upd (set_authorized false) (upd (set_sendQueue []) w5).

(** *** connect *)

(** [this.ws && this.state === 'open' && this.ws.readyState === WebSocket.OPEN] *)
Definition usable (w : World) : bool :=
  match ws (this w) with
  | Some s => ConnectionState_eqb (state (this w)) open
              && ReadyState_eqb (readyState s) OPEN
  | None => false
  end.

Definition sameTarget (w : World) : bool :=
  Js.str_eq (connectedUrl (this w)) (url (this w))
  && Js.str_eq (connectedSessionId (this w)) (sessionId (this w)).

(** [public async connect()]; the body contains no [await]. *)
Definition connect (w : World) : World :=
  if negb (Js.truthy_str (url (this w)))
     || negb (Js.truthy_str (sessionId (this w)))
  then w
  else if usable w && sameTarget w then w
  else
    let w1 := if usable w then close w else w in
    if ConnectionState_eqb (state (this w1)) connecting then w1
    else
      let w2 := set_state connecting
                  (upd (set_authorized false)
                     (upd (set_explicitlyClosed false) w1)) in
      let currentUrl := match url (this w2) with Some u => u | None => "" end in
      let currentSession := sessionId (this w2) in
      if WebSocket_throws P (calls (win w2)) currentUrl
      then scheduleReconnect
             (set_state closed (emit (ConstructThrew currentUrl) (tick w2)))
      else
        let id := sockets (win w2) in
        let w3 := emit (Constructed id currentUrl)
                    (updw (set_sockets (S id)) (tick w2)) in
        let w4 := upd (set_ws (Some (mkWebSocket id currentUrl CONNECTING))) w3 in
        upd (set_connectedSessionId currentSession)
            (upd (set_connectedUrl (Some currentUrl)) w4).

(** *** Pending authorization waiter *)

Fixpoint update_nth {A} (n : nat) (f : A -> A) (l : list A) : list A :=
  match l, n with
  | [], _ => []
  | x :: rest, O => f x :: rest
  | x :: rest, S n' => x :: update_nth n' f rest
  end.

(** [settled = true; ...; resolve(v)] inside the closures of the promise. *)
Definition settle (wid : nat) (v : bool) (w : World) : World :=
  emit (Resolved wid v)
    (updw (fun b => set_waiters
                      (update_nth wid
                         (fun wt => mkWaiter true (w_timer wt) (Some v))
                         (waiters b)) b) w).

(** The closure assigned to [this.awaitingAuthResolve], applied to [v]. *)
Definition call_resolver (wid : nat) (v : bool) (w : World) : World :=
  match nth_error (waiters (win w)) wid with
  | Some wt =>
      if settled wt then w
      else settle wid v (clearTimer (w_timer wt) w)
  | None => w
  end.

(** The [setTimeout] callback of [ensureAuthorized]. *)
Definition auth_timeout (wid : nat) (w : World) : World :=
  match nth_error (waiters (win w)) wid with
  | Some wt =>
      if settled wt then w
      else settle wid false (upd (set_awaitingAuthResolve None) w)
  | None => w
  end.

(** [if (this.awaitingAuthResolve) { this.awaitingAuthResolve(true);
    this.awaitingAuthResolve = null; }] *)
Definition resolve_waiter (w : World) : World :=
  match awaitingAuthResolve (this w) with
  | Some wid => upd (set_awaitingAuthResolve None) (call_resolver wid true w)
  | None => w
  end.

(** What the caller of [ensureAuthorized] gets: a promise that is already
    resolved, or the promise of a registered waiter. *)
Inductive AuthResult : Type :=
| Returned (v : bool)
| Suspended (waiter : nat).

(** The rest of [ensureAuthorized] from the second test of [authorized]
    on: the promise is resolved with true, or a waiter is registered (the
    executor of [new Promise] runs at once). After [await this.connect()]
    this is a microtask of its own, run once the code that called
    [ensureAuthorized] has returned to the event loop. *)
Definition ensureAuthorized_resume (timeoutMs : Q) (w : World)
  : World * AuthResult :=
  if authorized (this w) then (w, Returned true)
  else
    let wid := length (waiters (win w)) in
    let (w2, timer) := setTimer (AuthTimeout wid) timeoutMs w in
    let w3 := updw (fun b => set_waiters
                               (waiters b ++ [mkWaiter false timer None]) b)
                   w2 in
    (upd (set_awaitingAuthResolve (Some wid)) w3, Suspended wid).

(** What has happened when the call [ensureAuthorized(timeoutMs)] hands
    its promise to the caller: the function has finished ([Finished]), or
    it is suspended at [await this.connect()] and the rest has yet to
    run ([Awaiting]). *)
Inductive AuthCall : Type :=
| Finished (r : AuthResult)
| Awaiting.

(** [public async ensureAuthorized(timeoutMs)], up to the point where
    control returns to the caller. *)
Definition ensureAuthorized_begin (timeoutMs : Q) (w : World)
  : World * AuthCall :=
  if ws_is_open w && authorized (this w) then (w, Finished (Returned true))
  else if negb (ws_is_open w) then (connect w, Awaiting)
  else let (w1, r) := ensureAuthorized_resume timeoutMs w in (w1, Finished r).

(** [ensureAuthorized] when the continuation after [await this.connect()]
    runs with no other code in between: the caller returns to the event
    loop right after the call. *)
Definition ensureAuthorized (timeoutMs : Q) (w : World) : World * AuthResult :=
  if ws_is_open w && authorized (this w) then (w, Returned true)
  else
    let w1 := if negb (ws_is_open w) then connect w else w in
    if authorized (this w1) then (w1, Returned true)
    else
      let wid := length (waiters (win w1)) in
      let (w2, timer) := setTimer (AuthTimeout wid) timeoutMs w1 in
      let w3 := updw (fun b => set_waiters
                                 (waiters b ++ [mkWaiter false timer None]) b)
                     w2 in
      (upd (set_awaitingAuthResolve (Some wid)) w3, Suspended wid).

(** *** send *)

(** The argument of [send(data: any)]. *)
Inductive SendArg : Type :=
| Text (s : string)
| Value (v : JsValue).

Definition serialize (data : SendArg) : string :=
  match data with
  | Text s => s
  | Value v => JSON_stringify P v
  end.

(** [public send(data)] *)
Definition send (data : SendArg) (w : World) : World :=
  let payload := serialize data in
  if ws_is_open w && authorized (this w) then
    let (w1, ok) := transport_send payload w in
    if ok then w1 else enqueue payload w1
  else connect (enqueue payload w).

(** *** Session context *)

(** [public setCallbacks(callbacks)] *)
Definition setCallbacks (c : ChatWSCallbacks) (w : World) : World :=
  upd (set_callbacks c) w.

(** [public updateSessionContext(options)] *)
Definition updateSessionContext (nextUrl nextSessionId : string)
           (nextAssistantMode : bool) (w : World) : World :=
  let urlChanged := negb (Js.str_eq (url (this w)) (Some nextUrl)) in
  let sessionChanged :=
    negb (Js.str_eq (sessionId (this w)) (Some nextSessionId)) in
  let modeChanged :=
    negb (Bool.eqb (isAssistantMode (this w)) nextAssistantMode) in
  let w1 := upd (set_isAssistantMode nextAssistantMode)
              (upd (set_sessionId (Some nextSessionId))
                 (upd (set_url (Some nextUrl)) w)) in
  match ws (this w1) with
  | Some _ =>
      if ConnectionState_eqb (state (this w1)) open
         && (urlChanged || sessionChanged || modeChanged)
      then close w1
      else w1
  | None => w1
  end.

(** *** Handlers registered on the transport by [connect]

    First with callbacks that return normally and leave the manager
    alone; these are the steps of [exec]. The general forms follow. *)

(** [ws.onopen] *)
Definition ws_onopen (w : World) : World :=
  let w1 := set_state open w in
  let w2 := upd (set_reconnectAttempts 0) w1 in
  let w3 := startHeartbeat w2 in
  let w4 := invoke (onOpen (callbacks (this w3))) CallOnOpen w3 in
  sendAuthorization w4.

(** [data.type] is one of the business types that authorize implicitly. *)
Definition business_type (d : JsValue) : bool :=
  Js.type_is d "history" || Js.type_is d "message" || Js.type_is d "reference"
  || Js.type_is d "audio" || Js.type_is d "done".

(** [this.callbacks.onMessage && this.callbacks.onMessage(event)] *)
Definition forward (data : string) (w : World) : World :=
  invoke (onMessage (callbacks (this w))) (fun h => CallOnMessage h data) w.

(** [ws.onmessage], [data] being [event.data] *)
Definition ws_onmessage (data : string) (w : World) : World :=
  match JSON_parse P data with
  | None => forward data w
  | Some d =>
      if Js.truthy d && Js.type_is d "auth_success" then
        let becameAuthorized := negb (authorized (this w)) in
        let w1 := upd (set_authorized true) w in
        let w2 :=
          if becameAuthorized then
            let w11 := flushQueue w1 in
            invoke (onAuthSuccess (callbacks (this w11))) CallOnAuthSuccess w11
          else w1 in
        resolve_waiter w2
      else if Js.truthy d && Js.type_is d "pong" then w
      else
        let w1 :=
          if Js.truthy d && business_type d then
            if negb (authorized (this w)) then
              let w11 := flushQueue (upd (set_authorized true) w) in
              let w12 := invoke (onAuthSuccess (callbacks (this w11)))
                                CallOnAuthSuccess w11 in
              resolve_waiter w12
            else w
          else w in
        forward data w1
  end.

(** [ws.onclose] *)
Definition ws_onclose (w : World) : World :=
  let w1 := set_state closed w in
  let w2 := stopHeartbeat w1 in
  let w3 := invoke (onClose (callbacks (this w2))) CallOnClose w2 in
  if negb (explicitlyClosed (this w3)) then scheduleReconnect w3 else w3.

(** [ws.onerror] *)
Definition ws_onerror (w : World) : World :=
  invoke (onError (callbacks (this w))) CallOnError w.

(** *** The handlers when a callback throws or acts on the manager *)

(** [ws.onopen]. [handler] is the registered [onOpen]: it maps the world
    in which it is entered to the world it leaves, and tells whether it
    returned ([true]) or threw. The call is not inside a [try]: when it
    throws, the event handler ends there. *)
Definition ws_onopen_with (handler : World -> World * bool) (w : World)
  : World :=
  let w1 := set_state open w in
  let w2 := upd (set_reconnectAttempts 0) w1 in
  let w3 := startHeartbeat w2 in
  match onOpen (callbacks (this w3)) with
  | Some h =>
      let (w4, returned) := handler (emit (CallOnOpen h) w3) in
      if returned then sendAuthorization w4 else w4
  | None => sendAuthorization w3
  end.

(** [this.callbacks.onAuthSuccess && this.callbacks.onAuthSuccess()];
    [returns] tells whether a registered handler returns normally. *)
Definition call_onAuthSuccess (returns : bool) (w : World) : World * bool :=
  match onAuthSuccess (callbacks (this w)) with
  | Some h => (emit (CallOnAuthSuccess h) w, returns)
  | None => (w, true)
  end.

(** [ws.onmessage]. The [try] block spans the parsing, the calls of
    [onAuthSuccess] and the resolution of the waiter; its [catch] is
    empty and is followed by the call of [onMessage]. So when
    [onAuthSuccess] throws, the waiter is not resolved and the [return]
    of the [auth_success] branch is not reached. *)
Definition ws_onmessage_with (returns : bool) (data : string) (w : World)
  : World :=
  match JSON_parse P data with
  | None => forward data w
  | Some d =>
      if Js.truthy d && Js.type_is d "auth_success" then
        let becameAuthorized := negb (authorized (this w)) in
        let w1 := upd (set_authorized true) w in
        if becameAuthorized then
          let (w2, returned) := call_onAuthSuccess returns (flushQueue w1) in
          if returned then resolve_waiter w2 else forward data w2
        else resolve_waiter w1
      else if Js.truthy d && Js.type_is d "pong" then w
      else
        let w1 :=
          if Js.truthy d && business_type d then
            if negb (authorized (this w)) then
              let (w2, returned) :=
                call_onAuthSuccess returns
                  (flushQueue (upd (set_authorized true) w)) in
              if returned then resolve_waiter w2 else w2
            else w
          else w in
        forward data w1
  end.

(** [ws.onclose]; [returns] tells whether a registered [onClose] returns
    normally. The call is not inside a [try]: when it throws, no
    reconnection is scheduled. *)
Definition ws_onclose_with (returns : bool) (w : World) : World :=
  let w1 := set_state closed w in
  let w2 := stopHeartbeat w1 in
  match onClose (callbacks (this w2)) with
  | Some h =>
      let w3 := emit (CallOnClose h) w2 in
      if returns
      then if negb (explicitlyClosed (this w3)) then scheduleReconnect w3 else w3
      else w3
  | None =>
      if negb (explicitlyClosed (this w2)) then scheduleReconnect w2 else w2
  end.

(** *** Timers firing *)

(** The browser runs the callback of a pending timer; a timeout leaves the
    table before its callback runs, an interval stays. *)
Definition fire_timer (id : TimerId) (w : World) : World :=
  match find (fun t => Pos.eqb (t_id t) id) (timers (win w)) with
  | None => w
  | Some t =>
      match t_task t with
      | HeartbeatTick => heartbeat_tick w
      | ReconnectFire =>
          connect (upd (set_reconnectTimer None) (clearTimer id w))
      | AuthTimeout wid => auth_timeout wid (clearTimer id w)
      end
  end.

(** *** Everything that can happen to a manager *)

(** The public operations, and the events of the environment: the browser
    changes the ready state of the transport held in [this.ws], dispatches
    an event to one of the handlers [connect] registered (handlers never
    look at the transport they were registered on), fires a timer, or the
    application writes the credential store. *)
Inductive Op : Type :=
| SetCallbacks (c : ChatWSCallbacks)
| UpdateSessionContext (u s : string) (assistant : bool)
| Connect
| Close
| EnsureAuthorized (timeoutMs : Q)
| Send (data : SendArg)
| ReadyStateBecomes (rs : ReadyState)
| OpenEvent
| MessageEvent (data : string)
| CloseEvent
| ErrorEvent
| TimerFires (id : TimerId)
| StorageSet (store : list (string * string)).

Definition set_readyState (rs : ReadyState) (w : World) : World :=
  match ws (this w) with
  | Some s => upd (set_ws (Some (mkWebSocket (sock_id s) (sock_url s) rs))) w
  | None => w
  end.

Definition exec (o : Op) (w : World) : World :=
  match o with
  | SetCallbacks c => setCallbacks c w
  | UpdateSessionContext u s a => updateSessionContext u s a w
  | Connect => connect w
  | Close => close w
  | EnsureAuthorized t => fst (ensureAuthorized t w)
  | Send d => send d w
  | ReadyStateBecomes rs => set_readyState rs w
  | OpenEvent => ws_onopen w
  | MessageEvent d => ws_onmessage d w
  | CloseEvent => ws_onclose w
  | ErrorEvent => ws_onerror w
  | TimerFires id => fire_timer id w
  | StorageSet store => updw (set_localStorage store) w
  end.

Definition run (ops : list Op) (w : World) : World :=
  fold_left (fun w' o => exec o w') ops w.

(** A world is reachable when some history of operations and events leads
    to it from a freshly constructed manager. *)
Definition reachable (w : World) : Prop :=
  exists storage ops, w = run ops (initial storage).

End Manager.

(** ** A concrete platform and concrete histories

    Used to evaluate the model on explicit inputs. *)

Module Sample.

Local Open Scope string_scope.

Definition dq : string := String (Ascii.ascii_of_nat 34) EmptyString.

Definition quote (s : string) : string := dq ++ s ++ dq.

(** The JSON text of an object with the single string field [type]. *)
Definition frame_of_type (t : string) : string :=
  "{" ++ quote "type" ++ ":" ++ quote t ++ "}".

(** The JSON text zustand persists under [auth-storage] for a token. *)
Definition stored_credentials (token : string) : string :=
  "{" ++ quote "state" ++ ":{" ++ quote "token" ++ ":" ++ quote token ++ "}}".

(** [JSON.parse] on the texts used below; it agrees with the real function
    on each of them, and on [hello], which is not JSON. *)
Definition parse (s : string) : option JsValue :=
  if (s =? frame_of_type "auth_success")%string
  then Some (JObj [("type", JStr "auth_success")])
  else if (s =? frame_of_type "history")%string
  then Some (JObj [("type", JStr "history")])
  else if (s =? frame_of_type "pong")%string
  then Some (JObj [("type", JStr "pong")])
  else if (s =? stored_credentials "abc")%string
  then Some (JObj [("state", JObj [("token", JStr "abc")])])
  else None.

(** [JSON.stringify] on objects whose leaves are strings free of characters
    that need escaping; numbers do not occur in the histories below. *)
Fixpoint stringify (v : JsValue) : string :=
  match v with
  | JNull => "null"
  | JBool true => "true"
  | JBool false => "false"
  | JNum _ => "0"
  | JStr s => quote s
  | JArr items => "[" ++ String.concat "," (map stringify items) ++ "]"
  | JObj fields =>
      "{" ++ String.concat ","
               (map (fun kv => quote (fst kv) ++ ":" ++ stringify (snd kv)) fields)
          ++ "}"
  end.

(** A platform on which nothing throws, except the platform calls whose
    number is listed in [faults]; [Math.random()] returns one half. *)
Definition platform (faults : list nat) : Platform :=
  mkPlatform parse stringify (fun _ => "0")
    (fun _ _ => false)
    (fun n => existsb (Nat.eqb n) faults)
    (fun _ => false)
    (fun _ => (1 # 2)%Q)
    (fun _ => 0%Z).

Definition endpoint : string := "wss://chat.example/api/chat/ws/chat/s1".

Definition m (n : nat) : string :=
  String (Ascii.ascii_of_nat (48 + n / 100))
    (String (Ascii.ascii_of_nat (48 + (n / 10) mod 10))
       (String (Ascii.ascii_of_nat (48 + n mod 10)) EmptyString)).

(** The messages numbered [1 .. n]. *)
Definition messages (n : nat) : list string := map m (seq 1 n).

(** A session is declared, [n] messages are sent before any transport is
    open, the transport opens. *)
Definition queue_then_open (n : nat) : list Op :=
  (UpdateSessionContext endpoint "s1" false
     :: map (fun p => Send (Text p)) (messages n)
     ++ [ReadyStateBecomes OPEN; OpenEvent])%list.

End Sample.

(** ** Vocabulary of the statements *)

(** [enqueue] called once per message, in order. *)
Definition enqueue_all (msgs : list string) (w : World) : World :=
  fold_left (fun w' p => enqueue p w') msgs w.

(** The payloads the transport accepted, oldest first. *)
Definition sent_payloads (l : list Event) : list string :=
  flat_map (fun e => match e with Sent _ p => [p] | _ => [] end) l.

(** The payloads on which [send] threw. *)
Definition failed_payloads (l : list Event) : list string :=
  flat_map (fun e => match e with SendThrew _ p => [p] | _ => [] end) l.

(** Keeping the last [MAX_QUEUE] entries. *)
Definition keep_last (l : list string) : list string :=
  skipn (length l - MAX_QUEUE) l.

(** The world in which [flushQueue] runs when the acknowledgement arrives:
    ten messages queued, transport open, [authorized] just set. The platform
    call number 5 is the fifth [send] of the flush. *)
Definition ten_queued : World :=
  upd (set_authorized true)
    (run (Sample.platform [5]) (Sample.queue_then_open 10) (initial [])).

(** [Math.random()] returns a binary64 number in the half-open interval
    [0, 1). *)
Definition random_in_range (P : Platform) : Prop :=
  forall n, (Number.round (Math_random P n) == Math_random P n)%Q
            /\ (0 <= Math_random P n)%Q /\ (Math_random P n < 1)%Q.

(** A platform on which nothing throws and [Math.random()] returns the
    largest number below one. *)
Definition nearly_one : Platform :=
  mkPlatform Sample.parse Sample.stringify (fun _ => "0")
    (fun _ _ => false) (fun _ => false) (fun _ => false)
    (fun _ => Number.below_one) (fun _ => 0%Z).

(** Pending timers that will run the reconnection callback. *)
Definition is_reconnect (t : Timer) : bool :=
  match t_task t with
  | ReconnectFire => true
  | _ => false
  end.

Definition pending_reconnects (w : World) : list Timer :=
  filter is_reconnect (timers (win w)).

(** A manager with a session but no transport, after [n] reconnection
    attempts. *)
Definition disconnected (n : nat) : World :=
  upd (set_reconnectAttempts n)
    (upd (set_state_field closed)
       (updateSessionContext (Sample.platform []) Sample.endpoint "s1" false
          (initial []))).

(** The world after [flush_loop] has handed [done] to the transport [id],
    met [failed] (nothing, or the one payload on which [send] threw) and left
    [rest] in the queue. *)
Definition flushed (id : nat) (done failed rest : list string) (w : World)
  : World :=
  mkWorld (set_sendQueue rest (this w))
          (set_log (log (win w) ++ map (Sent id) done
                      ++ map (SendThrew id) failed)
             (set_calls (calls (win w) + length done + length failed) (win w))).

(** Transports constructed, calls of [onAuthSuccess], payloads forwarded
    to [onMessage]. *)
Definition transports_created (l : list Event) : nat :=
  length (filter (fun e => match e with Constructed _ _ => true | _ => false end) l).

Definition auth_success_calls (l : list Event) : nat :=
  length (filter (fun e => match e with CallOnAuthSuccess _ => true | _ => false end) l).

Definition forwarded (l : list Event) : list string :=
  flat_map (fun e => match e with CallOnMessage _ d => [d] | _ => [] end) l.

(** ** Invariants of reachable worlds *)

(** Every pending timer carries a handle handed out before. *)
Definition timers_fresh (w : World) : Prop :=
  Forall (fun t => (t_id t < nextTimer (win w))%positive) (timers (win w)).

Definition timer_ids_unique (w : World) : Prop :=
  NoDup (map t_id (timers (win w))).

(** A pending reconnection timer is the one recorded in [reconnectTimer]. *)
Definition reconnect_tracked (w : World) : Prop :=
  forall t, In t (timers (win w)) -> is_reconnect t = true ->
            reconnectTimer (this w) = Some (t_id t).

Definition queue_bounded (w : World) : Prop :=
  length (sendQueue (this w)) <= MAX_QUEUE.

Definition attempts_bounded (w : World) : Prop :=
  reconnectAttempts (this w) <= 10.

(** The resolver held in the waiter slot belongs to a promise that is not
    settled yet. *)
Definition waiter_pending (w : World) : Prop :=
  forall wid, awaitingAuthResolve (this w) = Some wid ->
    exists wt, nth_error (waiters (win w)) wid = Some wt /\ settled wt = false.

Definition core_inv (w : World) : Prop :=
  timers_fresh w /\ timer_ids_unique w /\ reconnect_tracked w
  /\ queue_bounded w /\ attempts_bounded w.

Definition Inv (w : World) : Prop := core_inv w /\ waiter_pending w.

(** The timer table without the timer of an optional handle. *)
Definition drop_timer (o : option TimerId) (l : list Timer) : list Timer :=
  match o with
  | Some id => filter (fun t => negb (Pos.eqb (t_id t) id)) l
  | None => l
  end.

(** ** Where the payloads handed to a transport come from *)

(** The payloads the caller passes to [send] during a history. *)
Definition payloads_of (P : Platform) (ops : list Op) : list string :=
  flat_map (fun o => match o with
                     | Send d => [serialize P d]
                     | _ => []
                     end) ops.

(** The frames the manager emits on its own account. *)
Definition control_frame (P : Platform) (p : string) : Prop :=
  (exists token, p = JSON_stringify P (authorization_frame P token))
  \/ (exists ts, p = JSON_stringify P
                       (JObj [("type", JStr "ping"); ("ts", JNum (inject_Z ts))])).

(** Between [w] and [w'] the log only grew, and every payload handed to a
    transport meanwhile satisfies [A]; the queue keeps holding payloads
    that satisfy [A]. *)
Definition only_sends (A : string -> Prop) (w w' : World) : Prop :=
  Forall A (sendQueue (this w)) ->
  Forall A (sendQueue (this w'))
  /\ exists evs, log (win w') = log (win w) ++ evs
                 /\ Forall A (sent_payloads evs).

(** A session with a message queued and the transport open, about to be
    switched to another endpoint. *)
Definition open_with_backlog : World :=
  run (Sample.platform [])
    [UpdateSessionContext Sample.endpoint "s1" false;
     Send (Text "old");
     ReadyStateBecomes OPEN; OpenEvent]
    (initial []).

(** A platform on which [new WebSocket(bad)] throws and nothing else
    does. *)
Definition rejecting (bad : string) : Platform :=
  mkPlatform Sample.parse Sample.stringify (fun _ => "0")
    (fun _ u => (u =? bad)%string) (fun _ => false) (fun _ => false)
    (fun _ => (1 # 2)%Q) (fun _ => 0%Z).

(** The state is Open and no transport is held: the first transport was
    dropped by [close()], a message was then queued under an endpoint for
    which [new WebSocket] throws, and the open event of the dropped
    transport is dispatched. *)
Definition open_without_transport : World :=
  run (rejecting "chat.example")
    [UpdateSessionContext Sample.endpoint "s1" false; Connect; Close;
     UpdateSessionContext "chat.example" "s1" false;
     Send (Text "old");
     OpenEvent]
    (initial []).

(** A transport was constructed for a declared session and the browser has
    just established it; the open event is about to be dispatched. The
    credential store holds [storage]. *)
Definition about_to_open (storage : list (string * string)) : World :=
  run (Sample.platform [])
    [UpdateSessionContext Sample.endpoint "s1" false; Connect;
     ReadyStateBecomes OPEN]
    (initial storage).

(** The events [this.callbacks.f && this.callbacks.f()] adds to the log. *)
Definition call_events (cb : option nat) (ev : nat -> Event) : list Event :=
  match cb with
  | Some h => [ev h]
  | None => []
  end.

(** The waiter whose resolver sits in the slot has been resolved with [v]:
    its promise holds [v], the resolution is in the log, and its timeout
    timer has left the timer table. *)
Definition slot_resolved (v : bool) (before after : World) : Prop :=
  forall wid wt,
    awaitingAuthResolve (this before) = Some wid ->
    nth_error (waiters (win before)) wid = Some wt ->
    settled wt = false ->
    nth_error (waiters (win after)) wid = Some (mkWaiter true (w_timer wt) (Some v))
    /\ In (Resolved wid v) (log (win after))
    /\ ~ In (w_timer wt) (map t_id (timers (win after))).

(** A message sent before the session was authorized, transport open,
    [onAuthSuccess] and [onMessage] registered, one caller waiting in
    [ensureAuthorized]. *)
Definition awaiting_auth : World :=
  run (Sample.platform [])
    [SetCallbacks (mkCallbacks None (Some 7) (Some 8) None None);
     UpdateSessionContext Sample.endpoint "s1" false;
     Send (Text "hi");
     ReadyStateBecomes OPEN; OpenEvent;
     EnsureAuthorized (inject_Z 8000)]
    (initial []).
(** The part of the handler shared by an explicit acknowledgement and by an
    implicit one, run when the session was not authorized yet. *)
Definition authorize (P : Platform) (w : World) : World :=
  resolve_waiter
    (invoke (onAuthSuccess (callbacks (this w))) CallOnAuthSuccess
       (flushQueue P (upd (set_authorized true) w))).

(** A session is open, then the peer starts the closing handshake: the
    browser moves the transport to CLOSING, the close event has not been
    dispatched yet. *)
Definition half_closed : World :=
  run (Sample.platform [])
    [UpdateSessionContext Sample.endpoint "s1" false; Connect;
     ReadyStateBecomes OPEN; OpenEvent; ReadyStateBecomes CLOSING]
    (initial []).

(** Operations that do not call [connect()]. *)
Definition no_connect (o : Op) : bool :=
  match o with
  | Connect | Send _ | EnsureAuthorized _ => false
  | _ => true
  end.

(** Reconnection is switched off: the manager was closed explicitly and no
    reconnection timer is pending. *)
Definition suppressed (w : World) : Prop :=
  explicitlyClosed (this w) = true
  /\ reconnectTimer (this w) = None
  /\ pending_reconnects w = [].

(** A session was authorized, the transport then closed unexpectedly (the
    close handler leaves the Authorized flag alone), and the caller
    withdrew the endpoint. *)
Definition stale_authorized : World :=
  run (Sample.platform [])
    [UpdateSessionContext Sample.endpoint "s1" false; Connect;
     ReadyStateBecomes OPEN; OpenEvent;
     MessageEvent (Sample.frame_of_type "auth_success");
     ReadyStateBecomes CLOSED; CloseEvent;
     UpdateSessionContext "" "s1" false]
    (initial []).

(** The world in which [ensureAuthorized] hands the promise of a fresh
    waiter back to its caller. *)
Definition registered (timeoutMs : Q) (w : World) : World :=
  mkWorld
    (set_awaitingAuthResolve (Some (length (waiters (win w)))) (this w))
    (set_waiters (waiters (win w) ++ [mkWaiter false (nextTimer (win w)) None])
       (set_nextTimer (Pos.succ (nextTimer (win w)))
          (set_timers
             (timers (win w)
                ++ [mkTimer (nextTimer (win w))
                      (AuthTimeout (length (waiters (win w)))) timeoutMs])
             (win w)))).

(** The world after the promise of waiter [wid] was resolved with [v] by the
    closure that owns timer [tid]. *)
Definition settled_world (wid : nat) (tid : TimerId) (v : bool) (w : World)
  : World :=
  mkWorld
    (set_awaitingAuthResolve None (this w))
    (set_log (log (win w) ++ [Resolved wid v])
       (set_waiters
          (update_nth wid (fun wt => mkWaiter true (w_timer wt) (Some v))
             (waiters (win w)))
          (set_timers (drop_timer (Some tid) (timers (win w))) (win w)))).

(** ** Timers and the promises they guard *)

(** The timer [id] is pending and runs [task]. *)
Definition pending (id : TimerId) (task : TimerTask) (w : World) : Prop :=
  exists d, In (mkTimer id task d) (timers (win w)).

(** Every handle the manager keeps names a pending timer of the right
    kind; a promise that is not settled has its timeout pending and no
    value yet; a settled promise has no timer left. *)
Record timer_discipline (w : World) : Prop := {
  td_fresh : timers_fresh w;
  td_unique : timer_ids_unique w;
  td_heartbeat : forall id, heartbeatTimer (this w) = Some id ->
                            pending id HeartbeatTick w;
  td_reconnect : forall id, reconnectTimer (this w) = Some id ->
                            pending id ReconnectFire w;
  td_waiting : forall wid wt, nth_error (waiters (win w)) wid = Some wt ->
                              settled wt = false ->
                              pending (w_timer wt) (AuthTimeout wid) w
                              /\ outcome wt = None;
  td_settled : forall wid wt, nth_error (waiters (win w)) wid = Some wt ->
                              settled wt = true ->
                              ~ In (w_timer wt) (map t_id (timers (win w)));
  td_known : forall wid wt, nth_error (waiters (win w)) wid = Some wt ->
                            (w_timer wt < nextTimer (win w))%positive;
  td_owner : forall t wid, In t (timers (win w)) -> t_task t = AuthTimeout wid ->
                           exists wt, nth_error (waiters (win w)) wid = Some wt
                                      /\ w_timer wt = t_id t
}.

(** ** Inbound frames by what the message handler does with them *)

(** The frames that open the authorization gate: parsed JSON whose [type]
    is [auth_success] or one of the five business types. *)
Definition opens_gate (P : Platform) (data : string) : bool :=
  match JSON_parse P data with
  | Some d => Js.type_is d "auth_success" || business_type d
  | None => false
  end.

(** The frames the handler returns on before reaching [onMessage]. *)
Definition intercepted (P : Platform) (data : string) : bool :=
  match JSON_parse P data with
  | Some d => Js.type_is d "auth_success" || Js.type_is d "pong"
  | None => false
  end.

(** ** What is handed to a transport, and when *)

(** The payloads on which [ws.send] was called, whether it returned or
    threw, oldest first. *)
Definition attempts (l : list Event) : list string :=
  flat_map (fun e => match e with
                     | Sent _ p | SendThrew _ p => [p]
                     | _ => []
                     end) l.

(** Between [w] and [w'] the log only grew, and [ws.send] was only called
    on payloads that satisfy [A]. *)
Definition emits (A : string -> Prop) (w w' : World) : Prop :=
  exists evs, log (win w') = log (win w) ++ evs /\ Forall A (attempts evs).

(** The session is unauthorized before the history [ops] and after each of
    its steps. *)
Fixpoint unauthorized_throughout (P : Platform) (ops : list Op) (w : World)
  : bool :=
  negb (authorized (this w))
  && match ops with
     | [] => true
     | o :: rest => unauthorized_throughout P rest (exec P o w)
     end.

(** ** Session context *)

(** [this.url && this.sessionId]: the guard [connect] and
    [scheduleReconnect] start with. *)
Definition context_set (w : World) : bool :=
  Js.truthy_str (url (this w)) && Js.truthy_str (sessionId (this w)).

(** The endpoint [connect] passes to [new WebSocket]. *)
Definition endpoint_of (w : World) : string :=
  match url (this w) with
  | Some u => u
  | None => ""
  end.

(** The delay [scheduleReconnect] computes in [w]. *)
Definition next_delay (P : Platform) (w : World) : Q :=
  Number.add (inject_Z (backoff (Nat.min (reconnectAttempts (this w) + 1) 10)))
             (Number.mul (Math_random P (calls (win w))) (inject_Z 300)).

(** The session context was switched while the first transport was still
    connecting; that transport has now opened. *)
Definition stale_target : World :=
  run (Sample.platform [])
    [UpdateSessionContext Sample.endpoint "s1" false; Connect;
     UpdateSessionContext "wss://chat.example/api/chat/ws/chat/s2" "s2" false;
     ReadyStateBecomes OPEN; OpenEvent]
    (initial []).

(** A transport is open and the session authorized. *)
Definition authorized_session : World :=
  run (Sample.platform [])
    [UpdateSessionContext Sample.endpoint "s1" false; Connect;
     ReadyStateBecomes OPEN; OpenEvent;
     MessageEvent (Sample.frame_of_type "auth_success")]
    (initial []).

(** A session was declared and [connect()] has constructed a transport
    that has not opened yet. *)
Definition connecting_session : World :=
  run (Sample.platform [])
    [UpdateSessionContext Sample.endpoint "s1" false; Connect]
    (initial []).

(** An open session whose transport is about to close unexpectedly. *)
Definition open_session : World :=
  run (Sample.platform [])
    [UpdateSessionContext Sample.endpoint "s1" false; Connect;
     ReadyStateBecomes OPEN; OpenEvent; Send (Text "queued")]
    (initial []).

(** ** Heartbeat and transport record *)

Definition is_heartbeat (t : Timer) : bool :=
  match t_task t with
  | HeartbeatTick => true
  | _ => false
  end.

(** The pending heartbeat intervals. *)
Definition heartbeats (w : World) : list Timer :=
  filter is_heartbeat (timers (win w)).

(** Every pending heartbeat interval is the one recorded in
    [heartbeatTimer] and has a period of 25 seconds. *)
Definition heartbeat_tracked (w : World) : Prop :=
  forall t, In t (timers (win w)) -> is_heartbeat t = true ->
            heartbeatTimer (this w) = Some (t_id t)
            /\ t_delay t = inject_Z 25000.

(** The transport the manager holds was constructed by [connect] for the
    recorded target; a manager that is Connecting holds a transport, one
    that never left Idle holds none, and Closing is left before [close()]
    returns. *)
Definition transport_recorded (w : World) : Prop :=
  (forall s, ws (this w) = Some s ->
             connectedUrl (this w) = Some (sock_url s)
             /\ sock_id s < sockets (win w))
  /\ (state (this w) = connecting -> ws (this w) <> None)
  /\ (state (this w) = idle -> ws (this w) = None)
  /\ state (this w) <> closing.

Definition connection_inv (w : World) : Prop :=
  heartbeat_tracked w /\ transport_recorded w.

(** [w'] differs from [w] in nothing the heartbeat and the record of the
    transport depend on, except that timers other than heartbeats may have
    come and gone. *)
Definition same_connection (w w' : World) : Prop :=
  heartbeatTimer (this w') = heartbeatTimer (this w)
  /\ ws (this w') = ws (this w)
  /\ connectedUrl (this w') = connectedUrl (this w)
  /\ state (this w') = state (this w)
  /\ sockets (win w') = sockets (win w)
  /\ (forall t, In t (timers (win w')) -> is_heartbeat t = true ->
                In t (timers (win w))).

(** The ping frame of the heartbeat. *)
Definition ping_frame (P : Platform) (ts : Z) : string :=
  JSON_stringify P (JObj [("type", JStr "ping"); ("ts", JNum (inject_Z ts))]).

(** ** What touches the outbound queue *)

(** The operations and events that may add to the outbound queue, flush
    it or empty it: [send], [close], a context update (it may call
    [close]), a frame that opens the authorization gate, and an open event
    (its [onOpen] callback may call [send]). *)
Definition touches_queue (P : Platform) (o : Op) : bool :=
  match o with
  | Send _ | Close | UpdateSessionContext _ _ _ | OpenEvent => true
  | MessageEvent data => opens_gate P data
  | _ => false
  end.

(** As long as the transport held is the one for the session context, [w']
    has the queue of [w] and the same holds of [w']. *)
Definition keeps_queue (w w' : World) : Prop :=
  sameTarget w = true ->
  sendQueue (this w') = sendQueue (this w) /\ sameTarget w' = true.

(** ** The request interceptor of [authAxios]

    The second consumer of the [auth-storage] entry, defined after the
    manager in the same source file. *)

(** [obj[k]] on an object with string-valued properties. *)
Fixpoint get_property (k : string) (obj : list (string * string))
  : option string :=
  match obj with
  | [] => None
  | (k', v) :: rest => if (k' =? k)%string then Some v else get_property k rest
  end.

(** [obj[k] = v]: an existing property keeps its place, a new one is
    added last. *)
Fixpoint set_property (k v : string) (obj : list (string * string))
  : list (string * string) :=
  match obj with
  | [] => [(k, v)]
  | (k', v') :: rest =>
      if (k' =? k)%string then (k', v) :: rest
      else (k', v') :: set_property k v rest
  end.

(** The first function passed to [authAxios.interceptors.request.use],
    applied to a request whose [config.headers] is [headers]: the headers
    of the configuration it returns, and whether [console.error] was
    called. Destructuring [null], reading [token] of an [undefined] or
    [null] [state], and a template literal whose conversion throws, all
    throw inside the [try]. *)
Definition request_interceptor (P : Platform)
           (storage headers : list (string * string))
  : list (string * string) * bool :=
  match getItem "auth-storage" storage with
  | None => (headers, false)
  | Some authData =>
      if (authData =? "")%string then (headers, false)
      else match JSON_parse P authData with
           | None => (headers, true)
           | Some JNull => (headers, true)
           | Some parsed =>
               match Js.get parsed "state" with
               | None | Some JNull => (headers, true)
               | Some state =>
                   match Js.get state "token" with
                   | Some token =>
                       if Js.truthy token
                       then if template_throws token then (headers, true)
                            else (set_property "Authorization"
                                    ("Bearer " ++ template_string P token)
                                    headers,
                                  false)
                       else (headers, false)
                   | None => (headers, false)
                   end
               end
           end
  end.

(** ** [getFullUrl] of [config.ts], which the chat page calls to build the
    endpoint URL *)

(** [import.meta.env.VITE_API_BASE_URL || 'http://192.168.161.103:8000'],
    [env] being the value of the environment variable, if defined. *)
Definition API_BASE_URL (env : option string) : string :=
  if Js.truthy_str env
  then match env with Some s => s | None => "" end
  else "http://192.168.161.103:8000".

(** [getFullUrl(path?)] *)
Definition getFullUrl (env : option string) (path : option string) : string :=
  if negb (Js.truthy_str path) then API_BASE_URL env
  else
    let p := match path with Some s => s | None => "" end in
    if String.prefix "http" p then p
    else
      let baseUrl := if Js.truthy_str (Some (API_BASE_URL env))
                     then API_BASE_URL env
                     else "http://localhost:8000" in
      baseUrl ++ p.

(** ** An [onOpen] handler that calls back into the manager

    The chat page ([pages/Auth/Login.tsx]) registers an [onOpen] handler
    that, outside assistant mode, calls [chatWSManager.send] with a request
    for the history of the session. *)

(** [ws.onopen] when the registered [onOpen] handler acts on the manager:
    [body] is what the handler does to the manager before it returns. *)
Definition ws_onopen_calling (P : Platform) (body : World -> World) (w : World)
  : World :=
  let w1 := set_state open w in
  let w2 := upd (set_reconnectAttempts 0) w1 in
  let w3 := startHeartbeat w2 in
  let w4 := match onOpen (callbacks (this w3)) with
            | Some h => body (emit (CallOnOpen h) w3)
            | None => w3
            end in
  sendAuthorization P w4.

(** The object literal the handler of the chat page passes to [send]. *)
Definition fetch_history (session_id : string) : JsValue :=
  JObj [("type", JStr "fetch_history"); ("session_id", JStr session_id)].

(** What the [onOpen] handler of the chat page does to the manager; the
    rest of the handler updates the state of the page. *)
Definition Chat_onOpen (P : Platform) (isAssistantMode : bool)
           (session_id : string) (w : World) : World :=
  if negb isAssistantMode then send P (Value (fetch_history session_id)) w
  else w.

(** The chat page has declared a session, registered its handlers and
    called [connect()]; the transport is established and the open event is
    about to be dispatched. The credential store holds a token. *)
Definition chat_about_to_open : World :=
  run (Sample.platform [])
    [UpdateSessionContext Sample.endpoint "s1" false;
     SetCallbacks (mkCallbacks (Some 1) (Some 2) (Some 3) (Some 4) (Some 5));
     Connect; ReadyStateBecomes OPEN]
    (initial [("auth-storage", Sample.stored_credentials "abc")]).

(** ** The chat page establishing a connection *)

(** The calls [establishConnection] of the chat page makes on the manager,
    in order: [updateSessionContext], [setCallbacks], [connect]; the page
    then keeps what [getSocket()] returns. *)
Definition establishConnection (P : Platform) (wsUrl sessionId : string)
           (isAssistantMode : bool) (cbs : ChatWSCallbacks) (w : World)
  : World * option WebSocket :=
  let w1 := updateSessionContext P wsUrl sessionId isAssistantMode w in
  let w2 := setCallbacks cbs w1 in
  let w3 := connect P w2 in
  (w3, ws (this w3)).

(** The manager was closed by the caller after a session had been open. *)
Definition closed_session : World :=
  run (Sample.platform []) [Close] open_session.

(** ** The authorization gate, step by step *)

(** The world in which [onAuthSuccess] is called once the gate opens:
    [authorized] was set, and the flush has handed [done] to the transport
    [id], lost [failed] and left [rest] in the queue. *)
Definition gate_opened (id : nat) (done failed rest : list string) (w : World)
  : World :=
  mkWorld (set_sendQueue rest (set_authorized true (this w)))
          (set_log (log (win w) ++ map (Sent id) done
                      ++ map (SendThrew id) failed)
             (set_calls (calls (win w) + length done + length failed) (win w))).

(** How the flush that started with the platform call number [n] split
    the queue [q] on a manager whose transport is open or not: nothing is
    taken from the queue without an open transport; with one, payloads go
    out in queue order until the queue is empty or a [send] throws, and
    the payload on which it threw is lost. *)
Definition flush_split (P : Platform) (is_open : bool) (n : nat)
           (q done failed rest : list string) : Prop :=
  q = done ++ failed ++ rest
  /\ (forall i, i < length done -> send_throws P (n + i) = false)
  /\ (if is_open
      then (failed = [] /\ rest = [])
           \/ (exists x, failed = [x] /\ send_throws P (n + length done) = true)
      else done = [] /\ failed = []).

(** The events of one call of [onAuthSuccess]. *)
Definition onAuthSuccess_events (w : World) : list Event :=
  call_events (onAuthSuccess (callbacks (this w))) CallOnAuthSuccess.

(** [onAuthSuccess] is registered and throws when called. *)
Definition onAuthSuccess_throws (returns : bool) (w : World) : bool :=
  match onAuthSuccess (callbacks (this w)) with
  | Some _ => negb returns
  | None => false
  end.

(** ** Every world the manager can be in

    Besides the histories of [run], in which callbacks return and
    [ensureAuthorized] is followed at once by its continuation: the two
    halves of [ensureAuthorized] with other steps in between, the
    handlers cut short by a callback that throws, and an [onOpen] callback
    that performs operations ([calls]) on the manager before it returns or
    throws. *)
Inductive attainable (P : Platform) : World -> Prop :=
| attainable_initial (storage : list (string * string)) :
    attainable P (initial storage)
| attainable_exec (o : Op) (w : World) :
    attainable P w -> attainable P (exec P o w)
| attainable_begin (timeoutMs : Q) (w : World) :
    attainable P w -> attainable P (fst (ensureAuthorized_begin P timeoutMs w))
| attainable_resume (timeoutMs : Q) (w : World) :
    attainable P w -> attainable P (fst (ensureAuthorized_resume timeoutMs w))
| attainable_open (calls : list Op) (throws : bool) (w : World) :
    attainable P w ->
    attainable P (ws_onopen_with P (fun y => (run P calls y, negb throws)) w)
| attainable_message (returns : bool) (data : string) (w : World) :
    attainable P w -> attainable P (ws_onmessage_with P returns data w)
| attainable_close (returns : bool) (w : World) :
    attainable P w -> attainable P (ws_onclose_with P returns w).

(** An [auth_success] frame that opens the gate while the registered
    [onAuthSuccess] throws: the [return] of its branch is not reached. *)
Definition falls_through (P : Platform) (returns : bool) (data : string)
           (w : World) : bool :=
  match JSON_parse P data with
  | Some d => Js.type_is d "auth_success" && negb (authorized (this w))
              && onAuthSuccess_throws returns w
  | None => false
  end.

(** * Properties *)

(** Field assignments reduce on explicit records. *)
Ltac unfold_setters :=
  unfold emit, tick, upd, updw,
    set_ws, set_url, set_sessionId, set_isAssistantMode, set_state_field,
    set_callbacks, set_heartbeatTimer, set_reconnectTimer,
    set_reconnectAttempts, set_explicitlyClosed, set_sendQueue,
    set_authorized, set_awaitingAuthResolve, set_connectedUrl,
    set_connectedSessionId,
    set_timers, set_nextTimer, set_waiters, set_localStorage, set_sockets,
    set_calls, set_log in *.

Ltac world_simpl := unfold_setters; cbn in *.

(** ** Outbound queue: [enqueue] *)

Lemma sendQueue_enqueue (p : string) (w : World) :
  sendQueue (this (enqueue p w)) =
  (if MAX_QUEUE <=? length (sendQueue (this w))
   then tl (sendQueue (this w)) else sendQueue (this w)) ++ [p].
Proof.
  unfold enqueue. destruct (MAX_QUEUE <=? length (sendQueue (this w))); reflexivity.
Qed.

(** [enqueue] touches nothing but the queue. *)
Lemma enqueue_frame (p : string) (w : World) :
  enqueue p w = upd (set_sendQueue (sendQueue (this (enqueue p w)))) w.
Proof.
  unfold enqueue. destruct w as [m b]. destruct m.
  destruct (MAX_QUEUE <=? _); reflexivity.
Qed.

Lemma enqueue_all_frame (msgs : list string) (w : World) :
  enqueue_all msgs w = upd (set_sendQueue (sendQueue (this (enqueue_all msgs w)))) w.
Proof.
  revert w. induction msgs as [|p msgs IH]; intros w.
  - destruct w as [m b]. destruct m. reflexivity.
  - unfold enqueue_all in *. cbn [fold_left]. rewrite IH at 1.
    set (q := sendQueue (this (fold_left _ msgs (enqueue p w)))).
    rewrite (enqueue_frame p w). destruct w as [m b]. destruct m. reflexivity.
Qed.

Lemma keep_last_short (l : list string) :
  length l <= MAX_QUEUE -> keep_last l = l.
Proof.
  intros H. unfold keep_last. replace (length l - MAX_QUEUE) with 0 by lia.
  reflexivity.
Qed.

Lemma length_keep_last (l : list string) : length (keep_last l) <= MAX_QUEUE.
Proof. unfold keep_last. rewrite length_skipn. lia. Qed.

Lemma keep_last_app (l r : list string) :
  keep_last (keep_last l ++ r) = keep_last (l ++ r).
Proof.
  destruct (Nat.le_gt_cases (length l) MAX_QUEUE) as [Hle|Hgt].
  - rewrite (keep_last_short l Hle). reflexivity.
  - unfold keep_last at 1 3.
    assert (Hk : length (keep_last l) = MAX_QUEUE)
      by (unfold keep_last; rewrite length_skipn; lia).
    rewrite !length_app, Hk.
    unfold keep_last.
    replace (skipn (length l - MAX_QUEUE) l ++ r)
      with (skipn (length l - MAX_QUEUE) (l ++ r)).
    + rewrite skipn_skipn. f_equal. lia.
    + rewrite skipn_app. f_equal.
      replace (length l - MAX_QUEUE - length l) with 0 by lia. reflexivity.
Qed.

Lemma sendQueue_enqueue_keep_last (p : string) (w : World) :
  length (sendQueue (this w)) <= MAX_QUEUE ->
  sendQueue (this (enqueue p w)) = keep_last (sendQueue (this w) ++ [p]).
Proof.
  intros H. rewrite sendQueue_enqueue.
  destruct (MAX_QUEUE <=? length (sendQueue (this w))) eqn:E.
  - apply Nat.leb_le in E. unfold keep_last. rewrite length_app. cbn [length].
    replace (length (sendQueue (this w)) + 1 - MAX_QUEUE) with 1 by lia.
    destruct (sendQueue (this w)); [cbv in E; lia | reflexivity].
  - apply Nat.leb_gt in E. rewrite keep_last_short; [reflexivity|].
    rewrite length_app. cbn [length]. lia.
Qed.

Lemma sendQueue_enqueue_all (msgs : list string) (w : World) :
  length (sendQueue (this w)) <= MAX_QUEUE ->
  sendQueue (this (enqueue_all msgs w)) = keep_last (sendQueue (this w) ++ msgs).
Proof.
  revert w. induction msgs as [|p msgs IH]; intros w H.
  - cbn. rewrite app_nil_r. symmetry. apply keep_last_short, H.
  - unfold enqueue_all in *. cbn [fold_left]. rewrite IH.
    + rewrite sendQueue_enqueue_keep_last by exact H.
      rewrite keep_last_app, <- app_assoc. reflexivity.
    + rewrite sendQueue_enqueue_keep_last by exact H. apply length_keep_last.
Qed.

(** ** Outbound queue: [flushQueue] *)

Section Flush.

Variable P : Platform.

Lemma transport_send_returns (p : string) (w : World) (s : WebSocket) :
  ws (this w) = Some s ->
  send_throws P (calls (win w)) = false ->
  transport_send P p w = (emit (Sent (sock_id s) p) (tick w), true).
Proof. intros Hs Hok. unfold transport_send. rewrite Hs, Hok. reflexivity. Qed.

Lemma transport_send_throws (p : string) (w : World) (s : WebSocket) :
  ws (this w) = Some s ->
  send_throws P (calls (win w)) = true ->
  transport_send P p w = (emit (SendThrew (sock_id s) p) (tick w), false).
Proof. intros Hs Hok. unfold transport_send. rewrite Hs, Hok. reflexivity. Qed.

(** A failure after [pre] has gone out: the loop stops, and the payload on
    which [send] threw is no longer in the queue. *)
Lemma flush_loop_stops (pre : list string) :
  forall (x : string) (post : list string) (fuel : nat) (w : World) (s : WebSocket),
    ws (this w) = Some s ->
    sendQueue (this w) = pre ++ x :: post ->
    length pre < fuel ->
    (forall i, i < length pre -> send_throws P (calls (win w) + i) = false) ->
    send_throws P (calls (win w) + length pre) = true ->
    flush_loop P fuel w = flushed (sock_id s) pre [x] post w.
Proof.
  induction pre as [|y pre IH]; intros x post fuel w s Hs Hq Hfuel Hok Hthrow.
  - destruct fuel as [|fuel]; [inversion Hfuel|].
    cbn [flush_loop app] in *. rewrite Hq.
    rewrite Nat.add_0_r in Hthrow.
    rewrite (transport_send_throws x _ s) by (try exact Hs; exact Hthrow).
    destruct w as [m b]. destruct m, b. unfold flushed. world_simpl.
    repeat f_equal; lia.
  - destruct fuel as [|fuel]; [inversion Hfuel|].
    cbn [flush_loop app length] in *. rewrite Hq.
    rewrite (transport_send_returns y _ s);
      [|exact Hs|specialize (Hok 0 (Nat.lt_0_succ _)); rewrite Nat.add_0_r in Hok; exact Hok].
    rewrite (IH x post fuel _ s).
    + destruct w as [m b]. destruct m, b. unfold flushed. world_simpl.
      rewrite <- !app_assoc. cbn. repeat f_equal; lia.
    + exact Hs.
    + reflexivity.
    + lia.
    + intros i Hi. cbn. specialize (Hok (S i) ltac:(lia)).
      rewrite Nat.add_succ_r in Hok. exact Hok.
    + cbn. rewrite Nat.add_succ_r in Hthrow. exact Hthrow.
Qed.

(** No failure: the whole queue goes out, in order. *)
Lemma flush_loop_drains (q : list string) :
  forall (fuel : nat) (w : World) (s : WebSocket),
    ws (this w) = Some s ->
    sendQueue (this w) = q ->
    length q <= fuel ->
    (forall i, i < length q -> send_throws P (calls (win w) + i) = false) ->
    flush_loop P fuel w = flushed (sock_id s) q [] [] w.
Proof.
  induction q as [|y q IH]; intros fuel w s Hs Hq Hfuel Hok.
  - destruct fuel as [|fuel]; cbn [flush_loop]; [|rewrite Hq];
      destruct w as [m b]; destruct m, b; unfold flushed; world_simpl; subst;
      rewrite app_nil_r, !Nat.add_0_r; reflexivity.
  - destruct fuel as [|fuel]; [inversion Hfuel|].
    cbn [flush_loop length] in *. rewrite Hq.
    rewrite (transport_send_returns y _ s);
      [|exact Hs|specialize (Hok 0 (Nat.lt_0_succ _)); rewrite Nat.add_0_r in Hok; exact Hok].
    rewrite (IH fuel _ s).
    + destruct w as [m b]. destruct m, b. unfold flushed. world_simpl.
      rewrite <- !app_assoc. cbn. repeat f_equal; lia.
    + exact Hs.
    + reflexivity.
    + lia.
    + intros i Hi. cbn. specialize (Hok (S i) ltac:(lia)).
      rewrite Nat.add_succ_r in Hok. exact Hok.
Qed.

Lemma flushQueue_runs_loop (w : World) (s : WebSocket) :
  ws (this w) = Some s -> readyState s = OPEN -> authorized (this w) = true ->
  flushQueue P w = flush_loop P (length (sendQueue (this w))) w.
Proof.
  intros Hs Hopen Hauth. unfold flushQueue, ws_is_open.
  rewrite Hs, Hopen, Hauth. reflexivity.
Qed.

(** [flushQueue] is gated: without an open transport or without
    authorization it does nothing. *)
Lemma flushQueue_gated (w : World) :
  ws_is_open w = false \/ authorized (this w) = false -> flushQueue P w = w.
Proof.
  intros [H|H]; unfold flushQueue; rewrite H; [reflexivity|].
  rewrite orb_true_r. reflexivity.
Qed.

(** What [flushQueue] does on a synchronous failure: the messages before the
    failing one are sent in FIFO order, the messages after it stay queued in
    order, and the failing message itself is in neither place. *)
Lemma flushQueue_partial_failure
      (w : World) (s : WebSocket) (pre post : list string) (x : string) :
  ws (this w) = Some s -> readyState s = OPEN -> authorized (this w) = true ->
  sendQueue (this w) = pre ++ x :: post ->
  (forall i, i < length pre -> send_throws P (calls (win w) + i) = false) ->
  send_throws P (calls (win w) + length pre) = true ->
  flushQueue P w = flushed (sock_id s) pre [x] post w.
Proof.
  intros Hs Hopen Hauth Hq Hok Hthrow.
  rewrite (flushQueue_runs_loop w s Hs Hopen Hauth).
  apply flush_loop_stops; try assumption.
  rewrite Hq, length_app. cbn. lia.
Qed.

Lemma flushQueue_drains
      (w : World) (s : WebSocket) :
  ws (this w) = Some s -> readyState s = OPEN -> authorized (this w) = true ->
  (forall i, i < length (sendQueue (this w)) ->
             send_throws P (calls (win w) + i) = false) ->
  flushQueue P w = flushed (sock_id s) (sendQueue (this w)) [] [] w.
Proof.
  intros Hs Hopen Hauth Hok.
  rewrite (flushQueue_runs_loop w s Hs Hopen Hauth).
  apply flush_loop_drains; auto.
Qed.

(** Whatever the transport does, [flush_loop] splits the queue, in order,
    into what was sent, at most one payload that was lost, and what
    stays. *)
Lemma flush_loop_shape (fuel : nat) :
  forall (w : World) (s : WebSocket),
    ws (this w) = Some s ->
    exists done failed rest,
      flush_loop P fuel w = flushed (sock_id s) done failed rest w
      /\ sendQueue (this w) = done ++ failed ++ rest
      /\ length failed <= 1.
Proof.
  induction fuel as [|fuel IH]; intros w s Hs.
  - exists [], [], (sendQueue (this w)). cbn [flush_loop].
    split; [|split; [reflexivity|cbn; lia]].
    destruct w as [m b]. destruct m, b. unfold flushed. world_simpl.
    rewrite app_nil_r, !Nat.add_0_r. reflexivity.
  - cbn [flush_loop]. destruct (sendQueue (this w)) as [|item q] eqn:Eq.
    + exists [], [], []. split; [|split; [reflexivity|cbn; lia]].
      destruct w as [m b]. destruct m, b. unfold flushed. world_simpl.
      subst. rewrite app_nil_r, !Nat.add_0_r. reflexivity.
    + destruct (send_throws P (calls (win w))) eqn:Et.
      * rewrite (transport_send_throws item _ s) by (try exact Hs; exact Et).
        exists [], [item], q. split; [|split; [reflexivity|cbn; lia]].
        destruct w as [m b]. destruct m, b. unfold flushed. world_simpl.
        repeat f_equal; lia.
      * rewrite (transport_send_returns item _ s) by (try exact Hs; exact Et).
        destruct (IH (emit (Sent (sock_id s) item) (tick (upd (set_sendQueue q) w))) s Hs)
          as (done & failed & rest & Heq & Hq & Hlen).
        exists (item :: done), failed, rest.
        split; [|split; [cbn in Hq; cbn; rewrite Hq; reflexivity|exact Hlen]].
        rewrite Heq.
        destruct w as [m b]. destruct m, b. unfold flushed. world_simpl.
        rewrite <- !app_assoc. cbn. repeat f_equal; lia.
Qed.

Lemma flushed_nothing (id : nat) (w : World) :
  flushed id [] [] (sendQueue (this w)) w = w.
Proof.
  destruct w as [m b]. destruct m, b. unfold flushed. world_simpl.
  rewrite app_nil_r, !Nat.add_0_r. reflexivity.
Qed.

Lemma flushQueue_shape (w : World) :
  exists id done failed rest,
    flushQueue P w = flushed id done failed rest w
    /\ sendQueue (this w) = done ++ failed ++ rest
    /\ length failed <= 1.
Proof.
  unfold flushQueue.
  destruct (negb (ws_is_open w) || negb (authorized (this w))) eqn:E.
  - exists 0, [], [], (sendQueue (this w)).
    split; [symmetry; apply flushed_nothing|split; [reflexivity|cbn; lia]].
  - unfold ws_is_open in E. destruct (ws (this w)) as [s|] eqn:Hs; [|discriminate].
    destruct (flush_loop_shape (length (sendQueue (this w))) w s Hs)
      as (done & failed & rest & H).
    exists (sock_id s), done, failed, rest. exact H.
Qed.

End Flush.

(** ** Closed forms of the straight-line methods *)

(** Reduction of field accesses and assignments, leaving list functions
    alone. *)
Ltac record_lazy :=
  lazy beta iota zeta delta
    [this win ws url sessionId isAssistantMode state callbacks heartbeatTimer
     reconnectTimer reconnectAttempts explicitlyClosed sendQueue authorized
     awaitingAuthResolve connectedUrl connectedSessionId
     timers nextTimer waiters localStorage sockets calls log
     emit tick upd updw set_state invoke add_timer setTimer clearTimer
     set_ws set_url set_sessionId set_isAssistantMode set_state_field
     set_callbacks set_heartbeatTimer set_reconnectTimer
     set_reconnectAttempts set_explicitlyClosed set_sendQueue
     set_authorized set_awaitingAuthResolve set_connectedUrl
     set_connectedSessionId
     set_timers set_nextTimer set_waiters set_localStorage set_sockets
     set_calls set_log drop_timer fst snd].

(** The same by [cbn], which keeps field accesses on variables folded. *)
Ltac record_cbn :=
  cbn [this win ws url sessionId isAssistantMode state callbacks heartbeatTimer
       reconnectTimer reconnectAttempts explicitlyClosed sendQueue authorized
       awaitingAuthResolve connectedUrl connectedSessionId
       timers nextTimer waiters localStorage sockets calls log
       emit tick upd updw set_state invoke add_timer setTimer clearTimer
       set_ws set_url set_sessionId set_isAssistantMode set_state_field
       set_callbacks set_heartbeatTimer set_reconnectTimer
       set_reconnectAttempts set_explicitlyClosed set_sendQueue
       set_authorized set_awaitingAuthResolve set_connectedUrl
       set_connectedSessionId
       set_timers set_nextTimer set_waiters set_localStorage set_sockets
       set_calls set_log fst snd].

Lemma stopHeartbeat_eq (w : World) :
  stopHeartbeat w =
  mkWorld (set_heartbeatTimer None (this w))
          (set_timers (drop_timer (heartbeatTimer (this w)) (timers (win w)))
             (win w)).
Proof.
  destruct w as [m b].
  destruct m as [wsx u sid am st cb hb rt ra ec q au aw cu cs]. destruct b.
  destruct hb; reflexivity.
Qed.

Lemma clearReconnectTimer_eq (w : World) :
  clearReconnectTimer w =
  mkWorld (set_reconnectTimer None (this w))
          (set_timers (drop_timer (reconnectTimer (this w)) (timers (win w)))
             (win w)).
Proof.
  destruct w as [m b].
  destruct m as [wsx u sid am st cb hb rt ra ec q au aw cu cs]. destruct b.
  destruct rt; reflexivity.
Qed.

(** [close()] in one step. *)
Lemma close_eq (P : Platform) (w : World) :
  close P w =
  mkWorld
    (mkManager None (url (this w)) (sessionId (this w)) (isAssistantMode (this w))
       closed (callbacks (this w)) None None (reconnectAttempts (this w)) true []
       false (awaitingAuthResolve (this w)) (connectedUrl (this w))
       (connectedSessionId (this w)))
    (mkWindow
       (drop_timer (reconnectTimer (this w))
          (drop_timer (heartbeatTimer (this w)) (timers (win w))))
       (nextTimer (win w)) (waiters (win w)) (localStorage (win w))
       (sockets (win w))
       (match ws (this w) with
        | Some _ => S (calls (win w))
        | None => calls (win w)
        end)
       (log (win w)
          ++ match ws (this w) with
             | Some s => [StateIs closing;
                          CloseCalled (sock_id s) (close_throws P (calls (win w)))]
             | None => []
             end
          ++ [StateIs closed])).
Proof.
  destruct w as [m b].
  destruct m as [wsx u sid am st cb hb rt ra ec q au aw cu cs]. destruct b.
  destruct wsx, hb, rt;
    lazy -[filter app Pos.eqb negb]; rewrite <- ?app_assoc; reflexivity.
Qed.

Lemma drop_timer_absent (id : TimerId) (l : list Timer) :
  ~ In id (map t_id (drop_timer (Some id) l)).
Proof.
  intros Hin. apply in_map_iff in Hin. destruct Hin as (t & Ht & Hin).
  apply filter_In in Hin. destruct Hin as [_ Hne]. subst id.
  rewrite Pos.eqb_refl in Hne. discriminate.
Qed.

Lemma drop_timer_incl (o : option TimerId) (l : list Timer) (t : Timer) :
  In t (drop_timer o l) -> In t l.
Proof.
  destruct o; cbn; [|auto]. intros H. apply filter_In in H. apply H.
Qed.

(** ** Binary64 rounding *)

Section Rounding.

Import Number.
Local Open Scope Q_scope.

Lemma nearest_even_floor (q : Q) : (Qfloor q <= nearest_even q <= Qfloor q + 1)%Z.
Proof.
  unfold nearest_even.
  destruct (Qcompare _ _); [destruct (Z.even _)| |]; lia.
Qed.

(** Rounding to an integer never crosses an integer. *)
Lemma nearest_even_le (q : Q) (k : Z) : q <= inject_Z k -> (nearest_even q <= k)%Z.
Proof.
  intros H.
  pose proof (Qfloor_le q) as Hf.
  assert (Hk : (Qfloor q <= k)%Z) by (rewrite Zle_Qle; lra).
  destruct (Z.eq_dec (Qfloor q) k) as [E|E].
  - unfold nearest_even.
    assert (Hc : Qcompare (q - inject_Z (Qfloor q)) (1 # 2) = Lt).
    { rewrite <- Qlt_alt. rewrite E. lra. }
    rewrite Hc. lia.
  - pose proof (nearest_even_floor q). lia.
Qed.

Lemma nearest_even_ge (q : Q) (k : Z) : inject_Z k <= q -> (k <= nearest_even q)%Z.
Proof.
  intros H.
  assert (Hk : (k <= Qfloor q)%Z).
  { replace k with (Qfloor (inject_Z k)) by apply Qfloor_Z.
    apply Qfloor_resp_le, H. }
  pose proof (nearest_even_floor q). lia.
Qed.

(** Below the midpoint the lower neighbour is chosen. *)
Lemma nearest_even_below_half (q : Q) (k : Z) :
  q < inject_Z k + (1 # 2) -> (nearest_even q <= k)%Z.
Proof.
  intros H.
  pose proof (Qfloor_le q) as Hf.
  assert (Hk : (Qfloor q <= k)%Z).
  { assert (Hlt : inject_Z (Qfloor q) < inject_Z (k + 1)).
    { rewrite inject_Z_plus. change (inject_Z 1) with 1. lra. }
    rewrite <- Zlt_Qlt in Hlt. lia. }
  destruct (Z.eq_dec (Qfloor q) k) as [E|E].
  - unfold nearest_even.
    assert (Hc : Qcompare (q - inject_Z (Qfloor q)) (1 # 2) = Lt).
    { rewrite <- Qlt_alt. rewrite E. lra. }
    rewrite Hc. lia.
  - pose proof (nearest_even_floor q). lia.
Qed.


Lemma exponent_le (q : Q) (n : Z) :
  (0 <= n)%Z -> q < inject_Z (2 ^ (n + 1)) -> (exponent q <= n)%Z.
Proof.
  intros Hn Hq. unfold exponent.
  destruct (Qle_bool 1 q) eqn:E.
  - apply Qle_bool_iff in E.
    assert (H1 : (1 <= Qfloor q)%Z).
    { replace 1%Z with (Qfloor (inject_Z 1)) by apply Qfloor_Z.
      apply Qfloor_resp_le. exact E. }
    apply Z.lt_succ_r. apply Z.log2_lt_pow2; [lia|].
    rewrite Zlt_Qlt. pose proof (Qfloor_le q). unfold Z.succ. lra.
  - pose proof (Z.log2_up_nonneg (Qceiling (/ q))). lia.
Qed.

Lemma ulp_pos (q : Q) : 0 < ulp q.
Proof. unfold ulp. apply Qpower_0_lt. reflexivity. Qed.

(** Up to [2^53] the spacing divides one: the integers are binary64
    numbers. *)
Lemma ulp_divides_one (q : Q) :
  (exponent q <= 52)%Z ->
  exists N : Z, (0 < N)%Z /\ ulp q * inject_Z N == 1.
Proof.
  intros He. unfold ulp.
  set (e := Z.max (exponent q) (-1022)).
  assert (Hle : (0 <= 52 - e)%Z) by (unfold e; lia).
  exists (2 ^ (52 - e))%Z. split; [apply Z.pow_pos_nonneg; lia|].
  rewrite Zpower_Qpower by exact Hle.
  replace (e - 52)%Z with (- (52 - e))%Z by lia.
  rewrite Qpower_opp. change (inject_Z 2) with 2.
  rewrite Qmult_comm. apply Qmult_inv_r.
  apply Qpower_not_0. discriminate.
Qed.

Lemma round_pos_eq (q : Q) :
  round_pos q == inject_Z (nearest_even (q / ulp q)) * ulp q.
Proof. unfold round_pos. apply Qred_correct. Qed.

Lemma scaled (q u : Q) (N : Z) :
  0 < u -> u * inject_Z N == 1 -> q / u == q * inject_Z N.
Proof.
  intros Hu HN. unfold Qdiv.
  assert (E : / u == inject_Z N).
  { rewrite <- (Qmult_1_l (inject_Z N)), <- (Qmult_inv_r u) by lra.
    rewrite (Qmult_comm u), <- Qmult_assoc, HN. ring. }
  rewrite E. reflexivity.
Qed.

Lemma round_pos_le_int (q : Q) (k : Z) :
  (exponent q <= 52)%Z -> q <= inject_Z k -> round_pos q <= inject_Z k.
Proof.
  intros He Hq.
  destruct (ulp_divides_one q He) as (N & HN & Hu).
  pose proof (ulp_pos q) as Hpos.
  rewrite round_pos_eq.
  assert (Hn : (nearest_even (q / ulp q) <= k * N)%Z).
  { apply nearest_even_le. rewrite (scaled q (ulp q) N Hpos Hu), inject_Z_mult.
    apply Qmult_le_compat_r; [exact Hq|]. rewrite Zlt_Qlt in HN. change (inject_Z 0) with 0 in HN. lra. }
  rewrite Zle_Qle, inject_Z_mult in Hn.
  apply Qle_trans with (inject_Z k * inject_Z N * ulp q).
  - apply Qmult_le_compat_r; [exact Hn|lra].
  - rewrite <- Qmult_assoc, (Qmult_comm (inject_Z N)), Hu. lra.
Qed.

Lemma round_pos_ge_int (q : Q) (k : Z) :
  (exponent q <= 52)%Z -> inject_Z k <= q -> inject_Z k <= round_pos q.
Proof.
  intros He Hq.
  destruct (ulp_divides_one q He) as (N & HN & Hu).
  pose proof (ulp_pos q) as Hpos.
  rewrite round_pos_eq.
  assert (Hn : (k * N <= nearest_even (q / ulp q))%Z).
  { apply nearest_even_ge. rewrite (scaled q (ulp q) N Hpos Hu), inject_Z_mult.
    apply Qmult_le_compat_r; [exact Hq|]. rewrite Zlt_Qlt in HN. change (inject_Z 0) with 0 in HN. lra. }
  rewrite Zle_Qle, inject_Z_mult in Hn.
  apply Qle_trans with (inject_Z k * inject_Z N * ulp q).
  - rewrite <- Qmult_assoc, (Qmult_comm (inject_Z N)), Hu. lra.
  - apply Qmult_le_compat_r; [exact Hn|lra].
Qed.

(** Rounding a number between two integers below [2^53] stays between
    them. *)
Lemma round_between (q : Q) (lo hi : Z) :
  (0 <= lo)%Z -> (hi < 2 ^ 53)%Z ->
  inject_Z lo <= q -> q <= inject_Z hi ->
  inject_Z lo <= round q /\ round q <= inject_Z hi.
Proof.
  intros Hlo Hhi H1 H2. unfold round.
  assert (Hlo' : 0 <= inject_Z lo)
    by (change 0 with (inject_Z 0); rewrite <- Zle_Qle; exact Hlo).
  destruct (Qcompare q 0) eqn:E.
  - apply Qeq_alt in E. lra.
  - apply Qlt_alt in E. lra.
  - assert (He : (exponent q <= 52)%Z).
    { apply exponent_le; [lia|]. rewrite Zlt_Qlt in Hhi.
      change (52 + 1)%Z with 53%Z. lra. }
    split; [apply round_pos_ge_int|apply round_pos_le_int]; assumption.
Qed.

Lemma exponent_binade (q : Q) (e : Z) :
  (0 <= e)%Z -> inject_Z (2 ^ e) <= q -> q < inject_Z (2 ^ (e + 1)) ->
  exponent q = e.
Proof.
  intros He H1 H2. unfold exponent.
  assert (Hp : (1 <= 2 ^ e)%Z) by (pose proof (Z.pow_pos_nonneg 2 e); lia).
  assert (Hq : Qle_bool 1 q = true).
  { apply Qle_bool_iff. rewrite Zle_Qle in Hp. change (inject_Z 1) with 1 in Hp. lra. }
  rewrite Hq. apply Z.log2_unique; [exact He|]. split.
  - replace (2 ^ e)%Z with (Qfloor (inject_Z (2 ^ e))) by apply Qfloor_Z.
    apply Qfloor_resp_le, H1.
  - rewrite Zlt_Qlt. pose proof (Qfloor_le q). unfold Z.succ. lra.
Qed.

(** The product of a number below one and 300 rounds below 300. *)
Lemma round_jitter (r : Q) :
  0 <= r -> r <= below_one ->
  0 <= mul r 300 /\ mul r 300 < 300.
Proof.
  intros H0 H1. unfold mul. unfold below_one in H1.
  assert (Hq : r * 300 <= 300 - (300 # 9007199254740992)) by lra.
  assert (Hq0 : 0 <= r * 300) by lra.
  destruct (Qlt_le_dec (r * 300) 256) as [Hs|Hb].
  - assert (Hhi : r * 300 <= inject_Z 256) by (change (inject_Z 256) with 256; lra).
    destruct (round_between (r * 300) 0 256 ltac:(lia) ltac:(lia) Hq0 Hhi) as [A B].
    split; [exact A|]. change (inject_Z 256) with 256 in B. lra.
  - split.
    + assert (Hhi : r * 300 <= inject_Z 300) by (change (inject_Z 300) with 300; lra).
      apply (round_between (r * 300) 0 300 ltac:(lia) ltac:(lia) Hq0 Hhi).
    + unfold round.
      destruct (Qcompare (r * 300) 0) eqn:E;
        [reflexivity|apply Qlt_alt in E; lra|].
      rewrite round_pos_eq.
      assert (He : exponent (r * 300) = 8%Z).
      { apply exponent_binade; [lia| |].
        - change (inject_Z (2 ^ 8)) with 256. exact Hb.
        - change (inject_Z (2 ^ (8 + 1))) with 512. lra. }
      unfold ulp. rewrite He.
      change (2 ^ (Z.max 8 (-1022) - 52)) with (1 / inject_Z (2 ^ 44)).
      assert (Hn : (nearest_even (r * 300 / (1 / inject_Z (2 ^ 44)))
                    <= 300 * 2 ^ 44 - 1)%Z).
      { apply nearest_even_below_half.
        assert (Es : r * 300 / (1 / inject_Z (2 ^ 44))
                     == r * 300 * inject_Z (2 ^ 44)) by (field; discriminate).
        rewrite Es.
        change (inject_Z (2 ^ 44)) with 17592186044416.
        change (inject_Z (300 * 2 ^ 44 - 1)) with 5277655813324799. lra. }
      rewrite Zle_Qle in Hn.
      apply Qle_lt_trans
        with (inject_Z (300 * 2 ^ 44 - 1) * (1 / inject_Z (2 ^ 44))).
      * apply Qmult_le_compat_r; [exact Hn|]. discriminate.
      * reflexivity.
Qed.

Lemma Qceiling_two (x : Q) : 1 < x -> x <= 2 -> Qceiling x = 2%Z.
Proof.
  intros H1 H2.
  pose proof (Qle_ceiling x) as Hc. pose proof (Qceiling_lt x) as Hl.
  assert (A : (1 < Qceiling x)%Z) by (rewrite Zlt_Qlt; change (inject_Z 1) with 1; lra).
  assert (B : (Qceiling x - 1 < 2)%Z) by (rewrite Zlt_Qlt; change (inject_Z 2) with 2; lra).
  lia.
Qed.

(** A binary64 number below one is at most [below_one]. *)
Lemma double_below_one (r : Q) :
  round r == r -> r < 1 -> r <= below_one.
Proof.
  intros Hd H1.
  destruct (Qlt_le_dec (1 # 2) r) as [Hb|Hs]; [|unfold below_one; lra].
  unfold round in Hd.
  destruct (Qcompare r 0) eqn:E;
    [apply Qeq_alt in E; lra|apply Qlt_alt in E; lra|].
  rewrite round_pos_eq in Hd.
  assert (He : exponent r = (-1)%Z).
  { unfold exponent.
    assert (Hq : Qle_bool 1 r = false).
    { destruct (Qle_bool 1 r) eqn:Eq; [|reflexivity].
      apply Qle_bool_iff in Eq. lra. }
    rewrite Hq.
    rewrite (Qceiling_two (/ r)); [reflexivity| |].
    - change 1 with (/ 1). apply -> Qinv_lt_contravar; lra.
    - change 2 with (/ (1 # 2)). apply Qlt_le_weak.
      apply -> Qinv_lt_contravar; lra. }
  unfold ulp in Hd. rewrite He in Hd.
  change (2 ^ (Z.max (-1) (-1022) - 52)) with (1 # 9007199254740992) in Hd.
  set (n := nearest_even _) in Hd.
  assert (Hn : (n < 9007199254740992)%Z).
  { rewrite Zlt_Qlt. change (inject_Z 9007199254740992) with 9007199254740992. lra. }
  assert (Hn' : inject_Z n <= 9007199254740991).
  { change 9007199254740991 with (inject_Z 9007199254740991).
    rewrite <- Zle_Qle. lia. }
  unfold below_one. lra.
Qed.

End Rounding.

(** ** Invariants are preserved by every operation and event *)

Lemma core_upd (f : ChatWSManager -> ChatWSManager) (w : World) :
  (forall m, reconnectTimer (f m) = reconnectTimer m
             /\ sendQueue (f m) = sendQueue m
             /\ reconnectAttempts (f m) = reconnectAttempts m) ->
  core_inv w -> core_inv (upd f w).
Proof.
  intros Hf (H1 & H2 & H3 & H4 & H5).
  destruct (Hf (this w)) as (E1 & E2 & E3).
  unfold core_inv, timers_fresh, timer_ids_unique, reconnect_tracked,
    queue_bounded, attempts_bounded, upd in *. cbn.
  rewrite E1, E2, E3. auto.
Qed.

Lemma core_updw (f : Window -> Window) (w : World) :
  (forall b, timers (f b) = timers b /\ nextTimer (f b) = nextTimer b) ->
  core_inv w -> core_inv (updw f w).
Proof.
  intros Hf (H1 & H2 & H3 & H4 & H5).
  destruct (Hf (win w)) as (E1 & E2).
  unfold core_inv, timers_fresh, timer_ids_unique, reconnect_tracked,
    queue_bounded, attempts_bounded, updw in *. cbn.
  rewrite E1, E2. auto.
Qed.

Lemma wp_upd (f : ChatWSManager -> ChatWSManager) (w : World) :
  (forall m, awaitingAuthResolve (f m) = awaitingAuthResolve m) ->
  waiter_pending w -> waiter_pending (upd f w).
Proof.
  intros Hf H. unfold waiter_pending, upd in *. cbn. rewrite Hf. exact H.
Qed.

Lemma wp_updw (f : Window -> Window) (w : World) :
  (forall b, waiters (f b) = waiters b) ->
  waiter_pending w -> waiter_pending (updw f w).
Proof.
  intros Hf H. unfold waiter_pending, updw in *. cbn. rewrite Hf. exact H.
Qed.

Lemma Inv_upd (f : ChatWSManager -> ChatWSManager) (w : World) :
  (forall m, reconnectTimer (f m) = reconnectTimer m
             /\ sendQueue (f m) = sendQueue m
             /\ reconnectAttempts (f m) = reconnectAttempts m
             /\ awaitingAuthResolve (f m) = awaitingAuthResolve m) ->
  Inv w -> Inv (upd f w).
Proof.
  intros Hf [Hc Hw]. split.
  - apply core_upd; [|exact Hc]. intros m. destruct (Hf m) as (?&?&?&?). auto.
  - apply wp_upd; [|exact Hw]. intros m. apply Hf.
Qed.

Lemma Inv_updw (f : Window -> Window) (w : World) :
  (forall b, timers (f b) = timers b /\ nextTimer (f b) = nextTimer b
             /\ waiters (f b) = waiters b) ->
  Inv w -> Inv (updw f w).
Proof.
  intros Hf [Hc Hw]. split.
  - apply core_updw; [|exact Hc]. intros b. destruct (Hf b) as (?&?&?). auto.
  - apply wp_updw; [|exact Hw]. intros b. apply Hf.
Qed.

Lemma Inv_add_timer (task : TimerTask) (d : Q) (w : World) :
  task <> ReconnectFire -> Inv w -> Inv (add_timer task d w).
Proof.
  intros Htask [(H1 & H2 & H3 & H4 & H5) Hw].
  unfold Inv, core_inv, timers_fresh, timer_ids_unique, reconnect_tracked,
    queue_bounded, attempts_bounded, waiter_pending, add_timer in *.
  world_simpl.
  repeat split; auto.
  - apply Forall_app. split.
    + eapply Forall_impl; [|exact H1]. cbn. intros t Ht. lia.
    + constructor; [cbn; lia|constructor].
  - rewrite map_app. cbn. apply NoDup_app;
      [exact H2|repeat constructor; intros []|].
    intros x Hx [Hx'|[]]. subst x.
    apply in_map_iff in Hx. destruct Hx as (t & Ht & Hin).
    rewrite Forall_forall in H1. specialize (H1 t Hin). lia.
  - intros t Hin Hrec. apply in_app_or in Hin. destruct Hin as [Hin|[Hin|[]]].
    + auto.
    + subst t. unfold is_reconnect in Hrec. cbn in Hrec.
      destruct task; try discriminate. congruence.
Qed.

Lemma Inv_clearTimer (id : TimerId) (w : World) : Inv w -> Inv (clearTimer id w).
Proof.
  intros [(H1 & H2 & H3 & H4 & H5) Hw].
  unfold Inv, core_inv, timers_fresh, timer_ids_unique, reconnect_tracked,
    queue_bounded, attempts_bounded, waiter_pending, clearTimer in *.
  world_simpl.
  repeat split; auto.
  - rewrite Forall_forall in *. intros t Ht. apply filter_In in Ht. apply H1, Ht.
  - clear - H2. induction (timers (win w)) as [|t l IH]; cbn in *; [constructor|].
    inversion H2; subst.
    destruct (negb (t_id t =? id)%positive); cbn; auto.
    constructor; auto.
    intros Hin. apply in_map_iff in Hin. destruct Hin as (t' & Ht' & Hin).
    apply filter_In in Hin. apply H1. apply in_map_iff. exists t'. tauto.
  - intros t Ht. apply filter_In in Ht. apply H3, Ht.
Qed.

Lemma Inv_emit (e : Event) (w : World) : Inv w -> Inv (emit e w).
Proof. apply Inv_updw. intro. repeat split; reflexivity. Qed.

Lemma Inv_tick (w : World) : Inv w -> Inv (tick w).
Proof. apply Inv_updw. intro. repeat split; reflexivity. Qed.

Lemma Inv_set_state (st : ConnectionState) (w : World) :
  Inv w -> Inv (set_state st w).
Proof.
  intros H. apply Inv_emit. apply Inv_upd; [|exact H].
  intro. repeat split; reflexivity.
Qed.

Lemma Inv_invoke (cb : option nat) (ev : nat -> Event) (w : World) :
  Inv w -> Inv (invoke cb ev w).
Proof. intros H. destruct cb; cbn; [apply Inv_emit|]; exact H. Qed.

Lemma Inv_set_sendQueue (q : list string) (w : World) :
  length q <= MAX_QUEUE -> Inv w -> Inv (upd (set_sendQueue q) w).
Proof.
  intros Hq [(H1 & H2 & H3 & H4 & H5) Hw].
  repeat split; auto.
Qed.

Lemma Inv_set_reconnectAttempts (n : nat) (w : World) :
  n <= 10 -> Inv w -> Inv (upd (set_reconnectAttempts n) w).
Proof.
  intros Hn [(H1 & H2 & H3 & H4 & H5) Hw].
  repeat split; auto.
Qed.

Lemma Inv_clear_slot (w : World) :
  Inv w -> Inv (upd (set_awaitingAuthResolve None) w).
Proof.
  intros [(H1 & H2 & H3 & H4 & H5) Hw].
  repeat split; auto. intros wid Hwid. discriminate.
Qed.

(** Dropping the recorded reconnection timer leaves no reconnection timer
    pending. *)
Lemma Inv_drop_reconnect (id : TimerId) (w : World) :
  Inv w -> reconnectTimer (this w) = Some id ->
  Inv (upd (set_reconnectTimer None) (clearTimer id w)).
Proof.
  intros HI Hid. pose proof (Inv_clearTimer id w HI) as HI'.
  destruct HI as [(_ & _ & H3 & _) _].
  destruct HI' as [(H1' & H2' & H3' & H4' & H5') Hw'].
  repeat split; auto.
  intros t Hin Hrec. exfalso.
  unfold clearTimer in Hin. world_simpl.
  apply filter_In in Hin. destruct Hin as [Hin Hne].
  specialize (H3 t Hin Hrec). rewrite Hid in H3. inversion H3; subst.
  rewrite Pos.eqb_refl in Hne. discriminate.
Qed.

Ltac inv_step :=
  lazymatch goal with
  | H : Inv ?w |- Inv ?w => exact H
  | |- Inv (emit _ _) => apply Inv_emit
  | |- Inv (tick _) => apply Inv_tick
  | |- Inv (set_state _ _) => apply Inv_set_state
  | |- Inv (invoke _ _ _) => apply Inv_invoke
  | |- Inv (clearTimer _ _) => apply Inv_clearTimer
  | |- Inv (add_timer _ _ _) => apply Inv_add_timer; [discriminate|]
  | |- Inv (upd (set_awaitingAuthResolve None) _) => apply Inv_clear_slot
  | |- Inv (upd (set_sendQueue _) _) => apply Inv_set_sendQueue; [cbn; lia|]
  | |- Inv (upd (set_reconnectAttempts _) _) =>
      apply Inv_set_reconnectAttempts; [lia|]
  | |- Inv (upd _ _) => apply Inv_upd; [intro; repeat split; reflexivity|]
  | |- Inv (updw _ _) => apply Inv_updw; [intro; repeat split; reflexivity|]
  end.

Lemma Inv_enqueue (p : string) (w : World) : Inv w -> Inv (enqueue p w).
Proof.
  intros H. rewrite enqueue_frame. apply Inv_set_sendQueue; [|exact H].
  rewrite sendQueue_enqueue_keep_last; [apply length_keep_last|].
  destruct H as [(_ & _ & _ & H4 & _) _]. exact H4.
Qed.

Lemma Inv_stopHeartbeat (w : World) : Inv w -> Inv (stopHeartbeat w).
Proof.
  intros H. unfold stopHeartbeat. destruct (heartbeatTimer (this w)); repeat inv_step.
Qed.

Lemma Inv_startHeartbeat (w : World) : Inv w -> Inv (startHeartbeat w).
Proof.
  intros H. unfold startHeartbeat, setTimer. inv_step. inv_step.
  apply Inv_stopHeartbeat, H.
Qed.

Lemma Inv_clearReconnectTimer (w : World) : Inv w -> Inv (clearReconnectTimer w).
Proof.
  intros H. unfold clearReconnectTimer.
  destruct (reconnectTimer (this w)) eqn:E; [|exact H].
  apply Inv_drop_reconnect; assumption.
Qed.

Section Preservation.

Variable P : Platform.

Lemma Inv_transport_send (p : string) (w : World) :
  Inv w -> Inv (fst (transport_send P p w)).
Proof.
  intros H. unfold transport_send.
  destruct (ws (this w)); [|exact H].
  destruct (send_throws P _); cbn; repeat inv_step.
Qed.

Lemma Inv_flush_loop (fuel : nat) :
  forall w, Inv w -> Inv (flush_loop P fuel w).
Proof.
  induction fuel as [|fuel IH]; intros w H; cbn [flush_loop]; [exact H|].
  destruct (sendQueue (this w)) as [|item rest] eqn:Eq; [exact H|].
  assert (H1 : Inv (upd (set_sendQueue rest) w)).
  { apply Inv_set_sendQueue; [|exact H].
    destruct H as [(_ & _ & _ & H4 & _) _]. unfold queue_bounded in H4.
    rewrite Eq in H4. cbn in H4. lia. }
  pose proof (Inv_transport_send item _ H1) as H2.
  destruct (transport_send P item (upd (set_sendQueue rest) w)) as [w2 ok].
  cbn in H2. destruct ok; [apply IH|]; exact H2.
Qed.

Lemma Inv_flushQueue (w : World) : Inv w -> Inv (flushQueue P w).
Proof.
  intros H. unfold flushQueue.
  destruct (negb (ws_is_open w) || negb (authorized (this w))); [exact H|].
  apply Inv_flush_loop, H.
Qed.

Lemma Inv_heartbeat_tick (w : World) : Inv w -> Inv (heartbeat_tick P w).
Proof.
  intros H. unfold heartbeat_tick. destruct (ws_is_open w); [|exact H].
  apply Inv_transport_send. inv_step. exact H.
Qed.

Lemma Inv_scheduleReconnect (w : World) : Inv w -> Inv (scheduleReconnect P w).
Proof.
  intros H. unfold scheduleReconnect.
  destruct (explicitlyClosed (this w)); [exact H|].
  destruct (negb _ || negb _); [exact H|].
  destruct (reconnectTimer (this w)) eqn:Et; [exact H|].
  unfold setTimer.
  set (d := Number.add _ _). clearbody d.
  set (a := Nat.min _ 10). assert (Ha : a <= 10) by (unfold a; lia). clearbody a.
  destruct H as [(H1 & H2 & H3 & H4 & H5) Hw].
  unfold Inv, core_inv, timers_fresh, timer_ids_unique, reconnect_tracked,
    queue_bounded, attempts_bounded, waiter_pending, add_timer in *.
  world_simpl.
  repeat split; auto.
  - apply Forall_app. split.
    + eapply Forall_impl; [|exact H1]. cbn. intros t Ht. lia.
    + constructor; [cbn; lia|constructor].
  - rewrite map_app. cbn. apply NoDup_app;
      [exact H2|repeat constructor; intros []|].
    intros x Hx [Hx'|[]]. subst x.
    apply in_map_iff in Hx. destruct Hx as (t & Ht & Hin).
    rewrite Forall_forall in H1. specialize (H1 t Hin). lia.
  - intros t Hin Hrec. apply in_app_or in Hin. destruct Hin as [Hin|[Hin|[]]].
    + specialize (H3 t Hin Hrec). rewrite Et in H3. discriminate.
    + subst t. reflexivity.
Qed.

Lemma Inv_sendAuthorization (w : World) : Inv w -> Inv (sendAuthorization P w).
Proof.
  intros H. unfold sendAuthorization.
  destruct (getItem _ _); [|exact H].
  destruct (_ =? _)%string; [exact H|].
  destruct (JSON_parse P _); [|exact H].
  destruct (Js.opt_get _ _); [|exact H].
  destruct (negb _); [exact H|].
  destruct (ws (this w)); [|exact H].
  destruct (template_throws _); [exact H|].
  apply Inv_transport_send, H.
Qed.

Lemma Inv_close (w : World) : Inv w -> Inv (close P w).
Proof.
  intros H. unfold close. cbv zeta.
  do 2 inv_step. apply Inv_clearReconnectTimer. inv_step.
  assert (H2 : Inv (stopHeartbeat (upd (set_explicitlyClosed true) w)))
    by (apply Inv_stopHeartbeat; inv_step; exact H).
  destruct (ws (this _)); repeat inv_step.
Qed.

Lemma Inv_connect (w : World) : Inv w -> Inv (connect P w).
Proof.
  intros H. unfold connect.
  destruct (negb _ || negb _); [exact H|].
  destruct (usable w && sameTarget w); [exact H|].
  assert (H1 : Inv (if usable w then close P w else w))
    by (destruct (usable w); [apply Inv_close|]; exact H).
  set (w1 := if usable w then close P w else w) in *. clearbody w1.
  destruct (ConnectionState_eqb (state (this w1)) connecting); [exact H1|].
  cbv zeta.
  destruct (WebSocket_throws P _ _).
  - apply Inv_scheduleReconnect. repeat inv_step.
  - repeat inv_step.
Qed.

Lemma Inv_settle (wid : nat) (v : bool) (w : World) :
  Inv w -> awaitingAuthResolve (this w) = None -> Inv (settle wid v w).
Proof.
  intros [Hc Hw] Hslot. unfold settle. split.
  - apply core_updw; [intro; split; reflexivity|].
    apply core_updw; [intro; split; reflexivity|]. exact Hc.
  - intros wid' Hwid'. cbn in Hwid'. congruence.
Qed.

Lemma Inv_auth_timeout (wid : nat) (w : World) :
  Inv w -> Inv (auth_timeout wid w).
Proof.
  intros H. unfold auth_timeout.
  destruct (nth_error _ _) as [wt|]; [|exact H].
  destruct (settled wt); [exact H|].
  apply Inv_settle; [|reflexivity]. inv_step. exact H.
Qed.

Lemma Inv_resolve_waiter (w : World) : Inv w -> Inv (resolve_waiter w).
Proof.
  intros H. unfold resolve_waiter.
  destruct (awaitingAuthResolve (this w)) as [wid|]; [|exact H].
  unfold call_resolver.
  destruct (nth_error _ _) as [wt|]; [|inv_step; exact H].
  destruct (settled wt); [inv_step; exact H|].
  pose proof (Inv_clearTimer (w_timer wt) w H) as [Hc Hw].
  split.
  - apply core_upd; [intro; repeat split; reflexivity|].
    unfold settle.
    apply core_updw; [intro; split; reflexivity|].
    apply core_updw; [intro; split; reflexivity|]. exact Hc.
  - intros wid' Hwid'. discriminate.
Qed.

Lemma Inv_ensureAuthorized (t : Q) (w : World) :
  Inv w -> Inv (fst (ensureAuthorized P t w)).
Proof.
  intros H. unfold ensureAuthorized.
  destruct (ws_is_open w && authorized (this w)); [exact H|].
  assert (H1 : Inv (if negb (ws_is_open w) then connect P w else w))
    by (destruct (negb (ws_is_open w)); [apply Inv_connect|]; exact H).
  set (w1 := if negb (ws_is_open w) then connect P w else w) in *. clearbody w1.
  destruct (authorized (this w1)); [exact H1|].
  unfold setTimer. cbn [fst].
  pose proof (Inv_add_timer (AuthTimeout (length (waiters (win w1)))) t w1
                ltac:(discriminate) H1) as [Hc Hw].
  split.
  - apply core_upd; [intro; repeat split; reflexivity|].
    apply core_updw; [intro; split; reflexivity|]. exact Hc.
  - intros wid Hwid. cbn in Hwid. injection Hwid as <-.
    exists (mkWaiter false (nextTimer (win w1)) None). split; [|reflexivity].
    cbn. rewrite nth_error_app2 by lia. rewrite Nat.sub_diag. reflexivity.
Qed.

Lemma Inv_send (d : SendArg) (w : World) : Inv w -> Inv (send P d w).
Proof.
  intros H. unfold send.
  destruct (ws_is_open w && authorized (this w)).
  - pose proof (Inv_transport_send (serialize P d) w H) as H1.
    destruct (transport_send P (serialize P d) w) as [w1 ok]. cbn in H1.
    destruct ok; [exact H1|apply Inv_enqueue, H1].
  - apply Inv_connect, Inv_enqueue, H.
Qed.

Lemma Inv_updateSessionContext (u s : string) (a : bool) (w : World) :
  Inv w -> Inv (updateSessionContext P u s a w).
Proof.
  intros H. unfold updateSessionContext. cbv zeta.
  set (w1 := upd (set_isAssistantMode a) _).
  assert (H1 : Inv w1) by (unfold w1; repeat inv_step).
  clearbody w1.
  destruct (ws (this w1)); [|exact H1].
  destruct (_ && _); [apply Inv_close|]; exact H1.
Qed.

Lemma Inv_ws_onopen (w : World) : Inv w -> Inv (ws_onopen P w).
Proof.
  intros H. unfold ws_onopen. cbv zeta.
  apply Inv_sendAuthorization, Inv_invoke, Inv_startHeartbeat.
  repeat inv_step.
Qed.

Lemma Inv_ws_onmessage (data : string) (w : World) :
  Inv w -> Inv (ws_onmessage P data w).
Proof.
  intros H. unfold ws_onmessage, forward.
  destruct (JSON_parse P data) as [d|]; [|apply Inv_invoke, H].
  destruct (Js.truthy d && Js.type_is d "auth_success").
  - apply Inv_resolve_waiter.
    destruct (negb (authorized (this w))).
    + apply Inv_invoke, Inv_flushQueue. inv_step. exact H.
    + inv_step. exact H.
  - destruct (Js.truthy d && Js.type_is d "pong"); [exact H|].
    apply Inv_invoke.
    destruct (Js.truthy d && business_type d); [|exact H].
    destruct (negb (authorized (this w))); [|exact H].
    apply Inv_resolve_waiter, Inv_invoke, Inv_flushQueue. inv_step. exact H.
Qed.

Lemma Inv_ws_onclose (w : World) : Inv w -> Inv (ws_onclose P w).
Proof.
  intros H. unfold ws_onclose. cbv zeta.
  assert (H1 : Inv (invoke (onClose (callbacks (this (stopHeartbeat (set_state closed w)))))
                      CallOnClose (stopHeartbeat (set_state closed w))))
    by (apply Inv_invoke, Inv_stopHeartbeat, Inv_set_state, H).
  destruct (negb _); [apply Inv_scheduleReconnect|]; exact H1.
Qed.

Lemma Inv_fire_timer (id : TimerId) (w : World) :
  Inv w -> Inv (fire_timer P id w).
Proof.
  intros H. unfold fire_timer.
  destruct (find _ _) as [t|] eqn:Ef; [|exact H].
  apply find_some in Ef. destruct Ef as [Hin Hid].
  apply Pos.eqb_eq in Hid.
  destruct (t_task t) eqn:Et.
  - apply Inv_heartbeat_tick, H.
  - apply Inv_connect, Inv_drop_reconnect; [exact H|].
    destruct H as [(_ & _ & H3 & _) _].
    rewrite <- Hid. apply H3; [exact Hin|].
    unfold is_reconnect. rewrite Et. reflexivity.
  - apply Inv_auth_timeout, Inv_clearTimer, H.
Qed.

Lemma Inv_exec (o : Op) (w : World) : Inv w -> Inv (exec P o w).
Proof.
  intros H. destruct o; cbn [exec].
  - unfold setCallbacks. inv_step. exact H.
  - apply Inv_updateSessionContext, H.
  - apply Inv_connect, H.
  - apply Inv_close, H.
  - apply Inv_ensureAuthorized, H.
  - apply Inv_send, H.
  - unfold set_readyState. destruct (ws (this w)); [inv_step|]; exact H.
  - apply Inv_ws_onopen, H.
  - apply Inv_ws_onmessage, H.
  - apply Inv_ws_onclose, H.
  - unfold ws_onerror. apply Inv_invoke, H.
  - apply Inv_fire_timer, H.
  - inv_step. exact H.
Qed.

Lemma Inv_run (ops : list Op) : forall w, Inv w -> Inv (run P ops w).
Proof.
  induction ops as [|o ops IH]; intros w H; [exact H|].
  apply IH, Inv_exec, H.
Qed.

Lemma Inv_initial (storage : list (string * string)) : Inv (initial storage).
Proof.
  split; [split; [|split; [|split; [|split]]]|].
  - constructor.
  - constructor.
  - intros t [].
  - unfold queue_bounded, MAX_QUEUE. cbn. lia.
  - unfold attempts_bounded. cbn. lia.
  - intros wid Hwid. discriminate.
Qed.

Lemma reachable_Inv (w : World) : reachable P w -> Inv w.
Proof.
  intros (storage & ops & ->). apply Inv_run, Inv_initial.
Qed.

End Preservation.

(** ** Explicit close switches reconnection off *)

Lemma sup_upd (f : ChatWSManager -> ChatWSManager) (w : World) :
  (forall m, explicitlyClosed (f m) = explicitlyClosed m
             /\ reconnectTimer (f m) = reconnectTimer m) ->
  suppressed w -> suppressed (upd f w).
Proof.
  intros Hf (H1 & H2 & H3). destruct (Hf (this w)) as [E1 E2].
  unfold suppressed, pending_reconnects, upd in *. cbn. rewrite E1, E2. auto.
Qed.

Lemma sup_updw (f : Window -> Window) (w : World) :
  (forall b, timers (f b) = timers b) ->
  suppressed w -> suppressed (updw f w).
Proof.
  intros Hf (H1 & H2 & H3).
  unfold suppressed, pending_reconnects, updw in *. cbn. rewrite Hf. auto.
Qed.

Lemma sup_add_timer (task : TimerTask) (d : Q) (w : World) :
  task <> ReconnectFire -> suppressed w -> suppressed (add_timer task d w).
Proof.
  intros Ht (H1 & H2 & H3).
  unfold suppressed, pending_reconnects, add_timer in *. world_simpl.
  repeat split; auto. rewrite filter_app, H3. cbn.
  unfold is_reconnect. cbn. destruct task; try reflexivity. congruence.
Qed.

Lemma filter_filter_nil {A} (f g : A -> bool) (l : list A) :
  filter f l = [] -> filter f (filter g l) = [].
Proof.
  induction l as [|x l IH]; cbn; [reflexivity|].
  destruct (f x) eqn:Ef; [discriminate|].
  intros H. destruct (g x); cbn; [rewrite Ef|]; auto.
Qed.

Lemma sup_clearTimer (id : TimerId) (w : World) :
  suppressed w -> suppressed (clearTimer id w).
Proof.
  intros (H1 & H2 & H3).
  unfold suppressed, pending_reconnects, clearTimer in *. world_simpl.
  repeat split; auto. apply filter_filter_nil, H3.
Qed.

Ltac sup_step :=
  lazymatch goal with
  | H : suppressed ?w |- suppressed ?w => exact H
  | |- suppressed (emit _ _) => apply sup_updw; [intro; reflexivity|]
  | |- suppressed (tick _) => apply sup_updw; [intro; reflexivity|]
  | |- suppressed (set_state _ _) => unfold set_state
  | |- suppressed (invoke ?cb _ _) => destruct cb; cbn [invoke]
  | |- suppressed (clearTimer _ _) => apply sup_clearTimer
  | |- suppressed (add_timer _ _ _) => apply sup_add_timer; [discriminate|]
  | |- suppressed (upd _ _) => apply sup_upd; [intro; split; reflexivity|]
  | |- suppressed (updw _ _) => apply sup_updw; [intro; reflexivity|]
  end.

Lemma sup_stopHeartbeat (w : World) : suppressed w -> suppressed (stopHeartbeat w).
Proof.
  intros H. unfold stopHeartbeat. destruct (heartbeatTimer (this w)); repeat sup_step.
Qed.

Lemma sup_startHeartbeat (w : World) : suppressed w -> suppressed (startHeartbeat w).
Proof.
  intros H. unfold startHeartbeat, setTimer. do 2 sup_step.
  apply sup_stopHeartbeat, H.
Qed.

Lemma sup_settle (wid : nat) (v : bool) (w : World) :
  suppressed w -> suppressed (settle wid v w).
Proof. intros H. unfold settle. repeat sup_step. Qed.

Lemma sup_auth_timeout (wid : nat) (w : World) :
  suppressed w -> suppressed (auth_timeout wid w).
Proof.
  intros H. unfold auth_timeout. destruct (nth_error _ _) as [wt|]; [|exact H].
  destruct (settled wt); [exact H|]. apply sup_settle. sup_step. exact H.
Qed.

Lemma sup_resolve_waiter (w : World) :
  suppressed w -> suppressed (resolve_waiter w).
Proof.
  intros H. unfold resolve_waiter, call_resolver.
  destruct (awaitingAuthResolve (this w)); [|exact H]. sup_step.
  destruct (nth_error _ _) as [wt|]; [|exact H].
  destruct (settled wt); [exact H|]. apply sup_settle. sup_step. exact H.
Qed.

Section Suppression.

Variable P : Platform.

Lemma sup_transport_send (p : string) (w : World) :
  suppressed w -> suppressed (fst (transport_send P p w)).
Proof.
  intros H. unfold transport_send. destruct (ws (this w)); [|exact H].
  destruct (send_throws P _); cbn; repeat sup_step.
Qed.

Lemma sup_flushQueue (w : World) : suppressed w -> suppressed (flushQueue P w).
Proof.
  intros H. destruct (flushQueue_shape P w) as (id & done & failed & rest & Heq & _).
  rewrite Heq. exact H.
Qed.

Lemma sup_heartbeat_tick (w : World) :
  suppressed w -> suppressed (heartbeat_tick P w).
Proof.
  intros H. unfold heartbeat_tick. destruct (ws_is_open w); [|exact H].
  apply sup_transport_send. sup_step. exact H.
Qed.

Lemma sup_sendAuthorization (w : World) :
  suppressed w -> suppressed (sendAuthorization P w).
Proof.
  intros H. unfold sendAuthorization.
  destruct (getItem _ _); [|exact H].
  destruct (_ =? _)%string; [exact H|].
  destruct (JSON_parse P _); [|exact H].
  destruct (Js.opt_get _ _); [|exact H].
  destruct (negb _); [exact H|].
  destruct (ws (this w)); [|exact H].
  destruct (template_throws _); [exact H|].
  apply sup_transport_send, H.
Qed.

(** On a world where the only pending reconnection timer is the recorded
    one, [close] switches reconnection off. *)
Lemma close_suppresses (w : World) : Inv w -> suppressed (close P w).
Proof.
  intros HI.
  assert (E : explicitlyClosed (this (close P w)) = true
              /\ reconnectTimer (this (close P w)) = None)
    by (rewrite close_eq; split; reflexivity).
  destruct E as [E1 E2].
  pose proof (Inv_close P w HI) as Hc.
  split; [exact E1|]. split; [exact E2|].
  destruct Hc as [(_ & _ & H3 & _) _].
  unfold pending_reconnects.
  destruct (filter is_reconnect (timers (win (close P w)))) as [|t l] eqn:Ef;
    [reflexivity|].
  assert (Hin : In t (filter is_reconnect (timers (win (close P w)))))
    by (rewrite Ef; left; reflexivity).
  apply filter_In in Hin. destruct Hin as [Hin Hrec].
  specialize (H3 t Hin Hrec). congruence.
Qed.

Lemma sup_close (w : World) : suppressed w -> suppressed (close P w).
Proof.
  intros H. unfold close, clearReconnectTimer. cbv zeta.
  do 2 sup_step.
  set (w4 := set_state closed _).
  assert (H4 : suppressed w4).
  { unfold w4. repeat sup_step.
    assert (H2 : suppressed (stopHeartbeat (upd (set_explicitlyClosed true) w))).
    { apply sup_stopHeartbeat. destruct H as (H1 & H2 & H3).
      repeat split; auto. }
    destruct (ws (this _)); repeat sup_step. }
  destruct H4 as (H41 & H42 & H43). rewrite H42. repeat split; auto.
Qed.

Lemma sup_updateSessionContext (u s : string) (a : bool) (w : World) :
  suppressed w -> suppressed (updateSessionContext P u s a w).
Proof.
  intros H. unfold updateSessionContext. cbv zeta.
  set (w1 := upd (set_isAssistantMode a) _).
  assert (H1 : suppressed w1) by (unfold w1; repeat sup_step).
  clearbody w1.
  destruct (ws (this w1)); [|exact H1].
  destruct (_ && _); [apply sup_close|]; exact H1.
Qed.

Lemma sup_ws_onopen (w : World) : suppressed w -> suppressed (ws_onopen P w).
Proof.
  intros H. unfold ws_onopen. cbv zeta.
  apply sup_sendAuthorization.
  assert (H3 : suppressed (startHeartbeat (upd (set_reconnectAttempts 0) (set_state open w)))).
  { apply sup_startHeartbeat. repeat sup_step. }
  repeat sup_step.
Qed.

Lemma sup_ws_onmessage (data : string) (w : World) :
  suppressed w -> suppressed (ws_onmessage P data w).
Proof.
  intros H. unfold ws_onmessage, forward.
  assert (Ha : suppressed (flushQueue P (upd (set_authorized true) w)))
    by (apply sup_flushQueue; sup_step; exact H).
  destruct (JSON_parse P data) as [d|]; [|repeat sup_step].
  destruct (Js.truthy d && Js.type_is d "auth_success").
  - apply sup_resolve_waiter.
    destruct (negb (authorized (this w))); repeat sup_step.
  - destruct (Js.truthy d && Js.type_is d "pong"); [exact H|].
    assert (Hb : suppressed
                   (if Js.truthy d && business_type d
                    then if negb (authorized (this w))
                         then resolve_waiter
                                (invoke (onAuthSuccess (callbacks (this (flushQueue P (upd (set_authorized true) w)))))
                                   CallOnAuthSuccess (flushQueue P (upd (set_authorized true) w)))
                         else w
                    else w)).
    { destruct (Js.truthy d && business_type d); [|exact H].
      destruct (negb (authorized (this w))); [|exact H].
      apply sup_resolve_waiter. repeat sup_step. }
    repeat sup_step.
Qed.

(** A transport close event after an explicit close schedules nothing. *)
Lemma sup_ws_onclose (w : World) : suppressed w -> suppressed (ws_onclose P w).
Proof.
  intros H. unfold ws_onclose. cbv zeta.
  set (w3 := invoke _ _ _).
  assert (H3 : suppressed w3).
  { unfold w3.
    assert (H2 : suppressed (stopHeartbeat (set_state closed w)))
      by (apply sup_stopHeartbeat; repeat sup_step).
    repeat sup_step. }
  destruct H3 as (H31 & H32 & H33). rewrite H31. cbn. repeat split; auto.
Qed.

Lemma sup_fire_timer (id : TimerId) (w : World) :
  suppressed w -> suppressed (fire_timer P id w).
Proof.
  intros H. unfold fire_timer.
  destruct (find _ _) as [t|] eqn:Ef; [|exact H].
  apply find_some in Ef. destruct Ef as [Hin _].
  destruct (t_task t) eqn:Et.
  - apply sup_heartbeat_tick, H.
  - exfalso. destruct H as (_ & _ & H3). unfold pending_reconnects in H3.
    assert (Hf : In t (filter is_reconnect (timers (win w)))).
    { apply filter_In. split; [exact Hin|]. unfold is_reconnect. rewrite Et.
      reflexivity. }
    rewrite H3 in Hf. exact Hf.
  - apply sup_auth_timeout, sup_clearTimer, H.
Qed.

Lemma sup_exec (o : Op) (w : World) :
  no_connect o = true -> suppressed w -> suppressed (exec P o w).
Proof.
  intros Hq H. destruct o; cbn [exec]; try discriminate.
  - unfold setCallbacks. sup_step. exact H.
  - apply sup_updateSessionContext, H.
  - apply sup_close, H.
  - unfold set_readyState. destruct (ws (this w)); [sup_step|]; exact H.
  - apply sup_ws_onopen, H.
  - apply sup_ws_onmessage, H.
  - apply sup_ws_onclose, H.
  - unfold ws_onerror. repeat sup_step.
  - apply sup_fire_timer, H.
  - sup_step. exact H.
Qed.

Lemma sup_run (ops : list Op) :
  forall w, forallb no_connect ops = true -> suppressed w ->
            suppressed (run P ops w).
Proof.
  induction ops as [|o ops IH]; intros w Hq H; [exact H|].
  cbn in Hq. apply andb_prop in Hq. destruct Hq as [Ho Hops].
  apply IH; [exact Hops|]. apply sup_exec; assumption.
Qed.

End Suppression.

(** ** [connect] *)

Lemma scheduleReconnect_frame (P : Platform) (w : World) :
  state (this (scheduleReconnect P w)) = state (this w)
  /\ log (win (scheduleReconnect P w)) = log (win w).
Proof.
  unfold scheduleReconnect.
  destruct (explicitlyClosed _); [auto|].
  destruct (negb _ || negb _); [auto|].
  destruct (reconnectTimer _); auto.
Qed.

Lemma transports_created_app (l r : list Event) :
  transports_created (l ++ r) = transports_created l + transports_created r.
Proof. unfold transports_created. rewrite filter_app, length_app. reflexivity. Qed.

Lemma transports_created_close (P : Platform) (w : World) :
  transports_created (log (win (close P w))) = transports_created (log (win w)).
Proof.
  rewrite close_eq. cbn [win log]. rewrite !transports_created_app.
  destruct (ws (this w)); cbn; lia.
Qed.

(** ** Transport open *)

Lemma startHeartbeat_eq (w : World) :
  startHeartbeat w =
  mkWorld (set_heartbeatTimer (Some (nextTimer (win w))) (this w))
          (set_nextTimer (Pos.succ (nextTimer (win w)))
             (set_timers
                (drop_timer (heartbeatTimer (this w)) (timers (win w))
                   ++ [mkTimer (nextTimer (win w)) HeartbeatTick (inject_Z 25000)])
                (win w))).
Proof.
  unfold startHeartbeat, setTimer. rewrite stopHeartbeat_eq.
  destruct w as [m b]. destruct m, b. reflexivity.
Qed.

Lemma opt_get_Some (v : JsValue) (k : string) :
  Js.opt_get (Some v) k = Js.get v k.
Proof. destruct v; reflexivity. Qed.

Lemma invoke_eq (cb : option nat) (ev : nat -> Event) (w : World) :
  invoke cb ev w =
  mkWorld (this w) (set_log (log (win w) ++ call_events cb ev) (win w)).
Proof.
  destruct w as [m b]. destruct b. destruct cb; cbn; unfold emit, updw; cbn;
    rewrite ?app_nil_r; reflexivity.
Qed.

(** [sendAuthorization] hands at most one frame to the transport and
    changes nothing else. *)
Lemma sendAuthorization_shape (P : Platform) (w : World) :
  exists frames,
    sendAuthorization P w =
    mkWorld (this w)
            (set_log (log (win w) ++ frames)
               (set_calls (calls (win w) + length frames) (win w)))
    /\ length frames <= 1.
Proof.
  assert (Hnone : exists frames,
             w = mkWorld (this w)
                   (set_log (log (win w) ++ frames)
                      (set_calls (calls (win w) + length frames) (win w)))
             /\ length frames <= 1).
  { exists []. split; [|cbn; lia]. destruct w as [m b]. destruct b. cbn.
    rewrite app_nil_r, Nat.add_0_r. reflexivity. }
  unfold sendAuthorization.
  destruct (getItem _ _); [|exact Hnone].
  destruct (_ =? _)%string; [exact Hnone|].
  destruct (JSON_parse P _); [|exact Hnone].
  destruct (Js.opt_get _ _) as [token|]; [|exact Hnone].
  destruct (negb _); [exact Hnone|].
  destruct (ws (this w)) as [sock|] eqn:Hs; [|exact Hnone].
  destruct (template_throws _); [exact Hnone|].
  unfold transport_send. rewrite Hs.
  destruct (send_throws P _); cbn [fst];
    eexists [_]; (split; [|cbn; lia]);
    destruct w as [m b]; destruct b; cbn; rewrite Nat.add_1_r; reflexivity.
Qed.

Lemma sendAuthorization_sends (P : Platform) (w : World)
      (raw : string) (authData st token : JsValue) (s : WebSocket) :
  getItem "auth-storage" (localStorage (win w)) = Some raw ->
  raw <> "" ->
  JSON_parse P raw = Some authData ->
  Js.get authData "state" = Some st ->
  Js.get st "token" = Some token ->
  Js.truthy token = true ->
  template_throws token = false ->
  ws (this w) = Some s ->
  send_throws P (calls (win w)) = false ->
  sendAuthorization P w =
  emit (Sent (sock_id s) (JSON_stringify P (authorization_frame P token))) (tick w).
Proof.
  intros Hraw Hne Hparse Hst Htok Htruthy Hconv Hs Hok.
  unfold sendAuthorization. rewrite Hraw.
  apply String.eqb_neq in Hne. rewrite Hne, Hparse.
  rewrite opt_get_Some, Hst, opt_get_Some, Htok, Htruthy. cbn [negb].
  rewrite Hs, Hconv. unfold transport_send. rewrite Hs, Hok. reflexivity.
Qed.

(** A token whose conversion to a string throws is swallowed by the
    [catch]: nothing is sent. *)
Lemma sendAuthorization_swallows (P : Platform) (w : World)
      (raw : string) (authData st token : JsValue) :
  getItem "auth-storage" (localStorage (win w)) = Some raw ->
  raw <> "" ->
  JSON_parse P raw = Some authData ->
  Js.get authData "state" = Some st ->
  Js.get st "token" = Some token ->
  template_throws token = true ->
  sendAuthorization P w = w.
Proof.
  intros Hraw Hne Hparse Hst Htok Hconv.
  unfold sendAuthorization. rewrite Hraw.
  apply String.eqb_neq in Hne. rewrite Hne, Hparse.
  rewrite opt_get_Some, Hst, opt_get_Some, Htok.
  destruct (negb _); [reflexivity|].
  destruct (ws (this w)); [|reflexivity]. rewrite Hconv. reflexivity.
Qed.

Lemma sendAuthorization_nothing (P : Platform) (w : World) :
  getItem "auth-storage" (localStorage (win w)) = None
  \/ (exists raw, getItem "auth-storage" (localStorage (win w)) = Some raw
                  /\ (raw = "" \/ JSON_parse P raw = None
                      \/ exists authData,
                          JSON_parse P raw = Some authData
                          /\ Js.truthy_opt
                               (Js.opt_get (Js.get authData "state") "token")
                             = false))
  \/ ws (this w) = None ->
  sendAuthorization P w = w.
Proof.
  unfold sendAuthorization.
  intros [H|[(raw & Hraw & H)|H]].
  - rewrite H. reflexivity.
  - rewrite Hraw. destruct H as [H|[H|(authData & Hp & H)]].
    + subst raw. reflexivity.
    + destruct (_ =? _)%string; [reflexivity|]. rewrite H. reflexivity.
    + destruct (_ =? _)%string; [reflexivity|]. rewrite Hp, opt_get_Some.
      destruct (Js.opt_get _ _); [|reflexivity]. cbn in H. rewrite H. reflexivity.
  - destruct (getItem _ _); [|reflexivity].
    destruct (_ =? _)%string; [reflexivity|].
    destruct (JSON_parse P _); [|reflexivity].
    destruct (Js.opt_get _ _); [|reflexivity].
    destruct (negb _); [reflexivity|]. rewrite H. reflexivity.
Qed.

(** ** Authorization gate *)

Lemma auth_success_calls_app (l r : list Event) :
  auth_success_calls (l ++ r) = auth_success_calls l + auth_success_calls r.
Proof. unfold auth_success_calls. rewrite filter_app, length_app. reflexivity. Qed.

Lemma forwarded_app (l r : list Event) :
  forwarded (l ++ r) = forwarded l ++ forwarded r.
Proof. unfold forwarded. apply flat_map_app. Qed.

Lemma sent_payloads_app (l r : list Event) :
  sent_payloads (l ++ r) = sent_payloads l ++ sent_payloads r.
Proof. unfold sent_payloads. apply flat_map_app. Qed.

(** The events of a flush are neither callback invocations nor
    resolutions. *)
Lemma flush_events_silent (id : nat) (l : list string) :
  auth_success_calls (map (Sent id) l) = 0
  /\ forwarded (map (Sent id) l) = []
  /\ auth_success_calls (map (SendThrew id) l) = 0
  /\ forwarded (map (SendThrew id) l) = [].
Proof.
  unfold auth_success_calls, forwarded.
  induction l as [|p l (IH1 & IH2 & IH3 & IH4)]; cbn; auto.
Qed.

Lemma nth_error_update_nth {A} (f : A -> A) (l : list A) :
  forall n x, nth_error l n = Some x ->
              nth_error (update_nth n f l) n = Some (f x).
Proof.
  induction l as [|y l IH]; intros [|n] x H; cbn in *; try discriminate.
  - inversion H. reflexivity.
  - apply IH, H.
Qed.

(** What [resolve_waiter] leaves alone, and what it does to the slot. *)
Lemma resolve_waiter_frame (w : World) :
  this (resolve_waiter w) = set_awaitingAuthResolve None (this w)
  /\ auth_success_calls (log (win (resolve_waiter w))) =
     auth_success_calls (log (win w))
  /\ forwarded (log (win (resolve_waiter w))) = forwarded (log (win w))
  /\ sent_payloads (log (win (resolve_waiter w))) = sent_payloads (log (win w))
  /\ slot_resolved true w (resolve_waiter w).
Proof.
  unfold resolve_waiter, call_resolver, slot_resolved.
  destruct (awaitingAuthResolve (this w)) as [wid|] eqn:Eslot.
  - destruct (nth_error (waiters (win w)) wid) as [wt|] eqn:Ewt.
    + destruct (settled wt) eqn:Eset.
      * repeat match goal with |- _ /\ _ => split end; try reflexivity.
        intros wid' wt' H1 H2 H3. congruence.
      * unfold settle, clearTimer, emit, updw. record_cbn.
        rewrite auth_success_calls_app, forwarded_app, sent_payloads_app. cbn.
        rewrite Nat.add_0_r, !app_nil_r.
        repeat match goal with |- _ /\ _ => split end; try reflexivity.
        intros wid' wt' H1 H2 H3. inversion H1; subst wid'.
        rewrite Ewt in H2. inversion H2; subst wt'.
        split;
          [exact (nth_error_update_nth
                    (fun x => mkWaiter true (w_timer x) (Some true)) _ _ _ Ewt)|].
        split; [apply in_or_app; right; left; reflexivity|].
        apply (drop_timer_absent (w_timer wt) (timers (win w))).
    + repeat match goal with |- _ /\ _ => split end; try reflexivity.
      intros wid' wt' H1 H2 H3. congruence.
  - repeat match goal with |- _ /\ _ => split end; try reflexivity.
    + destruct w as [m b]. destruct m. cbn in *. subst. reflexivity.
    + intros wid' wt' H1. discriminate.
Qed.

Lemma type_is_truthy (d : JsValue) (t : string) :
  Js.type_is d t = true -> Js.truthy d = true.
Proof. destruct d; cbn; intros H; try discriminate; reflexivity. Qed.

Lemma business_type_exclusive (d : JsValue) :
  business_type d = true ->
  Js.type_is d "auth_success" = false /\ Js.type_is d "pong" = false.
Proof.
  unfold business_type, Js.type_is.
  destruct (Js.get d "type") as [[| | |s| |]|]; try discriminate.
  intros H.
  repeat (apply orb_prop in H; destruct H as [H|H]);
    apply String.eqb_eq in H; subst s; split; reflexivity.
Qed.

Section Gate.

Variable P : Platform.

Lemma flushQueue_callbacks (w : World) :
  callbacks (this (flushQueue P w)) = callbacks (this w).
Proof.
  destruct (flushQueue_shape P w) as (id & done & failed & rest & Heq & _).
  rewrite Heq. reflexivity.
Qed.

Lemma authorize_summary (w : World) :
  authorized (this (authorize P w)) = true
  /\ awaitingAuthResolve (this (authorize P w)) = None
  /\ forwarded (log (win (authorize P w))) = forwarded (log (win w))
  /\ auth_success_calls (log (win (authorize P w))) =
     auth_success_calls (log (win w))
     + length (call_events (onAuthSuccess (callbacks (this w))) CallOnAuthSuccess)
  /\ slot_resolved true w (authorize P w)
  /\ callbacks (this (authorize P w)) = callbacks (this w).
Proof.
  unfold authorize.
  destruct (flushQueue_shape P (upd (set_authorized true) w))
    as (id & done & failed & rest & Heq & _).
  rewrite Heq, invoke_eq.
  set (x := mkWorld _ _).
  destruct (resolve_waiter_frame x) as (Hthis & Hcalls & Hfwd & _ & Hslot).
  rewrite Hthis, Hcalls, Hfwd. unfold x, flushed, upd. record_cbn.
  destruct (flush_events_silent id done) as (D1 & D2 & _ & _).
  destruct (flush_events_silent id failed) as (_ & _ & F1 & F2).
  rewrite !auth_success_calls_app, !forwarded_app, D1, D2, F1, F2.
  repeat match goal with |- _ /\ _ => split end; try reflexivity.
  - cbn. destruct (onAuthSuccess _); cbn; rewrite ?app_nil_r; reflexivity.
  - destruct (onAuthSuccess _); cbn; lia.
  - intros wid wt H1 H2 H3. apply (Hslot wid wt); assumption.
Qed.

Lemma ws_onmessage_auth_success (data : string) (d : JsValue) (w : World) :
  JSON_parse P data = Some d ->
  Js.type_is d "auth_success" = true ->
  ws_onmessage P data w =
  if authorized (this w) then resolve_waiter w else authorize P w.
Proof.
  intros Hp Hty. pose proof (type_is_truthy d _ Hty) as Ht.
  unfold ws_onmessage, authorize.
  rewrite Hp, Ht, Hty. cbn [andb].
  destruct (authorized (this w)) eqn:Ea; cbn [negb].
  - f_equal. destruct w as [m b]. destruct m. cbn in *. subst. reflexivity.
  - rewrite flushQueue_callbacks. reflexivity.
Qed.

Lemma business_type_truthy (d : JsValue) :
  business_type d = true -> Js.truthy d = true.
Proof.
  unfold business_type. intros H.
  repeat (apply orb_prop in H; destruct H as [H|H]);
    exact (type_is_truthy d _ H).
Qed.

Lemma ws_onmessage_business (data : string) (d : JsValue) (w : World) :
  JSON_parse P data = Some d ->
  business_type d = true ->
  ws_onmessage P data w =
  forward data (if authorized (this w) then w else authorize P w).
Proof.
  intros Hp Hty. pose proof (business_type_truthy d Hty) as Ht.
  unfold ws_onmessage, authorize.
  destruct (business_type_exclusive d Hty) as [H1 H2].
  rewrite Hp, Ht, Hty, H1, H2. cbn [andb].
  destruct (authorized (this w)) eqn:Ea; cbn [negb]; [reflexivity|].
  rewrite flushQueue_callbacks. reflexivity.
Qed.

End Gate.

(** ** [ensureAuthorized] *)

Lemma find_fresh_last (tid : TimerId) (l : list Timer) (t : Timer) :
  Forall (fun x => (t_id x < tid)%positive) l ->
  t_id t = tid ->
  find (fun x => (t_id x =? tid)%positive) (l ++ [t]) = Some t.
Proof.
  intros Hl Ht. induction Hl as [|x l Hx Hl IH]; cbn.
  - rewrite Ht, Pos.eqb_refl. reflexivity.
  - assert (E : (t_id x =? tid)%positive = false) by (apply Pos.eqb_neq; lia).
    rewrite E. exact IH.
Qed.

Lemma find_absent (tid : TimerId) (l : list Timer) :
  ~ In tid (map t_id l) ->
  find (fun x => (t_id x =? tid)%positive) l = None.
Proof.
  intros H. destruct (find _ l) as [t|] eqn:E; [|reflexivity].
  apply find_some in E. destruct E as [Hin Hid]. apply Pos.eqb_eq in Hid.
  exfalso. apply H. apply in_map_iff. exists t. split; assumption.
Qed.

(** The deadline passes while the waiter is pending. *)
Lemma fire_auth_timeout (P : Platform) (x : World)
      (tid : TimerId) (wid : nat) (delay : Q) (wt : Waiter) :
  find (fun t => (t_id t =? tid)%positive) (timers (win x)) =
    Some (mkTimer tid (AuthTimeout wid) delay) ->
  nth_error (waiters (win x)) wid = Some wt ->
  settled wt = false ->
  fire_timer P tid x = settled_world wid tid false x.
Proof.
  intros Hfind Hnth Hset. unfold fire_timer. rewrite Hfind. cbn [t_task].
  unfold auth_timeout, clearTimer. cbn [win waiters updw set_timers].
  rewrite Hnth, Hset. unfold settle, settled_world.
  destruct x as [m b]. destruct b. reflexivity.
Qed.

(** Once a promise is settled, neither its timer nor its resolver has any
    effect. *)
Lemma settled_is_final (P : Platform) (x : World) (wid : nat) (wt : Waiter) :
  nth_error (waiters (win x)) wid = Some wt ->
  settled wt = true ->
  auth_timeout wid x = x /\ call_resolver wid true x = x
  /\ call_resolver wid false x = x.
Proof.
  intros Hnth Hset. unfold auth_timeout, call_resolver.
  rewrite Hnth, Hset. auto.
Qed.

(** ** Provenance of sent payloads *)

Section Provenance.

Variable P : Platform.
Variable A : string -> Prop.
Hypothesis A_control : forall p, control_frame P p -> A p.

Lemma only_sends_refl (w : World) : only_sends A w w.
Proof.
  intros H. split; [exact H|]. exists []. rewrite app_nil_r.
  split; [reflexivity|constructor].
Qed.

Lemma only_sends_trans (w x y : World) :
  only_sends A w x -> only_sends A x y -> only_sends A w y.
Proof.
  intros H1 H2 Hq. destruct (H1 Hq) as (Hq1 & e1 & L1 & S1).
  destruct (H2 Hq1) as (Hq2 & e2 & L2 & S2).
  split; [exact Hq2|]. exists (e1 ++ e2). rewrite L2, L1, app_assoc.
  split; [reflexivity|]. rewrite sent_payloads_app. apply Forall_app. auto.
Qed.

Lemma only_sends_upd (f : ChatWSManager -> ChatWSManager) (w : World) :
  (forall m, sendQueue (f m) = sendQueue m) -> only_sends A w (upd f w).
Proof.
  intros Hf Hq. split; [cbn; rewrite Hf; exact Hq|].
  exists []. cbn. rewrite app_nil_r. split; [reflexivity|constructor].
Qed.

Lemma only_sends_updw (f : Window -> Window) (w : World) :
  (forall b, log (f b) = log b) -> only_sends A w (updw f w).
Proof.
  intros Hf Hq. split; [exact Hq|].
  exists []. cbn. rewrite Hf, app_nil_r. split; [reflexivity|constructor].
Qed.

Lemma only_sends_emit (e : Event) (w : World) :
  Forall A (sent_payloads [e]) -> only_sends A w (emit e w).
Proof.
  intros He Hq. split; [exact Hq|]. exists [e]. split; [reflexivity|exact He].
Qed.

Lemma only_sends_set_queue (q : list string) (w : World) :
  Forall A q -> only_sends A w (upd (set_sendQueue q) w).
Proof.
  intros Hq' Hq. split; [exact Hq'|].
  exists []. cbn. rewrite app_nil_r. split; [reflexivity|constructor].
Qed.

Ltac os_step :=
  lazymatch goal with
  | |- only_sends _ ?w ?w => apply only_sends_refl
  | |- only_sends _ ?w (emit ?e ?x) =>
      apply (only_sends_trans w x);
      [|apply only_sends_emit; cbn; try constructor; auto]
  | |- only_sends _ ?w (tick ?x) =>
      apply (only_sends_trans w x);
      [|apply only_sends_updw; intro; reflexivity]
  | |- only_sends _ ?w (set_state ?st ?x) => unfold set_state
  | |- only_sends _ ?w (invoke ?cb _ ?x) => destruct cb; cbn [invoke]
  | |- only_sends _ ?w (clearTimer _ ?x) =>
      apply (only_sends_trans w x);
      [|apply only_sends_updw; intro; reflexivity]
  | |- only_sends _ ?w (add_timer _ _ ?x) =>
      apply (only_sends_trans w x);
      [|apply only_sends_updw; intro; reflexivity]
  | |- only_sends _ ?w (upd (set_sendQueue []) ?x) =>
      apply (only_sends_trans w x);
      [|apply only_sends_set_queue; constructor]
  | |- only_sends _ ?w (upd _ ?x) =>
      apply (only_sends_trans w x);
      [|apply only_sends_upd; intro; reflexivity]
  | |- only_sends _ ?w (updw _ ?x) =>
      apply (only_sends_trans w x);
      [|apply only_sends_updw; intro; reflexivity]
  end.

Lemma os_transport_send (p : string) (w : World) :
  A p -> only_sends A w (fst (transport_send P p w)).
Proof.
  intros Hp. unfold transport_send. destruct (ws (this w)); [|apply only_sends_refl].
  destruct (send_throws P _); cbn [fst]; repeat os_step.
Qed.

Lemma os_enqueue (p : string) (w : World) : A p -> only_sends A w (enqueue p w).
Proof.
  intros Hp Hq. split.
  - rewrite sendQueue_enqueue. apply Forall_app. split; [|repeat constructor; exact Hp].
    destruct (MAX_QUEUE <=? _); [|exact Hq].
    destruct (sendQueue (this w)); [constructor|]. inversion Hq; assumption.
  - exists []. rewrite app_nil_r. split; [|constructor].
    rewrite enqueue_frame. reflexivity.
Qed.

Lemma os_flushQueue (w : World) : only_sends A w (flushQueue P w).
Proof.
  destruct (flushQueue_shape P w) as (id & done & failed & rest & Heq & Hq & _).
  rewrite Heq. intros HA. rewrite Hq in HA.
  apply Forall_app in HA. destruct HA as [Hd HA].
  apply Forall_app in HA. destruct HA as [_ Hr].
  split; [exact Hr|].
  eexists. split; [reflexivity|].
  rewrite sent_payloads_app. apply Forall_app. split.
  - clear - Hd. induction done as [|p l IH]; cbn; [constructor|].
    inversion Hd; subst. constructor; auto.
  - clear. induction failed as [|p l IH]; cbn; [constructor|exact IH].
Qed.

Lemma os_stopHeartbeat (w : World) : only_sends A w (stopHeartbeat w).
Proof.
  unfold stopHeartbeat. destruct (heartbeatTimer (this w)); repeat os_step.
Qed.

Lemma os_startHeartbeat (w : World) : only_sends A w (startHeartbeat w).
Proof.
  unfold startHeartbeat, setTimer.
  apply (only_sends_trans w (stopHeartbeat w)); [apply os_stopHeartbeat|].
  repeat os_step.
Qed.

Lemma os_heartbeat_tick (w : World) : only_sends A w (heartbeat_tick P w).
Proof.
  unfold heartbeat_tick. destruct (ws_is_open w); [|apply only_sends_refl].
  apply (only_sends_trans w (tick w)); [os_step; os_step|].
  apply os_transport_send. apply A_control. right. eexists. reflexivity.
Qed.

Lemma os_scheduleReconnect (w : World) : only_sends A w (scheduleReconnect P w).
Proof.
  unfold scheduleReconnect.
  destruct (explicitlyClosed _); [apply only_sends_refl|].
  destruct (negb _ || negb _); [apply only_sends_refl|].
  destruct (reconnectTimer _); [apply only_sends_refl|].
  unfold setTimer. repeat os_step.
Qed.

Lemma os_clearReconnectTimer (w : World) : only_sends A w (clearReconnectTimer w).
Proof.
  unfold clearReconnectTimer. destruct (reconnectTimer (this w)); repeat os_step.
Qed.

Lemma os_sendAuthorization (w : World) : only_sends A w (sendAuthorization P w).
Proof.
  unfold sendAuthorization.
  destruct (getItem _ _); [|apply only_sends_refl].
  destruct (_ =? _)%string; [apply only_sends_refl|].
  destruct (JSON_parse P _); [|apply only_sends_refl].
  destruct (Js.opt_get _ _) as [token|]; [|apply only_sends_refl].
  destruct (negb _); [apply only_sends_refl|].
  destruct (ws (this w)); [|apply only_sends_refl].
  destruct (template_throws _); [apply only_sends_refl|].
  apply os_transport_send. apply A_control. left. exists token. reflexivity.
Qed.

Lemma os_close (w : World) : only_sends A w (close P w).
Proof.
  rewrite close_eq. intros _. split; [constructor|]. cbn [win log].
  eexists. split; [reflexivity|].
  destruct (ws (this w)); cbn; constructor.
Qed.

Lemma os_connect (w : World) : only_sends A w (connect P w).
Proof.
  unfold connect.
  destruct (negb _ || negb _); [apply only_sends_refl|].
  destruct (usable w && sameTarget w); [apply only_sends_refl|].
  set (w1 := if usable w then close P w else w).
  assert (H1 : only_sends A w w1)
    by (unfold w1; destruct (usable w); [apply os_close|apply only_sends_refl]).
  clearbody w1.
  destruct (ConnectionState_eqb _ _); [exact H1|]. cbv zeta.
  destruct (WebSocket_throws P _ _).
  - eapply only_sends_trans; [|apply os_scheduleReconnect].
    repeat os_step. exact H1.
  - repeat os_step. exact H1.
Qed.

Lemma os_resolve_waiter (w : World) : only_sends A w (resolve_waiter w).
Proof.
  unfold resolve_waiter, call_resolver.
  destruct (awaitingAuthResolve (this w)); [|apply only_sends_refl].
  os_step.
  destruct (nth_error _ _) as [wt|]; [|apply only_sends_refl].
  destruct (settled wt); [apply only_sends_refl|].
  unfold settle. repeat os_step.
Qed.

Lemma os_auth_timeout (wid : nat) (w : World) : only_sends A w (auth_timeout wid w).
Proof.
  unfold auth_timeout.
  destruct (nth_error _ _) as [wt|]; [|apply only_sends_refl].
  destruct (settled wt); [apply only_sends_refl|].
  unfold settle. repeat os_step.
Qed.

Lemma os_ensureAuthorized (t : Q) (w : World) :
  only_sends A w (fst (ensureAuthorized P t w)).
Proof.
  unfold ensureAuthorized.
  destruct (ws_is_open w && authorized (this w)); [apply only_sends_refl|].
  set (w1 := if negb (ws_is_open w) then connect P w else w).
  assert (H1 : only_sends A w w1)
    by (unfold w1; destruct (negb _); [apply os_connect|apply only_sends_refl]).
  clearbody w1.
  destruct (authorized (this w1)); [exact H1|].
  unfold setTimer. cbn [fst]. repeat os_step. exact H1.
Qed.

Lemma os_send (d : SendArg) (w : World) :
  A (serialize P d) -> only_sends A w (send P d w).
Proof.
  intros Hd. unfold send.
  destruct (ws_is_open w && authorized (this w)).
  - pose proof (os_transport_send (serialize P d) w Hd) as H1.
    destruct (transport_send P (serialize P d) w) as [w1 ok]. cbn [fst] in H1.
    destruct ok; [exact H1|].
    eapply only_sends_trans; [exact H1|apply os_enqueue, Hd].
  - eapply only_sends_trans; [apply os_enqueue, Hd|apply os_connect].
Qed.

Lemma os_updateSessionContext (u s : string) (a : bool) (w : World) :
  only_sends A w (updateSessionContext P u s a w).
Proof.
  unfold updateSessionContext. cbv zeta.
  set (w1 := upd (set_isAssistantMode a) _).
  assert (H1 : only_sends A w w1) by (unfold w1; repeat os_step).
  clearbody w1.
  destruct (ws (this w1)); [|exact H1].
  destruct (_ && _); [|exact H1].
  eapply only_sends_trans; [exact H1|apply os_close].
Qed.

Lemma os_ws_onopen (w : World) : only_sends A w (ws_onopen P w).
Proof.
  unfold ws_onopen. cbv zeta.
  eapply only_sends_trans; [|apply os_sendAuthorization].
  set (w3 := startHeartbeat _).
  assert (H3 : only_sends A w w3).
  { unfold w3. eapply only_sends_trans; [|apply os_startHeartbeat].
    repeat os_step. }
  clearbody w3. repeat os_step; exact H3.
Qed.

Lemma os_authorize (w : World) : only_sends A w (authorize P w).
Proof.
  unfold authorize.
  eapply only_sends_trans; [|apply os_resolve_waiter].
  set (x := flushQueue P _).
  assert (Hx : only_sends A w x).
  { unfold x. eapply only_sends_trans; [|apply os_flushQueue]. os_step. os_step. }
  clearbody x. repeat os_step; exact Hx.
Qed.

Lemma os_forward (data : string) (w x : World) :
  only_sends A w x -> only_sends A w (forward data x).
Proof. intros H. unfold forward. repeat os_step; exact H. Qed.

Lemma os_ws_onmessage (data : string) (w : World) :
  only_sends A w (ws_onmessage P data w).
Proof.
  unfold ws_onmessage.
  destruct (JSON_parse P data) as [d|]; [|apply os_forward, only_sends_refl].
  pose proof (os_authorize w) as Hauth. unfold authorize in Hauth.
  assert (Hcb : callbacks (this (flushQueue P (upd (set_authorized true) w))) =
                callbacks (this w))
    by (rewrite flushQueue_callbacks; reflexivity).
  rewrite !Hcb.
  destruct (Js.truthy d && Js.type_is d "auth_success").
  - destruct (negb (authorized (this w))); [exact Hauth|].
    eapply only_sends_trans; [|apply os_resolve_waiter]. os_step. os_step.
  - destruct (Js.truthy d && Js.type_is d "pong"); [apply only_sends_refl|].
    apply os_forward.
    destruct (Js.truthy d && business_type d); [|apply only_sends_refl].
    destruct (negb (authorized (this w))); [exact Hauth|apply only_sends_refl].
Qed.

Lemma os_ws_onclose (w : World) : only_sends A w (ws_onclose P w).
Proof.
  unfold ws_onclose. cbv zeta.
  set (w3 := invoke _ _ _).
  assert (H3 : only_sends A w w3).
  { unfold w3.
    assert (H2 : only_sends A w (stopHeartbeat (set_state closed w))).
    { eapply only_sends_trans; [|apply os_stopHeartbeat]. repeat os_step. }
    repeat os_step; exact H2. }
  clearbody w3.
  destruct (negb _); [|exact H3].
  eapply only_sends_trans; [exact H3|apply os_scheduleReconnect].
Qed.

Lemma os_fire_timer (id : TimerId) (w : World) : only_sends A w (fire_timer P id w).
Proof.
  unfold fire_timer. destruct (find _ _) as [t|]; [|apply only_sends_refl].
  destruct (t_task t).
  - apply os_heartbeat_tick.
  - eapply only_sends_trans; [|apply os_connect]. repeat os_step.
  - eapply only_sends_trans; [|apply os_auth_timeout]. repeat os_step.
Qed.

Lemma os_exec (o : Op) (w : World) :
  (forall d, o = Send d -> A (serialize P d)) ->
  only_sends A w (exec P o w).
Proof.
  intros Ho. destruct o; cbn [exec].
  - unfold setCallbacks. repeat os_step.
  - apply os_updateSessionContext.
  - apply os_connect.
  - apply os_close.
  - apply os_ensureAuthorized.
  - apply os_send. apply Ho. reflexivity.
  - unfold set_readyState. destruct (ws (this w)); repeat os_step.
  - apply os_ws_onopen.
  - apply os_ws_onmessage.
  - apply os_ws_onclose.
  - unfold ws_onerror. repeat os_step.
  - apply os_fire_timer.
  - repeat os_step.
Qed.

Lemma os_run (ops : list Op) :
  forall w, (forall d, In (Send d) ops -> A (serialize P d)) ->
            only_sends A w (run P ops w).
Proof.
  induction ops as [|o ops IH]; intros w Hops; [apply only_sends_refl|].
  cbn [run fold_left]. apply (only_sends_trans w (exec P o w)).
  - apply os_exec. intros d ->. apply Hops. left. reflexivity.
  - apply IH. intros d Hd. apply Hops. right. exact Hd.
Qed.

End Provenance.

(** Every payload handed to a transport from an empty queue onwards was
    passed to [send] meanwhile, or is a control frame of the manager. *)
Lemma sent_after_empty_queue (P : Platform) (ops : list Op) (w : World) :
  sendQueue (this w) = [] ->
  exists evs,
    log (win (run P ops w)) = log (win w) ++ evs
    /\ forall p, In p (sent_payloads evs) ->
                 In p (payloads_of P ops) \/ control_frame P p.
Proof.
  intros Hq.
  destruct (os_run P (fun p => In p (payloads_of P ops) \/ control_frame P p)
              (fun p H => or_intror H) ops w) as (_ & evs & Hlog & Hsent).
  - intros d Hd. left. unfold payloads_of. apply in_flat_map.
    exists (Send d). split; [exact Hd|left; reflexivity].
  - rewrite Hq. constructor.
  - exists evs. split; [exact Hlog|]. rewrite Forall_forall in Hsent. exact Hsent.
Qed.

(** ** The timer discipline is preserved by every operation and event *)

Lemma same_id_same_timer (l : list Timer) (t1 t2 : Timer) :
  NoDup (map t_id l) -> In t1 l -> In t2 l -> t_id t1 = t_id t2 -> t1 = t2.
Proof.
  induction l as [|x l IH]; intros Hnd H1 H2 Hid; [destruct H1|].
  inversion Hnd as [|? ? Hnotin Hnd']; subst.
  destruct H1 as [H1|H1], H2 as [H2|H2]; subst.
  - reflexivity.
  - exfalso. apply Hnotin. rewrite Hid. apply in_map, H2.
  - exfalso. apply Hnotin. rewrite <- Hid. apply in_map, H1.
  - apply IH; assumption.
Qed.

(** Two pending timers that run different tasks have different handles. *)
Lemma pending_distinct (w : World) (id1 id2 : TimerId) (k1 k2 : TimerTask) :
  timer_ids_unique w -> pending id1 k1 w -> pending id2 k2 w -> k1 <> k2 ->
  id1 <> id2.
Proof.
  intros Hnd [d1 H1] [d2 H2] Hk Hid. subst id2.
  pose proof (same_id_same_timer _ _ _ Hnd H1 H2 eq_refl) as E.
  inversion E. contradiction.
Qed.

Lemma pending_clearTimer (id id' : TimerId) (k : TimerTask) (w : World) :
  pending id k w -> id <> id' -> pending id k (clearTimer id' w).
Proof.
  intros [d H] Hne. exists d. unfold clearTimer. cbn.
  apply filter_In. split; [exact H|]. cbn.
  apply negb_true_iff, Pos.eqb_neq. exact Hne.
Qed.

Lemma pending_add_timer (id : TimerId) (k k' : TimerTask) (d : Q) (w : World) :
  pending id k w -> pending id k (add_timer k' d w).
Proof.
  intros [d0 H]. exists d0. unfold add_timer. cbn. apply in_or_app. left. exact H.
Qed.

Lemma absent_clearTimer (id id' : TimerId) (w : World) :
  ~ In id (map t_id (timers (win w))) ->
  ~ In id (map t_id (timers (win (clearTimer id' w)))).
Proof.
  intros H Hin. apply H. unfold clearTimer in Hin. cbn in Hin.
  apply in_map_iff in Hin. destruct Hin as (t & Ht & Hin).
  apply filter_In in Hin. apply in_map_iff. exists t. tauto.
Qed.

Lemma NoDup_map_filter (keep : Timer -> bool) (l : list Timer) :
  NoDup (map t_id l) -> NoDup (map t_id (filter keep l)).
Proof.
  induction l as [|t l IH]; cbn; intros H; [constructor|].
  inversion H as [|? ? Hnotin Hnd]; subst.
  destruct (keep t); cbn; auto.
  constructor; auto.
  intros Hin. apply in_map_iff in Hin. destruct Hin as (t' & Ht' & Hin).
  apply filter_In in Hin. apply Hnotin. apply in_map_iff. exists t'. tauto.
Qed.

Lemma td_upd (f : ChatWSManager -> ChatWSManager) (w : World) :
  (forall m, heartbeatTimer (f m) = heartbeatTimer m
             /\ reconnectTimer (f m) = reconnectTimer m) ->
  timer_discipline w -> timer_discipline (upd f w).
Proof.
  intros Hf [H1 H2 H3 H4 H5 H6 H7 H8]. destruct (Hf (this w)) as [E1 E2].
  constructor; unfold timers_fresh, timer_ids_unique, pending in *; cbn;
    rewrite ?E1, ?E2; auto.
Qed.

Lemma td_updw (f : Window -> Window) (w : World) :
  (forall b, timers (f b) = timers b /\ nextTimer (f b) = nextTimer b
             /\ waiters (f b) = waiters b) ->
  timer_discipline w -> timer_discipline (updw f w).
Proof.
  intros Hf [H1 H2 H3 H4 H5 H6 H7 H8]. destruct (Hf (win w)) as (E1 & E2 & E3).
  constructor; unfold timers_fresh, timer_ids_unique, pending in *; cbn;
    rewrite ?E1, ?E2, ?E3; auto.
Qed.

(** Registering a timer and recording its handle where [keep] says so. *)
Lemma td_add_timer (k : TimerTask) (d : Q) (w : World) :
  timer_discipline w ->
  timers_fresh (add_timer k d w)
  /\ timer_ids_unique (add_timer k d w)
  /\ pending (nextTimer (win w)) k (add_timer k d w)
  /\ (forall id k', pending id k' w -> pending id k' (add_timer k d w))
  /\ (forall wid wt, nth_error (waiters (win w)) wid = Some wt ->
                     settled wt = true ->
                     ~ In (w_timer wt) (map t_id (timers (win (add_timer k d w)))))
  /\ (forall wid wt, nth_error (waiters (win w)) wid = Some wt ->
                     (w_timer wt < nextTimer (win (add_timer k d w)))%positive).
Proof.
  intros [H1 H2 H3 H4 H5 H6 H7 H8].
  unfold timers_fresh, timer_ids_unique in *.
  repeat match goal with |- _ /\ _ => split end.
  - unfold add_timer. cbn. apply Forall_app. split.
    + eapply Forall_impl; [|exact H1]. cbn. intros t Ht. lia.
    + constructor; [cbn; lia|constructor].
  - unfold add_timer. cbn. rewrite map_app. cbn.
    apply NoDup_app; [exact H2|repeat constructor; intros []|].
    intros x Hx [Hx'|[]]. subst x.
    apply in_map_iff in Hx. destruct Hx as (t & Ht & Hin).
    rewrite Forall_forall in H1. specialize (H1 t Hin). lia.
  - exists d. unfold add_timer. cbn. apply in_or_app. right. left. reflexivity.
  - intros id k' Hp. apply pending_add_timer, Hp.
  - intros wid wt Hnth Hset Hin. unfold add_timer in Hin. cbn in Hin.
    rewrite map_app in Hin. apply in_app_or in Hin. destruct Hin as [Hin|[Hin|[]]].
    + exact (H6 wid wt Hnth Hset Hin).
    + cbn in Hin. specialize (H7 wid wt Hnth). lia.
  - intros wid wt Hnth. specialize (H7 wid wt Hnth). unfold add_timer. cbn. lia.
Qed.

Lemma owner_add_timer (k : TimerTask) (d : Q) (w : World) :
  timer_discipline w ->
  forall t wid, In t (timers (win (add_timer k d w))) ->
                t_task t = AuthTimeout wid ->
                k <> AuthTimeout wid ->
                exists wt, nth_error (waiters (win w)) wid = Some wt
                           /\ w_timer wt = t_id t.
Proof.
  intros H t wid Hin Htask Hk. unfold add_timer in Hin. cbn in Hin.
  apply in_app_or in Hin. destruct Hin as [Hin|[Hin|[]]].
  - exact (td_owner w H t wid Hin Htask).
  - subst t. cbn in Htask. contradiction.
Qed.


(** Cancelling the timer of a handle that is forgotten at the same time. *)
Lemma td_drop_heartbeat (id : TimerId) (w : World) :
  timer_discipline w -> heartbeatTimer (this w) = Some id ->
  timer_discipline (upd (set_heartbeatTimer None) (clearTimer id w)).
Proof.
  intros H Hid. pose proof H as [H1 H2 H3 H4 H5 H6 H7 H8].
  specialize (H3 id Hid).
  constructor.
  - unfold timers_fresh in *. cbn. rewrite Forall_forall in *.
    intros t Ht. apply filter_In in Ht. apply H1, Ht.
  - unfold timer_ids_unique in *. cbn.
    apply NoDup_map_filter. exact H2.
  - intros id' Hid'. discriminate.
  - intros id' Hid'. cbn in Hid'. specialize (H4 id' Hid').
    apply (pending_clearTimer id' id ReconnectFire w H4).
    apply (pending_distinct w id' id ReconnectFire HeartbeatTick); auto. discriminate.
  - intros wid wt Hnth Hset. destruct (H5 wid wt Hnth Hset) as [Hp Ho].
    split; [|exact Ho].
    apply (pending_clearTimer _ id _ w Hp).
    apply (pending_distinct w _ id (AuthTimeout wid) HeartbeatTick); auto. discriminate.
  - intros wid wt Hnth Hset. apply (absent_clearTimer _ id w), (H6 wid wt Hnth Hset).
  - intros wid wt Hnth. apply (H7 wid wt Hnth).
  - intros t wid Hin Htask. cbn in Hin. apply filter_In in Hin.
    apply (H8 t wid); tauto.
Qed.

Lemma td_drop_reconnect (id : TimerId) (w : World) :
  timer_discipline w -> reconnectTimer (this w) = Some id ->
  timer_discipline (upd (set_reconnectTimer None) (clearTimer id w)).
Proof.
  intros H Hid. pose proof H as [H1 H2 H3 H4 H5 H6 H7 H8].
  specialize (H4 id Hid).
  constructor.
  - unfold timers_fresh in *. cbn. rewrite Forall_forall in *.
    intros t Ht. apply filter_In in Ht. apply H1, Ht.
  - unfold timer_ids_unique in *. cbn.
    apply NoDup_map_filter. exact H2.
  - intros id' Hid'. cbn in Hid'. specialize (H3 id' Hid').
    apply (pending_clearTimer id' id HeartbeatTick w H3).
    apply (pending_distinct w id' id HeartbeatTick ReconnectFire); auto. discriminate.
  - intros id' Hid'. discriminate.
  - intros wid wt Hnth Hset. destruct (H5 wid wt Hnth Hset) as [Hp Ho].
    split; [|exact Ho].
    apply (pending_clearTimer _ id _ w Hp).
    apply (pending_distinct w _ id (AuthTimeout wid) ReconnectFire); auto. discriminate.
  - intros wid wt Hnth Hset. apply (absent_clearTimer _ id w), (H6 wid wt Hnth Hset).
  - intros wid wt Hnth. apply (H7 wid wt Hnth).
  - intros t wid Hin Htask. cbn in Hin. apply filter_In in Hin.
    apply (H8 t wid); tauto.
Qed.

Lemma nth_error_update_nth_other {X} (f : X -> X) (l : list X) :
  forall n m, n <> m -> nth_error (update_nth n f l) m = nth_error l m.
Proof.
  induction l as [|y l IH]; intros [|n] [|m] H; cbn; try reflexivity;
    try congruence.
  apply IH. congruence.
Qed.

Lemma nth_error_update_nth_inv {X} (f : X -> X) (l : list X) :
  forall n y, nth_error (update_nth n f l) n = Some y ->
              exists x, nth_error l n = Some x /\ y = f x.
Proof.
  induction l as [|z l IH]; intros [|n] y H; cbn in *; try discriminate.
  - inversion H. eauto.
  - apply IH, H.
Qed.

(** The resolver of a pending promise: its timer is cancelled, then the
    promise is settled. *)
Lemma td_settle (wid : nat) (wt : Waiter) (v : bool) (w : World) :
  timer_discipline w ->
  nth_error (waiters (win w)) wid = Some wt ->
  settled wt = false ->
  timer_discipline (settle wid v (clearTimer (w_timer wt) w)).
Proof.
  intros H Hnth Hset. pose proof H as [H1 H2 H3 H4 H5 H6 H7 H8].
  destruct (H5 wid wt Hnth Hset) as [Hp _].
  assert (Hcase : forall wid' wt',
             nth_error (update_nth wid (fun x => mkWaiter true (w_timer x) (Some v))
                          (waiters (win w))) wid' = Some wt' ->
             (wid' = wid /\ wt' = mkWaiter true (w_timer wt) (Some v))
             \/ (wid' <> wid /\ nth_error (waiters (win w)) wid' = Some wt')).
  { intros wid' wt' Hn. destruct (Nat.eq_dec wid' wid) as [->|Hne].
    - left. split; [reflexivity|].
      apply nth_error_update_nth_inv in Hn. destruct Hn as (x & Hx & ->).
      rewrite Hnth in Hx. inversion Hx. reflexivity.
    - right. split; [exact Hne|].
      rewrite nth_error_update_nth_other in Hn by congruence. exact Hn. }
  constructor.
  - unfold timers_fresh in *. cbn. rewrite Forall_forall in *.
    intros t Ht. apply filter_In in Ht. apply H1, Ht.
  - unfold timer_ids_unique in *. cbn. apply NoDup_map_filter. exact H2.
  - intros id Hid. cbn in Hid. specialize (H3 id Hid).
    destruct (pending_clearTimer id (w_timer wt) HeartbeatTick w H3) as [d Hd].
    + apply (pending_distinct w id _ HeartbeatTick (AuthTimeout wid)); auto.
      discriminate.
    + exists d. exact Hd.
  - intros id Hid. cbn in Hid. specialize (H4 id Hid).
    destruct (pending_clearTimer id (w_timer wt) ReconnectFire w H4) as [d Hd].
    + apply (pending_distinct w id _ ReconnectFire (AuthTimeout wid)); auto.
      discriminate.
    + exists d. exact Hd.
  - intros wid' wt' Hn Hs. cbn in Hn.
    destruct (Hcase wid' wt' Hn) as [[-> ->]|[Hne Hold]]; [discriminate|].
    destruct (H5 wid' wt' Hold Hs) as [Hp' Ho]. split; [|exact Ho].
    destruct (pending_clearTimer _ (w_timer wt) _ w Hp') as [d Hd].
    + apply (pending_distinct w _ _ (AuthTimeout wid') (AuthTimeout wid)); auto.
      congruence.
    + exists d. exact Hd.
  - intros wid' wt' Hn Hs. cbn in Hn. cbn.
    destruct (Hcase wid' wt' Hn) as [[-> ->]|[Hne Hold]].
    + apply (drop_timer_absent (w_timer wt) (timers (win w))).
    + intros Hin. apply (H6 wid' wt' Hold Hs).
      apply in_map_iff in Hin. destruct Hin as (t & Ht & Hin).
      apply filter_In in Hin. apply in_map_iff. exists t. tauto.
  - intros wid' wt' Hn. cbn in Hn. cbn.
    destruct (Hcase wid' wt' Hn) as [[-> ->]|[Hne Hold]].
    + apply (H7 wid wt Hnth).
    + apply (H7 wid' wt' Hold).
  - intros t wid' Hin Htask. cbn in Hin. apply filter_In in Hin.
    destruct Hin as [Hin _]. destruct (H8 t wid' Hin Htask) as (wt' & Hn & Hid).
    cbn. destruct (Nat.eq_dec wid' wid) as [->|Hne].
    + exists (mkWaiter true (w_timer wt) (Some v)). split.
      * exact (nth_error_update_nth _ _ _ _ Hnth).
      * rewrite Hnth in Hn. inversion Hn; subst. exact Hid.
    + exists wt'. split; [|exact Hid].
      rewrite nth_error_update_nth_other by congruence. exact Hn.
Qed.

Lemma td_stopHeartbeat (w : World) :
  timer_discipline w -> timer_discipline (stopHeartbeat w).
Proof.
  intros H. unfold stopHeartbeat.
  destruct (heartbeatTimer (this w)) eqn:E; [|exact H].
  apply td_drop_heartbeat; assumption.
Qed.

Lemma td_clearReconnectTimer (w : World) :
  timer_discipline w -> timer_discipline (clearReconnectTimer w).
Proof.
  intros H. unfold clearReconnectTimer.
  destruct (reconnectTimer (this w)) eqn:E; [|exact H].
  apply td_drop_reconnect; assumption.
Qed.

Lemma td_startHeartbeat (w : World) :
  timer_discipline w -> timer_discipline (startHeartbeat w).
Proof.
  intros H0. unfold startHeartbeat, setTimer.
  pose proof (td_stopHeartbeat w H0) as H.
  set (x := stopHeartbeat w) in *. clearbody x.
  destruct (td_add_timer HeartbeatTick (inject_Z 25000) x H)
    as (A1 & A2 & A3 & A4 & A5 & A6).
  pose proof (owner_add_timer HeartbeatTick (inject_Z 25000) x H) as A7.
  destruct H as [H1 H2 H3 H4 H5 H6 H7 H8].
  constructor; auto.
  - intros id Hid. cbn in Hid. inversion Hid; subst. exact A3.
  - intros id Hid. cbn in Hid. apply A4, H4, Hid.
  - intros wid wt Hnth Hset. destruct (H5 wid wt Hnth Hset) as [Hp Ho].
    split; [apply A4, Hp|exact Ho].
  - intros t wid Hin Htask. apply (A7 t wid Hin Htask). discriminate.
Qed.

(** [resolve_waiter] and the timeout callback. *)
Lemma td_resolve_waiter (w : World) :
  timer_discipline w -> timer_discipline (resolve_waiter w).
Proof.
  intros H. unfold resolve_waiter, call_resolver.
  destruct (awaitingAuthResolve (this w)) as [wid|]; [|exact H].
  apply td_upd; [intro; split; reflexivity|].
  destruct (nth_error (waiters (win w)) wid) as [wt|] eqn:Hnth; [|exact H].
  destruct (settled wt) eqn:Hset; [exact H|].
  apply (td_settle wid wt true w H Hnth Hset).
Qed.

Section Discipline.

Variable P : Platform.

Lemma td_transport_send (p : string) (w : World) :
  timer_discipline w -> timer_discipline (fst (transport_send P p w)).
Proof.
  intros H. unfold transport_send. destruct (ws (this w)); [|exact H].
  destruct (send_throws P _); cbn [fst];
    (apply td_updw; [intro; repeat split; reflexivity|]);
    (apply td_updw; [intro; repeat split; reflexivity|]); exact H.
Qed.

Lemma td_flushQueue (w : World) :
  timer_discipline w -> timer_discipline (flushQueue P w).
Proof.
  intros [H1 H2 H3 H4 H5 H6 H7 H8].
  destruct (flushQueue_shape P w) as (id & done & failed & rest & Heq & _).
  rewrite Heq. constructor; assumption.
Qed.

Lemma td_heartbeat_tick (w : World) :
  timer_discipline w -> timer_discipline (heartbeat_tick P w).
Proof.
  intros H. unfold heartbeat_tick. destruct (ws_is_open w); [|exact H].
  apply td_transport_send. apply td_updw; [intro; repeat split; reflexivity|].
  exact H.
Qed.

Lemma td_sendAuthorization (w : World) :
  timer_discipline w -> timer_discipline (sendAuthorization P w).
Proof.
  intros [H1 H2 H3 H4 H5 H6 H7 H8].
  destruct (sendAuthorization_shape P w) as (frames & Heq & _).
  rewrite Heq. constructor; assumption.
Qed.

Lemma td_scheduleReconnect (w : World) :
  timer_discipline w -> timer_discipline (scheduleReconnect P w).
Proof.
  intros H0. unfold scheduleReconnect.
  destruct (explicitlyClosed (this w)); [exact H0|].
  destruct (negb _ || negb _); [exact H0|].
  destruct (reconnectTimer (this w)) eqn:Et; [exact H0|].
  unfold setTimer.
  set (d := Number.add _ _). clearbody d.
  set (a := Nat.min _ 10). clearbody a.
  assert (H : timer_discipline (upd (set_reconnectAttempts a) (tick w))).
  { apply td_upd; [intro; split; reflexivity|].
    apply td_updw; [intro; repeat split; reflexivity|]. exact H0. }
  set (x := upd (set_reconnectAttempts a) (tick w)) in *. clearbody x.
  destruct (td_add_timer ReconnectFire d x H) as (A1 & A2 & A3 & A4 & A5 & A6).
  pose proof (owner_add_timer ReconnectFire d x H) as A7.
  destruct H as [H1 H2 H3 H4 H5 H6 H7 H8].
  constructor; auto.
  - intros id Hid. cbn in Hid. apply A4, H3, Hid.
  - intros id Hid. cbn in Hid. inversion Hid; subst. exact A3.
  - intros wid wt Hnth Hset. destruct (H5 wid wt Hnth Hset) as [Hp Ho].
    split; [apply A4, Hp|exact Ho].
  - intros t wid Hin Htask. apply (A7 t wid Hin Htask). discriminate.
Qed.

Lemma td_close (w : World) : timer_discipline w -> timer_discipline (close P w).
Proof.
  intros H. unfold close. cbv zeta.
  apply td_upd; [intro; split; reflexivity|].
  apply td_upd; [intro; split; reflexivity|].
  apply td_clearReconnectTimer.
  unfold set_state.
  apply td_updw; [intro; repeat split; reflexivity|].
  apply td_upd; [intro; split; reflexivity|].
  assert (H2 : timer_discipline (stopHeartbeat (upd (set_explicitlyClosed true) w))).
  { apply td_stopHeartbeat. apply td_upd; [intro; split; reflexivity|]. exact H. }
  destruct (ws (this _)); [|exact H2].
  apply td_upd; [intro; split; reflexivity|].
  apply td_updw; [intro; repeat split; reflexivity|].
  apply td_updw; [intro; repeat split; reflexivity|].
  apply td_updw; [intro; repeat split; reflexivity|].
  apply td_upd; [intro; split; reflexivity|]. exact H2.
Qed.

Lemma td_connect (w : World) : timer_discipline w -> timer_discipline (connect P w).
Proof.
  intros H. unfold connect.
  destruct (negb _ || negb _); [exact H|].
  destruct (usable w && sameTarget w); [exact H|].
  assert (H1 : timer_discipline (if usable w then close P w else w))
    by (destruct (usable w); [apply td_close|]; exact H).
  set (w1 := if usable w then close P w else w) in *. clearbody w1.
  destruct (ConnectionState_eqb (state (this w1)) connecting); [exact H1|].
  cbv zeta. unfold set_state.
  destruct (WebSocket_throws P _ _).
  - apply td_scheduleReconnect.
    repeat first [apply td_upd; [intro; split; reflexivity|]
                 |apply td_updw; [intro; repeat split; reflexivity|]].
    exact H1.
  - repeat first [apply td_upd; [intro; split; reflexivity|]
                 |apply td_updw; [intro; repeat split; reflexivity|]].
    exact H1.
Qed.

Lemma td_registered (t : Q) (w : World) :
  timer_discipline w -> timer_discipline (registered t w).
Proof.
  intros H.
  destruct (td_add_timer (AuthTimeout (length (waiters (win w)))) t w H)
    as (A1 & A2 & A3 & A4 & A5 & A6).
  destruct H as [H1 H2 H3 H4 H5 H6 H7 H8].
  assert (Hold : forall wid wt,
             nth_error (waiters (win w) ++ [mkWaiter false (nextTimer (win w)) None])
               wid = Some wt ->
             (wid < length (waiters (win w))
              /\ nth_error (waiters (win w)) wid = Some wt)
             \/ (wid = length (waiters (win w))
                 /\ wt = mkWaiter false (nextTimer (win w)) None)).
  { intros wid wt Hn.
    destruct (Nat.lt_ge_cases wid (length (waiters (win w)))) as [Hlt|Hge].
    - left. rewrite nth_error_app1 in Hn by exact Hlt. auto.
    - right. rewrite nth_error_app2 in Hn by exact Hge.
      destruct (wid - length (waiters (win w))) as [|k] eqn:E; cbn in Hn.
      + inversion Hn. split; [lia|reflexivity].
      + destruct k; discriminate. }
  assert (Hp : forall id k, pending id k (add_timer (AuthTimeout (length (waiters (win w)))) t w) ->
                            pending id k (registered t w))
    by (intros id k [d Hd]; exists d; exact Hd).
  constructor.
  - exact A1.
  - exact A2.
  - intros id Hid. apply Hp, A4, H3, Hid.
  - intros id Hid. apply Hp, A4, H4, Hid.
  - intros wid wt Hn Hs. cbn in Hn.
    destruct (Hold wid wt Hn) as [[_ Ho]|[-> ->]].
    + destruct (H5 wid wt Ho Hs) as [Hpend Hout]. split; [apply Hp, A4, Hpend|exact Hout].
    + split; [apply Hp, A3|reflexivity].
  - intros wid wt Hn Hs. cbn in Hn.
    destruct (Hold wid wt Hn) as [[_ Ho]|[-> ->]]; [|discriminate].
    apply (A5 wid wt Ho Hs).
  - intros wid wt Hn. cbn in Hn.
    destruct (Hold wid wt Hn) as [[_ Ho]|[-> ->]].
    + apply (A6 wid wt Ho).
    + cbn. lia.
  - intros x wid Hin Htask. cbn in Hin. cbn.
    apply in_app_or in Hin. destruct Hin as [Hin|[Hin|[]]].
    + destruct (H8 x wid Hin Htask) as (wt & Hn & Hid).
      exists wt. split; [|exact Hid].
      rewrite nth_error_app1; [exact Hn|].
      apply nth_error_Some. congruence.
    + subst x. cbn in Htask. inversion Htask; subst wid.
      exists (mkWaiter false (nextTimer (win w)) None). split; [|reflexivity].
      rewrite nth_error_app2 by lia. rewrite Nat.sub_diag. reflexivity.
Qed.

Lemma ensureAuthorized_registers (t : Q) (w : World) :
  exists w1, (w1 = w \/ w1 = connect P w)
             /\ (fst (ensureAuthorized P t w) = w1
                 \/ fst (ensureAuthorized P t w) = registered t w1).
Proof.
  unfold ensureAuthorized.
  destruct (ws_is_open w && authorized (this w)); [exists w; auto|].
  exists (if negb (ws_is_open w) then connect P w else w).
  split; [destruct (negb _); auto|].
  destruct (authorized (this _)); [left; reflexivity|right].
  unfold setTimer, add_timer, registered. cbn [fst].
  destruct (if negb (ws_is_open w) then connect P w else w) as [m b].
  destruct b. reflexivity.
Qed.

Lemma td_ensureAuthorized (t : Q) (w : World) :
  timer_discipline w -> timer_discipline (fst (ensureAuthorized P t w)).
Proof.
  intros H. destruct (ensureAuthorized_registers t w) as (w1 & Hw1 & Hr).
  assert (H1 : timer_discipline w1)
    by (destruct Hw1 as [->| ->]; [exact H|apply td_connect, H]).
  destruct Hr as [-> | ->]; [exact H1|apply td_registered, H1].
Qed.

Lemma td_send (d : SendArg) (w : World) :
  timer_discipline w -> timer_discipline (send P d w).
Proof.
  intros H. unfold send.
  assert (He : forall p x, timer_discipline x -> timer_discipline (enqueue p x)).
  { intros p x Hx. rewrite enqueue_frame.
    apply td_upd; [intro; split; reflexivity|]. exact Hx. }
  destruct (ws_is_open w && authorized (this w)).
  - pose proof (td_transport_send (serialize P d) w H) as H1.
    destruct (transport_send P (serialize P d) w) as [w1 ok]. cbn [fst] in H1.
    destruct ok; [exact H1|apply He, H1].
  - apply td_connect, He, H.
Qed.

Lemma td_updateSessionContext (u s : string) (a : bool) (w : World) :
  timer_discipline w -> timer_discipline (updateSessionContext P u s a w).
Proof.
  intros H. unfold updateSessionContext. cbv zeta.
  set (w1 := upd (set_isAssistantMode a) _).
  assert (H1 : timer_discipline w1).
  { unfold w1. repeat (apply td_upd; [intro; split; reflexivity|]). exact H. }
  clearbody w1.
  destruct (ws (this w1)); [|exact H1].
  destruct (_ && _); [apply td_close|]; exact H1.
Qed.

Lemma td_invoke (cb : option nat) (ev : nat -> Event) (w : World) :
  timer_discipline w -> timer_discipline (invoke cb ev w).
Proof.
  intros H. destruct cb; cbn [invoke]; [|exact H].
  apply td_updw; [intro; repeat split; reflexivity|]. exact H.
Qed.

Lemma td_set_state (st : ConnectionState) (w : World) :
  timer_discipline w -> timer_discipline (set_state st w).
Proof.
  intros H. unfold set_state.
  apply td_updw; [intro; repeat split; reflexivity|].
  apply td_upd; [intro; split; reflexivity|]. exact H.
Qed.

Lemma td_ws_onopen (w : World) :
  timer_discipline w -> timer_discipline (ws_onopen P w).
Proof.
  intros H. unfold ws_onopen. cbv zeta.
  apply td_sendAuthorization, td_invoke, td_startHeartbeat.
  apply td_upd; [intro; split; reflexivity|]. apply td_set_state, H.
Qed.

Lemma td_authorize (w : World) :
  timer_discipline w -> timer_discipline (authorize P w).
Proof.
  intros H. unfold authorize.
  apply td_resolve_waiter, td_invoke, td_flushQueue.
  apply td_upd; [intro; split; reflexivity|]. exact H.
Qed.

Lemma td_ws_onmessage (data : string) (w : World) :
  timer_discipline w -> timer_discipline (ws_onmessage P data w).
Proof.
  intros H. unfold ws_onmessage, forward.
  destruct (JSON_parse P data) as [d|]; [|apply td_invoke, H].
  pose proof (td_authorize w H) as Hauth. unfold authorize in Hauth.
  assert (Hcb : callbacks (this (flushQueue P (upd (set_authorized true) w))) =
                callbacks (this w))
    by (rewrite flushQueue_callbacks; reflexivity).
  rewrite !Hcb.
  destruct (Js.truthy d && Js.type_is d "auth_success").
  - destruct (negb (authorized (this w))); [exact Hauth|].
    apply td_resolve_waiter. apply td_upd; [intro; split; reflexivity|]. exact H.
  - destruct (Js.truthy d && Js.type_is d "pong"); [exact H|].
    apply td_invoke.
    destruct (Js.truthy d && business_type d); [|exact H].
    destruct (negb (authorized (this w))); [exact Hauth|exact H].
Qed.

Lemma td_ws_onclose (w : World) :
  timer_discipline w -> timer_discipline (ws_onclose P w).
Proof.
  intros H. unfold ws_onclose. cbv zeta.
  set (w3 := invoke _ _ _).
  assert (H3 : timer_discipline w3)
    by (unfold w3; apply td_invoke, td_stopHeartbeat, td_set_state, H).
  clearbody w3.
  destruct (negb _); [apply td_scheduleReconnect|]; exact H3.
Qed.

Lemma td_fire_timer (id : TimerId) (w : World) :
  Inv w -> timer_discipline w -> timer_discipline (fire_timer P id w).
Proof.
  intros HI H. unfold fire_timer.
  destruct (find _ _) as [t|] eqn:Ef; [|exact H].
  apply find_some in Ef. destruct Ef as [Hin Hid].
  apply Pos.eqb_eq in Hid.
  destruct (t_task t) as [| |wid] eqn:Et.
  - apply td_heartbeat_tick, H.
  - apply td_connect, td_drop_reconnect; [exact H|].
    destruct HI as [(_ & _ & H3 & _) _].
    rewrite <- Hid. apply H3; [exact Hin|].
    unfold is_reconnect. rewrite Et. reflexivity.
  - destruct (td_owner w H t wid Hin Et) as (wt & Hnth & Hwt).
    unfold auth_timeout, clearTimer.
    cbn [win waiters updw set_timers]. rewrite Hnth.
    destruct (settled wt) eqn:Hset.
    + exfalso. apply (td_settled w H wid wt Hnth Hset).
      rewrite Hwt. apply in_map, Hin.
    + change (timer_discipline
                (upd (set_awaitingAuthResolve None)
                   (settle wid false (clearTimer id w)))).
      apply td_upd; [intro; split; reflexivity|].
      rewrite <- Hid, <- Hwt. apply td_settle; assumption.
Qed.

Lemma td_exec (o : Op) (w : World) :
  Inv w -> timer_discipline w -> timer_discipline (exec P o w).
Proof.
  intros HI H. destruct o; cbn [exec].
  - unfold setCallbacks. apply td_upd; [intro; split; reflexivity|]. exact H.
  - apply td_updateSessionContext, H.
  - apply td_connect, H.
  - apply td_close, H.
  - apply td_ensureAuthorized, H.
  - apply td_send, H.
  - unfold set_readyState. destruct (ws (this w)); [|exact H].
    apply td_upd; [intro; split; reflexivity|]. exact H.
  - apply td_ws_onopen, H.
  - apply td_ws_onmessage, H.
  - apply td_ws_onclose, H.
  - unfold ws_onerror. apply td_invoke, H.
  - apply td_fire_timer; assumption.
  - apply td_updw; [intro; repeat split; reflexivity|]. exact H.
Qed.

Lemma td_run (ops : list Op) :
  forall w, Inv w -> timer_discipline w -> timer_discipline (run P ops w).
Proof.
  induction ops as [|o ops IH]; intros w HI H; [exact H|].
  apply IH; [apply Inv_exec, HI|apply td_exec; assumption].
Qed.

Lemma td_initial (storage : list (string * string)) :
  timer_discipline (initial storage).
Proof.
  constructor; cbn; try (intros; discriminate).
  - constructor.
  - constructor.
  - intros [|wid] wt H; discriminate.
  - intros [|wid] wt H; discriminate.
  - intros [|wid] wt H; discriminate.
  - intros t wid [].
Qed.

Lemma reachable_discipline (w : World) :
  reachable P w -> timer_discipline w.
Proof.
  intros (storage & ops & ->). apply td_run; [apply Inv_initial|apply td_initial].
Qed.

(** In a reachable world a promise that is not settled can always be
    settled by its deadline: the timer is pending, and its firing resolves
    the promise with false and clears the waiter slot. *)
Lemma deadline_resolves_false (w : World) (wid : nat) (wt : Waiter) :
  reachable P w ->
  nth_error (waiters (win w)) wid = Some wt ->
  settled wt = false ->
  outcome wt = None
  /\ pending (w_timer wt) (AuthTimeout wid) w
  /\ fire_timer P (w_timer wt) w = settled_world wid (w_timer wt) false w.
Proof.
  intros Hreach Hnth Hset.
  pose proof (reachable_discipline w Hreach) as H.
  destruct (td_waiting w H wid wt Hnth Hset) as [[d Hd] Ho].
  split; [exact Ho|]. split; [exists d; exact Hd|].
  apply (fire_auth_timeout P w (w_timer wt) wid d wt); [|exact Hnth|exact Hset].
  destruct (find (fun t => (t_id t =? w_timer wt)%positive) (timers (win w)))
    as [t|] eqn:Ef.
  - apply find_some in Ef. destruct Ef as [Hin Hid]. apply Pos.eqb_eq in Hid.
    f_equal. apply (same_id_same_timer (timers (win w))); auto.
    apply (td_unique w H).
  - exfalso. apply (find_none _ _ Ef) in Hd. cbn in Hd.
    rewrite Pos.eqb_refl in Hd. discriminate.
Qed.

End Discipline.

(** ** The message handler on every kind of frame *)

Lemma type_is_false_guard (d : JsValue) (t : string) :
  Js.truthy d && Js.type_is d t = Js.type_is d t.
Proof.
  destruct (Js.type_is d t) eqn:E; [|apply andb_false_r].
  rewrite (type_is_truthy d t E). reflexivity.
Qed.

Lemma business_type_guard (d : JsValue) :
  Js.truthy d && business_type d = business_type d.
Proof.
  destruct (business_type d) eqn:E; [|apply andb_false_r].
  rewrite (business_type_truthy d E). reflexivity.
Qed.

Lemma forwarded_forward (data : string) (w : World) :
  forwarded (log (win (forward data w))) =
  forwarded (log (win w))
    ++ match onMessage (callbacks (this w)) with
       | Some _ => [data]
       | None => []
       end.
Proof.
  unfold forward. destruct (onMessage (callbacks (this w))); cbn [invoke].
  - cbn. rewrite forwarded_app. reflexivity.
  - rewrite app_nil_r. reflexivity.
Qed.

Lemma authorized_flushQueue (P : Platform) (w : World) :
  authorized (this (flushQueue P w)) = authorized (this w).
Proof.
  destruct (flushQueue_shape P w) as (id & done & failed & rest & Heq & _).
  rewrite Heq. reflexivity.
Qed.

(** The handler on a frame that does not open the gate. *)
Lemma ws_onmessage_other (P : Platform) (data : string) (w : World) :
  opens_gate P data = false ->
  ws_onmessage P data w = if intercepted P data then w else forward data w.
Proof.
  unfold opens_gate, intercepted, ws_onmessage.
  destruct (JSON_parse P data) as [d|]; [|reflexivity].
  intros H. apply orb_false_elim in H. destruct H as [Ha Hb].
  rewrite !type_is_false_guard, business_type_guard, Ha, Hb.
  cbn [orb]. destruct (Js.type_is d "pong"); reflexivity.
Qed.
(** The flag after the handler has run. *)
Lemma authorized_ws_onmessage (P : Platform) (data : string) (w : World) :
  authorized (this (ws_onmessage P data w)) =
  authorized (this w) || opens_gate P data.
Proof.
  destruct (opens_gate P data) eqn:Hg.
  - rewrite orb_true_r. unfold opens_gate in Hg.
    destruct (JSON_parse P data) as [d|] eqn:Hp; [|discriminate].
    destruct (authorize_summary P w) as (A1 & _).
    destruct (resolve_waiter_frame w) as (R1 & _).
    destruct (Js.type_is d "auth_success") eqn:Ha.
    + rewrite (ws_onmessage_auth_success P data d w Hp Ha).
      destruct (authorized (this w)) eqn:Ea; [|exact A1].
      rewrite R1. exact Ea.
    + cbn [orb] in Hg. rewrite (ws_onmessage_business P data d w Hp Hg).
      unfold forward.
      destruct (authorized (this w)) eqn:Ea;
        destruct (onMessage _); cbn [invoke]; assumption.
  - rewrite orb_false_r, (ws_onmessage_other P data w Hg).
    destruct (intercepted P data); [reflexivity|].
    unfold forward. destruct (onMessage _); reflexivity.
Qed.

(** The handler on a frame that opens the gate of an unauthorized
    manager. *)
Lemma ws_onmessage_opens (P : Platform) (data : string) (w : World) :
  opens_gate P data = true ->
  authorized (this w) = false ->
  ws_onmessage P data w =
  if intercepted P data then authorize P w else forward data (authorize P w).
Proof.
  unfold opens_gate, intercepted. intros Hg Ha.
  destruct (JSON_parse P data) as [d|] eqn:Hp; [|discriminate].
  destruct (Js.type_is d "auth_success") eqn:Ht.
  - cbn [orb]. rewrite (ws_onmessage_auth_success P data d w Hp Ht), Ha. reflexivity.
  - cbn [orb] in *. destruct (business_type_exclusive d Hg) as [_ Hpong].
    rewrite Hpong, (ws_onmessage_business P data d w Hp Hg), Ha. reflexivity.
Qed.

(** ** Calls of [ws.send], method by method *)

Lemma attempts_app (l r : list Event) : attempts (l ++ r) = attempts l ++ attempts r.
Proof. unfold attempts. apply flat_map_app. Qed.

Section Emission.

Variable P : Platform.
Variable A : string -> Prop.

Lemma emits_refl (w : World) : emits A w w.
Proof. exists []. rewrite app_nil_r. split; [reflexivity|constructor]. Qed.

Lemma emits_trans (w x y : World) : emits A w x -> emits A x y -> emits A w y.
Proof.
  intros (e1 & L1 & S1) (e2 & L2 & S2). exists (e1 ++ e2).
  rewrite L2, L1, app_assoc. split; [reflexivity|].
  rewrite attempts_app. apply Forall_app. auto.
Qed.

Lemma emits_upd (f : ChatWSManager -> ChatWSManager) (w : World) :
  emits A w (upd f w).
Proof. exists []. cbn. rewrite app_nil_r. split; [reflexivity|constructor]. Qed.

Lemma emits_updw (f : Window -> Window) (w : World) :
  (forall b, log (f b) = log b) -> emits A w (updw f w).
Proof.
  intros Hf. exists []. cbn. rewrite Hf, app_nil_r. split; [reflexivity|constructor].
Qed.

Lemma emits_emit (e : Event) (w : World) :
  Forall A (attempts [e]) -> emits A w (emit e w).
Proof. intros He. exists [e]. split; [reflexivity|exact He]. Qed.

Ltac em_step :=
  lazymatch goal with
  | |- emits _ ?w ?w => apply emits_refl
  | |- emits _ ?w (emit ?e ?x) =>
      apply (emits_trans w x);
      [|apply emits_emit; cbn; try constructor; auto]
  | |- emits _ ?w (tick ?x) =>
      apply (emits_trans w x); [|apply emits_updw; intro; reflexivity]
  | |- emits _ ?w (set_state ?st ?x) => unfold set_state
  | |- emits _ ?w (invoke ?cb _ ?x) => destruct cb; cbn [invoke]
  | |- emits _ ?w (clearTimer _ ?x) =>
      apply (emits_trans w x); [|apply emits_updw; intro; reflexivity]
  | |- emits _ ?w (add_timer _ _ ?x) =>
      apply (emits_trans w x); [|apply emits_updw; intro; reflexivity]
  | |- emits _ ?w (upd _ ?x) =>
      apply (emits_trans w x); [|apply emits_upd]
  | |- emits _ ?w (updw _ ?x) =>
      apply (emits_trans w x); [|apply emits_updw; intro; reflexivity]
  end.

Lemma em_transport_send (p : string) (w : World) :
  A p -> emits A w (fst (transport_send P p w)).
Proof.
  intros Hp. unfold transport_send. destruct (ws (this w)); [|apply emits_refl].
  destruct (send_throws P _); cbn [fst]; repeat em_step.
Qed.

Lemma em_enqueue (p : string) (w : World) : emits A w (enqueue p w).
Proof. rewrite enqueue_frame. apply emits_upd. Qed.

Lemma em_stopHeartbeat (w : World) : emits A w (stopHeartbeat w).
Proof. unfold stopHeartbeat. destruct (heartbeatTimer (this w)); repeat em_step. Qed.

Lemma em_startHeartbeat (w : World) : emits A w (startHeartbeat w).
Proof.
  unfold startHeartbeat, setTimer.
  apply (emits_trans w (stopHeartbeat w)); [apply em_stopHeartbeat|].
  repeat em_step.
Qed.

Lemma em_scheduleReconnect (w : World) : emits A w (scheduleReconnect P w).
Proof.
  unfold scheduleReconnect.
  destruct (explicitlyClosed _); [apply emits_refl|].
  destruct (negb _ || negb _); [apply emits_refl|].
  destruct (reconnectTimer _); [apply emits_refl|].
  unfold setTimer. repeat em_step.
Qed.

Lemma em_close (w : World) : emits A w (close P w).
Proof.
  rewrite close_eq. cbn [win log]. eexists. split; [reflexivity|].
  destruct (ws (this w)); cbn; constructor.
Qed.

Lemma em_connect (w : World) : emits A w (connect P w).
Proof.
  unfold connect.
  destruct (negb _ || negb _); [apply emits_refl|].
  destruct (usable w && sameTarget w); [apply emits_refl|].
  set (w1 := if usable w then close P w else w).
  assert (H1 : emits A w w1)
    by (unfold w1; destruct (usable w); [apply em_close|apply emits_refl]).
  clearbody w1.
  destruct (ConnectionState_eqb _ _); [exact H1|]. cbv zeta.
  destruct (WebSocket_throws P _ _).
  - eapply emits_trans; [|apply em_scheduleReconnect].
    repeat em_step. exact H1.
  - repeat em_step. exact H1.
Qed.

Lemma em_resolve_waiter (w : World) : emits A w (resolve_waiter w).
Proof.
  unfold resolve_waiter, call_resolver.
  destruct (awaitingAuthResolve (this w)); [|apply emits_refl].
  em_step.
  destruct (nth_error _ _) as [wt|]; [|apply emits_refl].
  destruct (settled wt); [apply emits_refl|].
  unfold settle. repeat em_step.
Qed.

Lemma em_auth_timeout (wid : nat) (w : World) : emits A w (auth_timeout wid w).
Proof.
  unfold auth_timeout.
  destruct (nth_error _ _) as [wt|]; [|apply emits_refl].
  destruct (settled wt); [apply emits_refl|].
  unfold settle. repeat em_step.
Qed.

Lemma em_ensureAuthorized (t : Q) (w : World) :
  emits A w (fst (ensureAuthorized P t w)).
Proof.
  unfold ensureAuthorized.
  destruct (ws_is_open w && authorized (this w)); [apply emits_refl|].
  set (w1 := if negb (ws_is_open w) then connect P w else w).
  assert (H1 : emits A w w1)
    by (unfold w1; destruct (negb _); [apply em_connect|apply emits_refl]).
  clearbody w1.
  destruct (authorized (this w1)); [exact H1|].
  unfold setTimer. cbn [fst]. repeat em_step. exact H1.
Qed.

Lemma em_updateSessionContext (u s : string) (a : bool) (w : World) :
  emits A w (updateSessionContext P u s a w).
Proof.
  unfold updateSessionContext. cbv zeta.
  set (w1 := upd (set_isAssistantMode a) _).
  assert (H1 : emits A w w1) by (unfold w1; repeat em_step).
  clearbody w1.
  destruct (ws (this w1)); [|exact H1].
  destruct (_ && _); [|exact H1].
  eapply emits_trans; [exact H1|apply em_close].
Qed.

Lemma em_ws_onclose (w : World) : emits A w (ws_onclose P w).
Proof.
  unfold ws_onclose. cbv zeta.
  set (w3 := invoke _ _ _).
  assert (H3 : emits A w w3).
  { unfold w3.
    assert (H2 : emits A w (stopHeartbeat (set_state closed w))).
    { eapply emits_trans; [|apply em_stopHeartbeat]. repeat em_step. }
    repeat em_step; exact H2. }
  clearbody w3.
  destruct (negb _); [|exact H3].
  eapply emits_trans; [exact H3|apply em_scheduleReconnect].
Qed.

Lemma em_forward (data : string) (w : World) : emits A w (forward data w).
Proof. unfold forward. repeat em_step. Qed.

(** A [send] of an unauthorized manager only queues. *)
Lemma em_send_unauthorized (d : SendArg) (w : World) :
  authorized (this w) = false -> emits A w (send P d w).
Proof.
  intros Ha. unfold send. rewrite Ha, andb_false_r.
  eapply emits_trans; [apply em_enqueue|apply em_connect].
Qed.

Hypothesis A_control : forall p, control_frame P p -> A p.

Lemma em_heartbeat_tick (w : World) : emits A w (heartbeat_tick P w).
Proof.
  unfold heartbeat_tick. destruct (ws_is_open w); [|apply emits_refl].
  apply (emits_trans w (tick w)); [em_step; em_step|].
  apply em_transport_send. apply A_control. right. eexists. reflexivity.
Qed.

Lemma em_sendAuthorization (w : World) : emits A w (sendAuthorization P w).
Proof.
  unfold sendAuthorization.
  destruct (getItem _ _); [|apply emits_refl].
  destruct (_ =? _)%string; [apply emits_refl|].
  destruct (JSON_parse P _); [|apply emits_refl].
  destruct (Js.opt_get _ _) as [token|]; [|apply emits_refl].
  destruct (negb _); [apply emits_refl|].
  destruct (ws (this w)); [|apply emits_refl].
  destruct (template_throws _); [apply emits_refl|].
  apply em_transport_send. apply A_control. left. exists token. reflexivity.
Qed.

Lemma em_ws_onopen (w : World) : emits A w (ws_onopen P w).
Proof.
  unfold ws_onopen. cbv zeta.
  eapply emits_trans; [|apply em_sendAuthorization].
  set (w3 := startHeartbeat _).
  assert (H3 : emits A w w3).
  { unfold w3. eapply emits_trans; [|apply em_startHeartbeat].
    repeat em_step. }
  clearbody w3. repeat em_step; exact H3.
Qed.

Lemma em_fire_timer (id : TimerId) (w : World) : emits A w (fire_timer P id w).
Proof.
  unfold fire_timer. destruct (find _ _) as [t|]; [|apply emits_refl].
  destruct (t_task t).
  - apply em_heartbeat_tick.
  - eapply emits_trans; [|apply em_connect]. repeat em_step.
  - eapply emits_trans; [|apply em_auth_timeout]. repeat em_step.
Qed.

(** A step that starts and ends unauthorized. *)
Lemma em_exec_unauthorized (o : Op) (w : World) :
  authorized (this w) = false ->
  authorized (this (exec P o w)) = false ->
  emits A w (exec P o w).
Proof.
  intros Ha Ha'. destruct o; cbn [exec] in *.
  - unfold setCallbacks. repeat em_step.
  - apply em_updateSessionContext.
  - apply em_connect.
  - apply em_close.
  - apply em_ensureAuthorized.
  - apply em_send_unauthorized, Ha.
  - unfold set_readyState. destruct (ws (this w)); repeat em_step.
  - apply em_ws_onopen.
  - rewrite authorized_ws_onmessage, Ha in Ha'. cbn [orb] in Ha'.
    rewrite (ws_onmessage_other P data w Ha').
    destruct (intercepted P data); [apply emits_refl|apply em_forward].
  - apply em_ws_onclose.
  - unfold ws_onerror. repeat em_step.
  - apply em_fire_timer.
  - repeat em_step.
Qed.

Lemma em_run_unauthorized (ops : list Op) :
  forall w, unauthorized_throughout P ops w = true -> emits A w (run P ops w).
Proof.
  induction ops as [|o ops IH]; intros w H; [apply emits_refl|].
  cbn [unauthorized_throughout] in H. apply andb_prop in H. destruct H as [Ha H].
  apply negb_true_iff in Ha.
  cbn [run fold_left]. apply (emits_trans w (exec P o w)).
  - apply em_exec_unauthorized; [exact Ha|].
    destruct ops; cbn [unauthorized_throughout] in H;
      apply andb_prop in H; destruct H as [H _]; apply negb_true_iff, H.
  - apply IH, H.
Qed.

End Emission.

(** ** [connect] and [scheduleReconnect] in one step *)

Lemma context_set_guard (w : World) :
  negb (Js.truthy_str (url (this w))) || negb (Js.truthy_str (sessionId (this w))) =
  negb (context_set w).
Proof. unfold context_set. rewrite negb_andb. reflexivity. Qed.

(** [scheduleReconnect] when it schedules. *)
Lemma scheduleReconnect_eq (P : Platform) (w : World) :
  explicitlyClosed (this w) = false ->
  context_set w = true ->
  reconnectTimer (this w) = None ->
  scheduleReconnect P w =
  mkWorld
    (set_reconnectTimer (Some (nextTimer (win w)))
       (set_reconnectAttempts (Nat.min (reconnectAttempts (this w) + 1) 10)
          (this w)))
    (mkWindow
       (timers (win w) ++ [mkTimer (nextTimer (win w)) ReconnectFire (next_delay P w)])
       (Pos.succ (nextTimer (win w))) (waiters (win w)) (localStorage (win w))
       (sockets (win w)) (S (calls (win w))) (log (win w))).
Proof.
  intros He Hc Ht. unfold scheduleReconnect.
  rewrite He, context_set_guard, Hc, Ht. cbn [negb].
  destruct w as [m b]. destruct b. reflexivity.
Qed.

(** [scheduleReconnect] never drops a timer it finds. *)
Lemma scheduleReconnect_armed (P : Platform) (w : World) :
  explicitlyClosed (this w) = false ->
  context_set w = true ->
  reconnectTimer (this (scheduleReconnect P w)) <> None.
Proof.
  intros He Hc. destruct (reconnectTimer (this w)) as [id|] eqn:Ht.
  - unfold scheduleReconnect. rewrite He, context_set_guard, Hc, Ht. cbn [negb].
    rewrite Ht. discriminate.
  - rewrite scheduleReconnect_eq by assumption. discriminate.
Qed.

(** The part of [connect] after the reuse test and the optional [close()]:
    what it does to a manager that is not Connecting. *)
Lemma connect_eq (P : Platform) (w : World) :
  context_set w = true ->
  usable w = false ->
  state (this w) <> connecting ->
  connect P w =
  if WebSocket_throws P (calls (win w)) (endpoint_of w)
  then scheduleReconnect P
         (mkWorld
            (mkManager (ws (this w)) (url (this w)) (sessionId (this w))
               (isAssistantMode (this w)) closed (callbacks (this w))
               (heartbeatTimer (this w)) (reconnectTimer (this w))
               (reconnectAttempts (this w)) false (sendQueue (this w)) false
               (awaitingAuthResolve (this w)) (connectedUrl (this w))
               (connectedSessionId (this w)))
            (mkWindow (timers (win w)) (nextTimer (win w)) (waiters (win w))
               (localStorage (win w)) (sockets (win w)) (S (calls (win w)))
               (log (win w)
                  ++ [StateIs connecting; ConstructThrew (endpoint_of w);
                      StateIs closed])))
  else mkWorld
         (mkManager (Some (mkWebSocket (sockets (win w)) (endpoint_of w) CONNECTING))
            (url (this w)) (sessionId (this w)) (isAssistantMode (this w))
            connecting (callbacks (this w)) (heartbeatTimer (this w))
            (reconnectTimer (this w)) (reconnectAttempts (this w)) false
            (sendQueue (this w)) false (awaitingAuthResolve (this w))
            (Some (endpoint_of w)) (sessionId (this w)))
         (mkWindow (timers (win w)) (nextTimer (win w)) (waiters (win w))
            (localStorage (win w)) (S (sockets (win w))) (S (calls (win w)))
            (log (win w) ++ [StateIs connecting; Constructed (sockets (win w))
                                                   (endpoint_of w)])).
Proof.
  intros Hc Hus Hst. unfold connect.
  rewrite context_set_guard, Hc, Hus. cbn [negb andb].
  assert (Hs : ConnectionState_eqb (state (this w)) connecting = false)
    by (destruct (state (this w)); try reflexivity; contradiction).
  rewrite Hs. unfold endpoint_of.
  destruct w as [m b].
  destruct m as [wsx u sid am st cb hb rt ra ec q au aw cu cs]. destruct b.
  record_lazy.
  destruct (WebSocket_throws P _ _); rewrite <- ?app_assoc; reflexivity.
Qed.

(** With the open transport bound to another target, [connect] is
    [close()] followed by a fresh [connect]. *)
Lemma connect_retarget_eq (P : Platform) (w : World) :
  context_set w = true -> usable w = true -> sameTarget w = false ->
  connect P w = connect P (close P w).
Proof.
  intros Hc Hus Hsame.
  assert (Hc' : context_set (close P w) = true)
    by (unfold context_set; rewrite close_eq; exact Hc).
  assert (Hus' : usable (close P w) = false)
    by (unfold usable; rewrite close_eq; reflexivity).
  unfold connect.
  rewrite !context_set_guard, Hc, Hc', Hus, Hsame, Hus'. reflexivity.
Qed.

Lemma connect_connecting (P : Platform) (w : World) :
  state (this w) = connecting -> connect P w = w.
Proof.
  intros Hst. unfold connect, usable.
  destruct (negb _ || negb _); [reflexivity|].
  rewrite Hst. destruct (ws (this w)); cbn; rewrite Hst; reflexivity.
Qed.

Lemma scheduleReconnect_this (P : Platform) (w : World) :
  exists r a,
    this (scheduleReconnect P w) =
    set_reconnectTimer r (set_reconnectAttempts a (this w)).
Proof.
  assert (Hsame : this w =
                  set_reconnectTimer (reconnectTimer (this w))
                    (set_reconnectAttempts (reconnectAttempts (this w)) (this w)))
    by (destruct w as [m b]; destruct m; reflexivity).
  unfold scheduleReconnect.
  destruct (explicitlyClosed _); [eexists; eexists; exact Hsame|].
  destruct (negb _ || negb _); [eexists; eexists; exact Hsame|].
  destruct (reconnectTimer (this w)) eqn:E;
    [eexists; eexists; exact Hsame|].
  eexists. eexists. reflexivity.
Qed.

(** What [connect] does to the queue: only the [close()] of a stale
    transport empties it. *)
Lemma connect_sendQueue (P : Platform) (w : World) :
  sendQueue (this (connect P w)) =
  if context_set w && usable w && negb (sameTarget w) then []
  else sendQueue (this w).
Proof.
  destruct (context_set w) eqn:Hc; cbn [andb].
  2:{ unfold connect. rewrite context_set_guard, Hc. reflexivity. }
  destruct (usable w) eqn:Hus; cbn [andb].
  - destruct (sameTarget w) eqn:Hsame; cbn [negb].
    + unfold connect. rewrite context_set_guard, Hc, Hus, Hsame. reflexivity.
    + rewrite (connect_retarget_eq P w Hc Hus Hsame).
      rewrite connect_eq.
      * destruct (WebSocket_throws P _ _).
        -- match goal with
           | |- sendQueue (this (scheduleReconnect P ?z)) = _ =>
               destruct (scheduleReconnect_this P z) as (r & a & ->)
           end.
           cbn [sendQueue set_reconnectTimer set_reconnectAttempts this].
           rewrite close_eq. reflexivity.
        -- cbn [this sendQueue]. rewrite close_eq. reflexivity.
      * unfold context_set. rewrite close_eq. exact Hc.
      * unfold usable. rewrite close_eq. reflexivity.
      * rewrite close_eq. discriminate.
  - destruct (ConnectionState_eqb (state (this w)) connecting) eqn:Hst.
    + rewrite connect_connecting; [reflexivity|].
      destruct (state (this w)); try discriminate. reflexivity.
    + rewrite connect_eq; [|exact Hc|exact Hus|intros E; rewrite E in Hst; discriminate].
      destruct (WebSocket_throws P _ _); [|reflexivity].
      match goal with
      | |- sendQueue (this (scheduleReconnect P ?z)) = _ =>
          destruct (scheduleReconnect_this P z) as (r & a & ->)
      end.
      reflexivity.
Qed.

(** ** Histories *)

Lemma run_app (P : Platform) (ops1 ops2 : list Op) (w : World) :
  run P (ops1 ++ ops2) w = run P ops2 (run P ops1 w).
Proof. unfold run. apply fold_left_app. Qed.

Lemma reachable_run (P : Platform) (ops : list Op) (w : World) :
  reachable P w -> reachable P (run P ops w).
Proof.
  intros (storage & ops0 & ->). exists storage, (ops0 ++ ops).
  symmetry. apply run_app.
Qed.

Lemma reachable_exec (P : Platform) (o : Op) (w : World) :
  reachable P w -> reachable P (exec P o w).
Proof. intros H. apply (reachable_run P [o] w H). Qed.

Lemma scheduleReconnect_pending (P : Platform) (w : World) :
  reconnectTimer (this w) <> None -> scheduleReconnect P w = w.
Proof.
  intros H. unfold scheduleReconnect.
  destruct (explicitlyClosed _); [reflexivity|].
  destruct (negb _ || negb _); [reflexivity|].
  destruct (reconnectTimer _); [reflexivity|contradiction].
Qed.

Lemma scheduleReconnect_sockets (P : Platform) (w : World) :
  sockets (win (scheduleReconnect P w)) = sockets (win w).
Proof.
  unfold scheduleReconnect.
  destruct (explicitlyClosed _); [reflexivity|].
  destruct (negb _ || negb _); [reflexivity|].
  destruct (reconnectTimer _); reflexivity.
Qed.

(** The timer a handle names is the one [find] returns. *)
Lemma find_pending (w : World) (id : TimerId) (k : TimerTask) (d : Q) :
  timer_ids_unique w ->
  In (mkTimer id k d) (timers (win w)) ->
  find (fun t => (t_id t =? id)%positive) (timers (win w)) = Some (mkTimer id k d).
Proof.
  intros Hnd Hin.
  destruct (find (fun t => (t_id t =? id)%positive) (timers (win w))) as [t|] eqn:Ef.
  - apply find_some in Ef. destruct Ef as [Hin' Hid]. apply Pos.eqb_eq in Hid.
    f_equal. apply (same_id_same_timer (timers (win w))); auto.
  - exfalso. apply (find_none _ _ Ef) in Hin. cbn in Hin.
    rewrite Pos.eqb_refl in Hin. discriminate.
Qed.

(** The manager after the close handler, before it asks for a
    reconnection. *)
Lemma ws_onclose_eq (P : Platform) (w : World) :
  ws_onclose P w =
  (if explicitlyClosed (this w) then (fun x => x) else scheduleReconnect P)
    (mkWorld
       (set_heartbeatTimer None (set_state_field closed (this w)))
       (set_log (log (win w) ++ [StateIs closed]
                   ++ call_events (onClose (callbacks (this w))) CallOnClose)
          (set_timers (drop_timer (heartbeatTimer (this w)) (timers (win w)))
             (win w)))).
Proof.
  unfold ws_onclose. cbv zeta. rewrite invoke_eq, stopHeartbeat_eq.
  destruct w as [m b].
  destruct m as [wsx u sid am st cb hb rt ra ec q au aw cu cs]. destruct b.
  record_lazy. rewrite <- app_assoc. destruct ec; reflexivity.
Qed.

(** After an unexpected close whose [onClose] callback returns, a
    reconnection timer is pending, and its firing reconnects. *)
Lemma ws_onclose_reconnects (P : Platform) (w : World) :
  timer_discipline w ->
  explicitlyClosed (this w) = false ->
  context_set w = true ->
  state (this (ws_onclose P w)) = closed
  /\ heartbeatTimer (this (ws_onclose P w)) = None
  /\ sendQueue (this (ws_onclose P w)) = sendQueue (this w)
  /\ exists id,
       reconnectTimer (this (ws_onclose P w)) = Some id
       /\ pending id ReconnectFire (ws_onclose P w)
       /\ (WebSocket_throws P (calls (win (ws_onclose P w))) (endpoint_of w) = false ->
           ws (this (fire_timer P id (ws_onclose P w))) =
           Some (mkWebSocket (sockets (win w)) (endpoint_of w) CONNECTING)
           /\ state (this (fire_timer P id (ws_onclose P w))) = connecting
           /\ reconnectTimer (this (fire_timer P id (ws_onclose P w))) = None
           /\ sendQueue (this (fire_timer P id (ws_onclose P w))) = sendQueue (this w)
           /\ sameTarget (fire_timer P id (ws_onclose P w)) = true
           /\ transports_created (log (win (fire_timer P id (ws_onclose P w)))) =
              transports_created (log (win w)) + 1).
Proof.
  intros Hdisc He Hc.
  set (w1 := ws_onclose P w).
  pose proof (td_ws_onclose P w Hdisc) as Htd. fold w1 in Htd.
  assert (Hw1 : w1 = scheduleReconnect P
     (mkWorld
       (set_heartbeatTimer None (set_state_field closed (this w)))
       (set_log (log (win w) ++ [StateIs closed]
                   ++ call_events (onClose (callbacks (this w))) CallOnClose)
          (set_timers (drop_timer (heartbeatTimer (this w)) (timers (win w)))
             (win w)))))
    by (unfold w1; rewrite ws_onclose_eq, He; reflexivity).
  match type of Hw1 with
  | _ = scheduleReconnect P ?z0 => set (z := z0) in *
  end.
  destruct (scheduleReconnect_frame P z) as [Hst Hlog].
  destruct (scheduleReconnect_this P z) as (r & a & Hthis).
  assert (Hcz : context_set z = true) by exact Hc.
  pose proof (scheduleReconnect_armed P z He Hcz) as Harm.
  rewrite <- Hw1 in Hst, Hlog, Hthis, Harm.
  assert (Hsock : sockets (win w1) = sockets (win w))
    by (rewrite Hw1, scheduleReconnect_sockets; reflexivity).
  split; [rewrite Hst; reflexivity|].
  split; [rewrite Hthis; reflexivity|].
  split; [rewrite Hthis; reflexivity|].
  destruct (reconnectTimer (this w1)) as [id|] eqn:Et; [|contradiction].
  exists id. split; [reflexivity|].
  pose proof (td_reconnect w1 Htd id Et) as Hpend.
  split; [exact Hpend|]. intros Hok.
  destruct Hpend as [d Hd].
  assert (Hfire : fire_timer P id w1 =
                  connect P (upd (set_reconnectTimer None) (clearTimer id w1))).
  { unfold fire_timer.
    rewrite (find_pending w1 id ReconnectFire d (td_unique w1 Htd) Hd).
    reflexivity. }
  set (y := upd (set_reconnectTimer None) (clearTimer id w1)) in *.
  assert (Hy : this y = set_reconnectTimer None (this w1)) by reflexivity.
  assert (Hcy : context_set y = true)
    by (unfold context_set; rewrite Hy, Hthis; exact Hc).
  assert (Huy : usable y = false).
  { unfold usable. rewrite Hy. cbn [ws state set_reconnectTimer].
    destruct (ws (this w1)); [|reflexivity]. rewrite Hst. reflexivity. }
  assert (Hsy : state (this y) <> connecting)
    by (rewrite Hy; cbn [state set_reconnectTimer]; rewrite Hst; discriminate).
  assert (Hey : endpoint_of y = endpoint_of w)
    by (unfold endpoint_of; rewrite Hy, Hthis; reflexivity).
  rewrite Hfire, (connect_eq P y Hcy Huy Hsy), Hey.
  change (calls (win y)) with (calls (win w1)). rewrite Hok.
  cbn [this win ws state reconnectTimer sendQueue log].
  change (sockets (win y)) with (sockets (win w1)). rewrite Hsock.
  split; [reflexivity|]. split; [reflexivity|].
  split; [rewrite Hy; reflexivity|].
  split; [rewrite Hy, Hthis; reflexivity|].
  split.
  - unfold sameTarget, endpoint_of.
    cbn [this connectedUrl url connectedSessionId sessionId].
    rewrite Hy, Hthis. cbn [url sessionId set_reconnectTimer set_reconnectAttempts
                              set_heartbeatTimer set_state_field z this].
    unfold context_set in Hc. apply andb_prop in Hc. destruct Hc as [Hu Hsid].
    destruct (url (this w)) as [u|]; [|discriminate].
    destruct (sessionId (this w)) as [sid|]; [|discriminate].
    cbn. rewrite !String.eqb_refl. reflexivity.
  - change (log (win y)) with (log (win w1)). rewrite Hlog.
    cbn [z win log set_log]. rewrite !transports_created_app.
    destruct (onClose (callbacks (this w))); cbn; lia.
Qed.

(** ** The heartbeat and the record of the transport are kept consistent *)

Lemma sc_refl (w : World) : same_connection w w.
Proof. repeat split; auto. Qed.

Lemma sc_trans (w x y : World) :
  same_connection w x -> same_connection x y -> same_connection w y.
Proof.
  intros (A1 & A2 & A3 & A4 & A5 & A6) (B1 & B2 & B3 & B4 & B5 & B6).
  repeat split; try congruence. intros t Ht Hh. apply A6; auto.
Qed.

Lemma sc_upd (f : ChatWSManager -> ChatWSManager) (w : World) :
  (forall m, heartbeatTimer (f m) = heartbeatTimer m /\ ws (f m) = ws m
             /\ connectedUrl (f m) = connectedUrl m /\ state (f m) = state m) ->
  same_connection w (upd f w).
Proof.
  intros Hf. destruct (Hf (this w)) as (E1 & E2 & E3 & E4).
  repeat split; cbn; auto.
Qed.

Lemma sc_updw (f : Window -> Window) (w : World) :
  (forall b, timers (f b) = timers b /\ sockets (f b) = sockets b) ->
  same_connection w (updw f w).
Proof.
  intros Hf. destruct (Hf (win w)) as (E1 & E2).
  repeat split; cbn; auto. rewrite E1. auto.
Qed.

Lemma sc_add_timer (k : TimerTask) (d : Q) (w : World) :
  k <> HeartbeatTick -> same_connection w (add_timer k d w).
Proof.
  intros Hk. repeat split; cbn; auto. intros t Hin Hh.
  apply in_app_or in Hin. destruct Hin as [Hin|[<-|[]]]; [exact Hin|].
  unfold is_heartbeat in Hh. cbn in Hh. destruct k; try discriminate.
  contradiction.
Qed.

Lemma sc_clearTimer (id : TimerId) (w : World) : same_connection w (clearTimer id w).
Proof.
  repeat split; cbn; auto. intros t Hin _. apply filter_In in Hin. apply Hin.
Qed.

Ltac sc_step :=
  lazymatch goal with
  | |- same_connection ?w ?w => apply sc_refl
  | |- same_connection ?w (emit _ ?x) =>
      apply (sc_trans w x); [|apply sc_updw; intro; split; reflexivity]
  | |- same_connection ?w (tick ?x) =>
      apply (sc_trans w x); [|apply sc_updw; intro; split; reflexivity]
  | |- same_connection ?w (invoke ?cb _ ?x) => destruct cb; cbn [invoke]
  | |- same_connection ?w (clearTimer _ ?x) =>
      apply (sc_trans w x); [|apply sc_clearTimer]
  | |- same_connection ?w (add_timer _ _ ?x) =>
      apply (sc_trans w x); [|apply sc_add_timer; discriminate]
  | |- same_connection ?w (upd _ ?x) =>
      apply (sc_trans w x); [|apply sc_upd; intro; repeat split; reflexivity]
  | |- same_connection ?w (updw _ ?x) =>
      apply (sc_trans w x); [|apply sc_updw; intro; split; reflexivity]
  end.

Lemma sc_enqueue (p : string) (w : World) : same_connection w (enqueue p w).
Proof. rewrite enqueue_frame. sc_step. sc_step. Qed.

Lemma sc_transport_send (P : Platform) (p : string) (w : World) :
  same_connection w (fst (transport_send P p w)).
Proof.
  unfold transport_send. destruct (ws (this w)); [|apply sc_refl].
  destruct (send_throws P _); cbn [fst]; repeat sc_step.
Qed.

Lemma sc_flushQueue (P : Platform) (w : World) : same_connection w (flushQueue P w).
Proof.
  destruct (flushQueue_shape P w) as (id & done & failed & rest & Heq & _).
  rewrite Heq. repeat split; auto.
Qed.

Lemma sc_heartbeat_tick (P : Platform) (w : World) :
  same_connection w (heartbeat_tick P w).
Proof.
  unfold heartbeat_tick. destruct (ws_is_open w); [|apply sc_refl].
  apply (sc_trans w (tick w)); [sc_step; sc_step|apply sc_transport_send].
Qed.

Lemma sc_sendAuthorization (P : Platform) (w : World) :
  same_connection w (sendAuthorization P w).
Proof.
  destruct (sendAuthorization_shape P w) as (frames & Heq & _).
  rewrite Heq. repeat split; auto.
Qed.

Lemma sc_scheduleReconnect (P : Platform) (w : World) :
  same_connection w (scheduleReconnect P w).
Proof.
  unfold scheduleReconnect.
  destruct (explicitlyClosed _); [apply sc_refl|].
  destruct (negb _ || negb _); [apply sc_refl|].
  destruct (reconnectTimer _); [apply sc_refl|].
  unfold setTimer. repeat sc_step.
Qed.

Lemma sc_resolve_waiter (w : World) : same_connection w (resolve_waiter w).
Proof.
  unfold resolve_waiter, call_resolver.
  destruct (awaitingAuthResolve (this w)); [|apply sc_refl].
  sc_step.
  destruct (nth_error _ _) as [wt|]; [|apply sc_refl].
  destruct (settled wt); [apply sc_refl|].
  unfold settle. repeat sc_step.
Qed.

Lemma sc_auth_timeout (wid : nat) (w : World) : same_connection w (auth_timeout wid w).
Proof.
  unfold auth_timeout.
  destruct (nth_error _ _) as [wt|]; [|apply sc_refl].
  destruct (settled wt); [apply sc_refl|].
  unfold settle. repeat sc_step.
Qed.

Lemma sc_authorize (P : Platform) (w : World) : same_connection w (authorize P w).
Proof.
  unfold authorize.
  eapply sc_trans; [|apply sc_resolve_waiter].
  set (x := flushQueue P _).
  assert (Hx : same_connection w x).
  { unfold x. eapply sc_trans; [|apply sc_flushQueue]. sc_step. sc_step. }
  clearbody x. repeat sc_step; exact Hx.
Qed.

Lemma sc_ws_onmessage (P : Platform) (data : string) (w : World) :
  same_connection w (ws_onmessage P data w).
Proof.
  assert (Hf : forall x, same_connection w x -> same_connection w (forward data x))
    by (intros x Hx; unfold forward; repeat sc_step; exact Hx).
  unfold ws_onmessage.
  destruct (JSON_parse P data) as [d|]; [|apply Hf, sc_refl].
  pose proof (sc_authorize P w) as Hauth. unfold authorize in Hauth.
  assert (Hcb : callbacks (this (flushQueue P (upd (set_authorized true) w))) =
                callbacks (this w))
    by (rewrite flushQueue_callbacks; reflexivity).
  rewrite !Hcb.
  destruct (Js.truthy d && Js.type_is d "auth_success").
  - destruct (negb (authorized (this w))); [exact Hauth|].
    eapply sc_trans; [|apply sc_resolve_waiter]. sc_step. sc_step.
  - destruct (Js.truthy d && Js.type_is d "pong"); [apply sc_refl|].
    apply Hf.
    destruct (Js.truthy d && business_type d); [|apply sc_refl].
    destruct (negb (authorized (this w))); [exact Hauth|apply sc_refl].
Qed.

(** The invariant only depends on what [same_connection] keeps. *)
Lemma ci_same (w w' : World) :
  same_connection w w' -> connection_inv w -> connection_inv w'.
Proof.
  intros (E1 & E2 & E3 & E4 & E5 & E6) [Hh (T1 & T2 & T3 & T4)]. split.
  - intros t Hin Hb. rewrite E1. apply Hh; auto.
  - unfold transport_recorded. rewrite E2, E3, E4, E5. auto.
Qed.

Lemma no_heartbeat_after_drop (w : World) :
  heartbeat_tracked w ->
  forall t, In t (drop_timer (heartbeatTimer (this w)) (timers (win w))) ->
            is_heartbeat t = false.
Proof.
  intros Hh t Hin. destruct (is_heartbeat t) eqn:Hb; [|reflexivity].
  exfalso. pose proof (drop_timer_incl _ _ _ Hin) as Hin0.
  destruct (Hh t Hin0 Hb) as [Hid _]. rewrite Hid in Hin.
  apply (drop_timer_absent (t_id t) (timers (win w))).
  apply in_map, Hin.
Qed.

Lemma ci_stopHeartbeat (w : World) :
  connection_inv w -> connection_inv (stopHeartbeat w).
Proof.
  intros [Hh HT]. rewrite stopHeartbeat_eq. split; [|exact HT].
  intros t Hin Hb. cbn [win timers set_timers] in Hin.
  rewrite (no_heartbeat_after_drop w Hh t Hin) in Hb. discriminate.
Qed.

Lemma ci_startHeartbeat (w : World) :
  connection_inv w -> connection_inv (startHeartbeat w).
Proof.
  intros [Hh HT]. rewrite startHeartbeat_eq. split; [|exact HT].
  intros t Hin Hb. cbn [win timers set_timers set_nextTimer] in Hin.
  apply in_app_or in Hin. destruct Hin as [Hin|[<-|[]]].
  - rewrite (no_heartbeat_after_drop w Hh t Hin) in Hb. discriminate.
  - split; reflexivity.
Qed.

Lemma ci_set_state (st : ConnectionState) (w : World) :
  st = open \/ st = closed ->
  connection_inv w -> connection_inv (set_state st w).
Proof.
  intros Hst [Hh (T1 & T2 & T3 & T4)]. split; [exact Hh|].
  unfold transport_recorded. cbn.
  repeat split; try (apply T1; assumption);
    destruct Hst as [-> | ->]; discriminate.
Qed.

Lemma ci_close (P : Platform) (w : World) :
  connection_inv w -> connection_inv (close P w).
Proof.
  intros [Hh HT]. rewrite close_eq. split.
  - intros t Hin Hb. cbn [win timers] in Hin.
    apply drop_timer_incl in Hin.
    rewrite (no_heartbeat_after_drop w Hh t Hin) in Hb. discriminate.
  - unfold transport_recorded. cbn [this win ws state connectedUrl sockets].
    repeat split; discriminate.
Qed.

Lemma ci_connect (P : Platform) (w : World) :
  connection_inv w -> connection_inv (connect P w).
Proof.
  intros H.
  assert (Hfresh : forall x, connection_inv x -> context_set x = true ->
             usable x = false -> state (this x) <> connecting ->
             connection_inv (connect P x)).
  { intros x [Hh (T1 & T2 & T3 & T4)] Hcx Hux Hsx.
    rewrite (connect_eq P x Hcx Hux Hsx).
    destruct (WebSocket_throws P _ _).
    - eapply ci_same; [apply sc_scheduleReconnect|]. split; [exact Hh|].
      unfold transport_recorded. cbn [this win ws state connectedUrl sockets].
      repeat split; try discriminate; apply T1; assumption.
    - split; [exact Hh|].
      unfold transport_recorded. cbn [this win ws state connectedUrl sockets].
      repeat split; try discriminate;
        match goal with
        | E : Some _ = Some _ |- _ => inversion E; cbn; auto
        end. }
  destruct (context_set w) eqn:Hc.
  2:{ unfold connect. rewrite context_set_guard, Hc. exact H. }
  destruct (usable w) eqn:Hus.
  - destruct (sameTarget w) eqn:Hsame.
    + unfold connect. rewrite context_set_guard, Hc, Hus, Hsame. exact H.
    + rewrite (connect_retarget_eq P w Hc Hus Hsame). apply Hfresh.
      * apply ci_close, H.
      * unfold context_set. rewrite close_eq. exact Hc.
      * unfold usable. rewrite close_eq. reflexivity.
      * rewrite close_eq. discriminate.
  - destruct (ConnectionState_eqb (state (this w)) connecting) eqn:Hst.
    + rewrite connect_connecting; [exact H|].
      destruct (state (this w)); try discriminate. reflexivity.
    + apply Hfresh; try assumption. intros E. rewrite E in Hst. discriminate.
Qed.

Section Connection.

Variable P : Platform.

Lemma ci_ensureAuthorized (t : Q) (w : World) :
  connection_inv w -> connection_inv (fst (ensureAuthorized P t w)).
Proof.
  intros H. unfold ensureAuthorized.
  destruct (ws_is_open w && authorized (this w)); [exact H|].
  set (w1 := if negb (ws_is_open w) then connect P w else w).
  assert (H1 : connection_inv w1)
    by (unfold w1; destruct (negb _); [apply ci_connect|]; exact H).
  clearbody w1.
  destruct (authorized (this w1)); [exact H1|].
  unfold setTimer. cbn [fst].
  eapply ci_same; [|exact H1]. repeat sc_step.
Qed.

Lemma ci_send (d : SendArg) (w : World) :
  connection_inv w -> connection_inv (send P d w).
Proof.
  intros H. unfold send.
  destruct (ws_is_open w && authorized (this w)).
  - pose proof (sc_transport_send P (serialize P d) w) as H1.
    destruct (transport_send P (serialize P d) w) as [w1 ok]. cbn [fst] in H1.
    destruct ok; [apply (ci_same w w1 H1 H)|].
    apply (ci_same w1); [apply sc_enqueue|apply (ci_same w w1 H1 H)].
  - apply ci_connect. apply (ci_same w); [apply sc_enqueue|exact H].
Qed.

Lemma ci_updateSessionContext (u s : string) (a : bool) (w : World) :
  connection_inv w -> connection_inv (updateSessionContext P u s a w).
Proof.
  intros H. unfold updateSessionContext. cbv zeta.
  set (w1 := upd (set_isAssistantMode a) _).
  assert (H1 : connection_inv w1)
    by (apply (ci_same w); [unfold w1; repeat sc_step|exact H]).
  clearbody w1.
  destruct (ws (this w1)); [|exact H1].
  destruct (_ && _); [apply ci_close|]; exact H1.
Qed.

Lemma ci_ws_onopen (w : World) : connection_inv w -> connection_inv (ws_onopen P w).
Proof.
  intros H. unfold ws_onopen. cbv zeta.
  eapply ci_same; [apply sc_sendAuthorization|].
  set (w3 := startHeartbeat _).
  assert (H3 : connection_inv w3).
  { unfold w3. apply ci_startHeartbeat.
    eapply ci_same; [|apply (ci_set_state open w); [left; reflexivity|exact H]].
    sc_step. sc_step. }
  clearbody w3. eapply ci_same; [|exact H3]. repeat sc_step.
Qed.

Lemma ci_ws_onclose (w : World) : connection_inv w -> connection_inv (ws_onclose P w).
Proof.
  intros H. unfold ws_onclose. cbv zeta.
  set (w3 := invoke _ _ _).
  assert (H3 : connection_inv w3).
  { unfold w3.
    eapply ci_same;
      [|apply ci_stopHeartbeat, (ci_set_state closed w);
        [right; reflexivity|exact H]].
    repeat sc_step. }
  clearbody w3.
  destruct (negb _); [|exact H3].
  eapply ci_same; [apply sc_scheduleReconnect|exact H3].
Qed.

Lemma ci_fire_timer (id : TimerId) (w : World) :
  connection_inv w -> connection_inv (fire_timer P id w).
Proof.
  intros H. unfold fire_timer. destruct (find _ _) as [t|]; [|exact H].
  destruct (t_task t).
  - eapply ci_same; [apply sc_heartbeat_tick|exact H].
  - apply ci_connect. eapply ci_same; [|exact H]. repeat sc_step.
  - eapply ci_same; [|exact H].
    eapply sc_trans; [|apply sc_auth_timeout]. repeat sc_step.
Qed.

Lemma ci_exec (o : Op) (w : World) : connection_inv w -> connection_inv (exec P o w).
Proof.
  intros H. destruct o; cbn [exec].
  - eapply ci_same; [|exact H]. unfold setCallbacks. repeat sc_step.
  - apply ci_updateSessionContext, H.
  - apply ci_connect, H.
  - apply ci_close, H.
  - apply ci_ensureAuthorized, H.
  - apply ci_send, H.
  - unfold set_readyState. destruct (ws (this w)) as [s|] eqn:Hws; [|exact H].
    destruct H as [Hh (T1 & T2 & T3 & T4)]. split; [exact Hh|].
    unfold transport_recorded. cbn [upd this win ws set_ws connectedUrl state sockets].
    repeat split; try assumption.
    + match goal with E : Some _ = Some _ |- _ => inversion E end.
      cbn. apply (T1 s Hws).
    + match goal with E : Some _ = Some _ |- _ => inversion E end.
      cbn. apply (T1 s Hws).
    + discriminate.
    + intros Hi. rewrite (T3 Hi) in Hws. discriminate.
  - apply ci_ws_onopen, H.
  - eapply ci_same; [apply sc_ws_onmessage|exact H].
  - apply ci_ws_onclose, H.
  - eapply ci_same; [|exact H]. unfold ws_onerror. repeat sc_step.
  - apply ci_fire_timer, H.
  - eapply ci_same; [|exact H]. repeat sc_step.
Qed.

Lemma ci_run (ops : list Op) :
  forall w, connection_inv w -> connection_inv (run P ops w).
Proof.
  induction ops as [|o ops IH]; intros w H; [exact H|].
  apply IH, ci_exec, H.
Qed.

Lemma reachable_connection (w : World) : reachable P w -> connection_inv w.
Proof.
  intros (storage & ops & ->). apply ci_run. split.
  - intros t [].
  - unfold transport_recorded. cbn. repeat split; discriminate.
Qed.

End Connection.

(** ** The heartbeat stays off until the next open event *)

Lemma hb_off_same (w w' : World) :
  same_connection w w' ->
  heartbeatTimer (this w) = None -> heartbeatTimer (this w') = None.
Proof. intros (E & _) H. rewrite E. exact H. Qed.

Lemma hb_off_close (P : Platform) (w : World) :
  heartbeatTimer (this (close P w)) = None.
Proof. rewrite close_eq. reflexivity. Qed.

Lemma hb_off_connect (P : Platform) (w : World) :
  heartbeatTimer (this w) = None -> heartbeatTimer (this (connect P w)) = None.
Proof.
  intros H.
  assert (Hfresh : forall x, heartbeatTimer (this x) = None ->
             context_set x = true -> usable x = false ->
             state (this x) <> connecting ->
             heartbeatTimer (this (connect P x)) = None).
  { intros x Hx Hcx Hux Hsx. rewrite (connect_eq P x Hcx Hux Hsx).
    destruct (WebSocket_throws P _ _); [|exact Hx].
    match goal with
    | |- heartbeatTimer (this (scheduleReconnect P ?z)) = _ =>
        apply (hb_off_same z); [apply sc_scheduleReconnect|exact Hx]
    end. }
  destruct (context_set w) eqn:Hc.
  2:{ unfold connect. rewrite context_set_guard, Hc. exact H. }
  destruct (usable w) eqn:Hus.
  - destruct (sameTarget w) eqn:Hsame.
    + unfold connect. rewrite context_set_guard, Hc, Hus, Hsame. exact H.
    + rewrite (connect_retarget_eq P w Hc Hus Hsame). apply Hfresh.
      * apply hb_off_close.
      * unfold context_set. rewrite close_eq. exact Hc.
      * unfold usable. rewrite close_eq. reflexivity.
      * rewrite close_eq. discriminate.
  - destruct (ConnectionState_eqb (state (this w)) connecting) eqn:Hst.
    + rewrite connect_connecting; [exact H|].
      destruct (state (this w)); try discriminate. reflexivity.
    + apply Hfresh; try assumption. intros E. rewrite E in Hst. discriminate.
Qed.

Lemma hb_off_exec (P : Platform) (o : Op) (w : World) :
  o <> OpenEvent ->
  heartbeatTimer (this w) = None -> heartbeatTimer (this (exec P o w)) = None.
Proof.
  intros Ho H.
  destruct o as [c|u s a| | |t|d|rs| |data| | |id|store]; cbn [exec].
  - exact H.
  - unfold updateSessionContext. cbv zeta.
    destruct (ws _); [|exact H].
    destruct (_ && _); [apply hb_off_close|exact H].
  - apply hb_off_connect, H.
  - apply hb_off_close.
  - unfold ensureAuthorized.
    destruct (ws_is_open w && authorized (this w)); [exact H|].
    set (w1 := if negb (ws_is_open w) then connect P w else w).
    assert (H1 : heartbeatTimer (this w1) = None)
      by (unfold w1; destruct (negb _); [apply hb_off_connect|]; exact H).
    clearbody w1.
    destruct (authorized (this w1)); [exact H1|].
    unfold setTimer. cbn [fst]. exact H1.
  - unfold send. destruct (ws_is_open w && authorized (this w)).
    + pose proof (sc_transport_send P (serialize P d) w) as H1.
      destruct (transport_send P (serialize P d) w) as [w1 ok]. cbn [fst] in H1.
      destruct ok; [apply (hb_off_same w w1 H1 H)|].
      apply (hb_off_same w1); [apply sc_enqueue|apply (hb_off_same w w1 H1 H)].
    + apply hb_off_connect. apply (hb_off_same w); [apply sc_enqueue|exact H].
  - unfold set_readyState. destruct (ws (this w)); exact H.
  - contradiction.
  - apply (hb_off_same w); [apply sc_ws_onmessage|exact H].
  - rewrite ws_onclose_eq.
    destruct (explicitlyClosed (this w)); [reflexivity|].
    match goal with
    | |- heartbeatTimer (this (scheduleReconnect P ?z)) = _ =>
        apply (hb_off_same z); [apply sc_scheduleReconnect|reflexivity]
    end.
  - unfold ws_onerror. destruct (onError _); exact H.
  - unfold fire_timer. destruct (find _ _) as [t|]; [|exact H].
    destruct (t_task t).
    + apply (hb_off_same w); [apply sc_heartbeat_tick|exact H].
    + apply hb_off_connect. exact H.
    + apply (hb_off_same (clearTimer id w)); [apply sc_auth_timeout|exact H].
  - exact H.
Qed.

Lemma hb_off_run (P : Platform) (ops : list Op) :
  forall w, Forall (fun o => o <> OpenEvent) ops ->
            heartbeatTimer (this w) = None ->
            heartbeatTimer (this (run P ops w)) = None.
Proof.
  induction ops as [|o ops IH]; intros w Hops H; [exact H|].
  inversion Hops; subst. apply IH; [assumption|].
  apply hb_off_exec; assumption.
Qed.

Lemma heartbeats_off (w : World) :
  heartbeat_tracked w -> heartbeatTimer (this w) = None -> heartbeats w = [].
Proof.
  intros Hh Hnone. unfold heartbeats.
  destruct (filter is_heartbeat (timers (win w))) as [|t l] eqn:Ef; [reflexivity|].
  assert (Ht : In t (filter is_heartbeat (timers (win w))))
    by (rewrite Ef; left; reflexivity).
  apply filter_In in Ht. destruct Ht as [Hin Hb].
  destruct (Hh t Hin Hb) as [Hid _]. congruence.
Qed.

(** ** The outbound queue between two operations on it *)

Lemma kq_refl (w : World) : keeps_queue w w.
Proof. intros H. split; [reflexivity|exact H]. Qed.

Lemma kq_trans (w x y : World) :
  keeps_queue w x -> keeps_queue x y -> keeps_queue w y.
Proof.
  intros H1 H2 H. destruct (H1 H) as [Q1 S1]. destruct (H2 S1) as [Q2 S2].
  split; [congruence|exact S2].
Qed.

Lemma kq_upd (f : ChatWSManager -> ChatWSManager) (w : World) :
  (forall m, sendQueue (f m) = sendQueue m /\ url (f m) = url m
             /\ sessionId (f m) = sessionId m
             /\ connectedUrl (f m) = connectedUrl m
             /\ connectedSessionId (f m) = connectedSessionId m) ->
  keeps_queue w (upd f w).
Proof.
  intros Hf H. destruct (Hf (this w)) as (E1 & E2 & E3 & E4 & E5).
  split; [exact E1|]. unfold sameTarget in *. cbn. rewrite E2, E3, E4, E5. exact H.
Qed.

Lemma kq_updw (f : Window -> Window) (w : World) : keeps_queue w (updw f w).
Proof. intros H. split; [reflexivity|exact H]. Qed.

Ltac kq_step :=
  lazymatch goal with
  | |- keeps_queue ?w ?w => apply kq_refl
  | |- keeps_queue ?w (emit _ ?x) => apply (kq_trans w x); [|apply kq_updw]
  | |- keeps_queue ?w (tick ?x) => apply (kq_trans w x); [|apply kq_updw]
  | |- keeps_queue ?w (set_state _ ?x) => unfold set_state
  | |- keeps_queue ?w (invoke ?cb _ ?x) => destruct cb; cbn [invoke]
  | |- keeps_queue ?w (clearTimer _ ?x) => apply (kq_trans w x); [|apply kq_updw]
  | |- keeps_queue ?w (add_timer _ _ ?x) => apply (kq_trans w x); [|apply kq_updw]
  | |- keeps_queue ?w (upd _ ?x) =>
      apply (kq_trans w x); [|apply kq_upd; intro; repeat split; reflexivity]
  | |- keeps_queue ?w (updw _ ?x) => apply (kq_trans w x); [|apply kq_updw]
  end.

Lemma kq_this (w w' : World) : this w' = this w -> keeps_queue w w'.
Proof.
  intros E H. unfold sameTarget in *. rewrite E. split; [reflexivity|exact H].
Qed.

Lemma kq_scheduleReconnect (P : Platform) (w : World) :
  keeps_queue w (scheduleReconnect P w).
Proof.
  unfold scheduleReconnect.
  destruct (explicitlyClosed _); [apply kq_refl|].
  destruct (negb _ || negb _); [apply kq_refl|].
  destruct (reconnectTimer _); [apply kq_refl|].
  unfold setTimer. repeat kq_step.
Qed.

Lemma kq_stopHeartbeat (w : World) : keeps_queue w (stopHeartbeat w).
Proof. unfold stopHeartbeat. destruct (heartbeatTimer (this w)); repeat kq_step. Qed.

Lemma kq_startHeartbeat (w : World) : keeps_queue w (startHeartbeat w).
Proof.
  unfold startHeartbeat, setTimer.
  apply (kq_trans w (stopHeartbeat w)); [apply kq_stopHeartbeat|].
  repeat kq_step.
Qed.

Lemma kq_connect (P : Platform) (w : World) : keeps_queue w (connect P w).
Proof.
  intros Hsame. split.
  - rewrite connect_sendQueue, Hsame, andb_false_r. reflexivity.
  - destruct (context_set w) eqn:Hc.
    2:{ unfold connect. rewrite context_set_guard, Hc. exact Hsame. }
    destruct (usable w) eqn:Hus.
    + unfold connect. rewrite context_set_guard, Hc, Hus, Hsame. exact Hsame.
    + destruct (ConnectionState_eqb (state (this w)) connecting) eqn:Hst.
      * rewrite connect_connecting; [exact Hsame|].
        destruct (state (this w)); try discriminate. reflexivity.
      * rewrite connect_eq; [|exact Hc|exact Hus
                             |intros E; rewrite E in Hst; discriminate].
        destruct (WebSocket_throws P _ _).
        -- match goal with
           | |- sameTarget (scheduleReconnect P ?z) = true =>
               apply (kq_scheduleReconnect P z)
           end.
           exact Hsame.
        -- unfold sameTarget, endpoint_of.
           cbn [this connectedUrl url connectedSessionId sessionId].
           unfold context_set in Hc. apply andb_prop in Hc. destruct Hc as [Hu Hsid].
           destruct (url (this w)) as [u|]; [|discriminate].
           destruct (sessionId (this w)) as [sid|]; [|discriminate].
           cbn. rewrite !String.eqb_refl.
           reflexivity.
Qed.

Lemma kq_exec (P : Platform) (o : Op) (w : World) :
  touches_queue P o = false -> keeps_queue w (exec P o w).
Proof.
  intros Ho.
  destruct o as [c|u s a| | |t|d|rs| |data| | |id|store];
    cbn [exec touches_queue] in *; try discriminate.
  - unfold setCallbacks. repeat kq_step.
  - apply kq_connect.
  - unfold ensureAuthorized.
    destruct (ws_is_open w && authorized (this w)); [apply kq_refl|].
    set (w1 := if negb (ws_is_open w) then connect P w else w).
    assert (H1 : keeps_queue w w1)
      by (unfold w1; destruct (negb _); [apply kq_connect|apply kq_refl]).
    clearbody w1.
    destruct (authorized (this w1)); [exact H1|].
    unfold setTimer. cbn [fst]. repeat kq_step. exact H1.
  - unfold set_readyState. destruct (ws (this w)); repeat kq_step.
  - rewrite (ws_onmessage_other P data w Ho).
    destruct (intercepted P data); [apply kq_refl|].
    unfold forward. repeat kq_step.
  - rewrite ws_onclose_eq.
    match goal with
    | |- keeps_queue w (_ ?z) =>
        assert (Hz : keeps_queue w z)
          by (intros H; split; [reflexivity|exact H]);
        destruct (explicitlyClosed (this w)); [exact Hz|];
        eapply kq_trans; [exact Hz|apply kq_scheduleReconnect]
    end.
  - unfold ws_onerror. repeat kq_step.
  - unfold fire_timer. destruct (find _ _) as [t|]; [|apply kq_refl].
    destruct (t_task t).
    + apply kq_this. unfold heartbeat_tick.
      destruct (ws_is_open w); [|reflexivity].
      unfold transport_send. cbn [tick updw this].
      destruct (ws (this w)); [|reflexivity].
      destruct (send_throws P _); reflexivity.
    + eapply kq_trans; [|apply kq_connect]. repeat kq_step.
    + unfold auth_timeout.
      destruct (nth_error _ _) as [wt|]; [|repeat kq_step].
      destruct (settled wt); [repeat kq_step|].
      unfold settle. repeat kq_step.
  - repeat kq_step.
Qed.

Lemma kq_run (P : Platform) (ops : list Op) :
  forall w, forallb (fun o => negb (touches_queue P o)) ops = true ->
            keeps_queue w (run P ops w).
Proof.
  induction ops as [|o ops IH]; intros w H; [apply kq_refl|].
  cbn [forallb] in H. apply andb_prop in H. destruct H as [Ho H].
  apply negb_true_iff in Ho.
  cbn [run fold_left]. apply (kq_trans w (exec P o w)).
  - apply kq_exec, Ho.
  - apply IH, H.
Qed.

(** ** Waiters the gate does not reach *)

Lemma resolve_waiter_other (w : World) (k : nat) :
  awaitingAuthResolve (this w) <> Some k ->
  nth_error (waiters (win (resolve_waiter w))) k = nth_error (waiters (win w)) k.
Proof.
  intros Hk. unfold resolve_waiter, call_resolver.
  destruct (awaitingAuthResolve (this w)) as [wid|]; [|reflexivity].
  cbn [upd win].
  destruct (nth_error (waiters (win w)) wid) as [wt|]; [|reflexivity].
  destruct (settled wt); [reflexivity|].
  cbn. apply nth_error_update_nth_other. congruence.
Qed.

(** ** Properties of objects *)

Lemma get_set_property (k v : string) (obj : list (string * string)) :
  get_property k (set_property k v obj) = Some v.
Proof.
  induction obj as [|[k' v'] rest IH]; cbn.
  - rewrite String.eqb_refl. reflexivity.
  - destruct (k' =? k)%string eqn:E; cbn; rewrite E; [reflexivity|exact IH].
Qed.

Lemma get_set_property_other (k k0 v : string) (obj : list (string * string)) :
  k0 <> k -> get_property k0 (set_property k v obj) = get_property k0 obj.
Proof.
  intros Hne. induction obj as [|[k' v'] rest IH]; cbn.
  - destruct (k =? k0)%string eqn:E; [|reflexivity].
    apply String.eqb_eq in E. congruence.
  - destruct (k' =? k)%string eqn:E; cbn.
    + destruct (k' =? k0)%string eqn:E0; [|reflexivity].
      apply String.eqb_eq in E, E0. congruence.
    + destruct (k' =? k0)%string; [reflexivity|exact IH].
Qed.

Lemma map_fst_set_property (k v : string) (obj : list (string * string)) :
  map fst (set_property k v obj) =
  if existsb (fun kv => (fst kv =? k)%string) obj then map fst obj
  else map fst obj ++ [k].
Proof.
  induction obj as [|[k' v'] rest IH]; cbn; [reflexivity|].
  destruct (k' =? k)%string eqn:E; cbn; [reflexivity|].
  rewrite IH. destruct (existsb _ rest); reflexivity.
Qed.

Lemma prefix_app (a b c : string) :
  String.prefix a b = true -> String.prefix a (b ++ c) = true.
Proof.
  revert b. induction a as [|x a IH]; intros b H.
  - destruct (b ++ c)%string; reflexivity.
  - destruct b as [|y b]; cbn in *; [discriminate|].
    destruct (Ascii.ascii_dec x y); [|discriminate]. apply IH, H.
Qed.

Lemma API_BASE_URL_truthy (env : option string) :
  Js.truthy_str (Some (API_BASE_URL env)) = true.
Proof.
  unfold API_BASE_URL. destruct env as [s|]; cbn; [|reflexivity].
  destruct (s =? "")%string eqn:E; cbn; [reflexivity|]. rewrite E. reflexivity.
Qed.

(** ** The authorization frame constructs nothing *)

Lemma sendAuthorization_transports (P : Platform) (w : World) :
  transports_created (log (win (sendAuthorization P w))) =
  transports_created (log (win w)).
Proof.
  unfold sendAuthorization.
  destruct (getItem _ _); [|reflexivity].
  destruct (_ =? _)%string; [reflexivity|].
  destruct (JSON_parse P _); [|reflexivity].
  destruct (Js.opt_get _ _) as [token|]; [|reflexivity].
  destruct (negb _); [reflexivity|].
  unfold transport_send.
  destruct (ws (this w)); [|reflexivity].
  destruct (template_throws _); [reflexivity|].
  destruct (send_throws P _); cbn [fst emit updw win log set_log tick];
    rewrite transports_created_app; apply Nat.add_0_r.
Qed.

(** ** A fresh [connect] whose construction succeeds *)

Lemma connect_constructs (P : Platform) (w : World) :
  context_set w = true ->
  usable w = false ->
  state (this w) <> connecting ->
  WebSocket_throws P (calls (win w)) (endpoint_of w) = false ->
  ws (this (connect P w)) =
  Some (mkWebSocket (sockets (win w)) (endpoint_of w) CONNECTING)
  /\ state (this (connect P w)) = connecting
  /\ sameTarget (connect P w) = true
  /\ authorized (this (connect P w)) = false
  /\ explicitlyClosed (this (connect P w)) = false
  /\ sendQueue (this (connect P w)) = sendQueue (this w)
  /\ awaitingAuthResolve (this (connect P w)) = awaitingAuthResolve (this w)
  /\ waiters (win (connect P w)) = waiters (win w)
  /\ timers (win (connect P w)) = timers (win w)
  /\ nextTimer (win (connect P w)) = nextTimer (win w)
  /\ log (win (connect P w)) =
     log (win w) ++ [StateIs connecting; Constructed (sockets (win w)) (endpoint_of w)].
Proof.
  intros Hc Hus Hst Hok. rewrite (connect_eq P w Hc Hus Hst), Hok.
  cbn [this win ws state authorized explicitlyClosed sendQueue
         awaitingAuthResolve waiters timers nextTimer log].
  repeat split.
  unfold sameTarget, endpoint_of.
  cbn [this connectedUrl url connectedSessionId sessionId].
  unfold context_set in Hc. apply andb_prop in Hc. destruct Hc as [Hu Hsid].
  destruct (url (this w)) as [u|]; [|discriminate].
  destruct (sessionId (this w)) as [sid|]; [|discriminate].
  cbn. rewrite !String.eqb_refl. reflexivity.
Qed.

Lemma updateSessionContext_fields (P : Platform) (u s : string) (a : bool)
      (w : World) :
  url (this (updateSessionContext P u s a w)) = Some u
  /\ sessionId (this (updateSessionContext P u s a w)) = Some s
  /\ (state (this (updateSessionContext P u s a w)) = state (this w)
      \/ state (this (updateSessionContext P u s a w)) = closed)
  /\ transports_created (log (win (updateSessionContext P u s a w))) =
     transports_created (log (win w)).
Proof.
  unfold updateSessionContext. cbv zeta.
  set (w1 := upd (set_isAssistantMode a) _).
  assert (H1 : url (this w1) = Some u /\ sessionId (this w1) = Some s
               /\ state (this w1) = state (this w)
               /\ log (win w1) = log (win w))
    by (repeat split).
  clearbody w1. destruct H1 as (A1 & A2 & A3 & A4).
  assert (Hsame : url (this w1) = Some u /\ sessionId (this w1) = Some s
                  /\ (state (this w1) = state (this w) \/ state (this w1) = closed)
                  /\ transports_created (log (win w1)) =
                     transports_created (log (win w)))
    by (repeat split; auto; rewrite A4; reflexivity).
  destruct (ws (this w1)); [|exact Hsame].
  destruct (_ && _); [|exact Hsame].
  rewrite transports_created_close, A4. rewrite close_eq.
  repeat split; auto.
Qed.

(** ** The handlers when a callback throws *)

Section Throwing.

Variable P : Platform.

(** With callbacks that return, the two forms of each handler agree. *)
Lemma ws_onopen_with_returning (w : World) :
  ws_onopen_with P (fun y => (y, true)) w = ws_onopen P w.
Proof.
  unfold ws_onopen_with, ws_onopen, invoke. cbv zeta.
  destruct (onOpen _); reflexivity.
Qed.

Lemma call_onAuthSuccess_returning (w : World) :
  call_onAuthSuccess true w =
  (invoke (onAuthSuccess (callbacks (this w))) CallOnAuthSuccess w, true).
Proof. unfold call_onAuthSuccess, invoke. destruct (onAuthSuccess _); reflexivity. Qed.


Lemma ws_onmessage_with_returning (data : string) (w : World) :
  ws_onmessage_with P true data w = ws_onmessage P data w.
Proof.
  unfold ws_onmessage_with, ws_onmessage. cbv zeta.
  rewrite !call_onAuthSuccess_returning.
  destruct (JSON_parse P data) as [d|]; [|reflexivity].
  destruct (Js.truthy d && Js.type_is d "auth_success").
  - destruct (negb (authorized (this w))); reflexivity.
  - reflexivity.
Qed.

(** Without a registered [onAuthSuccess] nothing can throw inside the
    [try]. *)
Lemma ws_onmessage_with_unregistered (r : bool) (data : string) (w : World) :
  onAuthSuccess (callbacks (this w)) = None ->
  ws_onmessage_with P r data w = ws_onmessage P data w.
Proof.
  intros Hcb. rewrite <- ws_onmessage_with_returning.
  unfold ws_onmessage_with. cbv zeta.
  assert (E : forall x, callbacks (this x) = callbacks (this w) ->
                        call_onAuthSuccess r x = call_onAuthSuccess true x).
  { intros x Hx. unfold call_onAuthSuccess. rewrite Hx, Hcb. reflexivity. }
  rewrite !E by (rewrite flushQueue_callbacks; reflexivity).
  reflexivity.
Qed.

Lemma ws_onclose_with_returning (w : World) :
  ws_onclose_with P true w = ws_onclose P w.
Proof.
  unfold ws_onclose_with, ws_onclose, invoke. cbv zeta.
  destruct (onClose _); reflexivity.
Qed.

Lemma ws_onclose_with_unregistered (r : bool) (w : World) :
  onClose (callbacks (this w)) = None ->
  ws_onclose_with P r w = ws_onclose P w.
Proof.
  intros Hcb. unfold ws_onclose_with, ws_onclose, invoke. cbv zeta.
  assert (E : onClose (callbacks (this (stopHeartbeat (set_state closed w)))) = None).
  { rewrite stopHeartbeat_eq. exact Hcb. }
  rewrite E. reflexivity.
Qed.

(** A throwing [onClose] ends the handler before any reconnection is
    scheduled. *)
Lemma ws_onclose_with_throwing (w : World) (h : nat) :
  onClose (callbacks (this w)) = Some h ->
  ws_onclose_with P false w =
  emit (CallOnClose h) (stopHeartbeat (set_state closed w)).
Proof.
  intros Hcb. unfold ws_onclose_with. cbv zeta.
  assert (E : onClose (callbacks (this (stopHeartbeat (set_state closed w))))
              = Some h).
  { rewrite stopHeartbeat_eq. exact Hcb. }
  rewrite E. reflexivity.
Qed.

Lemma Inv_ws_onclose_with (r : bool) (w : World) :
  Inv w -> Inv (ws_onclose_with P r w).
Proof.
  intros H. destruct r; [rewrite ws_onclose_with_returning; apply Inv_ws_onclose, H|].
  destruct (onClose (callbacks (this w))) as [h|] eqn:Hcb.
  - rewrite (ws_onclose_with_throwing w h Hcb).
    apply Inv_emit, Inv_stopHeartbeat, Inv_set_state, H.
  - rewrite (ws_onclose_with_unregistered false w Hcb). apply Inv_ws_onclose, H.
Qed.

(** [ensureAuthorized] is its synchronous part followed at once by the
    continuation. *)
Lemma ensureAuthorized_atomic (timeoutMs : Q) (w : World) :
  ensureAuthorized P timeoutMs w =
  match ensureAuthorized_begin P timeoutMs w with
  | (w1, Finished r) => (w1, r)
  | (w1, Awaiting) => ensureAuthorized_resume timeoutMs w1
  end.
Proof.
  unfold ensureAuthorized, ensureAuthorized_begin, ensureAuthorized_resume.
  destruct (ws_is_open w && authorized (this w)); [reflexivity|].
  destruct (ws_is_open w); cbn [negb].
  - destruct (authorized (this w)); reflexivity.
  - destruct (authorized (this (connect P w))); reflexivity.
Qed.

End Throwing.

(** ** The authorization gate, step by step *)

Section GateSteps.

Variable P : Platform.

(** The loop sends in queue order until the queue is empty or a [send]
    throws. *)
Lemma flush_loop_outcome (fuel : nat) :
  forall (w : World) (s : WebSocket),
    ws (this w) = Some s ->
    length (sendQueue (this w)) <= fuel ->
    exists done failed rest,
      flush_loop P fuel w = flushed (sock_id s) done failed rest w
      /\ flush_split P true (calls (win w)) (sendQueue (this w)) done failed rest.
Proof.
  induction fuel as [|fuel IH]; intros w s Hs Hfuel.
  - destruct (sendQueue (this w)) as [|item q] eqn:Eq; [|cbn in Hfuel; lia].
    exists [], [], []. cbn [flush_loop]. split.
    + pose proof (flushed_nothing (sock_id s) w) as F. rewrite Eq in F.
      symmetry. exact F.
    + split; [reflexivity|]. split; [intros i Hi; inversion Hi|left; auto].
  - cbn [flush_loop]. destruct (sendQueue (this w)) as [|item q] eqn:Eq.
    + exists [], [], []. split.
      * pose proof (flushed_nothing (sock_id s) w) as F. rewrite Eq in F.
        symmetry. exact F.
      * split; [reflexivity|]. split; [intros i Hi; inversion Hi|left; auto].
    + destruct (send_throws P (calls (win w))) eqn:Et.
      * rewrite (transport_send_throws P item _ s) by (try exact Hs; exact Et).
        exists [], [item], q. split.
        -- destruct w as [m b]. destruct m, b. unfold flushed. world_simpl.
           repeat f_equal; lia.
        -- split; [reflexivity|]. split; [intros i Hi; inversion Hi|].
           right. exists item. split; [reflexivity|].
           cbn. rewrite Nat.add_0_r. exact Et.
      * rewrite (transport_send_returns P item _ s) by (try exact Hs; exact Et).
        destruct (IH (emit (Sent (sock_id s) item) (tick (upd (set_sendQueue q) w)))
                     s Hs)
          as (done & failed & rest & Heq & Hq & Hok & Hend).
        { cbn in Hfuel |- *. lia. }
        exists (item :: done), failed, rest. split.
        -- rewrite Heq.
           destruct w as [m b]. destruct m, b. unfold flushed. world_simpl.
           rewrite <- !app_assoc. cbn. repeat f_equal; lia.
        -- cbn in Hq, Hok, Hend. split; [cbn; rewrite Hq; reflexivity|]. split.
           ++ intros [|i] Hi; [rewrite Nat.add_0_r; exact Et|].
              cbn in Hi. specialize (Hok i ltac:(lia)).
              rewrite Nat.add_succ_r. exact Hok.
           ++ destruct Hend as [Hend|(x & Hx & Hthrow)]; [left; exact Hend|].
              right. exists x. split; [exact Hx|].
              cbn [length]. rewrite Nat.add_succ_r. exact Hthrow.
Qed.

(** [authorized = true; flushQueue()] on any world. *)
Lemma gate_flush (w : World) :
  exists id done failed rest,
    flushQueue P (upd (set_authorized true) w) = gate_opened id done failed rest w
    /\ flush_split P (ws_is_open w) (calls (win w)) (sendQueue (this w))
         done failed rest
    /\ (forall s, ws (this w) = Some s -> ws_is_open w = true -> id = sock_id s).
Proof.
  unfold flushQueue.
  change (ws_is_open (upd (set_authorized true) w)) with (ws_is_open w).
  cbn [upd this authorized set_authorized].
  destruct (ws_is_open w) eqn:Ho; cbn [negb orb].
  - unfold ws_is_open in Ho. destruct (ws (this w)) as [s|] eqn:Hs; [|discriminate].
    destruct (flush_loop_outcome (length (sendQueue (this w)))
                (upd (set_authorized true) w) s Hs (Nat.le_refl _))
      as (done & failed & rest & Heq & Hsplit).
    exists (sock_id s), done, failed, rest.
    split; [exact Heq|]. split; [exact Hsplit|].
    intros s' E _. inversion E. reflexivity.
  - exists 0, [], [], (sendQueue (this w)). split.
    + unfold gate_opened. destruct w as [m b]. destruct m, b. cbn.
      rewrite app_nil_r, !Nat.add_0_r. reflexivity.
    + split; [|intros s _ H; discriminate].
      split; [reflexivity|]. split; [intros i Hi; inversion Hi|auto].
Qed.

End GateSteps.

Section GateHandler.

Variable P : Platform.

Lemma failed_payloads_app (l r : list Event) :
  failed_payloads (l ++ r) = failed_payloads l ++ failed_payloads r.
Proof. unfold failed_payloads. apply flat_map_app. Qed.

Lemma sent_payloads_Sent (id : nat) (l : list string) :
  sent_payloads (map (Sent id) l) = l.
Proof. induction l as [|p l IH]; cbn; [reflexivity|f_equal; exact IH]. Qed.

Lemma failed_payloads_Sent (id : nat) (l : list string) :
  failed_payloads (map (Sent id) l) = [].
Proof. induction l as [|p l IH]; cbn; auto. Qed.

Lemma sent_payloads_SendThrew (id : nat) (l : list string) :
  sent_payloads (map (SendThrew id) l) = [].
Proof. induction l as [|p l IH]; cbn; auto. Qed.

Lemma failed_payloads_SendThrew (id : nat) (l : list string) :
  failed_payloads (map (SendThrew id) l) = l.
Proof. induction l as [|p l IH]; cbn; [reflexivity|f_equal; exact IH]. Qed.

(** The handler on an [auth_success] frame. *)
Lemma ws_onmessage_with_auth_success
      (returns : bool) (data : string) (d : JsValue) (w : World) :
  JSON_parse P data = Some d ->
  Js.type_is d "auth_success" = true ->
  ws_onmessage_with P returns data w =
  if authorized (this w) then resolve_waiter w
  else if onAuthSuccess_throws returns w
       then forward data
              (invoke (onAuthSuccess (callbacks (this w))) CallOnAuthSuccess
                 (flushQueue P (upd (set_authorized true) w)))
       else resolve_waiter
              (invoke (onAuthSuccess (callbacks (this w))) CallOnAuthSuccess
                 (flushQueue P (upd (set_authorized true) w))).
Proof.
  intros Hp Hty. pose proof (type_is_truthy d _ Hty) as Ht.
  unfold ws_onmessage_with, onAuthSuccess_throws, call_onAuthSuccess.
  rewrite Hp, Ht, Hty. cbn [andb]. cbv zeta.
  destruct (authorized (this w)) eqn:Ea; cbn [negb].
  - f_equal. destruct w as [m b]. destruct m. cbn in *. subst. reflexivity.
  - rewrite flushQueue_callbacks. cbn [upd this callbacks set_authorized].
    destruct (onAuthSuccess (callbacks (this w))); [|reflexivity].
    destruct returns; reflexivity.
Qed.

(** The handler on a business frame. *)
Lemma ws_onmessage_with_business
      (returns : bool) (data : string) (d : JsValue) (w : World) :
  JSON_parse P data = Some d ->
  business_type d = true ->
  ws_onmessage_with P returns data w =
  forward data
    (if authorized (this w) then w
     else if onAuthSuccess_throws returns w
          then invoke (onAuthSuccess (callbacks (this w))) CallOnAuthSuccess
                 (flushQueue P (upd (set_authorized true) w))
          else resolve_waiter
                 (invoke (onAuthSuccess (callbacks (this w))) CallOnAuthSuccess
                    (flushQueue P (upd (set_authorized true) w)))).
Proof.
  intros Hp Hty. pose proof (business_type_truthy d Hty) as Ht.
  unfold ws_onmessage_with, onAuthSuccess_throws, call_onAuthSuccess.
  destruct (business_type_exclusive d Hty) as [H1 H2].
  rewrite Hp, Ht, Hty, H1, H2. cbn [andb]. cbv zeta.
  destruct (authorized (this w)) eqn:Ea; cbn [negb]; [reflexivity|].
  rewrite flushQueue_callbacks. cbn [upd this callbacks set_authorized].
  destruct (onAuthSuccess (callbacks (this w))); [|reflexivity].
  destruct returns; reflexivity.
Qed.

(** The world in which the rest of the handler runs once the gate has
    opened and [onAuthSuccess] has been called. *)
Lemma gate_call (w : World) :
  exists id done failed rest,
    flush_split P (ws_is_open w) (calls (win w)) (sendQueue (this w))
      done failed rest
    /\ invoke (onAuthSuccess (callbacks (this w))) CallOnAuthSuccess
         (flushQueue P (upd (set_authorized true) w)) =
       invoke (onAuthSuccess (callbacks (this w))) CallOnAuthSuccess
         (gate_opened id done failed rest w)
    /\ (forall s, ws (this w) = Some s -> ws_is_open w = true -> id = sock_id s).
Proof.
  destruct (gate_flush P w) as (id & done & failed & rest & Heq & Hsplit & Hid).
  exists id, done, failed, rest. rewrite Heq. auto.
Qed.

(** What the call of [onAuthSuccess] after the flush leaves behind. *)
Lemma gate_call_summary (id : nat) (done failed rest : list string) (w : World) :
  let x := invoke (onAuthSuccess (callbacks (this w))) CallOnAuthSuccess
             (gate_opened id done failed rest w) in
  this x = set_sendQueue rest (set_authorized true (this w))
  /\ waiters (win x) = waiters (win w)
  /\ timers (win x) = timers (win w)
  /\ sent_payloads (log (win x)) = sent_payloads (log (win w)) ++ done
  /\ failed_payloads (log (win x)) = failed_payloads (log (win w)) ++ failed
  /\ forwarded (log (win x)) = forwarded (log (win w))
  /\ auth_success_calls (log (win x)) =
     auth_success_calls (log (win w)) + length (onAuthSuccess_events w).
Proof.
  intros x. unfold x. rewrite invoke_eq. unfold gate_opened, onAuthSuccess_events.
  cbn [this win log set_log waiters timers set_calls].
  destruct (flush_events_silent id done) as (D1 & D2 & _ & _).
  destruct (flush_events_silent id failed) as (_ & _ & F1 & F2).
  rewrite !sent_payloads_app, !failed_payloads_app, !forwarded_app,
    !auth_success_calls_app, D1, D2, F1, F2,
    sent_payloads_Sent, failed_payloads_Sent, sent_payloads_SendThrew,
    failed_payloads_SendThrew.
  destruct (onAuthSuccess (callbacks (this w))); cbn;
    rewrite ?app_nil_r, ?Nat.add_0_r; repeat split; reflexivity.
Qed.

(** What [forward] leaves alone. *)
Lemma forward_frame (data : string) (w : World) :
  this (forward data w) = this w
  /\ waiters (win (forward data w)) = waiters (win w)
  /\ timers (win (forward data w)) = timers (win w)
  /\ sent_payloads (log (win (forward data w))) = sent_payloads (log (win w))
  /\ failed_payloads (log (win (forward data w))) = failed_payloads (log (win w))
  /\ auth_success_calls (log (win (forward data w))) =
     auth_success_calls (log (win w)).
Proof.
  unfold forward. rewrite invoke_eq. cbn [this win log set_log waiters timers].
  rewrite sent_payloads_app, failed_payloads_app, auth_success_calls_app.
  destruct (onMessage (callbacks (this w))); cbn;
    rewrite ?app_nil_r, ?Nat.add_0_r; repeat split; reflexivity.
Qed.


Lemma resolve_waiter_queue (w : World) :
  sendQueue (this (resolve_waiter w)) = sendQueue (this w)
  /\ authorized (this (resolve_waiter w)) = authorized (this w)
  /\ callbacks (this (resolve_waiter w)) = callbacks (this w).
Proof.
  destruct (resolve_waiter_frame w) as (R1 & _). rewrite R1. auto.
Qed.

End GateHandler.

(** ** Invariants of every attainable world *)

Section Attainable.

Variable P : Platform.

Lemma ensureAuthorized_resume_eq (t : Q) (w : World) :
  ensureAuthorized_resume t w =
  if authorized (this w) then (w, Returned true)
  else (registered t w, Suspended (length (waiters (win w)))).
Proof.
  unfold ensureAuthorized_resume.
  destruct (authorized (this w)); [reflexivity|].
  unfold setTimer, add_timer, registered.
  destruct w as [m b]. destruct b. reflexivity.
Qed.

Lemma ensureAuthorized_begin_eq (t : Q) (w : World) :
  ensureAuthorized_begin P t w =
  if ws_is_open w
  then if authorized (this w) then (w, Finished (Returned true))
       else (registered t w, Finished (Suspended (length (waiters (win w)))))
  else (connect P w, Awaiting).
Proof.
  unfold ensureAuthorized_begin. rewrite ensureAuthorized_resume_eq.
  destruct (ws_is_open w); cbn [andb negb]; [|reflexivity].
  destruct (authorized (this w)); reflexivity.
Qed.

Lemma Inv_registered (t : Q) (w : World) :
  Inv w -> Inv (registered t w).
Proof.
  intros H.
  pose proof (Inv_add_timer (AuthTimeout (length (waiters (win w)))) t w
                ltac:(discriminate) H) as [Hc Hw].
  split.
  - change (registered t w) with
      (upd (set_awaitingAuthResolve (Some (length (waiters (win w)))))
         (updw (fun b => set_waiters
                           (waiters b ++ [mkWaiter false (nextTimer (win w)) None]) b)
            (add_timer (AuthTimeout (length (waiters (win w)))) t w))).
    apply core_upd; [intro; repeat split; reflexivity|].
    apply core_updw; [intro; split; reflexivity|]. exact Hc.
  - intros wid Hwid. cbn in Hwid. injection Hwid as <-.
    exists (mkWaiter false (nextTimer (win w)) None). split; [|reflexivity].
    cbn. rewrite nth_error_app2 by lia. rewrite Nat.sub_diag. reflexivity.
Qed.

Lemma Inv_resume (t : Q) (w : World) :
  Inv w -> Inv (fst (ensureAuthorized_resume t w)).
Proof.
  intros H. rewrite ensureAuthorized_resume_eq.
  destruct (authorized (this w)); [exact H|apply Inv_registered, H].
Qed.

Lemma Inv_begin (t : Q) (w : World) :
  Inv w -> Inv (fst (ensureAuthorized_begin P t w)).
Proof.
  intros H. rewrite ensureAuthorized_begin_eq.
  destruct (ws_is_open w); [|apply Inv_connect, H].
  destruct (authorized (this w)); [exact H|apply Inv_registered, H].
Qed.

Lemma td_resume (t : Q) (w : World) :
  timer_discipline w -> timer_discipline (fst (ensureAuthorized_resume t w)).
Proof.
  intros H. rewrite ensureAuthorized_resume_eq.
  destruct (authorized (this w)); [exact H|apply td_registered, H].
Qed.

Lemma td_begin (t : Q) (w : World) :
  timer_discipline w -> timer_discipline (fst (ensureAuthorized_begin P t w)).
Proof.
  intros H. rewrite ensureAuthorized_begin_eq.
  destruct (ws_is_open w); [|apply td_connect, H].
  destruct (authorized (this w)); [exact H|apply td_registered, H].
Qed.

(** A throwing callback cuts a handler short; what has run by then keeps
    the invariants. *)
Lemma ws_onopen_with_calls (calls : list Op) (throws : bool) (w : World) :
  exists x,
    (Inv w -> Inv x) /\ (Inv w -> timer_discipline w -> timer_discipline x)
    /\ (ws_onopen_with P (fun y => (run P calls y, negb throws)) w = x
        \/ ws_onopen_with P (fun y => (run P calls y, negb throws)) w =
           sendAuthorization P x).
Proof.
  unfold ws_onopen_with. cbv zeta.
  set (w3 := startHeartbeat (upd (set_reconnectAttempts 0) (set_state open w))).
  assert (I3 : Inv w -> Inv w3)
    by (intros H; unfold w3; apply Inv_startHeartbeat; repeat inv_step).
  assert (T3 : timer_discipline w -> timer_discipline w3).
  { intros H. unfold w3. apply td_startHeartbeat.
    apply td_upd; [intro; split; reflexivity|]. apply td_set_state, H. }
  destruct (onOpen (callbacks (this w3))) as [h|].
  - exists (run P calls (emit (CallOnOpen h) w3)).
    split; [intros H; apply Inv_run, Inv_emit, I3, H|].
    split.
    + intros HI HT. apply td_run; [apply Inv_emit, I3, HI|].
      apply td_updw; [intro; repeat split; reflexivity|]. apply T3, HT.
    + destruct throws; cbn [negb]; auto.
  - exists w3. split; [exact I3|]. split; [intros _; exact T3|]. right. reflexivity.
Qed.

Lemma Inv_ws_onopen_with (calls : list Op) (throws : bool) (w : World) :
  Inv w -> Inv (ws_onopen_with P (fun y => (run P calls y, negb throws)) w).
Proof.
  intros H. destruct (ws_onopen_with_calls calls throws w) as (x & I & _ & [->| ->]);
    [|apply Inv_sendAuthorization]; apply I, H.
Qed.

Lemma td_ws_onopen_with (calls : list Op) (throws : bool) (w : World) :
  Inv w -> timer_discipline w ->
  timer_discipline (ws_onopen_with P (fun y => (run P calls y, negb throws)) w).
Proof.
  intros HI H.
  destruct (ws_onopen_with_calls calls throws w) as (x & _ & T & [->| ->]);
    [|apply td_sendAuthorization]; apply T; assumption.
Qed.

Lemma ws_onmessage_with_cases (returns : bool) (data : string) (w : World) :
  ws_onmessage_with P returns data w = ws_onmessage P data w
  \/ exists fwd,
       (fwd = (fun y => y) \/ fwd = forward data)
       /\ ws_onmessage_with P returns data w =
          fwd (invoke (onAuthSuccess (callbacks (this w))) CallOnAuthSuccess
                 (flushQueue P (upd (set_authorized true) w))).
Proof.
  destruct returns; [left; apply ws_onmessage_with_returning|].
  destruct (onAuthSuccess (callbacks (this w))) as [h|] eqn:Hcb;
    [|left; apply ws_onmessage_with_unregistered, Hcb].
  destruct (JSON_parse P data) as [d|] eqn:Hp;
    [|left; unfold ws_onmessage_with, ws_onmessage; rewrite Hp; reflexivity].
  destruct (Js.type_is d "auth_success") eqn:Ha.
  - rewrite (ws_onmessage_with_auth_success P false data d w Hp Ha).
    rewrite (ws_onmessage_auth_success P data d w Hp Ha).
    destruct (authorized (this w)); [left; reflexivity|].
    unfold onAuthSuccess_throws. rewrite Hcb. cbn [negb].
    right. exists (forward data). split; [right; reflexivity|reflexivity].
  - destruct (business_type d) eqn:Hb.
    + rewrite (ws_onmessage_with_business P false data d w Hp Hb).
      rewrite (ws_onmessage_business P data d w Hp Hb).
      destruct (authorized (this w)); [left; reflexivity|].
      unfold onAuthSuccess_throws. rewrite Hcb. cbn [negb].
      right. exists (forward data). split; [right; reflexivity|reflexivity].
    + left. unfold ws_onmessage_with, ws_onmessage. rewrite Hp, Ha, Hb.
      rewrite !andb_false_r. reflexivity.
Qed.

Lemma Inv_ws_onmessage_with (returns : bool) (data : string) (w : World) :
  Inv w -> Inv (ws_onmessage_with P returns data w).
Proof.
  intros H.
  destruct (ws_onmessage_with_cases returns data w)
    as [->|(fwd & Hfwd & ->)]; [apply Inv_ws_onmessage, H|].
  assert (Hx : Inv (invoke (onAuthSuccess (callbacks (this w))) CallOnAuthSuccess
                      (flushQueue P (upd (set_authorized true) w))))
    by (apply Inv_invoke, Inv_flushQueue; inv_step; exact H).
  destruct Hfwd as [->| ->]; [exact Hx|apply Inv_invoke, Hx].
Qed.

Lemma td_ws_onmessage_with (returns : bool) (data : string) (w : World) :
  timer_discipline w -> timer_discipline (ws_onmessage_with P returns data w).
Proof.
  intros H.
  destruct (ws_onmessage_with_cases returns data w)
    as [->|(fwd & Hfwd & ->)]; [apply td_ws_onmessage, H|].
  assert (Hx : timer_discipline
                 (invoke (onAuthSuccess (callbacks (this w))) CallOnAuthSuccess
                    (flushQueue P (upd (set_authorized true) w)))).
  { apply td_invoke, td_flushQueue.
    apply td_upd; [intro; split; reflexivity|]. exact H. }
  destruct Hfwd as [->| ->]; [exact Hx|apply td_invoke, Hx].
Qed.

Lemma td_ws_onclose_with (returns : bool) (w : World) :
  timer_discipline w -> timer_discipline (ws_onclose_with P returns w).
Proof.
  intros H. destruct returns;
    [rewrite ws_onclose_with_returning; apply td_ws_onclose, H|].
  destruct (onClose (callbacks (this w))) as [h|] eqn:Hcb.
  - rewrite (ws_onclose_with_throwing P w h Hcb).
    apply td_updw; [intro; repeat split; reflexivity|].
    apply td_stopHeartbeat, td_set_state, H.
  - rewrite (ws_onclose_with_unregistered P false w Hcb). apply td_ws_onclose, H.
Qed.

Lemma attainable_invariants (w : World) :
  attainable P w -> Inv w /\ timer_discipline w.
Proof.
  induction 1 as [storage|o w _ [HI HT]|t w _ [HI HT]|t w _ [HI HT]
                 |calls throws w _ [HI HT]|r d w _ [HI HT]|r w _ [HI HT]].
  - split; [apply Inv_initial|apply td_initial].
  - split; [apply Inv_exec, HI|apply td_exec; assumption].
  - split; [apply Inv_begin, HI|apply td_begin, HT].
  - split; [apply Inv_resume, HI|apply td_resume, HT].
  - split; [apply Inv_ws_onopen_with, HI|apply td_ws_onopen_with; assumption].
  - split; [apply Inv_ws_onmessage_with, HI|apply td_ws_onmessage_with, HT].
  - split; [apply Inv_ws_onclose_with, HI|apply td_ws_onclose_with, HT].
Qed.

Lemma reachable_attainable (w : World) : reachable P w -> attainable P w.
Proof.
  intros (storage & ops & ->).
  assert (H : forall ops x, attainable P x -> attainable P (run P ops x)).
  { clear. induction ops as [|o ops IH]; intros x Hx; [exact Hx|].
    apply IH. apply attainable_exec, Hx. }
  apply H, attainable_initial.
Qed.

(** A promise that is not settled is settled by its deadline: the timer is
    pending, and its firing resolves the promise with false and clears the
    waiter slot. *)
Lemma deadline_settles (w : World) (wid : nat) (wt : Waiter) :
  timer_discipline w ->
  nth_error (waiters (win w)) wid = Some wt ->
  settled wt = false ->
  outcome wt = None
  /\ pending (w_timer wt) (AuthTimeout wid) w
  /\ fire_timer P (w_timer wt) w = settled_world wid (w_timer wt) false w.
Proof.
  intros H Hnth Hset.
  destruct (td_waiting w H wid wt Hnth Hset) as [[d Hd] Ho].
  split; [exact Ho|]. split; [exists d; exact Hd|].
  apply (fire_auth_timeout P w (w_timer wt) wid d wt); [|exact Hnth|exact Hset].
  apply find_pending; [apply (td_unique w H)|exact Hd].
Qed.

End Attainable.

(** ** A frame that opens the gate, whatever the callback does *)

Section GateFrame.

Variable P : Platform.

Lemma ws_onmessage_with_other (returns : bool) (data : string) (w : World) :
  opens_gate P data = false ->
  ws_onmessage_with P returns data w = ws_onmessage P data w.
Proof.
  unfold opens_gate, ws_onmessage_with, ws_onmessage.
  destruct (JSON_parse P data) as [d|]; [|reflexivity].
  intros H. apply orb_false_elim in H. destruct H as [Ha Hb].
  rewrite Ha, Hb, !andb_false_r. reflexivity.
Qed.

(** The world [y] in which the handler has finished with the gate: after
    the call of [onAuthSuccess] if it threw, after the resolution of the
    waiter otherwise. What follows is at most the call of [onMessage]. *)
Lemma gate_frame_effect (returns : bool) (data : string) (w : World) :
  opens_gate P data = true ->
  authorized (this w) = false ->
  exists x,
    awaitingAuthResolve (this x) = awaitingAuthResolve (this w)
    /\ authorized (this x) = true
    /\ callbacks (this x) = callbacks (this w)
    /\ waiters (win x) = waiters (win w)
    /\ timers (win x) = timers (win w)
    /\ (ws_onmessage_with P returns data w =
        (if onAuthSuccess_throws returns w then x else resolve_waiter x)
        \/ ws_onmessage_with P returns data w =
           forward data
             (if onAuthSuccess_throws returns w then x else resolve_waiter x)).
Proof.
  intros Hg Ha. unfold opens_gate in Hg.
  destruct (JSON_parse P data) as [d|] eqn:Hp; [|discriminate].
  destruct (gate_call P w) as (id & done & failed & rest & _ & Hcall & _).
  destruct (gate_call_summary id done failed rest w) as (X1 & X2 & X3 & _).
  exists (invoke (onAuthSuccess (callbacks (this w))) CallOnAuthSuccess
            (gate_opened id done failed rest w)).
  rewrite X1, X2, X3.
  do 5 (split; [reflexivity|]).
  destruct (Js.type_is d "auth_success") eqn:Hty.
  - rewrite (ws_onmessage_with_auth_success P returns data d w Hp Hty), Ha, Hcall.
    destruct (onAuthSuccess_throws returns w); [right|left]; reflexivity.
  - cbn [orb] in Hg.
    rewrite (ws_onmessage_with_business P returns data d w Hp Hg), Ha, Hcall.
    right. destruct (onAuthSuccess_throws returns w); reflexivity.
Qed.

End GateFrame.

(** The open handler with a callback that does not act on the manager:
    whether the callback returns or throws, the fields of the manager
    other than state, attempt counter and heartbeat handle, and the
    waiters, are as before. *)
Lemma ws_onopen_with_frame (P : Platform) (returned : bool) (w : World) :
  this (ws_onopen_with P (fun y => (y, returned)) w) =
  set_heartbeatTimer (Some (nextTimer (win w)))
    (set_reconnectAttempts 0 (set_state_field open (this w)))
  /\ waiters (win (ws_onopen_with P (fun y => (y, returned)) w)) = waiters (win w).
Proof.
  unfold ws_onopen_with. cbv zeta. rewrite startHeartbeat_eq.
  cbn [this callbacks set_heartbeatTimer upd set_reconnectAttempts set_state
         emit updw set_state_field win].
  assert (H : forall x, this (sendAuthorization P x) = this x
                        /\ waiters (win (sendAuthorization P x)) = waiters (win x)).
  { intros x. destruct (sendAuthorization_shape P x) as (frames & Heq & _).
    rewrite Heq. auto. }
  destruct (onOpen (callbacks (this w))) as [h|].
  - destruct returned; [|auto].
    match goal with |- context [sendAuthorization P ?x] => destruct (H x) as [-> ->] end.
    auto.
  - match goal with |- context [sendAuthorization P ?x] => destruct (H x) as [-> ->] end.
    auto.
Qed.

(** The manager's own part of the open handler leaves the queue alone. *)
Lemma ws_onopen_with_queue
      (P : Platform) (handler : World -> World * bool) (w : World) :
  (forall y, sendQueue (this (fst (handler y))) = sendQueue (this y)) ->
  sendQueue (this (ws_onopen_with P handler w)) = sendQueue (this w).
Proof.
  intros Hh. unfold ws_onopen_with. cbv zeta. rewrite startHeartbeat_eq.
  cbn [this callbacks set_heartbeatTimer upd set_reconnectAttempts set_state
         emit updw set_state_field win].
  assert (H : forall x, this (sendAuthorization P x) = this x).
  { intros x. destruct (sendAuthorization_shape P x) as (frames & Heq & _).
    rewrite Heq. auto. }
  destruct (onOpen (callbacks (this w))) as [h|].
  - match goal with |- context [handler ?z] =>
      specialize (Hh z); destruct (handler z) as [w4 r] end.
    cbn [fst] in Hh. destruct r; [rewrite H|]; exact Hh.
  - rewrite H. reflexivity.
Qed.

(** * Statements of the specification, checked against the code *)

(** C1. [flushQueue] on ten queued messages, transport open and authorized,
    when the fifth [send] throws: messages 1 to 4 are sent in order and the
    loop stops, but the queue is left with messages 6 to 10 only. Message 5
    was removed from the queue before the failing [send] and is not put
    back, so it is neither sent nor queued. *)
Theorem flush_fifth_of_ten_fails :
  ws_is_open ten_queued = true
  /\ authorized (this ten_queued) = true
  /\ sendQueue (this ten_queued) = Sample.messages 10
  /\ sent_payloads (log (win ten_queued)) = []
  /\ sent_payloads (log (win (flushQueue (Sample.platform [5]) ten_queued))) =
     ["001"; "002"; "003"; "004"]
  /\ failed_payloads (log (win (flushQueue (Sample.platform [5]) ten_queued))) =
     ["005"]
  /\ sendQueue (this (flushQueue (Sample.platform [5]) ten_queued)) =
     ["006"; "007"; "008"; "009"; "010"]
  /\ sendQueue (this (flushQueue (Sample.platform [5]) ten_queued)) <>
     ["005"; "006"; "007"; "008"; "009"; "010"].
Proof.
  repeat match goal with |- _ /\ _ => split end; try (vm_compute; reflexivity).
  vm_compute. discriminate.
Qed.

(** ** Transport open: [ws.onopen] *)

(** C2, as stated, fails when the credential store holds no token: the
    transport opens while the manager is Connecting, the manager becomes
    Open, and no authorization frame (no frame at all) is sent, whatever
    an [onOpen] handler would do. *)
Lemma open_without_credentials_sends_no_frame :
  state (this (about_to_open [])) = connecting
  /\ ws (this (about_to_open [])) = Some (mkWebSocket 0 Sample.endpoint OPEN)
  /\ forall handler,
      state (this (ws_onopen_with (Sample.platform []) handler (about_to_open [])))
      = open
      /\ sent_payloads
           (log (win (ws_onopen_with (Sample.platform []) handler
                        (about_to_open [])))) = []
      /\ log (win (ws_onopen_with (Sample.platform []) handler (about_to_open [])))
         = log (win (about_to_open [])) ++ [StateIs open].
Proof.
  split; [vm_compute; reflexivity|]. split; [vm_compute; reflexivity|].
  intros handler. repeat split; vm_compute; reflexivity.
Qed.

(** C2, amended. On the transport's open event the manager becomes Open,
    resets the reconnect attempt counter to zero and starts the heartbeat
    (one interval of 25000 ms under a fresh handle replaces the previous
    one); in that world, [opened], it calls [onOpen] when registered. If
    the handler throws, the event ends with the world the handler left and
    nothing is sent. If it returns (or none is registered),
    [sendAuthorization] runs on the world the handler left and hands at
    most one frame to the transport held then: exactly the authorization
    frame [{type: authorization, token: Bearer <token>}] when the
    credential store holds a parseable [auth-storage] entry whose
    [state.token] is truthy and converts to a string, a transport is held
    and [send] does not throw; no frame when the entry is missing, empty,
    unparseable or without a truthy token, when the conversion of the
    token throws, or when no transport is held. *)
Theorem ws_onopen_effects
        (P : Platform) (handler : World -> World * bool) (w : World) :
  let opened :=
    mkWorld
      (set_heartbeatTimer (Some (nextTimer (win w)))
         (set_reconnectAttempts 0 (set_state_field open (this w))))
      (set_log (log (win w) ++ [StateIs open])
         (set_nextTimer (Pos.succ (nextTimer (win w)))
            (set_timers
               (drop_timer (heartbeatTimer (this w)) (timers (win w))
                  ++ [mkTimer (nextTimer (win w)) HeartbeatTick (inject_Z 25000)])
               (win w)))) in
  let called :=
    match onOpen (callbacks (this w)) with
    | Some h => handler (emit (CallOnOpen h) opened)
    | None => (opened, true)
    end in
  let x := fst called in
  (snd called = false -> ws_onopen_with P handler w = x)
  /\ (snd called = true ->
      exists frames,
        ws_onopen_with P handler w =
        mkWorld (this x)
          (set_log (log (win x) ++ frames)
             (set_calls (calls (win x) + length frames) (win x)))
        /\ length frames <= 1
        /\ (getItem "auth-storage" (localStorage (win x)) = None
            \/ (exists raw,
                   getItem "auth-storage" (localStorage (win x)) = Some raw
                   /\ (raw = "" \/ JSON_parse P raw = None
                       \/ exists authData,
                           JSON_parse P raw = Some authData
                           /\ (Js.truthy_opt
                                 (Js.opt_get (Js.get authData "state") "token")
                               = false
                               \/ exists st token,
                                   Js.get authData "state" = Some st
                                   /\ Js.get st "token" = Some token
                                   /\ template_throws token = true)))
            \/ ws (this x) = None ->
            frames = [])
        /\ (forall raw authData st token s,
               getItem "auth-storage" (localStorage (win x)) = Some raw ->
               raw <> "" ->
               JSON_parse P raw = Some authData ->
               Js.get authData "state" = Some st ->
               Js.get st "token" = Some token ->
               Js.truthy token = true ->
               template_throws token = false ->
               ws (this x) = Some s ->
               send_throws P (calls (win x)) = false ->
               frames =
               [Sent (sock_id s)
                  (JSON_stringify P
                     (JObj [("type", JStr "authorization");
                            ("token",
                             JStr ("Bearer " ++ template_string P token))]))]))
  /\ ((forall y, handler y = (y, true)) ->
      ws_onopen_with P handler w = ws_onopen P w
      /\ state (this (ws_onopen P w)) = open
      /\ reconnectAttempts (this (ws_onopen P w)) = 0
      /\ heartbeatTimer (this (ws_onopen P w)) = Some (nextTimer (win w))
      /\ timers (win (ws_onopen P w)) = timers (win opened)).
Proof.
  intros opened called x.
  assert (E3 : startHeartbeat
                 (upd (set_reconnectAttempts 0) (set_state open w)) = opened).
  { rewrite startHeartbeat_eq. unfold opened.
    destruct w as [m b]. destruct m, b. unfold set_state. record_lazy.
    reflexivity. }
  assert (Ecb : onOpen (callbacks (this opened)) = onOpen (callbacks (this w)))
    by reflexivity.
  assert (Ewith : ws_onopen_with P handler w =
                  if snd called then sendAuthorization P x else x).
  { unfold ws_onopen_with. cbv zeta. rewrite E3, Ecb. unfold x, called.
    destruct (onOpen (callbacks (this w))) as [h|]; [|reflexivity].
    destruct (handler _) as [w4 [|]]; reflexivity. }
  split; [|split].
  - intros Hthrew. rewrite Ewith, Hthrew. reflexivity.
  - intros Hret. rewrite Ewith, Hret.
    destruct (sendAuthorization_shape P x) as (frames & Heq & Hlen).
    exists frames. split; [exact Heq|]. split; [exact Hlen|].
    assert (Hlog : log (win (sendAuthorization P x)) = log (win x) ++ frames)
      by (rewrite Heq; reflexivity).
    assert (Hsame : sendAuthorization P x = x -> frames = []).
    { intros Hs. rewrite Hs in Hlog. destruct frames; [reflexivity|].
      apply (f_equal (@length Event)) in Hlog. rewrite length_app in Hlog.
      cbn in Hlog. lia. }
    split.
    + intros Hno. apply Hsame.
      destruct Hno as [H|[(raw & Hraw & H)|H]].
      * apply sendAuthorization_nothing. left. exact H.
      * destruct H as [H|[H|(authData & Hp & [H|(st & token & Hst & Htok & Hthrows)])]].
        -- apply sendAuthorization_nothing. right. left. exists raw. auto.
        -- apply sendAuthorization_nothing. right. left. exists raw. auto.
        -- apply sendAuthorization_nothing. right. left. exists raw.
           split; [exact Hraw|]. right. right. exists authData. auto.
        -- destruct (string_dec raw "") as [->|Hne].
           ++ apply sendAuthorization_nothing. right. left. exists "". auto.
           ++ exact (sendAuthorization_swallows P x raw authData st token
                       Hraw Hne Hp Hst Htok Hthrows).
      * apply sendAuthorization_nothing. right. right. exact H.
    + intros raw authData st token s Hraw Hne Hparse Hst Htok Htruthy Hconv Hs Hok.
      rewrite (sendAuthorization_sends P x raw authData st token s
                 Hraw Hne Hparse Hst Htok Htruthy Hconv Hs Hok) in Hlog.
      cbn in Hlog. apply app_inv_head in Hlog. symmetry. exact Hlog.
  - intros Hpassive.
    assert (Epassive : ws_onopen P w =
                       sendAuthorization P
                         (invoke (onOpen (callbacks (this w))) CallOnOpen opened)).
    { unfold ws_onopen. cbv zeta. rewrite E3, Ecb. reflexivity. }
    split.
    + rewrite Ewith, Epassive. unfold x, called.
      destruct (onOpen (callbacks (this w))) as [h|]; [|reflexivity].
      rewrite Hpassive. reflexivity.
    + rewrite Epassive.
      destruct (sendAuthorization_shape P
                  (invoke (onOpen (callbacks (this w))) CallOnOpen opened))
        as (frames & Heq & _).
      rewrite Heq, invoke_eq. repeat split; reflexivity.
Qed.

Lemma ws_onopen_effects_witness :
  log (win (ws_onopen_with (Sample.platform []) (fun y => (y, true))
              (about_to_open [("auth-storage", Sample.stored_credentials "abc")]))) =
  log (win (about_to_open [("auth-storage", Sample.stored_credentials "abc")]))
    ++ [StateIs open;
        Sent 0 (Sample.stringify
                  (JObj [("type", JStr "authorization");
                         ("token", JStr "Bearer abc")]))].
Proof.
  destruct (ws_onopen_effects (Sample.platform []) (fun y => (y, true))
              (about_to_open [("auth-storage", Sample.stored_credentials "abc")]))
    as (_ & H & _).
  destruct (H eq_refl) as (frames & Heq & _ & _ & Hsent).
  rewrite Heq.
  rewrite (Hsent (Sample.stored_credentials "abc")
             (JObj [("state", JObj [("token", JStr "abc")])])
             (JObj [("token", JStr "abc")]) (JStr "abc")
             (mkWebSocket 0 Sample.endpoint OPEN));
    try (vm_compute; reflexivity).
  vm_compute. discriminate.
Defined.

(** C3. The outbound queue never grows past its capacity of 100: starting
    from a queue within the bound, any sequence of [enqueue] calls leaves at
    most 100 entries, namely the last 100 of the old entries followed by the
    new ones, in their original order. When the queue is at capacity the
    oldest entry is dropped and the new one appended. After 101 calls on an
    empty queue the length is exactly 100, the queue holds the 2nd to 101st
    message in order, and the first message is absent. *)
Theorem enqueue_bounded_drop_oldest (w : World) (msgs : list string) :
  length (sendQueue (this w)) <= 100 ->
  length (sendQueue (this (enqueue_all msgs w))) <= 100
  /\ sendQueue (this (enqueue_all msgs w)) =
     skipn (length (sendQueue (this w) ++ msgs) - 100) (sendQueue (this w) ++ msgs)
  /\ (forall p, length (sendQueue (this w)) = 100 ->
                sendQueue (this (enqueue p w)) = tl (sendQueue (this w)) ++ [p])
  /\ (sendQueue (this w) = [] -> length msgs = 101 ->
      length (sendQueue (this (enqueue_all msgs w))) = 100
      /\ sendQueue (this (enqueue_all msgs w)) = tl msgs
      /\ (NoDup msgs -> ~ In (hd "" msgs) (sendQueue (this (enqueue_all msgs w))))).
Proof.
  intros Hbound.
  pose proof (sendQueue_enqueue_all msgs w Hbound) as Hq.
  split; [rewrite Hq; apply length_keep_last|].
  split; [exact Hq|].
  split.
  - intros p Hfull. rewrite sendQueue_enqueue.
    unfold MAX_QUEUE. rewrite Hfull. reflexivity.
  - intros Hempty Hlen. rewrite Hq, Hempty. cbn [app].
    unfold keep_last, MAX_QUEUE. rewrite Hlen.
    destruct msgs as [|x rest]; [discriminate|].
    cbn [length] in Hlen. change (101 - 100) with 1. cbn [skipn tl hd].
    split; [lia|]. split; [reflexivity|].
    intros Hnd. inversion Hnd; assumption.
Qed.

Lemma enqueue_bounded_drop_oldest_witness :
  length (sendQueue (this (initial []))) <= 100
  /\ length (sendQueue (this (enqueue_all (Sample.messages 101) (initial [])))) = 100
  /\ sendQueue (this (enqueue_all (Sample.messages 101) (initial []))) =
     map Sample.m (seq 2 100)
  /\ ~ In "001" (sendQueue (this (enqueue_all (Sample.messages 101) (initial [])))).
Proof.
  assert (Hb : length (sendQueue (this (initial []))) <= 100) by (cbn; lia).
  split; [exact Hb|].
  destruct (enqueue_bounded_drop_oldest (initial []) (Sample.messages 101) Hb)
    as (_ & _ & _ & H).
  destruct (H eq_refl eq_refl) as (Hlen & Hq & Habs).
  split; [exact Hlen|]. split; [exact Hq|].
  apply Habs.
  replace (Sample.messages 101) with (nodup string_dec (Sample.messages 101))
    by (vm_compute; reflexivity).
  apply NoDup_nodup.
Defined.

(** ** Authorization gate: explicit acknowledgement *)




(** ** Authorization gate: implicit acknowledgement *)




(** ** [connect] is idempotent and reuses the transport *)

(** C6, as stated, fails while the transport is closing: a transport
    exists, the state is Open and the recorded target equals the session
    context, yet [connect()] does not return immediately; it closes and
    constructs a second transport. *)
Lemma connect_recreates_while_transport_closing :
  ws (this half_closed) = Some (mkWebSocket 0 Sample.endpoint CLOSING)
  /\ state (this half_closed) = open
  /\ connectedUrl (this half_closed) = url (this half_closed)
  /\ connectedSessionId (this half_closed) = sessionId (this half_closed)
  /\ transports_created (log (win half_closed)) = 1
  /\ transports_created (log (win (connect (Sample.platform []) half_closed))) = 2
  /\ ws (this (connect (Sample.platform []) half_closed)) =
     Some (mkWebSocket 1 Sample.endpoint CONNECTING)
  /\ connect (Sample.platform []) half_closed <> half_closed.
Proof.
  repeat match goal with |- _ /\ _ => split end; try (vm_compute; reflexivity).
  intros H. apply (f_equal (fun w => state (this w))) in H.
  vm_compute in H. discriminate.
Qed.

(** C6, amended. [connect()] is a no-op when the endpoint URL or the
    session identifier is unset; it returns immediately, creating nothing,
    when a transport exists, the state is Open, the transport's own ready
    state is OPEN and the recorded target equals the session context; it is
    a no-op when the state is Connecting. Hence a [connect()] that leaves
    the manager Connecting is not repeated by a second [connect()]: both
    calls together construct exactly one transport. *)
Theorem connect_idempotent_reuse (P : Platform) (w : World) :
  (url (this w) = None \/ sessionId (this w) = None -> connect P w = w)
  /\ (forall s, ws (this w) = Some s ->
                state (this w) = open ->
                readyState s = OPEN ->
                connectedUrl (this w) = url (this w) ->
                connectedSessionId (this w) = sessionId (this w) ->
                connect P w = w)
  /\ (state (this w) = connecting -> connect P w = w)
  /\ (state (this (connect P w)) = connecting ->
      connect P (connect P w) = connect P w)
  /\ (state (this w) <> connecting ->
      state (this (connect P w)) = connecting ->
      transports_created (log (win (connect P (connect P w)))) =
      transports_created (log (win w)) + 1).
Proof.
  assert (Hstr : forall a, Js.str_eq a a = true).
  { intros [a|]; cbn; [apply String.eqb_refl|reflexivity]. }
  assert (H3 : forall x, state (this x) = connecting -> connect P x = x).
  { intros x Hst. unfold connect, usable.
    destruct (negb _ || negb _); [reflexivity|].
    rewrite Hst. destruct (ws (this x)); cbn; rewrite Hst; reflexivity. }
  split; [|split; [|split; [|split]]].
  - intros [H|H]; unfold connect; rewrite H; cbn; [reflexivity|].
    rewrite orb_true_r. reflexivity.
  - intros s Hs Hst Hrs Hu Hsid. unfold connect, usable, sameTarget.
    destruct (negb _ || negb _); [reflexivity|].
    rewrite Hs, Hst, Hrs, Hu, Hsid, !Hstr. reflexivity.
  - apply H3.
  - apply H3.
  - intros Hne Hafter. rewrite (H3 _ Hafter).
    revert Hafter. unfold connect.
    destruct (negb _ || negb _); [congruence|].
    destruct (usable w && sameTarget w); [congruence|].
    set (w1 := if usable w then close P w else w).
    assert (Hw1 : state (this w1) <> connecting
                  /\ transports_created (log (win w1)) =
                     transports_created (log (win w))).
    { unfold w1. destruct (usable w); [|auto].
      rewrite transports_created_close. rewrite close_eq. cbn.
      split; [discriminate|reflexivity]. }
    clearbody w1. destruct Hw1 as [Hw1 Ht1].
    destruct (ConnectionState_eqb (state (this w1)) connecting) eqn:E.
    { destruct (state (this w1)); try discriminate. congruence. }
    cbv zeta. destruct (WebSocket_throws P _ _).
    + intros Hst. exfalso.
      match type of Hst with
      | state (this (scheduleReconnect P ?x)) = _ =>
          destruct (scheduleReconnect_frame P x) as [Hs _]
      end.
      rewrite Hs in Hst. cbn in Hst. discriminate.
    + intros _. rewrite <- Ht1.
      unfold set_state. record_lazy.
      rewrite !transports_created_app. cbn. lia.
Qed.

Lemma connect_idempotent_reuse_witness :
  state (this (connect (Sample.platform []) (disconnected 0))) = connecting
  /\ connect (Sample.platform []) (connect (Sample.platform []) (disconnected 0)) =
     connect (Sample.platform []) (disconnected 0)
  /\ transports_created
       (log (win (connect (Sample.platform [])
                    (connect (Sample.platform []) (disconnected 0))))) = 1.
Proof.
  assert (Hst : state (this (connect (Sample.platform []) (disconnected 0))) = connecting)
    by (vm_compute; reflexivity).
  destruct (connect_idempotent_reuse (Sample.platform []) (disconnected 0))
    as (_ & _ & _ & H4 & H5).
  split; [exact Hst|]. split; [exact (H4 Hst)|].
  rewrite (H5 ltac:(vm_compute; discriminate) Hst). reflexivity.
Defined.

(** ** Reconnection scheduler *)

Lemma backoff_bounds (attempt : nat) :
  1 <= attempt -> (1000 <= backoff attempt <= 15000)%Z.
Proof.
  intros H. unfold backoff. split.
  - apply Z.min_glb; [|lia].
    assert (0 < 2 ^ (Z.of_nat attempt - 1))%Z by (apply Z.pow_pos_nonneg; lia).
    lia.
  - apply Z.le_min_r.
Qed.

Lemma at_most_one_by_id {A B} (f : A -> B) (p : A -> bool) (c : B) (l : list A) :
  NoDup (map f l) ->
  (forall x, In x l -> p x = true -> f x = c) ->
  length (filter p l) <= 1.
Proof.
  induction l as [|x l IH]; intros Hnd Hp; cbn; [lia|].
  inversion Hnd as [|? ? Hnotin Hnd']; subst.
  assert (IH' : length (filter p l) <= 1)
    by (apply IH; [exact Hnd'|intros y Hy; apply Hp; right; exact Hy]).
  destruct (p x) eqn:Ex; [|exact IH'].
  destruct (filter p l) as [|y r] eqn:Ef; [cbn; lia|].
  exfalso. apply Hnotin.
  assert (Hy : In y (filter p l)) by (rewrite Ef; left; reflexivity).
  apply filter_In in Hy. destruct Hy as [Hy Hpy].
  rewrite (Hp x (or_introl eq_refl) Ex), <- (Hp y (or_intror Hy) Hpy).
  apply in_map, Hy.
Qed.

(** In a reachable world at most one reconnection timer is pending, and it
    is the one recorded in [reconnectTimer]. *)
Lemma one_pending_reconnect (w : World) :
  Inv w ->
  length (pending_reconnects w) <= 1
  /\ (reconnectTimer (this w) = None -> pending_reconnects w = []).
Proof.
  intros [(_ & Hnd & Htr & _) _]. unfold pending_reconnects. split.
  - destruct (reconnectTimer (this w)) as [id|] eqn:E.
    + apply (at_most_one_by_id t_id is_reconnect id); [exact Hnd|].
      intros t Hin Hrec. specialize (Htr t Hin Hrec). congruence.
    + destruct (filter is_reconnect (timers (win w))) as [|t r] eqn:Ef; [cbn; lia|].
      assert (Ht : In t (filter is_reconnect (timers (win w))))
        by (rewrite Ef; left; reflexivity).
      apply filter_In in Ht. destruct Ht as [Hin Hrec].
      specialize (Htr t Hin Hrec). congruence.
  - intros E.
    destruct (filter is_reconnect (timers (win w))) as [|t r] eqn:Ef; [reflexivity|].
    assert (Ht : In t (filter is_reconnect (timers (win w))))
      by (rewrite Ef; left; reflexivity).
    apply filter_In in Ht. destruct Ht as [Hin Hrec].
    specialize (Htr t Hin Hrec). congruence.
Qed.

(** The delay is the sum of the backoff and the jitter, rounded: it stays
    between the backoff and the backoff plus 300. *)
Lemma delay_bounds (b : Z) (r : Q) :
  (1000 <= b <= 15000)%Z ->
  (Number.round r == r)%Q -> (0 <= r)%Q -> (r < 1)%Q ->
  (0 <= Number.mul r (inject_Z 300))%Q
  /\ (Number.mul r (inject_Z 300) < 300)%Q
  /\ (inject_Z b <= Number.add (inject_Z b) (Number.mul r (inject_Z 300)))%Q
  /\ (Number.add (inject_Z b) (Number.mul r (inject_Z 300)) <= inject_Z b + 300)%Q.
Proof.
  intros Hb Hd H0 H1.
  pose proof (double_below_one r Hd H1) as Hmax.
  destruct (round_jitter r H0 Hmax) as [J0 J1].
  change (inject_Z 300) with 300%Q.
  split; [exact J0|]. split; [exact J1|].
  unfold Number.add.
  assert (Hlo : (inject_Z b <= inject_Z b + Number.mul r 300)%Q) by lra.
  assert (Hhi : (inject_Z b + Number.mul r 300 <= inject_Z (b + 300))%Q).
  { rewrite inject_Z_plus. change (inject_Z 300) with 300%Q. lra. }
  destruct (round_between _ b (b + 300) ltac:(lia) ltac:(lia) Hlo Hhi) as [A B].
  split; [exact A|]. rewrite inject_Z_plus in B.
  change (inject_Z 300) with 300%Q in B. exact B.
Qed.

(** C7, as stated, fails at the upper end of the jitter: when
    [Math.random()] returns the largest number below one, the sum of the
    backoff and the jitter rounds up, and the delay is the backoff plus
    300 exactly, 15300 after nine attempts and 1300 on the first retry; no
    jitter below 300 added to the backoff gives it. *)
Lemma delay_reaches_backoff_plus_300 :
  random_in_range nearly_one
  /\ timers (win (scheduleReconnect nearly_one (disconnected 9))) =
     [mkTimer 1%positive ReconnectFire (inject_Z 15300)]
  /\ timers (win (scheduleReconnect nearly_one (disconnected 0))) =
     [mkTimer 1%positive ReconnectFire (inject_Z 1300)]
  /\ ~ (exists jitter : Q,
           (0 <= jitter)%Q /\ (jitter < 300)%Q
           /\ (inject_Z 15300 ==
               inject_Z (Z.min (1000 * 2 ^ (Z.of_nat 10 - 1)) 15000) + jitter)%Q).
Proof.
  split.
  { intros n. split; [vm_compute; reflexivity|].
    split; [vm_compute; discriminate|vm_compute; reflexivity]. }
  split; [vm_compute; reflexivity|]. split; [vm_compute; reflexivity|].
  intros (j & H0 & H1 & He).
  change (inject_Z (Z.min (1000 * 2 ^ (Z.of_nat 10 - 1)) 15000)) with 15000%Q in He.
  change (inject_Z 15300) with 15300%Q in He. lra.
Qed.

(** C7, amended. When [scheduleReconnect] schedules, the attempt counter
    becomes [min(attempts + 1, 10)] and one timer is installed whose delay
    is the binary64 sum of [min(1000 * 2^(attempt-1), 15000)] and the
    jitter [Math.random() * 300]. The jitter lies in [0, 300); the delay
    lies between the backoff and the backoff plus 300, both included, so
    between 1000 and 15300 whatever the number of earlier attempts, and
    between 1000 and 1300 for the first retry. A request while a reconnect
    timer is pending changes nothing, and so does a request when the
    endpoint URL or the session identifier is unset (or the manager was
    closed explicitly). In every attainable world at most one reconnection
    timer is pending, before and after a request, and after the two places
    that issue requests: the transport close handler, whether its
    [onClose] callback returns or throws, and a failed [connect()]. *)
Theorem scheduleReconnect_backoff (P : Platform) (w : World) :
  random_in_range P ->
  (reconnectTimer (this w) <> None -> scheduleReconnect P w = w)
  /\ (url (this w) = None \/ sessionId (this w) = None ->
      scheduleReconnect P w = w)
  /\ (url (this w) = Some "" \/ sessionId (this w) = Some "" ->
      scheduleReconnect P w = w)
  /\ (explicitlyClosed (this w) = true -> scheduleReconnect P w = w)
  /\ (explicitlyClosed (this w) = false ->
      Js.truthy_str (url (this w)) = true ->
      Js.truthy_str (sessionId (this w)) = true ->
      reconnectTimer (this w) = None ->
      let attempt := Nat.min (reconnectAttempts (this w) + 1) 10 in
      let base := inject_Z (Z.min (1000 * 2 ^ (Z.of_nat attempt - 1)) 15000) in
      let jitter := Number.mul (Math_random P (calls (win w))) (inject_Z 300) in
      let delay := Number.add base jitter in
      scheduleReconnect P w =
        mkWorld
          (set_reconnectTimer (Some (nextTimer (win w)))
             (set_reconnectAttempts attempt (this w)))
          (set_nextTimer (Pos.succ (nextTimer (win w)))
             (set_timers
                (timers (win w)
                   ++ [mkTimer (nextTimer (win w)) ReconnectFire delay])
                (set_calls (S (calls (win w))) (win w))))
      /\ (0 <= jitter)%Q /\ (jitter < 300)%Q
      /\ (base <= delay)%Q /\ (delay <= base + 300)%Q
      /\ (1000 <= delay)%Q /\ (delay <= 15300)%Q
      /\ (reconnectAttempts (this w) = 0 -> (delay <= 1300)%Q)
      /\ (10 <= reconnectAttempts (this w) ->
          (15000 <= delay)%Q
          /\ reconnectAttempts (this (scheduleReconnect P w)) = 10))
  /\ (attainable P w ->
      length (pending_reconnects w) <= 1
      /\ length (pending_reconnects (scheduleReconnect P w)) <= 1
      /\ (forall returns,
             length (pending_reconnects (ws_onclose_with P returns w)) <= 1)
      /\ length (pending_reconnects (connect P w)) <= 1).
Proof.
  intros Hrand.
  split; [|split; [|split; [|split; [|split]]]];
    [| | | | |intros Hreach; destruct (attainable_invariants P w Hreach) as [HI _];
              split; [apply one_pending_reconnect, HI|];
              split; [apply one_pending_reconnect, Inv_scheduleReconnect, HI|];
              split; [intros returns;
                      apply one_pending_reconnect, Inv_ws_onclose_with, HI
                     |apply one_pending_reconnect, Inv_connect, HI]].
  - intros H. unfold scheduleReconnect.
    destruct (explicitlyClosed (this w)); [reflexivity|].
    destruct (negb _ || negb _); [reflexivity|].
    destruct (reconnectTimer (this w)); [reflexivity|congruence].
  - intros H. unfold scheduleReconnect.
    destruct (explicitlyClosed (this w)); [reflexivity|].
    destruct H as [H|H]; rewrite H; cbn; [reflexivity|].
    rewrite orb_true_r. reflexivity.
  - intros H. unfold scheduleReconnect.
    destruct (explicitlyClosed (this w)); [reflexivity|].
    destruct H as [H|H]; rewrite H; cbn; [reflexivity|].
    rewrite orb_true_r. reflexivity.
  - intros H. unfold scheduleReconnect. rewrite H. reflexivity.
  - intros Hexp Hurl Hsid Htimer attempt base jitter delay.
    destruct (Hrand (calls (win w))) as (Hd & Hr0 & Hr1).
    assert (Hattempt : 1 <= attempt) by (unfold attempt; lia).
    pose proof (backoff_bounds attempt Hattempt) as Hb.
    unfold backoff in Hb.
    destruct (delay_bounds _ _ Hb Hd Hr0 Hr1) as (J0 & J1 & D0 & D1).
    fold base in D0, D1. fold jitter in J0, J1, D0, D1. fold delay in D0, D1.
    assert (Heq : scheduleReconnect P w =
      mkWorld
        (set_reconnectTimer (Some (nextTimer (win w)))
           (set_reconnectAttempts attempt (this w)))
        (set_nextTimer (Pos.succ (nextTimer (win w)))
           (set_timers
              (timers (win w)
                 ++ [mkTimer (nextTimer (win w)) ReconnectFire delay])
              (set_calls (S (calls (win w))) (win w))))).
    { unfold scheduleReconnect. rewrite Hexp, Hurl, Hsid, Htimer. cbn.
      destruct w as [m b]. destruct m, b. reflexivity. }
    split; [exact Heq|].
    split; [exact J0|]. split; [exact J1|].
    split; [exact D0|]. split; [exact D1|].
    destruct Hb as [Hb0 Hb1].
    rewrite Zle_Qle in Hb0, Hb1. fold base in Hb0, Hb1.
    change (inject_Z 1000) with 1000%Q in Hb0.
    change (inject_Z 15000) with 15000%Q in Hb1.
    split; [lra|]. split; [lra|]. split.
    + intros H0.
      assert (Eb : base = 1000%Q) by (unfold base, attempt; rewrite H0; reflexivity).
      rewrite Eb in D1. lra.
    + intros H10. split.
      * assert (Eb : base = 15000%Q).
        { unfold base, attempt.
          replace (Nat.min (reconnectAttempts (this w) + 1) 10) with 10 by lia.
          reflexivity. }
        rewrite Eb in D0. lra.
      * rewrite Heq. cbn. unfold attempt. lia.
Qed.

Lemma scheduleReconnect_backoff_witness :
  random_in_range (Sample.platform [])
  /\ timers (win (scheduleReconnect (Sample.platform []) (disconnected 0))) =
     [mkTimer 1%positive ReconnectFire (inject_Z 1150)].
Proof.
  assert (Hr : random_in_range (Sample.platform [])).
  { intros n. split; [vm_compute; reflexivity|].
    split; [vm_compute; discriminate|vm_compute; reflexivity]. }
  split; [exact Hr|].
  destruct (scheduleReconnect_backoff (Sample.platform []) (disconnected 0) Hr)
    as (_ & _ & _ & _ & H & _).
  destruct (H eq_refl eq_refl eq_refl eq_refl) as (Heq & _).
  rewrite Heq. vm_compute. reflexivity.
Defined.

(** ** Explicit close *)

(** C8, as stated, fails on a manager that holds no transport: [close()] then
    assigns Closed directly; the state is never Closing and no transport is
    asked to close. *)
Lemma close_without_transport_skips_closing :
  ws (this (initial [])) = None
  /\ log (win (close (Sample.platform []) (initial []))) = [StateIs closed]
  /\ ~ In (StateIs closing) (log (win (close (Sample.platform []) (initial [])))).
Proof.
  split; [reflexivity|]. split; [reflexivity|].
  cbn. intros [H|[]]. discriminate.
Qed.

(** C8, amended. [close()] sets the explicitly-closed flag, stops the
    heartbeat (its interval leaves the timer table), drops the transport,
    ends in state Closed, clears the pending reconnect timer, empties the
    outbound queue and resets the Authorized flag. When a transport exists
    the state is first set to Closing and the transport is asked to close,
    whether or not that call throws; when none exists the state goes
    straight to Closed. After [close()] on a reachable world, whatever
    operations and events follow that do not call [connect()] (any number
    of transport close events among them), the flag stays set and no
    reconnection timer is ever pending; a later [connect()] with a session
    set clears the flag. *)
Theorem close_teardown (P : Platform) (w : World) :
  explicitlyClosed (this (close P w)) = true
  /\ heartbeatTimer (this (close P w)) = None
  /\ (forall id, heartbeatTimer (this w) = Some id ->
                 ~ In id (map t_id (timers (win (close P w)))))
  /\ state (this (close P w)) = closed
  /\ ws (this (close P w)) = None
  /\ reconnectTimer (this (close P w)) = None
  /\ (forall id, reconnectTimer (this w) = Some id ->
                 ~ In id (map t_id (timers (win (close P w)))))
  /\ sendQueue (this (close P w)) = []
  /\ authorized (this (close P w)) = false
  /\ (forall s, ws (this w) = Some s ->
                log (win (close P w)) =
                log (win w) ++ [StateIs closing;
                                CloseCalled (sock_id s) (close_throws P (calls (win w)));
                                StateIs closed])
  /\ (ws (this w) = None -> log (win (close P w)) = log (win w) ++ [StateIs closed])
  /\ (reachable P w ->
      forall ops, forallb no_connect ops = true ->
        explicitlyClosed (this (run P ops (close P w))) = true
        /\ reconnectTimer (this (run P ops (close P w))) = None
        /\ pending_reconnects (run P ops (close P w)) = []
        /\ pending_reconnects (ws_onclose P (run P ops (close P w))) = [])
  /\ (Js.truthy_str (url (this w)) = true ->
      Js.truthy_str (sessionId (this w)) = true ->
      explicitlyClosed (this (connect P (close P w))) = false).
Proof.
  rewrite close_eq. cbn [this win explicitlyClosed heartbeatTimer state ws
                          reconnectTimer sendQueue authorized timers log].
  repeat match goal with |- _ /\ _ => split end; try reflexivity.
  - intros id Hid Hin. rewrite Hid in Hin.
    apply in_map_iff in Hin. destruct Hin as (t & Ht & Hin).
    apply drop_timer_incl in Hin.
    apply (drop_timer_absent id (timers (win w))).
    apply in_map_iff. exists t. split; assumption.
  - intros id Hid. rewrite Hid. apply drop_timer_absent.
  - intros s Hs. rewrite Hs. reflexivity.
  - intros Hs. rewrite Hs. reflexivity.
  - intros Hreach ops Hops. rewrite <- close_eq.
    pose proof (close_suppresses P w (reachable_Inv P w Hreach)) as Hsup.
    pose proof (sup_run P ops _ Hops Hsup) as Hrun.
    pose proof (sup_ws_onclose P _ Hrun) as Hclose.
    destruct Hrun as (H1 & H2 & H3). destruct Hclose as (_ & _ & H4).
    auto.
  - intros Hu Hs. unfold connect, usable.
    cbn [this win url sessionId ws state].
    rewrite Hu, Hs. cbn.
    destruct (WebSocket_throws P _ _); [|reflexivity].
    unfold scheduleReconnect. cbn. rewrite Hu, Hs. reflexivity.
Qed.

Lemma close_teardown_witness :
  reachable (Sample.platform []) open_with_backlog
  /\ pending_reconnects
       (run (Sample.platform []) [ReadyStateBecomes CLOSED; CloseEvent; CloseEvent]
          (close (Sample.platform []) open_with_backlog)) = []
  /\ log (win (close (Sample.platform []) open_with_backlog)) =
     log (win open_with_backlog)
       ++ [StateIs closing; CloseCalled 0 false; StateIs closed].
Proof.
  assert (Hr : reachable (Sample.platform []) open_with_backlog)
    by (eexists; eexists; reflexivity).
  split; [exact Hr|].
  destruct (close_teardown (Sample.platform []) open_with_backlog)
    as (_ & _ & _ & _ & _ & _ & _ & _ & _ & Hlog & _ & Hsup & _).
  split.
  - destruct (Hsup Hr [ReadyStateBecomes CLOSED; CloseEvent; CloseEvent] eq_refl)
      as (_ & _ & H & _).
    exact H.
  - rewrite (Hlog (mkWebSocket 0 Sample.endpoint OPEN));
      vm_compute; reflexivity.
Defined.

(** ** [ensureAuthorized] *)

(** C9, as stated, fails when the Authorized flag is stale: the transport
    is not open, no authorization arrives, and the promise of
    [ensureAuthorized(50)] is still resolved with true: the call finds the
    transport not open, calls [connect()] (a no-op here) and suspends, and
    its continuation tests nothing but the flag. *)
Lemma ensureAuthorized_true_on_stale_flag :
  ws (this stale_authorized) = Some (mkWebSocket 0 Sample.endpoint CLOSED)
  /\ ws_is_open stale_authorized = false
  /\ state (this stale_authorized) = closed
  /\ authorized (this stale_authorized) = true
  /\ ensureAuthorized_begin (Sample.platform []) (inject_Z 50) stale_authorized =
     (stale_authorized, Awaiting)
  /\ ensureAuthorized_resume (inject_Z 50) stale_authorized =
     (stale_authorized, Returned true).
Proof.
  repeat match goal with |- _ /\ _ => split end; vm_compute; reflexivity.
Qed.

(** C9, amended. [ensureAuthorized(timeoutMs)] resolves with true at
    once, changing nothing, when the transport is open and Authorized is
    set. With the transport open and Authorized not set it registers a
    waiter inside the call. With the transport not open it calls
    [connect()] and suspends; its continuation runs later, in the world
    [x] the code that ran in between has left, and there resolves with
    true if Authorized is set, and otherwise registers a waiter.
    Registering a waiter installs a timer of [timeoutMs] and puts the
    resolver in the waiter slot. If that timer fires while the waiter is
    pending, the promise is resolved with false, the slot is cleared and
    the timer is gone. If the Authorization Gate resolves the waiter
    first, the promise is resolved with true, the slot is cleared and the
    timer is cancelled; the timer cannot fire any more, and even its
    callback would change nothing. In every attainable world a waiter that
    is not settled has no value yet and its timeout is pending, so the
    deadline resolves it with false; a settled waiter has no timer left,
    and neither the timer nor its callback changes anything. The function
    is total: no path throws. *)
Theorem ensureAuthorized_outcomes (P : Platform) (timeoutMs : Q) (w : World) :
  (ws_is_open w = true -> authorized (this w) = true ->
   ensureAuthorized_begin P timeoutMs w = (w, Finished (Returned true)))
  /\ (ws_is_open w = true -> authorized (this w) = false ->
      ensureAuthorized_begin P timeoutMs w =
      (registered timeoutMs w, Finished (Suspended (length (waiters (win w))))))
  /\ (ws_is_open w = false ->
      ensureAuthorized_begin P timeoutMs w = (connect P w, Awaiting))
  /\ (forall x,
        (authorized (this x) = true ->
         ensureAuthorized_resume timeoutMs x = (x, Returned true))
        /\ (authorized (this x) = false ->
            ensureAuthorized_resume timeoutMs x =
            (registered timeoutMs x, Suspended (length (waiters (win x))))))
  /\ ensureAuthorized P timeoutMs w =
     match ensureAuthorized_begin P timeoutMs w with
     | (w1, Finished r) => (w1, r)
     | (w1, Awaiting) => ensureAuthorized_resume timeoutMs w1
     end
  /\ (forall x, attainable P x ->
        let wid := length (waiters (win x)) in
        let tid := nextTimer (win x) in
        fire_timer P tid (registered timeoutMs x) =
          settled_world wid tid false (registered timeoutMs x)
        /\ nth_error (waiters (win (fire_timer P tid (registered timeoutMs x)))) wid =
           Some (mkWaiter true tid (Some false))
        /\ awaitingAuthResolve (this (fire_timer P tid (registered timeoutMs x))) = None
        /\ ~ In tid (map t_id (timers (win (fire_timer P tid (registered timeoutMs x)))))
        /\ resolve_waiter (registered timeoutMs x) =
           settled_world wid tid true (registered timeoutMs x)
        /\ nth_error (waiters (win (resolve_waiter (registered timeoutMs x)))) wid =
           Some (mkWaiter true tid (Some true))
        /\ awaitingAuthResolve (this (resolve_waiter (registered timeoutMs x))) = None
        /\ ~ In tid (map t_id (timers (win (resolve_waiter (registered timeoutMs x)))))
        /\ fire_timer P tid (resolve_waiter (registered timeoutMs x)) =
           resolve_waiter (registered timeoutMs x)
        /\ auth_timeout wid (resolve_waiter (registered timeoutMs x)) =
           resolve_waiter (registered timeoutMs x))
  /\ (forall x wid wt, attainable P x ->
        nth_error (waiters (win x)) wid = Some wt ->
        (settled wt = false ->
         outcome wt = None
         /\ pending (w_timer wt) (AuthTimeout wid) x
         /\ fire_timer P (w_timer wt) x = settled_world wid (w_timer wt) false x)
        /\ (settled wt = true ->
            ~ In (w_timer wt) (map t_id (timers (win x)))
            /\ fire_timer P (w_timer wt) x = x
            /\ auth_timeout wid x = x))
  /\ (forall x, reachable P x -> attainable P x)
  /\ (forall x, slot_resolved true x (resolve_waiter x)
                /\ awaitingAuthResolve (this (resolve_waiter x)) = None).
Proof.
  split; [|split; [|split; [|split; [|split; [|split; [|split; [|split]]]]]]].
  - intros Ho Ha. rewrite ensureAuthorized_begin_eq, Ho, Ha. reflexivity.
  - intros Ho Ha. rewrite ensureAuthorized_begin_eq, Ho, Ha. reflexivity.
  - intros Ho. rewrite ensureAuthorized_begin_eq, Ho. reflexivity.
  - intros x. rewrite ensureAuthorized_resume_eq.
    split; intros ->; reflexivity.
  - apply ensureAuthorized_atomic.
  - intros x Hatt wid tid.
    destruct (attainable_invariants P x Hatt) as [[(Hfresh & _) _] _].
    assert (Hnth : nth_error (waiters (win (registered timeoutMs x))) wid =
                   Some (mkWaiter false tid None)).
    { cbn. rewrite nth_error_app2 by (unfold wid; lia).
      unfold wid. rewrite Nat.sub_diag. reflexivity. }
    assert (Hfind : find (fun t => (t_id t =? tid)%positive)
                      (timers (win (registered timeoutMs x))) =
                    Some (mkTimer tid (AuthTimeout wid) timeoutMs)).
    { cbn. apply find_fresh_last; [exact Hfresh|reflexivity]. }
    assert (Hupd : forall v,
               nth_error
                 (update_nth wid (fun wt => mkWaiter true (w_timer wt) (Some v))
                    (waiters (win (registered timeoutMs x)))) wid =
               Some (mkWaiter true tid (Some v))).
    { intros v.
      exact (nth_error_update_nth
               (fun wt => mkWaiter true (w_timer wt) (Some v)) _ _ _ Hnth). }
    assert (Hfire : fire_timer P tid (registered timeoutMs x) =
                    settled_world wid tid false (registered timeoutMs x))
      by (apply (fire_auth_timeout P _ tid wid timeoutMs _ Hfind Hnth); reflexivity).
    assert (Hres : resolve_waiter (registered timeoutMs x) =
                   settled_world wid tid true (registered timeoutMs x)).
    { unfold resolve_waiter, call_resolver.
      cbn [registered this awaitingAuthResolve set_awaitingAuthResolve].
      fold wid. rewrite Hnth. cbn [settled w_timer].
      unfold settle, clearTimer, settled_world. reflexivity. }
    rewrite Hfire, Hres.
    assert (Habs : forall v, ~ In tid (map t_id
                (timers (win (settled_world wid tid v (registered timeoutMs x))))))
      by (intros v; apply drop_timer_absent).
    repeat match goal with |- _ /\ _ => split end; try reflexivity.
    + apply Hupd.
    + apply Habs.
    + apply Hupd.
    + apply Habs.
    + unfold fire_timer. rewrite (find_absent tid); [reflexivity|apply Habs].
    + apply (settled_is_final P _ wid (mkWaiter true tid (Some true)));
        [apply Hupd|reflexivity].
  - intros x wid wt Hatt Hnth.
    destruct (attainable_invariants P x Hatt) as [_ Htd].
    split; intros Hset.
    + apply deadline_settles; assumption.
    + pose proof (td_settled x Htd wid wt Hnth Hset) as Habs.
      split; [exact Habs|]. split.
      * unfold fire_timer. rewrite (find_absent (w_timer wt)); [reflexivity|exact Habs].
      * apply (settled_is_final P x wid wt); assumption.
  - apply reachable_attainable.
  - intros x. destruct (resolve_waiter_frame x) as (H1 & _ & _ & _ & H5).
    split; [exact H5|]. rewrite H1. reflexivity.
Qed.

Lemma ensureAuthorized_outcomes_witness :
  ws_is_open awaiting_auth = true
  /\ authorized (this awaiting_auth) = false
  /\ snd (ensureAuthorized_begin (Sample.platform []) (inject_Z 50) awaiting_auth) =
     Finished (Suspended 1)
  /\ timers (win (fst (ensureAuthorized_begin (Sample.platform []) (inject_Z 50)
                         awaiting_auth))) =
     timers (win awaiting_auth) ++ [mkTimer 3%positive (AuthTimeout 1) (inject_Z 50)].
Proof.
  assert (Ho : ws_is_open awaiting_auth = true) by (vm_compute; reflexivity).
  assert (Ha : authorized (this awaiting_auth) = false) by (vm_compute; reflexivity).
  split; [exact Ho|]. split; [exact Ha|].
  destruct (ensureAuthorized_outcomes (Sample.platform []) (inject_Z 50) awaiting_auth)
    as (_ & H & _).
  rewrite (H Ho Ha). split; vm_compute; reflexivity.
Defined.

(** ** Session context *)

Lemma str_eq_true (a b : option string) : Js.str_eq a b = true <-> a = b.
Proof.
  destruct a as [x|], b as [y|]; cbn; split; intros H;
    try discriminate; try reflexivity.
  - apply String.eqb_eq in H. congruence.
  - inversion H. apply String.eqb_refl.
Qed.

(** C10, as stated, fails when the state is Open and no transport is
    held: the guard [this.ws && this.state === 'open'] is false, so a
    context update that changes the endpoint and the session identifier
    does not call [close()]: the state stays Open, the explicitly-closed
    flag stays unset, the queue keeps the message queued under the
    previous context, and that message is delivered to the transport
    constructed for the new target once it is authorized. *)
Lemma context_switch_without_transport_keeps_queue :
  state (this open_without_transport) = open
  /\ ws (this open_without_transport) = None
  /\ url (this open_without_transport) = Some "chat.example"
  /\ sendQueue (this open_without_transport) = ["old"]
  /\ explicitlyClosed (this open_without_transport) = false
  /\ sendQueue (this (updateSessionContext (rejecting "chat.example")
                        "wss://chat.example/other" "s2" false
                        open_without_transport)) = ["old"]
  /\ explicitlyClosed (this (updateSessionContext (rejecting "chat.example")
                               "wss://chat.example/other" "s2" false
                               open_without_transport)) = false
  /\ state (this (updateSessionContext (rejecting "chat.example")
                    "wss://chat.example/other" "s2" false
                    open_without_transport)) = open
  /\ log (win (updateSessionContext (rejecting "chat.example")
                 "wss://chat.example/other" "s2" false
                 open_without_transport)) = log (win open_without_transport)
  /\ skipn (length (log (win open_without_transport)))
       (log (win (run (rejecting "chat.example")
                    [Connect; ReadyStateBecomes OPEN; OpenEvent;
                     MessageEvent (Sample.frame_of_type "auth_success")]
                    (updateSessionContext (rejecting "chat.example")
                       "wss://chat.example/other" "s2" false
                       open_without_transport)))) =
     [StateIs connecting; Constructed 1 "wss://chat.example/other";
      StateIs open; Sent 1 "old"].
Proof.
  repeat match goal with |- _ /\ _ => split end; vm_compute; reflexivity.
Qed.

(** C10, amended. [updateSessionContext] called while a transport is held
    and the state is Open, with at least one of endpoint URL, session
    identifier and assistant mode changed, records the new context and
    calls [close()]: the outbound queue is emptied and the
    explicitly-closed flag set. From then on every payload handed to any transport was passed to
    [send] after the switch or is a control frame of the manager, so the
    messages queued under the previous context are never delivered. When
    the state is not Open (and likewise when no transport is held, or when
    no field changed), the three context fields are replaced and nothing
    else changes. *)
Theorem updateSessionContext_effects
        (P : Platform) (u s : string) (a : bool) (w : World) :
  (forall sock,
      ws (this w) = Some sock ->
      state (this w) = open ->
      url (this w) <> Some u \/ sessionId (this w) <> Some s
      \/ isAssistantMode (this w) <> a ->
      updateSessionContext P u s a w =
      close P (upd (set_isAssistantMode a)
                 (upd (set_sessionId (Some s)) (upd (set_url (Some u)) w)))
      /\ sendQueue (this (updateSessionContext P u s a w)) = []
      /\ explicitlyClosed (this (updateSessionContext P u s a w)) = true
      /\ ws (this (updateSessionContext P u s a w)) = None
      /\ state (this (updateSessionContext P u s a w)) = closed
      /\ url (this (updateSessionContext P u s a w)) = Some u
      /\ sessionId (this (updateSessionContext P u s a w)) = Some s
      /\ isAssistantMode (this (updateSessionContext P u s a w)) = a
      /\ forall ops,
          exists evs,
            log (win (run P ops (updateSessionContext P u s a w))) =
            log (win (updateSessionContext P u s a w)) ++ evs
            /\ forall p, In p (sent_payloads evs) ->
                         In p (payloads_of P ops) \/ control_frame P p)
  /\ (state (this w) <> open ->
      updateSessionContext P u s a w =
      mkWorld
        (mkManager (ws (this w)) (Some u) (Some s) a (state (this w))
           (callbacks (this w)) (heartbeatTimer (this w))
           (reconnectTimer (this w)) (reconnectAttempts (this w))
           (explicitlyClosed (this w)) (sendQueue (this w))
           (authorized (this w)) (awaitingAuthResolve (this w))
           (connectedUrl (this w)) (connectedSessionId (this w)))
        (win w))
  /\ (ws (this w) = None
      \/ (url (this w) = Some u /\ sessionId (this w) = Some s
          /\ isAssistantMode (this w) = a) ->
      updateSessionContext P u s a w =
      upd (set_isAssistantMode a)
        (upd (set_sessionId (Some s)) (upd (set_url (Some u)) w))).
Proof.
  split; [|split].
  - intros sock Hs Hst Hch.
    assert (Heq : updateSessionContext P u s a w =
                  close P (upd (set_isAssistantMode a)
                             (upd (set_sessionId (Some s))
                                (upd (set_url (Some u)) w)))).
    { unfold updateSessionContext. cbv zeta.
      cbn [this upd ws state set_isAssistantMode set_sessionId set_url].
      rewrite Hs, Hst. cbn [ConnectionState_eqb andb].
      assert (Hc : negb (Js.str_eq (url (this w)) (Some u))
                   || negb (Js.str_eq (sessionId (this w)) (Some s))
                   || negb (Bool.eqb (isAssistantMode (this w)) a) = true).
      { destruct Hch as [H|[H|H]].
        - destruct (Js.str_eq (url (this w)) (Some u)) eqn:E; [|reflexivity].
          apply str_eq_true in E. contradiction.
        - destruct (Js.str_eq (sessionId (this w)) (Some s)) eqn:E;
            [|rewrite orb_true_r; reflexivity].
          apply str_eq_true in E. contradiction.
        - destruct (Bool.eqb (isAssistantMode (this w)) a) eqn:E;
            [|rewrite orb_true_r; reflexivity].
          apply Bool.eqb_prop in E. contradiction. }
      rewrite Hc. reflexivity. }
    split; [exact Heq|].
    rewrite Heq. rewrite close_eq.
    repeat match goal with |- _ /\ _ => split end; try reflexivity.
    intros ops. apply sent_after_empty_queue. reflexivity.
  - intros Hst.
    change (updateSessionContext P u s a w =
            upd (set_isAssistantMode a)
              (upd (set_sessionId (Some s)) (upd (set_url (Some u)) w))).
    unfold updateSessionContext. cbv zeta.
    cbn [this upd ws state set_isAssistantMode set_sessionId set_url].
    destruct (ws (this w)); [|reflexivity].
    destruct (state (this w)); try reflexivity. congruence.
  - intros H. unfold updateSessionContext. cbv zeta.
    cbn [this upd ws state set_isAssistantMode set_sessionId set_url].
    destruct H as [H|(Hu & Hs & Ha)]; [rewrite H; reflexivity|].
    rewrite Hu, Hs, Ha. cbn [Js.str_eq]. rewrite !String.eqb_refl, Bool.eqb_reflx.
    cbn [negb orb]. rewrite andb_false_r.
    destruct (ws (this w)); reflexivity.
Qed.

Lemma updateSessionContext_effects_witness :
  sendQueue (this open_with_backlog) = ["old"]
  /\ sendQueue (this (updateSessionContext (Sample.platform [])
                        "wss://chat.example/other" "s2" false
                        open_with_backlog)) = []
  /\ explicitlyClosed (this (updateSessionContext (Sample.platform [])
                               "wss://chat.example/other" "s2" false
                               open_with_backlog)) = true.
Proof.
  split; [vm_compute; reflexivity|].
  destruct (updateSessionContext_effects (Sample.platform [])
              "wss://chat.example/other" "s2" false open_with_backlog)
    as [H _].
  destruct (H (mkWebSocket 0 Sample.endpoint OPEN)) as (_ & Hq & He & _).
  - vm_compute. reflexivity.
  - vm_compute. reflexivity.
  - left. vm_compute. discriminate.
  - split; assumption.
Defined.

(** * Further properties of the code *)

(** ** The message handler, frame by frame *)

(** X1. The message handler sets Authorized exactly on the frames that
    parse as JSON and carry the type [auth_success], [history], [message],
    [reference], [audio] or [done]; it never clears the flag. Text that is
    not JSON, JSON without such a type, and [pong] frames leave the flag as
    it was. *)
Theorem gate_opens_exactly (P : Platform) (data : string) (w : World) :
  authorized (this (ws_onmessage P data w)) =
  authorized (this w) || opens_gate P data.
Proof. apply authorized_ws_onmessage. Qed.

(** X2. A frame that does not open the gate changes nothing in the manager:
    a [pong] frame leaves the whole world as it was (no callback, no
    frame sent, no timer touched), and any other such frame, text that is
    not JSON included, is only handed to [onMessage] when that handler is
    registered. *)
Theorem passive_frames_change_nothing (P : Platform) (data : string) (w : World) :
  opens_gate P data = false ->
  this (ws_onmessage P data w) = this w
  /\ timers (win (ws_onmessage P data w)) = timers (win w)
  /\ waiters (win (ws_onmessage P data w)) = waiters (win w)
  /\ calls (win (ws_onmessage P data w)) = calls (win w)
  /\ (intercepted P data = true -> ws_onmessage P data w = w)
  /\ (intercepted P data = false ->
      log (win (ws_onmessage P data w)) =
      log (win w)
        ++ call_events (onMessage (callbacks (this w)))
             (fun h => CallOnMessage h data)).
Proof.
  intros Hg. rewrite (ws_onmessage_other P data w Hg).
  destruct (intercepted P data).
  - repeat split; try reflexivity. intros H; discriminate.
  - unfold forward. rewrite invoke_eq.
    repeat split; try reflexivity. intros H; discriminate.
Qed.

Lemma passive_frames_change_nothing_witness :
  opens_gate (Sample.platform []) "hello" = false
  /\ intercepted (Sample.platform []) "hello" = false
  /\ log (win (ws_onmessage (Sample.platform []) "hello" awaiting_auth)) =
     log (win awaiting_auth) ++ [CallOnMessage 8 "hello"]
  /\ ws_onmessage (Sample.platform []) (Sample.frame_of_type "pong") awaiting_auth =
     awaiting_auth.
Proof.
  assert (Hg : opens_gate (Sample.platform []) "hello" = false)
    by (vm_compute; reflexivity).
  assert (Hpong : opens_gate (Sample.platform []) (Sample.frame_of_type "pong") = false)
    by (vm_compute; reflexivity).
  split; [exact Hg|]. split; [vm_compute; reflexivity|].
  destruct (passive_frames_change_nothing (Sample.platform []) "hello"
              awaiting_auth Hg) as (_ & _ & _ & _ & _ & Hlog).
  destruct (passive_frames_change_nothing (Sample.platform [])
              (Sample.frame_of_type "pong") awaiting_auth Hpong)
    as (_ & _ & _ & _ & Hsame & _).
  split.
  - rewrite (Hlog eq_refl). vm_compute. reflexivity.
  - apply Hsame. vm_compute. reflexivity.
Defined.

(** X3. What reaches [onMessage]: the raw text of every frame other than
    [pong] and [auth_success] frames, unchanged and exactly once when the
    handler is registered; a business frame that opens the gate is
    forwarded as well. An [auth_success] frame is forwarded in one case
    only: it opens the gate and the [onAuthSuccess] callback throws. *)
Theorem forwarding_rule
        (P : Platform) (returns : bool) (data : string) (w : World) :
  forwarded (log (win (ws_onmessage_with P returns data w))) =
  forwarded (log (win w))
    ++ (if intercepted P data && negb (falls_through P returns data w) then []
        else match onMessage (callbacks (this w)) with
             | Some _ => [data]
             | None => []
             end).
Proof.
  destruct (opens_gate P data) eqn:Hg.
  - unfold opens_gate in Hg. unfold intercepted, falls_through.
    destruct (JSON_parse P data) as [d|] eqn:Hp; [|discriminate].
    destruct (gate_call P w) as (id & done & failed & rest & _ & Hcall & _).
    destruct (gate_call_summary id done failed rest w)
      as (X1 & _ & _ & _ & _ & X6 & _).
    set (x := invoke (onAuthSuccess (callbacks (this w))) CallOnAuthSuccess
                (gate_opened id done failed rest w)) in *.
    destruct (resolve_waiter_frame w) as (_ & _ & R3 & _).
    destruct (resolve_waiter_frame x) as (S1 & _ & S3 & _).
    destruct (Js.type_is d "auth_success") eqn:Ha.
    + cbn [orb andb].
      rewrite (ws_onmessage_with_auth_success P returns data d w Hp Ha), Hcall.
      destruct (authorized (this w)); cbn [negb andb];
        [rewrite app_nil_r; exact R3|].
      destruct (onAuthSuccess_throws returns w); cbn [negb].
      * rewrite forwarded_forward, X6, X1. reflexivity.
      * rewrite app_nil_r, S3. exact X6.
    + cbn [orb] in Hg. destruct (business_type_exclusive d Hg) as [_ Hpong].
      rewrite Hpong. cbn [orb andb].
      rewrite (ws_onmessage_with_business P returns data d w Hp Hg), Hcall,
        forwarded_forward.
      destruct (authorized (this w)); [reflexivity|].
      destruct (onAuthSuccess_throws returns w).
      * rewrite X6, X1. reflexivity.
      * rewrite S3, S1, X6, X1. reflexivity.
  - rewrite (ws_onmessage_with_other P returns data w Hg),
      (ws_onmessage_other P data w Hg).
    assert (Hf : falls_through P returns data w = false).
    { unfold falls_through, opens_gate in *.
      destruct (JSON_parse P data) as [d|]; [|reflexivity].
      apply orb_false_elim in Hg. destruct Hg as [-> _]. reflexivity. }
    rewrite Hf, andb_true_r.
    destruct (intercepted P data); [rewrite app_nil_r; reflexivity|].
    apply forwarded_forward.
Qed.

(** X4. When a frame opens the gate of an unauthorized manager whose
    transport is open, and no [send] throws, the whole outbound queue is
    handed to that transport in queue order, the queue is empty afterwards
    and the flag is set. *)
Theorem gate_flushes_queue_in_order
        (P : Platform) (data : string) (w : World) (s : WebSocket) :
  opens_gate P data = true ->
  ws (this w) = Some s -> readyState s = OPEN ->
  authorized (this w) = false ->
  (forall i, i < length (sendQueue (this w)) ->
             send_throws P (calls (win w) + i) = false) ->
  sent_payloads (log (win (ws_onmessage P data w))) =
  sent_payloads (log (win w)) ++ sendQueue (this w)
  /\ failed_payloads (log (win (ws_onmessage P data w))) =
     failed_payloads (log (win w))
  /\ sendQueue (this (ws_onmessage P data w)) = []
  /\ authorized (this (ws_onmessage P data w)) = true.
Proof.
  intros Hg Hws Hrs Ha Hok.
  assert (Heq : exists fwd,
             ws_onmessage P data w = fwd (authorize P w)
             /\ (fwd = (fun x => x) \/ fwd = forward data)).
  { unfold opens_gate in Hg.
    destruct (JSON_parse P data) as [d|] eqn:Hp; [|discriminate].
    destruct (Js.type_is d "auth_success") eqn:Ht.
    - exists (fun x => x). split; [|left; reflexivity].
      rewrite (ws_onmessage_auth_success P data d w Hp Ht), Ha. reflexivity.
    - cbn [orb] in Hg. exists (forward data). split; [|right; reflexivity].
      rewrite (ws_onmessage_business P data d w Hp Hg), Ha. reflexivity. }
  destruct Heq as (fwd & Heq & Hfwd).
  assert (Hfl : flushQueue P (upd (set_authorized true) w) =
                flushed (sock_id s) (sendQueue (this w)) [] []
                  (upd (set_authorized true) w))
    by (apply (flushQueue_drains P (upd (set_authorized true) w) s);
        [exact Hws|exact Hrs|reflexivity|exact Hok]).
  assert (Hauth : sent_payloads (log (win (authorize P w))) =
                  sent_payloads (log (win w)) ++ sendQueue (this w)
                  /\ failed_payloads (log (win (authorize P w))) =
                     failed_payloads (log (win w))
                  /\ sendQueue (this (authorize P w)) = []
                  /\ authorized (this (authorize P w)) = true).
  { unfold authorize.
    set (x := invoke (onAuthSuccess (callbacks (this w))) CallOnAuthSuccess
                (flushQueue P (upd (set_authorized true) w))).
    destruct (resolve_waiter_frame x) as (R1 & _ & _ & R4 & _).
    assert (Rf : failed_payloads (log (win (resolve_waiter x))) =
                 failed_payloads (log (win x))).
    { unfold resolve_waiter, call_resolver.
      destruct (awaitingAuthResolve _); [|reflexivity].
      destruct (nth_error _ _) as [wt|]; [|reflexivity].
      destruct (settled wt); [reflexivity|].
      cbn. unfold failed_payloads. rewrite flat_map_app. cbn.
      rewrite app_nil_r. reflexivity. }
    rewrite R4, R1, Rf. unfold x.
    rewrite invoke_eq, Hfl.
    cbn [this win log set_log flushed set_sendQueue sendQueue authorized
         set_awaitingAuthResolve upd set_authorized set_calls].
    rewrite app_nil_r.
    assert (Hs : forall l, sent_payloads (map (Sent (sock_id s)) l) = l)
      by (induction l as [|e l IH]; cbn; [reflexivity|f_equal; exact IH]).
    assert (Hf : forall l, failed_payloads (map (Sent (sock_id s)) l) = [])
      by (induction l as [|e l IH]; cbn; auto).
    assert (Hc : forall cb, sent_payloads (call_events cb CallOnAuthSuccess) = []
                            /\ failed_payloads (call_events cb CallOnAuthSuccess) = [])
      by (intros [h|]; split; reflexivity).
    destruct (Hc (onAuthSuccess (callbacks (this w)))) as [Hc1 Hc2].
    rewrite !sent_payloads_app, Hs, Hc1, app_nil_r.
    unfold failed_payloads at 1. rewrite !flat_map_app.
    fold (failed_payloads (log (win w))).
    fold (failed_payloads (map (Sent (sock_id s)) (sendQueue (this w)))).
    fold (failed_payloads (call_events (onAuthSuccess (callbacks (this w)))
                             CallOnAuthSuccess)).
    rewrite Hf, Hc2, !app_nil_r. repeat split; reflexivity. }
  rewrite Heq. destruct Hfwd as [-> | ->]; [exact Hauth|].
  destruct Hauth as (H1 & H2 & H3 & H4).
  unfold forward. rewrite invoke_eq. cbn [this win log set_log].
  rewrite sent_payloads_app.
  unfold failed_payloads at 1. rewrite flat_map_app.
  fold (failed_payloads (log (win (authorize P w)))).
  destruct (onMessage (callbacks (this (authorize P w)))); cbn [call_events];
    cbn; rewrite !app_nil_r; repeat split; assumption.
Qed.

Lemma gate_flushes_queue_in_order_witness :
  sendQueue (this awaiting_auth) = ["hi"]
  /\ sent_payloads (log (win (ws_onmessage (Sample.platform [])
                                (Sample.frame_of_type "history") awaiting_auth))) =
     sent_payloads (log (win awaiting_auth)) ++ ["hi"]
  /\ sendQueue (this (ws_onmessage (Sample.platform [])
                        (Sample.frame_of_type "history") awaiting_auth)) = [].
Proof.
  split; [vm_compute; reflexivity|].
  destruct (gate_flushes_queue_in_order (Sample.platform [])
              (Sample.frame_of_type "history") awaiting_auth
              (mkWebSocket 0 Sample.endpoint OPEN))
    as (H1 & _ & H3 & _);
    [vm_compute; reflexivity|reflexivity|reflexivity|vm_compute; reflexivity
    |intros i _; reflexivity|].
  split; [rewrite H1; vm_compute; reflexivity|exact H3].
Defined.

(** ** The authorization gate holds back business traffic *)

(** X5. As long as the session has not been authorized, [ws.send] is only
    ever called on the manager's own control frames (the authorization
    frame and heartbeat pings): whatever the caller passes to [send] and
    whatever the queue holds, no history of operations and events that
    leaves the Authorized flag unset hands a payload of the caller to a
    transport. *)
Theorem no_payload_before_authorization
        (P : Platform) (ops : list Op) (w : World) :
  unauthorized_throughout P ops w = true ->
  exists evs,
    log (win (run P ops w)) = log (win w) ++ evs
    /\ forall p, In p (attempts evs) -> control_frame P p.
Proof.
  intros H.
  destruct (em_run_unauthorized P (control_frame P) (fun p Hp => Hp) ops w H)
    as (evs & Hlog & Hall).
  exists evs. split; [exact Hlog|]. rewrite Forall_forall in Hall. exact Hall.
Qed.

Lemma no_payload_before_authorization_witness :
  unauthorized_throughout (Sample.platform []) (Sample.queue_then_open 3)
    (initial [("auth-storage", Sample.stored_credentials "abc")]) = true
  /\ exists evs,
       log (win (run (Sample.platform []) (Sample.queue_then_open 3)
                   (initial [("auth-storage", Sample.stored_credentials "abc")]))) =
       log (win (initial [("auth-storage", Sample.stored_credentials "abc")])) ++ evs
       /\ forall p, In p (attempts evs) -> control_frame (Sample.platform []) p.
Proof.
  split; [vm_compute; reflexivity|].
  apply no_payload_before_authorization. vm_compute. reflexivity.
Defined.

(** ** [send] *)

(** X6. On an open transport of an authorized session [send] hands the
    payload straight to the transport and changes nothing else. If
    [ws.send] throws, the payload is appended to the outbound queue
    instead (the oldest entry is evicted when the queue is full); the
    manager neither reconnects nor changes state. *)
Theorem send_on_authorized_transport
        (P : Platform) (d : SendArg) (w : World) (s : WebSocket) :
  ws (this w) = Some s -> readyState s = OPEN -> authorized (this w) = true ->
  (send_throws P (calls (win w)) = false ->
   send P d w = emit (Sent (sock_id s) (serialize P d)) (tick w))
  /\ (send_throws P (calls (win w)) = true ->
      send P d w =
      enqueue (serialize P d) (emit (SendThrew (sock_id s) (serialize P d)) (tick w))
      /\ sendQueue (this (send P d w)) =
         (if MAX_QUEUE <=? length (sendQueue (this w))
          then tl (sendQueue (this w)) else sendQueue (this w))
           ++ [serialize P d]
      /\ sent_payloads (log (win (send P d w))) = sent_payloads (log (win w)))
  /\ ws (this (send P d w)) = ws (this w)
  /\ state (this (send P d w)) = state (this w)
  /\ authorized (this (send P d w)) = true
  /\ timers (win (send P d w)) = timers (win w)
  /\ transports_created (log (win (send P d w))) = transports_created (log (win w)).
Proof.
  intros Hws Hrs Ha.
  assert (Hopen : ws_is_open w && authorized (this w) = true)
    by (unfold ws_is_open; rewrite Hws, Hrs, Ha; reflexivity).
  unfold send. rewrite Hopen.
  destruct (send_throws P (calls (win w))) eqn:Hthrow.
  - rewrite (transport_send_throws P _ w s Hws Hthrow).
    split; [intros H; discriminate|]. split.
    + intros _. split; [reflexivity|]. split.
      * rewrite sendQueue_enqueue. reflexivity.
      * rewrite enqueue_frame. cbn [upd win emit updw log set_log tick].
        rewrite sent_payloads_app. cbn. rewrite app_nil_r. reflexivity.
    + rewrite enqueue_frame. cbn [upd win this emit updw tick].
      repeat split; try assumption; try reflexivity.
      cbn [log set_log set_calls]. rewrite transports_created_app. cbn. lia.
  - rewrite (transport_send_returns P _ w s Hws Hthrow).
    split; [reflexivity|]. split; [intros H; discriminate|].
    cbn [upd win this emit updw tick].
    repeat split; try assumption; try reflexivity.
    cbn [log set_log set_calls]. rewrite transports_created_app. cbn. lia.
Qed.

Lemma send_on_authorized_transport_witness :
  sent_payloads (log (win (send (Sample.platform []) (Text "hello")
                             authorized_session))) = ["hello"]
  /\ sendQueue (this (send (Sample.platform [1]) (Text "hello")
                        authorized_session)) = ["hello"].
Proof.
  destruct (send_on_authorized_transport (Sample.platform []) (Text "hello")
              authorized_session (mkWebSocket 0 Sample.endpoint OPEN)
              eq_refl eq_refl eq_refl) as (H1 & _).
  destruct (send_on_authorized_transport (Sample.platform [1]) (Text "hello")
              authorized_session (mkWebSocket 0 Sample.endpoint OPEN)
              eq_refl eq_refl eq_refl) as (_ & H2 & _).
  split.
  - rewrite H1; vm_compute; reflexivity.
  - destruct H2 as (_ & Hq & _); [vm_compute; reflexivity|].
    rewrite Hq. vm_compute. reflexivity.
Defined.

(** X7. While the manager is Connecting every [send] only queues: the
    payloads of any number of calls are appended in call order, the queue
    keeps the last hundred of them, nothing is handed to a transport, no
    further transport is constructed and nothing is logged. *)
Theorem sends_while_connecting_queue
        (P : Platform) (ds : list SendArg) (w : World) :
  state (this w) = connecting ->
  ws_is_open w && authorized (this w) = false ->
  run P (map Send ds) w = enqueue_all (map (serialize P) ds) w
  /\ log (win (run P (map Send ds) w)) = log (win w)
  /\ (length (sendQueue (this w)) <= MAX_QUEUE ->
      sendQueue (this (run P (map Send ds) w)) =
      keep_last (sendQueue (this w) ++ map (serialize P) ds)).
Proof.
  intros Hst Hno.
  assert (Heq : run P (map Send ds) w = enqueue_all (map (serialize P) ds) w).
  { revert w Hst Hno. induction ds as [|d ds IH]; intros w Hst Hno; [reflexivity|].
    cbn [map run fold_left enqueue_all exec].
    assert (Hs : send P d w = enqueue (serialize P d) w).
    { unfold send. rewrite Hno. apply connect_connecting.
      rewrite enqueue_frame. exact Hst. }
    rewrite Hs. apply IH; rewrite enqueue_frame; assumption. }
  split; [exact Heq|]. rewrite Heq. split.
  - rewrite enqueue_all_frame. reflexivity.
  - apply sendQueue_enqueue_all.
Qed.

Lemma sends_while_connecting_queue_witness :
  sendQueue (this (run (Sample.platform [])
                     (map Send [Text "a"; Text "b"; Text "c"]) connecting_session)) =
  ["a"; "b"; "c"]
  /\ transports_created
       (log (win (run (Sample.platform [])
                    (map Send [Text "a"; Text "b"; Text "c"]) connecting_session))) = 1.
Proof.
  destruct (sends_while_connecting_queue (Sample.platform [])
              [Text "a"; Text "b"; Text "c"] connecting_session
              eq_refl eq_refl) as (_ & Hlog & Hq).
  split.
  - rewrite Hq; [vm_compute; reflexivity|vm_compute; lia].
  - rewrite Hlog. vm_compute. reflexivity.
Defined.

(** X8. What becomes of the payload passed to [send]: it is handed to the
    transport, or it is the last entry of the outbound queue afterwards,
    except in one case. When the session is unauthorized and the open
    transport is bound to another target than the session context, the
    [connect()] that [send] triggers closes that transport, and this
    [close()] empties the queue, the payload just queued included. *)
Theorem send_payload_fate (P : Platform) (d : SendArg) (w : World) :
  (exists id, log (win (send P d w)) = log (win w) ++ [Sent id (serialize P d)]
              /\ sendQueue (this (send P d w)) = sendQueue (this w))
  \/ (exists q, sendQueue (this (send P d w)) = q ++ [serialize P d])
  \/ (sendQueue (this (send P d w)) = []
      /\ context_set w = true /\ usable w = true /\ sameTarget w = false
      /\ authorized (this w) = false).
Proof.
  unfold send. destruct (ws_is_open w && authorized (this w)) eqn:Hopen.
  - unfold ws_is_open in Hopen.
    destruct (ws (this w)) as [s|] eqn:Hws; [|discriminate].
    destruct (send_throws P (calls (win w))) eqn:Hthrow.
    + rewrite (transport_send_throws P _ w s Hws Hthrow).
      right. left. eexists. apply sendQueue_enqueue.
    + rewrite (transport_send_returns P _ w s Hws Hthrow).
      left. exists (sock_id s). split; reflexivity.
  - rewrite connect_sendQueue.
    assert (Hc : context_set (enqueue (serialize P d) w) = context_set w)
      by (rewrite enqueue_frame; reflexivity).
    assert (Hu : usable (enqueue (serialize P d) w) = usable w)
      by (rewrite enqueue_frame; reflexivity).
    assert (Hs : sameTarget (enqueue (serialize P d) w) = sameTarget w)
      by (rewrite enqueue_frame; reflexivity).
    rewrite Hc, Hu, Hs.
    destruct (context_set w) eqn:Ec; cbn [andb];
      [|right; left; eexists; apply sendQueue_enqueue].
    destruct (usable w) eqn:Eu; cbn [andb];
      [|right; left; eexists; apply sendQueue_enqueue].
    destruct (sameTarget w) eqn:Es; cbn [negb];
      [right; left; eexists; apply sendQueue_enqueue|].
    right. right. repeat split.
    unfold usable in Eu. unfold ws_is_open in Hopen.
    destruct (ws (this w)) as [s|]; [|discriminate].
    apply andb_prop in Eu. destruct Eu as [_ Eu]. rewrite Eu in Hopen.
    exact Hopen.
Qed.

(** X9. The exceptional case occurs: on an unauthorized manager whose open
    transport is bound to another target than the session context, [send]
    closes that transport, leaves the outbound queue empty (the payload is
    neither sent nor queued), calls [ws.send] on nothing, and starts
    connecting to the endpoint of the session context. *)
Theorem send_on_stale_target_discards
        (P : Platform) (d : SendArg) (w : World) (s : WebSocket) :
  context_set w = true ->
  ws (this w) = Some s -> readyState s = OPEN -> state (this w) = open ->
  sameTarget w = false ->
  authorized (this w) = false ->
  send P d w = connect P (close P (enqueue (serialize P d) w))
  /\ sendQueue (this (send P d w)) = []
  /\ attempts (log (win (send P d w))) = attempts (log (win w))
  /\ (WebSocket_throws P (S (calls (win w))) (endpoint_of w) = false ->
      ws (this (send P d w)) =
      Some (mkWebSocket (sockets (win w)) (endpoint_of w) CONNECTING)
      /\ state (this (send P d w)) = connecting
      /\ log (win (send P d w)) =
         log (win w)
           ++ [StateIs closing;
               CloseCalled (sock_id s) (close_throws P (calls (win w)));
               StateIs closed; StateIs connecting;
               Constructed (sockets (win w)) (endpoint_of w)]).
Proof.
  intros Hc Hws Hrs Hst Hsame Ha.
  set (x := enqueue (serialize P d) w).
  assert (Hx : x = upd (set_sendQueue (sendQueue (this x))) w)
    by (apply enqueue_frame).
  assert (Hus : usable w = true)
    by (unfold usable; rewrite Hws, Hst, Hrs; reflexivity).
  assert (Hcx : context_set x = true) by (rewrite Hx; exact Hc).
  assert (Husx : usable x = true) by (rewrite Hx; exact Hus).
  assert (Hsx : sameTarget x = false) by (rewrite Hx; exact Hsame).
  assert (Hsend : send P d w = connect P (close P x)).
  { unfold send. rewrite Ha, andb_false_r. fold x.
    apply connect_retarget_eq; assumption. }
  split; [exact Hsend|].
  assert (Hq : sendQueue (this (send P d w)) = []).
  { unfold send. rewrite Ha, andb_false_r. fold x.
    rewrite connect_sendQueue, Hcx, Husx, Hsx. reflexivity. }
  split; [exact Hq|].
  assert (Hem : emits (fun _ => False) w (send P d w))
    by (apply em_send_unauthorized, Ha).
  split.
  - destruct Hem as (evs & Hlog & Hall). rewrite Hlog, attempts_app.
    destruct (attempts evs); [apply app_nil_r|]. inversion Hall. contradiction.
  - intros Hok. rewrite Hsend.
    rewrite connect_eq.
    + assert (Hcalls : calls (win (close P x)) = S (calls (win w)))
        by (rewrite close_eq, Hx; record_cbn; rewrite Hws; reflexivity).
      assert (Hend : endpoint_of (close P x) = endpoint_of w)
        by (unfold endpoint_of; rewrite close_eq, Hx; reflexivity).
      rewrite Hcalls, Hend, Hok. cbn [this win ws state log].
      split; [rewrite close_eq, Hx; reflexivity|]. split; [reflexivity|].
      rewrite close_eq, Hx. record_cbn. rewrite Hws.
      rewrite <- !app_assoc. reflexivity.
    + unfold context_set. rewrite close_eq. exact Hcx.
    + unfold usable. rewrite close_eq. reflexivity.
    + rewrite close_eq. discriminate.
Qed.

Lemma send_on_stale_target_discards_witness :
  reachable (Sample.platform []) stale_target
  /\ sendQueue (this (send (Sample.platform []) (Text "hello") stale_target)) = []
  /\ attempts (log (win (send (Sample.platform []) (Text "hello") stale_target))) = [].
Proof.
  split; [eexists; eexists; reflexivity|].
  destruct (send_on_stale_target_discards (Sample.platform []) (Text "hello")
              stale_target (mkWebSocket 0 Sample.endpoint OPEN)
              eq_refl eq_refl eq_refl eq_refl eq_refl eq_refl)
    as (_ & Hq & Hat & _).
  split; [exact Hq|]. rewrite Hat. vm_compute. reflexivity.
Defined.

(** ** [connect]: the paths besides reuse *)

(** X10. [connect()] on an open transport that is bound to another target
    than the session context closes that transport, which also drops the
    outbound queue, the heartbeat and a pending reconnection timer, then
    constructs exactly one transport for the endpoint of the session
    context and records it as the connected target. *)
Theorem connect_replaces_stale_transport
        (P : Platform) (w : World) (s : WebSocket) :
  context_set w = true ->
  ws (this w) = Some s -> readyState s = OPEN -> state (this w) = open ->
  sameTarget w = false ->
  WebSocket_throws P (S (calls (win w))) (endpoint_of w) = false ->
  connect P w =
  mkWorld
    (mkManager (Some (mkWebSocket (sockets (win w)) (endpoint_of w) CONNECTING))
       (url (this w)) (sessionId (this w)) (isAssistantMode (this w)) connecting
       (callbacks (this w)) None None (reconnectAttempts (this w)) false [] false
       (awaitingAuthResolve (this w)) (Some (endpoint_of w)) (sessionId (this w)))
    (mkWindow
       (drop_timer (reconnectTimer (this w))
          (drop_timer (heartbeatTimer (this w)) (timers (win w))))
       (nextTimer (win w)) (waiters (win w)) (localStorage (win w))
       (S (sockets (win w))) (S (S (calls (win w))))
       (log (win w)
          ++ [StateIs closing;
              CloseCalled (sock_id s) (close_throws P (calls (win w)));
              StateIs closed; StateIs connecting;
              Constructed (sockets (win w)) (endpoint_of w)]))
  /\ sameTarget (connect P w) = true
  /\ transports_created (log (win (connect P w))) =
     transports_created (log (win w)) + 1.
Proof.
  intros Hc Hws Hrs Hst Hsame Hok.
  assert (Hus : usable w = true)
    by (unfold usable; rewrite Hws, Hst, Hrs; reflexivity).
  assert (Heq : connect P w =
                mkWorld
    (mkManager (Some (mkWebSocket (sockets (win w)) (endpoint_of w) CONNECTING))
       (url (this w)) (sessionId (this w)) (isAssistantMode (this w)) connecting
       (callbacks (this w)) None None (reconnectAttempts (this w)) false [] false
       (awaitingAuthResolve (this w)) (Some (endpoint_of w)) (sessionId (this w)))
    (mkWindow
       (drop_timer (reconnectTimer (this w))
          (drop_timer (heartbeatTimer (this w)) (timers (win w))))
       (nextTimer (win w)) (waiters (win w)) (localStorage (win w))
       (S (sockets (win w))) (S (S (calls (win w))))
       (log (win w)
          ++ [StateIs closing;
              CloseCalled (sock_id s) (close_throws P (calls (win w)));
              StateIs closed; StateIs connecting;
              Constructed (sockets (win w)) (endpoint_of w)]))).
  { rewrite (connect_retarget_eq P w Hc Hus Hsame), connect_eq.
    - assert (Hcalls : calls (win (close P w)) = S (calls (win w)))
        by (rewrite close_eq; record_cbn; rewrite Hws; reflexivity).
      assert (Hend : endpoint_of (close P w) = endpoint_of w)
        by (unfold endpoint_of; rewrite close_eq; reflexivity).
      rewrite Hcalls, Hend, Hok. rewrite close_eq. record_cbn. rewrite Hws.
      rewrite <- !app_assoc. reflexivity.
    - unfold context_set. rewrite close_eq. exact Hc.
    - unfold usable. rewrite close_eq. reflexivity.
    - rewrite close_eq. discriminate. }
  split; [exact Heq|]. rewrite Heq. split.
  - unfold sameTarget, endpoint_of. cbn [this connectedUrl url connectedSessionId sessionId].
    unfold context_set in Hc. apply andb_prop in Hc. destruct Hc as [Hu Hsid].
    destruct (url (this w)) as [u|]; [|discriminate].
    destruct (sessionId (this w)) as [sid|]; [|discriminate].
    cbn. rewrite !String.eqb_refl. reflexivity.
  - cbn [win log]. rewrite transports_created_app. reflexivity.
Qed.

Lemma connect_replaces_stale_transport_witness :
  ws (this stale_target) = Some (mkWebSocket 0 Sample.endpoint OPEN)
  /\ ws (this (connect (Sample.platform []) stale_target)) =
     Some (mkWebSocket 1 "wss://chat.example/api/chat/ws/chat/s2" CONNECTING)
  /\ transports_created (log (win (connect (Sample.platform []) stale_target))) = 2.
Proof.
  split; [reflexivity|].
  destruct (connect_replaces_stale_transport (Sample.platform []) stale_target
              (mkWebSocket 0 Sample.endpoint OPEN)
              eq_refl eq_refl eq_refl eq_refl eq_refl eq_refl)
    as (Heq & _ & Hn).
  split; [rewrite Heq; vm_compute; reflexivity|].
  rewrite Hn. vm_compute. reflexivity.
Defined.

(** X11. After [connect()] the manager is never left idle. Without an
    endpoint URL or a session identifier (unset or empty) the call changes
    nothing. Otherwise the transport is reused and nothing changed, or the
    state is Connecting, or the construction failed and the state is
    Closed with a reconnection timer recorded, which in a reachable world
    is pending. *)
Theorem connect_outcome (P : Platform) (w : World) :
  (context_set w = false -> connect P w = w)
  /\ (context_set w = true ->
      (usable w = true /\ sameTarget w = true /\ connect P w = w)
      \/ state (this (connect P w)) = connecting
      \/ (state (this (connect P w)) = closed
          /\ explicitlyClosed (this (connect P w)) = false
          /\ exists id, reconnectTimer (this (connect P w)) = Some id
                        /\ (reachable P w ->
                            pending id ReconnectFire (connect P w)))).
Proof.
  split.
  - intros Hc. unfold connect. rewrite context_set_guard, Hc. reflexivity.
  - intros Hc.
    assert (Hfresh : forall x, context_set x = true -> usable x = false ->
               state (this x) <> connecting -> connect P x = connect P w ->
               state (this (connect P w)) = connecting
               \/ (state (this (connect P w)) = closed
                   /\ explicitlyClosed (this (connect P w)) = false
                   /\ reconnectTimer (this (connect P w)) <> None)).
    { intros x Hcx Hux Hsx Hsame. rewrite <- Hsame.
      rewrite (connect_eq P x Hcx Hux Hsx).
      destruct (WebSocket_throws P _ _); [right|left; reflexivity].
      match goal with
      | |- context [scheduleReconnect P ?z] =>
          destruct (scheduleReconnect_frame P z) as [Hst _];
          destruct (scheduleReconnect_this P z) as (r & a & Hthis);
          pose proof (scheduleReconnect_armed P z eq_refl Hcx) as Harm
      end.
      rewrite Hst. split; [reflexivity|]. split; [rewrite Hthis; reflexivity|].
      exact Harm. }
    assert (Hcases :
              (usable w = true /\ sameTarget w = true /\ connect P w = w)
              \/ state (this (connect P w)) = connecting
              \/ (state (this (connect P w)) = closed
                  /\ explicitlyClosed (this (connect P w)) = false
                  /\ reconnectTimer (this (connect P w)) <> None)).
    { destruct (usable w) eqn:Hus.
      - destruct (sameTarget w) eqn:Hsame.
        + left. repeat split.
          unfold connect. rewrite context_set_guard, Hc, Hus, Hsame. reflexivity.
        + right. apply (Hfresh (close P w)).
          * unfold context_set. rewrite close_eq. exact Hc.
          * unfold usable. rewrite close_eq. reflexivity.
          * rewrite close_eq. discriminate.
          * symmetry. apply connect_retarget_eq; assumption.
      - right.
        destruct (ConnectionState_eqb (state (this w)) connecting) eqn:Hst.
        + left. rewrite connect_connecting;
            destruct (state (this w)); try discriminate; reflexivity.
        + apply (Hfresh w Hc Hus); [|reflexivity].
          intros E. rewrite E in Hst. discriminate. }
    destruct Hcases as [H|[H|(H1 & H2 & H3)]]; [left; exact H|right; left; exact H|].
    right. right. split; [exact H1|]. split; [exact H2|].
    destruct (reconnectTimer (this (connect P w))) as [id|] eqn:Et;
      [|contradiction].
    exists id. split; [reflexivity|]. intros Hreach.
    apply (td_reconnect (connect P w)); [|exact Et].
    apply (reachable_discipline P). apply (reachable_exec P Connect w Hreach).
Qed.

Lemma connect_outcome_witness :
  context_set (disconnected 0) = true
  /\ state (this (connect (Sample.platform []) (disconnected 0))) = connecting.
Proof.
  assert (Hc : context_set (disconnected 0) = true) by reflexivity.
  split; [exact Hc|].
  destruct (connect_outcome (Sample.platform []) (disconnected 0)) as [_ H].
  destruct (H Hc) as [(Hus & _)|[Hst|(Hst & _)]].
  - vm_compute in Hus. discriminate.
  - exact Hst.
  - vm_compute in Hst. discriminate.
Defined.

(** X12. When [new WebSocket] throws, [connect()] swallows the error: the
    state passes through Connecting to Closed, the transport the manager
    held is kept, Authorized and the explicitly-closed flag are reset, and
    a reconnection is requested. With no reconnection timer pending one is
    installed with the next backoff delay (the binary64 sum of the backoff
    and the jitter) and the attempt counter is incremented (up to ten);
    with one pending neither the timers nor the counter change. *)
Theorem failed_construction_backs_off (P : Platform) (w : World) :
  context_set w = true ->
  usable w = false ->
  state (this w) <> connecting ->
  WebSocket_throws P (calls (win w)) (endpoint_of w) = true ->
  (reconnectTimer (this w) = None ->
   connect P w =
   mkWorld
     (mkManager (ws (this w)) (url (this w)) (sessionId (this w))
        (isAssistantMode (this w)) closed (callbacks (this w))
        (heartbeatTimer (this w)) (Some (nextTimer (win w)))
        (Nat.min (reconnectAttempts (this w) + 1) 10) false
        (sendQueue (this w)) false (awaitingAuthResolve (this w))
        (connectedUrl (this w)) (connectedSessionId (this w)))
     (mkWindow
        (timers (win w)
           ++ [mkTimer (nextTimer (win w)) ReconnectFire
                 (Number.add
                    (inject_Z (backoff (Nat.min (reconnectAttempts (this w) + 1) 10)))
                    (Number.mul (Math_random P (S (calls (win w))))
                       (inject_Z 300)))])
        (Pos.succ (nextTimer (win w))) (waiters (win w)) (localStorage (win w))
        (sockets (win w)) (S (S (calls (win w))))
        (log (win w)
           ++ [StateIs connecting; ConstructThrew (endpoint_of w); StateIs closed])))
  /\ (forall id, reconnectTimer (this w) = Some id ->
      connect P w =
      mkWorld
        (mkManager (ws (this w)) (url (this w)) (sessionId (this w))
           (isAssistantMode (this w)) closed (callbacks (this w))
           (heartbeatTimer (this w)) (Some id) (reconnectAttempts (this w)) false
           (sendQueue (this w)) false (awaitingAuthResolve (this w))
           (connectedUrl (this w)) (connectedSessionId (this w)))
        (mkWindow (timers (win w)) (nextTimer (win w)) (waiters (win w))
           (localStorage (win w)) (sockets (win w)) (S (calls (win w)))
           (log (win w)
              ++ [StateIs connecting; ConstructThrew (endpoint_of w);
                  StateIs closed]))).
Proof.
  intros Hc Hus Hst Hthrow.
  rewrite (connect_eq P w Hc Hus Hst), Hthrow. split.
  - intros Ht. rewrite scheduleReconnect_eq; [|reflexivity|exact Hc|exact Ht].
    unfold next_delay. cbn [this win reconnectAttempts calls nextTimer timers
                              waiters localStorage sockets log].
    rewrite Ht. reflexivity.
  - intros id Ht. rewrite scheduleReconnect_pending.
    + rewrite Ht. reflexivity.
    + cbn [this reconnectTimer]. rewrite Ht. discriminate.
Qed.

Lemma failed_construction_backs_off_witness :
  state (this (connect (mkPlatform Sample.parse Sample.stringify (fun _ => "0")
                          (fun _ _ => true) (fun _ => false) (fun _ => false)
                          (fun _ => (1 # 2)%Q) (fun _ => 0%Z))
                 (disconnected 3))) = closed
  /\ timers (win (connect (mkPlatform Sample.parse Sample.stringify (fun _ => "0")
                             (fun _ _ => true) (fun _ => false) (fun _ => false)
                             (fun _ => (1 # 2)%Q) (fun _ => 0%Z))
                    (disconnected 3))) =
     [mkTimer 1%positive ReconnectFire (inject_Z 8150)].
Proof.
  destruct (failed_construction_backs_off
              (mkPlatform Sample.parse Sample.stringify (fun _ => "0")
                 (fun _ _ => true) (fun _ => false) (fun _ => false)
                 (fun _ => (1 # 2)%Q) (fun _ => 0%Z))
              (disconnected 3) eq_refl eq_refl) as [H _];
    [discriminate|reflexivity|].
  rewrite (H eq_refl). split; vm_compute; reflexivity.
Defined.

(** ** Automatic reconnection *)

(** X13. After an unexpected close (the manager was not closed explicitly
    and the session context is set) the state is Closed, the heartbeat is
    stopped and the outbound queue is kept. If no [onClose] is registered
    or the registered one returns, a reconnection timer is pending in every
    attainable world; when that timer fires and [new WebSocket] does not
    throw, a transport for the endpoint of the current session context is
    constructed, the state is Connecting, the timer handle is cleared and
    the queue is still the one from before the close. If the registered
    [onClose] throws, the handler ends there: no reconnection timer is
    installed and the attempt counter is unchanged. *)
Theorem unexpected_close_reconnects (P : Platform) (returns : bool) (w : World) :
  attainable P w ->
  explicitlyClosed (this w) = false ->
  context_set w = true ->
  state (this (ws_onclose_with P returns w)) = closed
  /\ heartbeatTimer (this (ws_onclose_with P returns w)) = None
  /\ sendQueue (this (ws_onclose_with P returns w)) = sendQueue (this w)
  /\ (onClose (callbacks (this w)) = None \/ returns = true ->
      exists id,
        reconnectTimer (this (ws_onclose_with P returns w)) = Some id
        /\ pending id ReconnectFire (ws_onclose_with P returns w)
        /\ (WebSocket_throws P (calls (win (ws_onclose_with P returns w)))
              (endpoint_of w) = false ->
            ws (this (fire_timer P id (ws_onclose_with P returns w))) =
            Some (mkWebSocket (sockets (win w)) (endpoint_of w) CONNECTING)
            /\ state (this (fire_timer P id (ws_onclose_with P returns w)))
               = connecting
            /\ reconnectTimer (this (fire_timer P id (ws_onclose_with P returns w)))
               = None
            /\ sendQueue (this (fire_timer P id (ws_onclose_with P returns w)))
               = sendQueue (this w)
            /\ sameTarget (fire_timer P id (ws_onclose_with P returns w)) = true
            /\ transports_created
                 (log (win (fire_timer P id (ws_onclose_with P returns w)))) =
               transports_created (log (win w)) + 1))
  /\ (forall h, onClose (callbacks (this w)) = Some h -> returns = false ->
      reconnectTimer (this (ws_onclose_with P returns w)) = reconnectTimer (this w)
      /\ reconnectAttempts (this (ws_onclose_with P returns w))
         = reconnectAttempts (this w)
      /\ timers (win (ws_onclose_with P returns w))
         = drop_timer (heartbeatTimer (this w)) (timers (win w))
      /\ log (win (ws_onclose_with P returns w))
         = log (win w) ++ [StateIs closed; CallOnClose h]).
Proof.
  intros Hreach He Hc.
  assert (Hpassive : onClose (callbacks (this w)) = None \/ returns = true ->
                     ws_onclose_with P returns w = ws_onclose P w).
  { intros [H|H]; [apply ws_onclose_with_unregistered, H|].
    rewrite H. apply ws_onclose_with_returning. }
  assert (Hthrow : forall h, onClose (callbacks (this w)) = Some h ->
                             returns = false ->
                             ws_onclose_with P returns w =
                             emit (CallOnClose h) (stopHeartbeat (set_state closed w))).
  { intros h Hcb ->. apply ws_onclose_with_throwing, Hcb. }
  destruct (attainable_invariants P w Hreach) as [_ Hdisc].
  destruct (ws_onclose_reconnects P w Hdisc He Hc) as (A1 & A2 & A3 & A4).
  assert (Hfirst : state (this (ws_onclose_with P returns w)) = closed
                   /\ heartbeatTimer (this (ws_onclose_with P returns w)) = None
                   /\ sendQueue (this (ws_onclose_with P returns w))
                      = sendQueue (this w)).
  { destruct (onClose (callbacks (this w))) as [h|] eqn:Hcb.
    - destruct returns.
      + rewrite (Hpassive (or_intror eq_refl)). auto.
      + rewrite (Hthrow h eq_refl eq_refl), stopHeartbeat_eq. auto.
    - rewrite (Hpassive (or_introl eq_refl)). auto. }
  destruct Hfirst as (F1 & F2 & F3).
  split; [exact F1|]. split; [exact F2|]. split; [exact F3|]. split.
  - intros Hp. rewrite (Hpassive Hp). exact A4.
  - intros h Hcb Hret. rewrite (Hthrow h Hcb Hret), stopHeartbeat_eq.
    unfold set_state, emit, updw, upd. cbn. rewrite <- app_assoc.
    repeat split; reflexivity.
Qed.

Lemma unexpected_close_reconnects_witness :
  attainable (Sample.platform []) open_session
  /\ sendQueue (this open_session) = ["queued"]
  /\ exists id,
       reconnectTimer (this (ws_onclose_with (Sample.platform []) true open_session))
       = Some id
       /\ state (this (fire_timer (Sample.platform []) id
                         (ws_onclose_with (Sample.platform []) true open_session)))
          = connecting
       /\ sendQueue (this (fire_timer (Sample.platform []) id
                             (ws_onclose_with (Sample.platform []) true
                                open_session))) =
          ["queued"].
Proof.
  assert (Hr : attainable (Sample.platform []) open_session)
    by (apply reachable_attainable; eexists; eexists; reflexivity).
  split; [exact Hr|]. split; [reflexivity|].
  destruct (unexpected_close_reconnects (Sample.platform []) true open_session
              Hr eq_refl eq_refl) as (_ & _ & _ & H & _).
  destruct (H (or_intror eq_refl)) as (id & Hid & _ & Hf).
  exists id. split; [exact Hid|].
  destruct (Hf eq_refl) as (_ & Hst & _ & Hq & _).
  split; [exact Hst|exact Hq].
Defined.

(** ** Heartbeat *)

(** X14. In every reachable world at most one heartbeat interval is
    pending: when [heartbeatTimer] holds a handle, the pending heartbeat
    intervals are exactly the one timer with that handle, with a period
    of 25000 ms; when it holds none, no heartbeat interval is pending.
    Restarting the heartbeat never leaves an earlier interval behind. *)
Theorem one_heartbeat (P : Platform) (w : World) :
  reachable P w ->
  length (heartbeats w) <= 1
  /\ (heartbeatTimer (this w) = None -> heartbeats w = [])
  /\ (forall id, heartbeatTimer (this w) = Some id ->
                 heartbeats w = [mkTimer id HeartbeatTick (inject_Z 25000)]).
Proof.
  intros Hreach.
  destruct (reachable_connection P w Hreach) as [Hh _].
  pose proof (reachable_discipline P w Hreach) as Htd.
  assert (Hone : forall id, heartbeatTimer (this w) = Some id ->
                            length (heartbeats w) <= 1).
  { intros id Hid. unfold heartbeats.
    apply (at_most_one_by_id t_id is_heartbeat id); [apply (td_unique w Htd)|].
    intros t Hin Hb. destruct (Hh t Hin Hb) as [E _]. congruence. }
  split; [|split].
  - destruct (heartbeatTimer (this w)) as [id|] eqn:Hid.
    + apply (Hone id eq_refl).
    + rewrite (heartbeats_off w Hh Hid). cbn. lia.
  - apply heartbeats_off, Hh.
  - intros id Hid. specialize (Hone id Hid).
    destruct (td_heartbeat w Htd id Hid) as [d Hd].
    assert (Hb : is_heartbeat (mkTimer id HeartbeatTick d) = true) by reflexivity.
    destruct (Hh _ Hd Hb) as [_ Hdelay]. cbn in Hdelay. subst d.
    assert (Hin : In (mkTimer id HeartbeatTick (inject_Z 25000)) (heartbeats w))
      by (unfold heartbeats; apply filter_In; split; [exact Hd|reflexivity]).
    destruct (heartbeats w) as [|t [|t' l]]; [destruct Hin| |cbn in Hone; lia].
    destruct Hin as [->|[]]. reflexivity.
Qed.

Lemma one_heartbeat_witness :
  heartbeats open_session = [mkTimer 1%positive HeartbeatTick (inject_Z 25000)].
Proof.
  assert (Hr : reachable (Sample.platform []) open_session)
    by (eexists; eexists; reflexivity).
  destruct (one_heartbeat (Sample.platform []) open_session Hr) as (_ & _ & H).
  apply H. reflexivity.
Defined.

(** X15. After [close()] and after a transport close event no heartbeat
    interval is pending, and none is started by anything but the next
    transport open event: whatever operations and events follow, as long
    as no open event is among them, the table of timers holds no
    heartbeat. *)
Theorem no_heartbeat_until_open (P : Platform) (ops : list Op) (w : World) :
  reachable P w ->
  Forall (fun o => o <> OpenEvent) ops ->
  heartbeats (run P ops (close P w)) = []
  /\ heartbeats (run P ops (ws_onclose P w)) = [].
Proof.
  intros Hreach Hops. split.
  - apply heartbeats_off.
    + apply (reachable_connection P).
      apply reachable_run. apply (reachable_exec P Close w Hreach).
    + apply hb_off_run; [exact Hops|apply hb_off_close].
  - apply heartbeats_off.
    + apply (reachable_connection P).
      apply reachable_run. apply (reachable_exec P CloseEvent w Hreach).
    + apply hb_off_run; [exact Hops|].
      rewrite ws_onclose_eq.
      destruct (explicitlyClosed (this w)); [reflexivity|].
      match goal with
      | |- heartbeatTimer (this (scheduleReconnect P ?z)) = _ =>
          apply (hb_off_same z); [apply sc_scheduleReconnect|reflexivity]
      end.
Qed.

Lemma no_heartbeat_until_open_witness :
  heartbeats open_session <> []
  /\ heartbeats (run (Sample.platform [])
                   [Send (Text "x"); TimerFires 2%positive; ErrorEvent]
                   (ws_onclose (Sample.platform []) open_session)) = [].
Proof.
  split; [discriminate|].
  assert (Hr : reachable (Sample.platform []) open_session)
    by (eexists; eexists; reflexivity).
  apply (no_heartbeat_until_open (Sample.platform [])
           [Send (Text "x"); TimerFires 2%positive; ErrorEvent] open_session Hr).
  repeat constructor; discriminate.
Defined.

(** X16. A tick of the heartbeat interval changes no field of the manager
    and leaves the interval registered. If the transport's ready state is
    OPEN it calls [ws.send] once, on the frame
    [{"type":"ping","ts":Date.now()}], whether or not the session is
    authorized, and swallows a failure of that call; otherwise it does
    nothing at all. *)
Theorem heartbeat_tick_pings (P : Platform) (w : World) (id : TimerId) :
  reachable P w ->
  heartbeatTimer (this w) = Some id ->
  this (fire_timer P id w) = this w
  /\ timers (win (fire_timer P id w)) = timers (win w)
  /\ (ws_is_open w = false -> fire_timer P id w = w)
  /\ (ws_is_open w = true ->
      attempts (log (win (fire_timer P id w))) =
      attempts (log (win w)) ++ [ping_frame P (Date_now P (calls (win w)))]
      /\ calls (win (fire_timer P id w)) = calls (win w) + 2
      /\ (send_throws P (S (calls (win w))) = false ->
          sent_payloads (log (win (fire_timer P id w))) =
          sent_payloads (log (win w)) ++ [ping_frame P (Date_now P (calls (win w)))])).
Proof.
  intros Hreach Hid.
  pose proof (reachable_discipline P w Hreach) as Htd.
  destruct (td_heartbeat w Htd id Hid) as [d Hd].
  assert (Hfire : fire_timer P id w = heartbeat_tick P w).
  { unfold fire_timer.
    rewrite (find_pending w id HeartbeatTick d (td_unique w Htd) Hd). reflexivity. }
  rewrite Hfire. unfold heartbeat_tick, ping_frame.
  destruct (ws_is_open w) eqn:Hopen.
  - unfold ws_is_open in Hopen. destruct (ws (this w)) as [s|] eqn:Hws; [|discriminate].
    unfold transport_send. cbn [tick updw this win calls set_calls]. rewrite Hws.
    destruct (send_throws P (S (calls (win w)))); cbn [fst].
    + split; [reflexivity|]. split; [reflexivity|].
      split; [intros; discriminate|]. intros _.
      split; [cbn; rewrite attempts_app; reflexivity|].
      split; [cbn; lia|intros; discriminate].
    + split; [reflexivity|]. split; [reflexivity|].
      split; [intros; discriminate|]. intros _.
      split; [cbn; rewrite attempts_app; reflexivity|].
      split; [cbn; lia|]. intros _. cbn. rewrite sent_payloads_app. reflexivity.
  - split; [reflexivity|]. split; [reflexivity|].
    split; [reflexivity|intros; discriminate].
Qed.

Lemma heartbeat_tick_pings_witness :
  attempts (log (win (fire_timer (Sample.platform []) 1%positive open_session))) =
  [ping_frame (Sample.platform []) 0].
Proof.
  assert (Hr : reachable (Sample.platform []) open_session)
    by (eexists; eexists; reflexivity).
  destruct (heartbeat_tick_pings (Sample.platform []) open_session 1%positive
              Hr eq_refl) as (_ & _ & _ & H).
  destruct (H eq_refl) as (Hat & _).
  rewrite Hat. reflexivity.
Defined.

(** ** The transport the manager holds *)

(** X17. In every reachable world the recorded connected target describes
    the transport the manager holds: the transport was constructed for the
    recorded URL. So whenever [connect()] reuses the transport instead of
    constructing one, that transport was constructed for the endpoint URL
    of the current session context. *)
Theorem reuse_is_sound (P : Platform) (w : World) (s : WebSocket) :
  reachable P w ->
  ws (this w) = Some s ->
  connectedUrl (this w) = Some (sock_url s)
  /\ (sameTarget w = true ->
      url (this w) = Some (sock_url s)
      /\ sessionId (this w) = connectedSessionId (this w)).
Proof.
  intros Hreach Hws.
  destruct (reachable_connection P w Hreach) as [_ (T1 & _)].
  destruct (T1 s Hws) as [Hurl _].
  split; [exact Hurl|].
  intros Hsame. unfold sameTarget in Hsame. apply andb_prop in Hsame.
  destruct Hsame as [Hu Hs]. rewrite Hurl in Hu. split.
  - destruct (url (this w)) as [u|]; cbn in Hu; [|discriminate].
    apply String.eqb_eq in Hu. congruence.
  - destruct (connectedSessionId (this w)) as [x|], (sessionId (this w)) as [y|];
      cbn in Hs; try discriminate; [|reflexivity].
    apply String.eqb_eq in Hs. congruence.
Qed.

Lemma reuse_is_sound_witness :
  usable open_session = true
  /\ sameTarget open_session = true
  /\ url (this open_session) = Some Sample.endpoint.
Proof.
  assert (Hr : reachable (Sample.platform []) open_session)
    by (eexists; eexists; reflexivity).
  destruct (reuse_is_sound (Sample.platform []) open_session
              (mkWebSocket 0 Sample.endpoint OPEN) Hr eq_refl) as (_ & H).
  split; [reflexivity|]. split; [reflexivity|]. apply H. reflexivity.
Defined.

(** X18. What [getState()] and [getSocket()] can return together. In
    every reachable world the state is never Closing (that state is
    entered and left inside [close()]); a manager that is Connecting holds
    a transport; a manager that is still Idle holds none; and the number
    of the transport held is below the number of transports constructed
    so far. *)
Theorem state_and_transport (P : Platform) (w : World) :
  reachable P w ->
  state (this w) <> closing
  /\ (state (this w) = connecting -> exists s, ws (this w) = Some s)
  /\ (state (this w) = idle -> ws (this w) = None)
  /\ (forall s, ws (this w) = Some s -> sock_id s < sockets (win w)).
Proof.
  intros Hreach.
  destruct (reachable_connection P w Hreach) as [_ (T1 & T2 & T3 & T4)].
  split; [exact T4|]. split; [|split; [exact T3|]].
  - intros Hst. destruct (ws (this w)) as [s|] eqn:Hws; [exists s; reflexivity|].
    exfalso. apply (T2 Hst). reflexivity.
  - intros s Hws. apply (T1 s Hws).
Qed.

Lemma state_and_transport_witness :
  state (this connecting_session) = connecting
  /\ exists s, ws (this connecting_session) = Some s.
Proof.
  assert (Hr : reachable (Sample.platform []) connecting_session)
    by (eexists; eexists; reflexivity).
  destruct (state_and_transport (Sample.platform []) connecting_session Hr)
    as (_ & H & _).
  split; [reflexivity|]. apply H. reflexivity.
Defined.

(** ** [close] *)

(** X19. [close()] is idempotent: a second call right after the first
    finds no transport to close, makes no platform call, and only assigns
    Closed to the state once more; every field of the manager, the timers
    and the pending waiters are as the first call left them. *)
Theorem close_idempotent (P : Platform) (w : World) :
  close P (close P w) = emit (StateIs closed) (close P w).
Proof.
  rewrite (close_eq P (close P w)). rewrite !close_eq.
  record_cbn. cbn [drop_timer]. reflexivity.
Qed.

(** X20. [close()] does not settle a pending [ensureAuthorized] promise:
    in every reachable world a waiter that is not settled before the call
    is not settled after it, its resolver stays in the slot if it was
    there, its timeout stays pending, and when that timeout fires the
    promise is resolved with false. *)
Theorem close_leaves_waiter_to_deadline
        (P : Platform) (w : World) (wid : nat) (wt : Waiter) :
  reachable P w ->
  nth_error (waiters (win w)) wid = Some wt ->
  settled wt = false ->
  nth_error (waiters (win (close P w))) wid = Some wt
  /\ awaitingAuthResolve (this (close P w)) = awaitingAuthResolve (this w)
  /\ pending (w_timer wt) (AuthTimeout wid) (close P w)
  /\ fire_timer P (w_timer wt) (close P w) =
     settled_world wid (w_timer wt) false (close P w).
Proof.
  intros Hreach Hnth Hset.
  assert (Hn : nth_error (waiters (win (close P w))) wid = Some wt)
    by (rewrite close_eq; exact Hnth).
  split; [exact Hn|]. split; [rewrite close_eq; reflexivity|].
  destruct (deadline_resolves_false P (close P w) wid wt
              (reachable_exec P Close w Hreach) Hn Hset) as (_ & Hp & Hf).
  split; assumption.
Qed.

Lemma close_leaves_waiter_to_deadline_witness :
  nth_error (waiters (win (close (Sample.platform []) awaiting_auth))) 0 =
  Some (mkWaiter false 2%positive None)
  /\ In (Resolved 0 false)
        (log (win (fire_timer (Sample.platform []) 2%positive
                     (close (Sample.platform []) awaiting_auth)))).
Proof.
  assert (Hr : reachable (Sample.platform []) awaiting_auth)
    by (eexists; eexists; reflexivity).
  destruct (close_leaves_waiter_to_deadline (Sample.platform []) awaiting_auth 0
              (mkWaiter false 2%positive None) Hr eq_refl eq_refl)
    as (Hn & _ & _ & Hf).
  split; [exact Hn|].
  change (w_timer (mkWaiter false 2%positive None)) with 2%positive in Hf.
  rewrite Hf. cbn [settled_world win log set_log].
  apply in_or_app. right. left. reflexivity.
Defined.

(** ** [ensureAuthorized] called twice *)

(** X21. The waiter slot holds one resolver. A second [ensureAuthorized]
    issued on an open transport while the first is still waiting
    overwrites the slot, so the frame that opens the gate never resolves
    the first promise: it stays pending although the session is now
    authorized, and is resolved with false when its timeout fires. The
    second promise is resolved with true by that frame, unless the
    [onAuthSuccess] callback throws: then it stays pending as well. *)
Theorem second_waiter_displaces_first
        (P : Platform) (a b : Q) (returns : bool) (data : string) (w : World) :
  attainable P w ->
  ws_is_open w = true ->
  authorized (this w) = false ->
  opens_gate P data = true ->
  let n := length (waiters (win w)) in
  let t1 := nextTimer (win w) in
  let w1 := fst (ensureAuthorized_begin P a w) in
  let w2 := fst (ensureAuthorized_begin P b w1) in
  let w3 := ws_onmessage_with P returns data w2 in
  snd (ensureAuthorized_begin P a w) = Finished (Suspended n)
  /\ snd (ensureAuthorized_begin P b w1) = Finished (Suspended (S n))
  /\ nth_error (waiters (win w3)) n = Some (mkWaiter false t1 None)
  /\ authorized (this w3) = true
  /\ nth_error (waiters (win (fire_timer P t1 w3))) n =
     Some (mkWaiter true t1 (Some false))
  /\ (onAuthSuccess_throws returns w = false ->
      nth_error (waiters (win w3)) (S n) =
      Some (mkWaiter true (Pos.succ t1) (Some true)))
  /\ (onAuthSuccess_throws returns w = true ->
      nth_error (waiters (win w3)) (S n) =
      Some (mkWaiter false (Pos.succ t1) None)).
Proof.
  intros Hatt Hopen Ha Hg n t1. cbv zeta.
  assert (E1 : ensureAuthorized_begin P a w =
               (registered a w, Finished (Suspended n)))
    by (rewrite ensureAuthorized_begin_eq, Hopen, Ha; reflexivity).
  rewrite E1. cbn [fst snd].
  set (w1 := registered a w).
  assert (Ho1 : ws_is_open w1 = true) by exact Hopen.
  assert (Ha1 : authorized (this w1) = false) by exact Ha.
  assert (Hlen1 : length (waiters (win w1)) = S n)
    by (unfold w1; cbn; rewrite length_app; cbn; unfold n; lia).
  assert (E2 : ensureAuthorized_begin P b w1 =
               (registered b w1, Finished (Suspended (S n))))
    by (rewrite ensureAuthorized_begin_eq, Ho1, Ha1, Hlen1; reflexivity).
  rewrite E2. cbn [fst snd].
  set (w2 := registered b w1).
  assert (Hatt2 : attainable P w2).
  { pose proof (attainable_begin P b _ (attainable_begin P a w Hatt)) as H.
    rewrite E1 in H. cbn [fst] in H. fold w1 in H. rewrite E2 in H. exact H. }
  assert (Hslot2 : awaitingAuthResolve (this w2) = Some (S n))
    by (unfold w2; cbn [registered this awaitingAuthResolve set_awaitingAuthResolve];
        rewrite Hlen1; reflexivity).
  assert (Hw1n : nth_error (waiters (win w1)) n = Some (mkWaiter false t1 None)).
  { unfold w1. cbn. rewrite nth_error_app2 by (unfold n; lia).
    unfold n. rewrite Nat.sub_diag. reflexivity. }
  assert (Hw2n : nth_error (waiters (win w2)) n = Some (mkWaiter false t1 None)).
  { unfold w2. cbn [registered win waiters set_waiters].
    rewrite nth_error_app1 by (rewrite Hlen1; lia). exact Hw1n. }
  assert (Hw2s : nth_error (waiters (win w2)) (S n) =
                 Some (mkWaiter false (Pos.succ t1) None)).
  { unfold w2. cbn [registered win waiters set_waiters].
    rewrite nth_error_app2 by (rewrite Hlen1; lia).
    rewrite Hlen1, Nat.sub_diag. reflexivity. }
  assert (Ha2 : authorized (this w2) = false) by exact Ha.
  assert (Hthrows : onAuthSuccess_throws returns w2 = onAuthSuccess_throws returns w)
    by reflexivity.
  set (w3 := ws_onmessage_with P returns data w2).
  assert (Hatt3 : attainable P w3) by (apply attainable_message, Hatt2).
  destruct (gate_frame_effect P returns data w2 Hg Ha2)
    as (x & Xs & Xa & Xc & Xw & Xt & Hcases).
  fold w3 in Hcases. rewrite Hthrows in Hcases.
  set (y := if onAuthSuccess_throws returns w then x else resolve_waiter x) in *.
  assert (Hy : this w3 = this y /\ waiters (win w3) = waiters (win y)).
  { destruct Hcases as [->| ->]; [auto|].
    destruct (forward_frame data y) as (F1 & F2 & _). auto. }
  destruct Hy as [Hthis Hwaiters].
  assert (H3n : nth_error (waiters (win w3)) n = Some (mkWaiter false t1 None)).
  { rewrite Hwaiters. unfold y. destruct (onAuthSuccess_throws returns w).
    - rewrite Xw. exact Hw2n.
    - rewrite resolve_waiter_other; [rewrite Xw; exact Hw2n|].
      rewrite Xs, Hslot2. intros E. inversion E. lia. }
  split; [reflexivity|]. split; [reflexivity|]. split; [exact H3n|].
  split.
  { rewrite Hthis. unfold y. destruct (onAuthSuccess_throws returns w); [exact Xa|].
    destruct (resolve_waiter_queue x) as (_ & Hq & _). rewrite Hq. exact Xa. }
  split.
  { destruct (attainable_invariants P w3 Hatt3) as [_ Htd].
    destruct (deadline_settles P w3 n (mkWaiter false t1 None) Htd H3n eq_refl)
      as (_ & _ & Hfire).
    cbn [w_timer] in Hfire. rewrite Hfire.
    cbn [settled_world win waiters set_waiters set_log].
    exact (nth_error_update_nth
             (fun wt => mkWaiter true (w_timer wt) (Some false)) _ _ _ H3n). }
  split.
  - intros Hret. rewrite Hwaiters. unfold y. rewrite Hret.
    destruct (resolve_waiter_frame x) as (_ & _ & _ & _ & Hres).
    destruct (Hres (S n) (mkWaiter false (Pos.succ t1) None)) as (H & _);
      [rewrite Xs; exact Hslot2|rewrite Xw; exact Hw2s|reflexivity|exact H].
  - intros Hthr. rewrite Hwaiters. unfold y. rewrite Hthr, Xw. exact Hw2s.
Qed.

Lemma second_waiter_displaces_first_witness :
  nth_error
    (waiters
       (win (fire_timer (Sample.platform []) 2%positive
               (ws_onmessage_with (Sample.platform []) true
                  (Sample.frame_of_type "auth_success")
                  (fst (ensureAuthorized_begin (Sample.platform []) (inject_Z 50)
                          (fst (ensureAuthorized_begin (Sample.platform [])
                                  (inject_Z 50) open_session))))))))
    0 =
  Some (mkWaiter true 2%positive (Some false)).
Proof.
  assert (Hr : attainable (Sample.platform []) open_session)
    by (apply reachable_attainable; eexists; eexists; reflexivity).
  destruct (second_waiter_displaces_first (Sample.platform [])
              (inject_Z 50) (inject_Z 50) true
              (Sample.frame_of_type "auth_success") open_session
              Hr eq_refl eq_refl eq_refl) as (_ & _ & _ & _ & H & _).
  exact H.
Defined.

(** ** The outbound queue between reconnections *)

(** X22. The code of the manager touches the outbound queue only in
    [send], [close], a context update and a frame that opens the gate; an
    open event touches it only through the [onOpen] callback, which may
    call [send], as the one of the chat page does. While the recorded
    target is the session context, no other operation or event changes
    the queue, an unexpected close (whether [onClose] returns or throws),
    an error, a reconnection (successful or not), a heartbeat tick, a
    timeout, [connect] and [ensureAuthorized] included: queued messages
    survive until they are flushed or the caller closes. *)
Theorem queue_survives (P : Platform) (ops : list Op) (w : World) :
  sameTarget w = true ->
  forallb (fun o => negb (touches_queue P o)) ops = true ->
  sendQueue (this (run P ops w)) = sendQueue (this w)
  /\ sameTarget (run P ops w) = true
  /\ (forall handler,
         (forall y, sendQueue (this (fst (handler y))) = sendQueue (this y)) ->
         sendQueue (this (ws_onopen_with P handler w)) = sendQueue (this w))
  /\ (forall returns,
         sendQueue (this (ws_onclose_with P returns w)) = sendQueue (this w)).
Proof.
  intros Hsame Hops.
  destruct (kq_run P ops w Hops Hsame) as [Hq Hs].
  split; [exact Hq|]. split; [exact Hs|]. split.
  - intros handler Hh. apply ws_onopen_with_queue, Hh.
  - intros returns.
    assert (Hc : sendQueue (this (ws_onclose P w)) = sendQueue (this w))
      by (apply (kq_exec P CloseEvent w eq_refl Hsame)).
    destruct returns; [rewrite ws_onclose_with_returning; exact Hc|].
    destruct (onClose (callbacks (this w))) as [h|] eqn:Hcb.
    + rewrite (ws_onclose_with_throwing P w h Hcb), stopHeartbeat_eq. reflexivity.
    + rewrite (ws_onclose_with_unregistered P false w Hcb). exact Hc.
Qed.

Lemma queue_survives_witness :
  sendQueue (this (run (Sample.platform [])
                     [ReadyStateBecomes CLOSED; CloseEvent; TimerFires 2%positive;
                      ReadyStateBecomes OPEN;
                      MessageEvent (Sample.frame_of_type "pong")]
                     open_session)) = ["queued"]
  /\ ws (this (run (Sample.platform [])
                 [ReadyStateBecomes CLOSED; CloseEvent; TimerFires 2%positive;
                  ReadyStateBecomes OPEN;
                  MessageEvent (Sample.frame_of_type "pong")]
                 open_session)) =
     Some (mkWebSocket 1 Sample.endpoint OPEN).
Proof.
  destruct (queue_survives (Sample.platform [])
              [ReadyStateBecomes CLOSED; CloseEvent; TimerFires 2%positive;
               ReadyStateBecomes OPEN;
               MessageEvent (Sample.frame_of_type "pong")]
              open_session eq_refl eq_refl) as [Hq _].
  split; [rewrite Hq; reflexivity|vm_compute; reflexivity].
Defined.

(** ** Bounds that hold in every reachable world *)

(** X23. Whatever the history of operations and events, the outbound
    queue never holds more than 100 payloads, the reconnection attempt
    counter never exceeds 10, and timer handles are never reused while
    pending. *)
Theorem bounds_always_hold (P : Platform) (w : World) :
  reachable P w ->
  length (sendQueue (this w)) <= 100
  /\ reconnectAttempts (this w) <= 10
  /\ NoDup (map t_id (timers (win w))).
Proof.
  intros Hreach. destruct (reachable_Inv P w Hreach) as [(_ & H2 & _ & H4 & H5) _].
  split; [exact H4|]. split; [exact H5|exact H2].
Qed.

Lemma bounds_always_hold_witness :
  length (sendQueue (this (run (Sample.platform []) (Sample.queue_then_open 120)
                             (initial [])))) <= 100.
Proof.
  assert (Hr : reachable (Sample.platform [])
                 (run (Sample.platform []) (Sample.queue_then_open 120) (initial [])))
    by (eexists; eexists; reflexivity).
  destruct (bounds_always_hold (Sample.platform []) _ Hr) as (H & _).
  exact H.
Defined.

(** ** The two consumers of the stored credentials *)

(** X24. The request interceptor of [authAxios] and the authorization
    frame of the manager present the same credentials. Whatever the
    [auth-storage] entry holds, either both use the same token (the
    interceptor sets the [Authorization] header to ["Bearer " + token] and
    the manager, holding a transport whose [send] does not throw, sends
    the authorization frame carrying that very string), or the
    interceptor leaves the headers untouched and the manager sends
    nothing. *)
Theorem interceptor_agrees_with_authorization
        (P : Platform) (headers : list (string * string)) (w : World)
        (s : WebSocket) :
  ws (this w) = Some s ->
  send_throws P (calls (win w)) = false ->
  (exists token,
      fst (request_interceptor P (localStorage (win w)) headers) =
      set_property "Authorization" ("Bearer " ++ template_string P token) headers
      /\ sendAuthorization P w =
         emit (Sent (sock_id s)
                 (JSON_stringify P
                    (JObj [("type", JStr "authorization");
                           ("token", JStr ("Bearer " ++ template_string P token))])))
           (tick w))
  \/ (fst (request_interceptor P (localStorage (win w)) headers) = headers
      /\ sendAuthorization P w = w).
Proof.
  intros Hws Hok. unfold request_interceptor, sendAuthorization.
  destruct (getItem "auth-storage" (localStorage (win w))) as [raw|];
    [|right; split; reflexivity].
  destruct (raw =? "")%string; [right; split; reflexivity|].
  destruct (JSON_parse P raw) as [parsed|]; [|right; split; reflexivity].
  rewrite opt_get_Some.
  destruct parsed as [|bv|q|str|items|fields];
    try (right; split; reflexivity).
  cbn [Js.get].
  destruct (Js.lookup_field "state" fields) as [st|]; [|right; split; reflexivity].
  destruct st as [|bv|q|str|items|fields']; try (right; split; reflexivity).
  cbn [Js.opt_get Js.get].
  destruct (Js.lookup_field "token" fields') as [token|];
    [|right; split; reflexivity].
  destruct (Js.truthy token); cbn [negb]; [|right; split; reflexivity].
  rewrite Hws.
  destruct (template_throws token); [right; split; reflexivity|].
  left. exists token. split; [reflexivity|].
  rewrite (transport_send_returns P _ w s Hws Hok). reflexivity.
Qed.

Lemma interceptor_agrees_with_authorization_witness :
  fst (request_interceptor (Sample.platform [])
         [("auth-storage", Sample.stored_credentials "abc")]
         [("Accept", "application/json")]) =
  [("Accept", "application/json"); ("Authorization", "Bearer abc")].
Proof.
  destruct (interceptor_agrees_with_authorization (Sample.platform [])
              [("Accept", "application/json")]
              (about_to_open [("auth-storage", Sample.stored_credentials "abc")])
              (mkWebSocket 0 Sample.endpoint OPEN) eq_refl eq_refl)
    as [(token & H & _)|[H _]].
  - vm_compute. reflexivity.
  - exfalso. vm_compute in H. discriminate.
Defined.

(** X25. The request interceptor never fails and touches nothing but the
    [Authorization] header: every other header of the request keeps its
    value and the order of the headers is kept, a new header being added
    last. When it sets the header, reading it back gives the value set.
    When it reports an error ([JSON.parse] threw, or the parsed value has
    no [state] to read a token from), the headers are returned as they
    came; a missing or empty entry is not an error. *)
Theorem interceptor_touches_only_authorization
        (P : Platform) (storage headers : list (string * string)) :
  (forall k, k <> "Authorization" ->
             get_property k (fst (request_interceptor P storage headers)) =
             get_property k headers)
  /\ (fst (request_interceptor P storage headers) = headers
      \/ exists v,
          fst (request_interceptor P storage headers) =
          set_property "Authorization" v headers
          /\ get_property "Authorization"
               (fst (request_interceptor P storage headers)) = Some v
          /\ String.prefix "Bearer " v = true)
  /\ (snd (request_interceptor P storage headers) = true ->
      fst (request_interceptor P storage headers) = headers)
  /\ (getItem "auth-storage" storage = None
      \/ getItem "auth-storage" storage = Some "" ->
      request_interceptor P storage headers = (headers, false))
  /\ (map fst (fst (request_interceptor P storage headers)) = map fst headers
      \/ map fst (fst (request_interceptor P storage headers)) =
         map fst headers ++ ["Authorization"]).
Proof.
  assert (Hshape :
            request_interceptor P storage headers = (headers, false)
            \/ request_interceptor P storage headers = (headers, true)
            \/ exists v, request_interceptor P storage headers =
                         (set_property "Authorization" ("Bearer " ++ v) headers,
                          false)).
  { unfold request_interceptor.
    destruct (getItem "auth-storage" storage) as [raw|]; [|auto].
    destruct (raw =? "")%string; [auto|].
    destruct (JSON_parse P raw) as [parsed|]; [|auto].
    destruct parsed; auto;
      destruct (Js.get _ "state") as [st|]; auto;
      destruct st; auto;
      destruct (Js.get _ "token") as [token|]; auto;
      destruct (Js.truthy token); auto;
      destruct (template_throws token); auto;
      right; right; eexists; reflexivity. }
  split; [|split; [|split; [|split]]].
  - intros k Hk.
    destruct Hshape as [-> |[-> |(v & ->)]]; cbn [fst]; try reflexivity.
    apply get_set_property_other. exact Hk.
  - destruct Hshape as [-> |[-> |(v & ->)]]; cbn [fst]; auto.
    right. exists ("Bearer " ++ v)%string. split; [reflexivity|].
    split; [apply get_set_property|].
    apply (prefix_app "Bearer " "Bearer " v). reflexivity.
  - destruct Hshape as [-> |[-> |(v & ->)]]; cbn [fst snd]; auto.
    intros H; discriminate.
  - intros [H|H]; unfold request_interceptor; rewrite H; reflexivity.
  - destruct Hshape as [-> |[-> |(v & ->)]]; cbn [fst]; auto.
    rewrite map_fst_set_property. destruct (existsb _ headers); auto.
Qed.

(** ** [getFullUrl] *)

(** X26. [getFullUrl] returns the configured base URL for a missing or
    empty path, an argument that starts with [http] unchanged, and the
    base URL followed by the path otherwise. The base URL is never empty,
    so the [localhost] fallback inside the function is never used. When
    the base URL itself starts with [http], as the built-in default does,
    the function is idempotent. *)
Theorem getFullUrl_idempotent (env : option string) (path : option string) :
  API_BASE_URL env <> ""
  /\ (Js.truthy_str path = false -> getFullUrl env path = API_BASE_URL env)
  /\ (forall p, path = Some p -> String.prefix "http" p = true ->
                getFullUrl env path = p)
  /\ (forall p, path = Some p -> p <> "" -> String.prefix "http" p = false ->
                getFullUrl env path = (API_BASE_URL env ++ p)%string)
  /\ (String.prefix "http" (API_BASE_URL env) = true ->
      getFullUrl env (Some (getFullUrl env path)) = getFullUrl env path).
Proof.
  pose proof (API_BASE_URL_truthy env) as Hb.
  assert (Hne : API_BASE_URL env <> "")
    by (intros E; rewrite E in Hb; discriminate).
  assert (Hhttp : forall r, String.prefix "http" r = true ->
                            getFullUrl env (Some r) = r).
  { intros r Hr. unfold getFullUrl.
    destruct r as [|c r]; [discriminate|]. cbn [Js.truthy_str negb String.eqb].
    cbn [negb]. rewrite Hr. reflexivity. }
  split; [exact Hne|]. split; [|split; [|split]].
  - intros H. unfold getFullUrl. rewrite H. reflexivity.
  - intros p -> Hp. apply Hhttp, Hp.
  - intros p -> Hp Hpre. unfold getFullUrl. rewrite Hb, Hpre.
    destruct p as [|c p]; [contradiction|]. reflexivity.
  - intros Hbase. apply Hhttp. unfold getFullUrl.
    destruct (negb (Js.truthy_str path)); [exact Hbase|].
    cbv zeta. set (p := match path with Some s => s | None => "" end).
    destruct (String.prefix "http" p) eqn:Hp; [exact Hp|].
    rewrite Hb. apply prefix_app, Hbase.
Qed.

Lemma getFullUrl_idempotent_witness :
  getFullUrl None (Some "") = "http://192.168.161.103:8000"
  /\ getFullUrl None (Some (getFullUrl None (Some "/api/chat"))) =
     "http://192.168.161.103:8000/api/chat".
Proof.
  destruct (getFullUrl_idempotent None (Some "/api/chat")) as (_ & _ & _ & _ & H).
  split; [reflexivity|]. rewrite H; reflexivity.
Defined.

(** ** The open handler of the chat page *)

(** X27. The history request the chat page issues from its [onOpen]
    handler never overtakes the authorization frame. When the open event
    is dispatched on the transport of the current session context, with
    the session not yet authorized, the [send] inside the handler only
    appends the request to the outbound queue: it constructs no transport
    and calls [ws.send] on nothing. After the handler has returned the
    manager sends the authorization frame, so the request reaches the
    transport only when a later frame opens the gate. With a handler that
    does nothing to the manager the same function is the [ws.onopen] of
    the manager. *)
Theorem history_request_waits_for_authorization
        (P : Platform) (session_id : string) (w : World) (s : WebSocket) (h : nat) :
  ws (this w) = Some s -> readyState s = OPEN ->
  authorized (this w) = false ->
  context_set w = true -> sameTarget w = true ->
  onOpen (callbacks (this w)) = Some h ->
  ws_onopen_calling P (Chat_onOpen P false session_id) w =
  sendAuthorization P
    (enqueue (JSON_stringify P (fetch_history session_id))
       (emit (CallOnOpen h)
          (startHeartbeat (upd (set_reconnectAttempts 0) (set_state open w)))))
  /\ sendQueue (this (ws_onopen_calling P (Chat_onOpen P false session_id) w)) =
     (if MAX_QUEUE <=? length (sendQueue (this w))
      then tl (sendQueue (this w)) else sendQueue (this w))
       ++ [JSON_stringify P (fetch_history session_id)]
  /\ transports_created
       (log (win (ws_onopen_calling P (Chat_onOpen P false session_id) w))) =
     transports_created (log (win w))
  /\ (exists evs,
         log (win (ws_onopen_calling P (Chat_onOpen P false session_id) w)) =
         log (win w) ++ evs
         /\ forall p, In p (attempts evs) ->
                      exists token,
                        p = JSON_stringify P (authorization_frame P token))
  /\ authorized (this (ws_onopen_calling P (Chat_onOpen P false session_id) w)) =
     false
  /\ ws_onopen_calling P (fun x => x) w = ws_onopen P w
  /\ ws_onopen_calling P (Chat_onOpen P true session_id) w = ws_onopen P w.
Proof.
  intros Hws Hrs Ha Hc Hsame Hcb.
  set (w3 := startHeartbeat (upd (set_reconnectAttempts 0) (set_state open w))).
  assert (Hthis3 : this w3 =
                   set_heartbeatTimer (Some (nextTimer (win w)))
                     (set_reconnectAttempts 0 (set_state_field open (this w))))
    by (unfold w3; rewrite startHeartbeat_eq; reflexivity).
  assert (Hlog3 : log (win w3) = log (win w) ++ [StateIs open])
    by (unfold w3; rewrite startHeartbeat_eq; reflexivity).
  set (p := JSON_stringify P (fetch_history session_id)).
  set (x := emit (CallOnOpen h) w3).
  assert (Hthisx : this x = this w3) by reflexivity.
  assert (Hsend : send P (Value (fetch_history session_id)) x = enqueue p x).
  { unfold send. cbn [serialize]. fold p.
    assert (Hax : authorized (this x) = false)
      by (rewrite Hthisx, Hthis3; exact Ha).
    rewrite Hax, andb_false_r.
    assert (He : this (enqueue p x) =
                 set_sendQueue (sendQueue (this (enqueue p x))) (this x))
      by (rewrite (enqueue_frame p x) at 1; reflexivity).
    unfold connect. rewrite context_set_guard.
    assert (Hc' : context_set (enqueue p x) = true)
      by (unfold context_set; rewrite He, Hthisx, Hthis3; exact Hc).
    assert (Hu' : usable (enqueue p x) = true)
      by (unfold usable; rewrite He, Hthisx, Hthis3;
          cbn [ws state set_sendQueue set_heartbeatTimer set_reconnectAttempts
                 set_state_field];
          rewrite Hws, Hrs; reflexivity).
    assert (Hs' : sameTarget (enqueue p x) = true)
      by (unfold sameTarget; rewrite He, Hthisx, Hthis3; exact Hsame).
    rewrite Hc', Hu', Hs'. reflexivity. }
  assert (Heq : ws_onopen_calling P (Chat_onOpen P false session_id) w =
                sendAuthorization P (enqueue p x)).
  { unfold ws_onopen_calling. cbv zeta. fold w3.
    assert (Hcb3 : onOpen (callbacks (this w3)) = Some h)
      by (rewrite Hthis3; exact Hcb).
    rewrite Hcb3. fold x. unfold Chat_onOpen. cbn [negb]. rewrite Hsend.
    reflexivity. }
  split; [exact Heq|]. rewrite Heq.
  destruct (sendAuthorization_shape P (enqueue p x)) as (frames & Hshape & Hlen).
  assert (Hframes : emits (fun q => exists token,
                               q = JSON_stringify P (authorization_frame P token))
                      (enqueue p x) (sendAuthorization P (enqueue p x))).
  { unfold sendAuthorization.
    destruct (getItem _ _); [|apply emits_refl].
    destruct (_ =? _)%string; [apply emits_refl|].
    destruct (JSON_parse P _); [|apply emits_refl].
    destruct (Js.opt_get _ _) as [token|]; [|apply emits_refl].
    destruct (negb _); [apply emits_refl|].
    destruct (ws (this (enqueue p x))); [|apply emits_refl].
    destruct (template_throws _); [apply emits_refl|].
    apply em_transport_send. exists token. reflexivity. }
  assert (Hqx : sendQueue (this x) = sendQueue (this w))
    by (rewrite Hthisx, Hthis3; reflexivity).
  assert (Hlogx : log (win (enqueue p x)) = log (win w) ++ [StateIs open; CallOnOpen h]).
  { rewrite (enqueue_frame p x). cbn [upd win]. unfold x.
    cbn [emit updw win log set_log]. rewrite Hlog3, <- app_assoc. reflexivity. }
  split; [|split; [|split; [|split; [|split]]]].
  - rewrite Hshape. cbn [this]. rewrite sendQueue_enqueue, Hqx. reflexivity.
  - rewrite sendAuthorization_transports, Hlogx, transports_created_app.
    cbn. lia.
  - destruct Hframes as (evs & Hl & Hall). rewrite Hl, Hlogx.
    exists ([StateIs open; CallOnOpen h] ++ evs). split.
    + rewrite app_assoc. reflexivity.
    + rewrite attempts_app. cbn [attempts flat_map app].
      rewrite Forall_forall in Hall. exact Hall.
  - rewrite Hshape. cbn [this]. rewrite (enqueue_frame p x).
    cbn [upd this authorized set_sendQueue]. rewrite Hthisx, Hthis3. exact Ha.
  - unfold ws_onopen_calling, ws_onopen. cbv zeta.
    destruct (onOpen _); reflexivity.
  - unfold ws_onopen_calling, ws_onopen, Chat_onOpen. cbv zeta.
    destruct (onOpen _); reflexivity.
Qed.

Lemma history_request_waits_for_authorization_witness :
  attempts (log (win (ws_onopen_calling (Sample.platform [])
                        (Chat_onOpen (Sample.platform []) false "s1")
                        chat_about_to_open))) =
  [JSON_stringify (Sample.platform [])
     (authorization_frame (Sample.platform []) (JStr "abc"))]
  /\ sendQueue (this (ws_onopen_calling (Sample.platform [])
                        (Chat_onOpen (Sample.platform []) false "s1")
                        chat_about_to_open)) =
     [JSON_stringify (Sample.platform []) (fetch_history "s1")].
Proof.
  destruct (history_request_waits_for_authorization (Sample.platform []) "s1"
              chat_about_to_open (mkWebSocket 0 Sample.endpoint OPEN) 1
              eq_refl eq_refl eq_refl eq_refl eq_refl eq_refl)
    as (_ & Hq & _).
  split; [vm_compute; reflexivity|].
  rewrite Hq. vm_compute. reflexivity.
Defined.

(** ** The chat page establishing a connection *)

(** X28. What [establishConnection] of the chat page obtains. If the
    manager is Connecting, the call only records the new session context
    and the handlers: the transport in flight, constructed for the
    previous context, is kept and no transport is requested for the new
    one. In every other reachable state, with a non-empty URL and session
    identifier and [new WebSocket] not throwing, the manager afterwards
    holds a transport constructed for the requested URL, either the one it
    had (reused, state Open) or a new one (state Connecting), the recorded
    target equals the session context, and at most one transport was
    constructed. *)
Theorem establishConnection_binds_endpoint
        (P : Platform) (wsUrl sid : string) (mode : bool)
        (cbs : ChatWSCallbacks) (w : World) :
  reachable P w ->
  wsUrl <> "" -> sid <> "" ->
  (forall n, WebSocket_throws P n wsUrl = false) ->
  (state (this w) = connecting ->
   fst (establishConnection P wsUrl sid mode cbs w) =
   upd (set_callbacks cbs)
     (upd (set_isAssistantMode mode)
        (upd (set_sessionId (Some sid)) (upd (set_url (Some wsUrl)) w)))
   /\ snd (establishConnection P wsUrl sid mode cbs w) = ws (this w))
  /\ (state (this w) <> connecting ->
      exists s,
        snd (establishConnection P wsUrl sid mode cbs w) = Some s
        /\ sock_url s = wsUrl
        /\ sameTarget (fst (establishConnection P wsUrl sid mode cbs w)) = true
        /\ (state (this (fst (establishConnection P wsUrl sid mode cbs w))) =
            connecting
            \/ usable (fst (establishConnection P wsUrl sid mode cbs w)) = true)
        /\ transports_created
             (log (win (fst (establishConnection P wsUrl sid mode cbs w)))) <=
           transports_created (log (win w)) + 1).
Proof.
  intros Hreach Hu Hs Hok. unfold establishConnection. cbv zeta. cbn [fst snd].
  split.
  - intros Hst.
    assert (Hupd : updateSessionContext P wsUrl sid mode w =
                   upd (set_isAssistantMode mode)
                     (upd (set_sessionId (Some sid)) (upd (set_url (Some wsUrl)) w))).
    { unfold updateSessionContext. cbv zeta.
      cbn [upd this ws state set_isAssistantMode set_sessionId set_url].
      rewrite Hst. destruct (ws (this w)); reflexivity. }
    rewrite Hupd. rewrite connect_connecting by exact Hst.
    split; reflexivity.
  - intros Hst.
    destruct (updateSessionContext_fields P wsUrl sid mode w)
      as (F1 & F2 & F3 & F4).
    set (x := setCallbacks cbs (updateSessionContext P wsUrl sid mode w)).
    assert (Hx : this x = set_callbacks cbs
                            (this (updateSessionContext P wsUrl sid mode w)))
      by reflexivity.
    assert (Hurl : url (this x) = Some wsUrl) by (rewrite Hx; exact F1).
    assert (Hsid : sessionId (this x) = Some sid) by (rewrite Hx; exact F2).
    assert (Hcx : context_set x = true).
    { unfold context_set. rewrite Hurl, Hsid. cbn.
      destruct (wsUrl =? "")%string eqn:E1; [apply String.eqb_eq in E1; contradiction|].
      destruct (sid =? "")%string eqn:E2; [apply String.eqb_eq in E2; contradiction|].
      reflexivity. }
    assert (Hend : endpoint_of x = wsUrl) by (unfold endpoint_of; rewrite Hurl; reflexivity).
    assert (Hstx : state (this x) <> connecting).
    { rewrite Hx. cbn [state set_callbacks].
      destruct F3 as [-> | ->]; [exact Hst|discriminate]. }
    assert (Hlogx : transports_created (log (win x)) = transports_created (log (win w)))
      by exact F4.
    assert (Hrx : reachable P x).
    { apply (reachable_exec P (SetCallbacks cbs)).
      apply (reachable_exec P (UpdateSessionContext wsUrl sid mode) w Hreach). }
    assert (Hfresh : forall y, context_set y = true -> usable y = false ->
               state (this y) <> connecting -> endpoint_of y = wsUrl ->
               connect P y = connect P x ->
               transports_created (log (win y)) = transports_created (log (win w)) ->
               exists s,
                 ws (this (connect P x)) = Some s /\ sock_url s = wsUrl
                 /\ sameTarget (connect P x) = true
                 /\ (state (this (connect P x)) = connecting
                     \/ usable (connect P x) = true)
                 /\ transports_created (log (win (connect P x))) <=
                    transports_created (log (win w)) + 1).
    { intros y Hcy Huy Hsy Hey Heq Hly. rewrite <- Heq.
      destruct (connect_constructs P y Hcy Huy Hsy)
        as (C1 & C2 & C3 & _ & _ & _ & _ & _ & _ & _ & C11);
        [rewrite Hey; apply Hok|].
      eexists. split; [exact C1|]. split; [exact Hey|]. split; [exact C3|].
      split; [left; exact C2|].
      rewrite C11, transports_created_app, Hly. cbn. lia. }
    destruct (usable x) eqn:Hus.
    + destruct (sameTarget x) eqn:Hsame.
      * assert (Hcon : connect P x = x)
          by (unfold connect; rewrite context_set_guard, Hcx, Hus, Hsame; reflexivity).
        rewrite Hcon.
        destruct (ws (this x)) as [s|] eqn:Hws; [|unfold usable in Hus; rewrite Hws in Hus; discriminate].
        exists s. split; [reflexivity|].
        destruct (reachable_connection P x Hrx) as [_ (T1 & _)].
        destruct (T1 s Hws) as [Hcu _].
        split.
        -- unfold sameTarget in Hsame. apply andb_prop in Hsame.
           destruct Hsame as [Hsu _]. rewrite Hcu, Hurl in Hsu. cbn in Hsu.
           apply String.eqb_eq in Hsu. exact Hsu.
        -- split; [exact Hsame|]. split; [right; exact Hus|]. rewrite Hlogx. lia.
      * apply (Hfresh (close P x)).
        -- unfold context_set. rewrite close_eq. exact Hcx.
        -- unfold usable. rewrite close_eq. reflexivity.
        -- rewrite close_eq. discriminate.
        -- unfold endpoint_of. rewrite close_eq. exact Hend.
        -- symmetry. apply connect_retarget_eq; assumption.
        -- rewrite transports_created_close. exact Hlogx.
    + apply (Hfresh x); auto.
Qed.

Lemma establishConnection_binds_endpoint_witness :
  snd (establishConnection (Sample.platform [])
         "wss://chat.example/api/chat/ws/chat/s2" "s2" false no_callbacks
         open_session) =
  Some (mkWebSocket 1 "wss://chat.example/api/chat/ws/chat/s2" CONNECTING)
  /\ snd (establishConnection (Sample.platform [])
            "wss://chat.example/api/chat/ws/chat/s2" "s2" false no_callbacks
            connecting_session) =
     Some (mkWebSocket 0 Sample.endpoint CONNECTING).
Proof.
  assert (Hr : reachable (Sample.platform []) connecting_session)
    by (eexists; eexists; reflexivity).
  destruct (establishConnection_binds_endpoint (Sample.platform [])
              "wss://chat.example/api/chat/ws/chat/s2" "s2" false no_callbacks
              connecting_session Hr) as [H _];
    [discriminate|discriminate|reflexivity|].
  destruct (H eq_refl) as [_ Hs].
  split; [vm_compute; reflexivity|rewrite Hs; reflexivity].
Defined.

(** ** From a disconnected manager to a resolved promise *)

(** X29. [ensureAuthorized] on a manager with a session context but no
    open transport (and not Connecting) constructs a transport through
    [connect()] and suspends; its continuation, run next, registers a
    waiter and the caller holds a pending promise. Once that transport has
    opened (whether the [onOpen] callback returns or throws), the first
    frame that opens the gate sets Authorized and, unless the
    [onAuthSuccess] callback throws, resolves the promise with true,
    clears the waiter slot and cancels the timeout. If [onAuthSuccess]
    throws, the promise stays pending and the slot keeps the resolver. *)
Theorem ensureAuthorized_connects_and_resolves
        (P : Platform) (t : Q) (opened returns : bool) (data : string) (w : World) :
  context_set w = true ->
  ws_is_open w = false ->
  state (this w) <> connecting ->
  WebSocket_throws P (calls (win w)) (endpoint_of w) = false ->
  opens_gate P data = true ->
  let n := length (waiters (win w)) in
  let tid := nextTimer (win w) in
  let c := fst (ensureAuthorized_begin P t w) in
  let w0 := fst (ensureAuthorized_resume t c) in
  let w2 := ws_onopen_with P (fun y => (y, opened)) (set_readyState OPEN w0) in
  let w3 := ws_onmessage_with P returns data w2 in
  snd (ensureAuthorized_begin P t w) = Awaiting
  /\ ws (this c) = Some (mkWebSocket (sockets (win w)) (endpoint_of w) CONNECTING)
  /\ snd (ensureAuthorized_resume t c) = Suspended n
  /\ awaitingAuthResolve (this w0) = Some n
  /\ nth_error (waiters (win w0)) n = Some (mkWaiter false tid None)
  /\ authorized (this w3) = true
  /\ (onAuthSuccess_throws returns w = false ->
      nth_error (waiters (win w3)) n = Some (mkWaiter true tid (Some true))
      /\ In (Resolved n true) (log (win w3))
      /\ ~ In tid (map t_id (timers (win w3)))
      /\ awaitingAuthResolve (this w3) = None)
  /\ (onAuthSuccess_throws returns w = true ->
      nth_error (waiters (win w3)) n = Some (mkWaiter false tid None)
      /\ awaitingAuthResolve (this w3) = Some n).
Proof.
  intros Hc Hopen Hst Hok Hg n tid. cbv zeta.
  assert (Hus : usable w = false).
  { unfold usable. unfold ws_is_open in Hopen.
    destruct (ws (this w)); [|reflexivity]. rewrite Hopen. apply andb_false_r. }
  destruct (connect_constructs P w Hc Hus Hst Hok)
    as (C1 & C2 & C3 & C4 & C5 & C6 & C7 & C8 & C9 & C10 & C11).
  assert (Eb : ensureAuthorized_begin P t w = (connect P w, Awaiting))
    by (rewrite ensureAuthorized_begin_eq, Hopen; reflexivity).
  rewrite Eb. cbn [fst snd].
  assert (Er : ensureAuthorized_resume t (connect P w) =
               (registered t (connect P w), Suspended n))
    by (rewrite ensureAuthorized_resume_eq, C4, C8; reflexivity).
  rewrite Er. cbn [fst snd].
  set (w0 := registered t (connect P w)).
  assert (Hslot0 : awaitingAuthResolve (this w0) = Some n)
    by (unfold w0; cbn [registered this awaitingAuthResolve set_awaitingAuthResolve];
        rewrite C8; reflexivity).
  assert (Hw0 : nth_error (waiters (win w0)) n = Some (mkWaiter false tid None)).
  { unfold w0. cbn [registered win waiters set_waiters]. rewrite C8, C10.
    rewrite nth_error_app2 by (unfold n; lia).
    unfold n. rewrite Nat.sub_diag. reflexivity. }
  assert (Hws0 : ws (this w0) =
                 Some (mkWebSocket (sockets (win w)) (endpoint_of w) CONNECTING))
    by (unfold w0; cbn [registered this ws set_awaitingAuthResolve]; exact C1).
  assert (Ha0 : authorized (this w0) = false)
    by (unfold w0; cbn [registered this authorized set_awaitingAuthResolve]; exact C4).
  assert (Hcb0 : callbacks (this w0) = callbacks (this w)).
  { unfold w0. cbn [registered this callbacks set_awaitingAuthResolve].
    rewrite (connect_eq P w Hc Hus Hst), Hok. reflexivity. }
  split; [reflexivity|]. split; [exact C1|]. split; [reflexivity|].
  split; [exact Hslot0|]. split; [exact Hw0|].
  set (w1 := set_readyState OPEN w0).
  assert (Hw1 : w1 = upd (set_ws (Some (mkWebSocket (sockets (win w)) (endpoint_of w) OPEN))) w0)
    by (unfold w1, set_readyState; rewrite Hws0; reflexivity).
  set (w2 := ws_onopen_with P (fun y => (y, opened)) w1).
  destruct (ws_onopen_with_frame P opened w1) as [Hthis2 Hwt2].
  fold w2 in Hthis2, Hwt2.
  assert (Hslot2 : awaitingAuthResolve (this w2) = Some n)
    by (rewrite Hthis2, Hw1; exact Hslot0).
  assert (Ha2 : authorized (this w2) = false)
    by (rewrite Hthis2, Hw1; exact Ha0).
  assert (Hcb2 : onAuthSuccess_throws returns w2 = onAuthSuccess_throws returns w).
  { unfold onAuthSuccess_throws. rewrite Hthis2, Hw1.
    cbn [callbacks set_heartbeatTimer set_reconnectAttempts set_state_field
           upd this set_ws].
    rewrite Hcb0. reflexivity. }
  assert (Hw2 : nth_error (waiters (win w2)) n = Some (mkWaiter false tid None))
    by (rewrite Hwt2, Hw1; exact Hw0).
  destruct (gate_frame_effect P returns data w2 Hg Ha2)
    as (x & Xs & Xa & Xc & Xw & Xt & Hcases).
  rewrite Hcb2 in Hcases.
  set (w3 := ws_onmessage_with P returns data w2) in *.
  set (y := if onAuthSuccess_throws returns w then x else resolve_waiter x) in *.
  assert (Hy : this w3 = this y /\ waiters (win w3) = waiters (win y)
               /\ timers (win w3) = timers (win y)
               /\ (forall e, In e (log (win y)) -> In e (log (win w3)))).
  { destruct Hcases as [->| ->]; [auto|].
    destruct (forward_frame data y) as (F1 & F2 & F3 & _).
    split; [exact F1|]. split; [exact F2|]. split; [exact F3|].
    intros e He. unfold forward. rewrite invoke_eq. cbn [win log set_log].
    apply in_or_app. left. exact He. }
  destruct Hy as (Hthis & Hwaiters & Htimers & Hlog).
  split.
  { rewrite Hthis. unfold y. destruct (onAuthSuccess_throws returns w); [exact Xa|].
    destruct (resolve_waiter_queue x) as (_ & Hq & _). rewrite Hq. exact Xa. }
  split.
  - intros Hret. unfold y in *. rewrite Hret in *.
    destruct (resolve_waiter_frame x) as (S1 & _ & _ & _ & Hres).
    destruct (Hres n (mkWaiter false tid None)) as (R1 & R2 & R3);
      [rewrite Xs; exact Hslot2|rewrite Xw; exact Hw2|reflexivity|].
    cbn [w_timer] in R1, R3.
    split; [rewrite Hwaiters; exact R1|]. split; [apply Hlog, R2|].
    split; [rewrite Htimers; exact R3|]. rewrite Hthis, S1. reflexivity.
  - intros Hthr. unfold y in *. rewrite Hthr in *.
    split; [rewrite Hwaiters, Xw; exact Hw2|]. rewrite Hthis, Xs. exact Hslot2.
Qed.

Lemma ensureAuthorized_connects_and_resolves_witness :
  snd (ensureAuthorized_resume (inject_Z 8000)
         (fst (ensureAuthorized_begin (Sample.platform []) (inject_Z 8000)
                 (disconnected 0)))) =
  Suspended 0
  /\ In (Resolved 0 true)
        (log (win (ws_onmessage_with (Sample.platform []) true
                     (Sample.frame_of_type "history")
                     (ws_onopen_with (Sample.platform []) (fun y => (y, true))
                        (set_readyState OPEN
                           (fst (ensureAuthorized_resume (inject_Z 8000)
                                   (fst (ensureAuthorized_begin (Sample.platform [])
                                           (inject_Z 8000) (disconnected 0)))))))))).
Proof.
  destruct (ensureAuthorized_connects_and_resolves (Sample.platform [])
              (inject_Z 8000) true true (Sample.frame_of_type "history")
              (disconnected 0) eq_refl eq_refl)
    as (_ & _ & H3 & _ & _ & _ & H7 & _);
    [discriminate|reflexivity|reflexivity|].
  split; [exact H3|]. destruct (H7 eq_refl) as (_ & H & _). exact H.
Defined.

(** ** After [close()] *)

(** X30. An explicit [close()] is not final for the caller: with the
    session context still set, the next [send] queues its payload as the
    only entry of the queue and, through [connect()], clears the
    explicitly-closed flag and constructs a new transport for the
    endpoint of the session context; nothing is handed to a transport
    yet. *)
Theorem send_after_close_reconnects (P : Platform) (d : SendArg) (w : World) :
  context_set w = true ->
  WebSocket_throws P (calls (win (close P w))) (endpoint_of w) = false ->
  sendQueue (this (send P d (close P w))) = [serialize P d]
  /\ ws (this (send P d (close P w))) =
     Some (mkWebSocket (sockets (win w)) (endpoint_of w) CONNECTING)
  /\ state (this (send P d (close P w))) = connecting
  /\ explicitlyClosed (this (send P d (close P w))) = false
  /\ attempts (log (win (send P d (close P w)))) = attempts (log (win w))
  /\ transports_created (log (win (send P d (close P w)))) =
     transports_created (log (win w)) + 1.
Proof.
  intros Hc Hok.
  set (y := close P w).
  assert (Hy : y = close P w) by reflexivity.
  rewrite close_eq in Hy.
  set (x := enqueue (serialize P d) y).
  assert (Hx : x = upd (set_sendQueue (sendQueue (this x))) y) by (apply enqueue_frame).
  assert (Hq : sendQueue (this x) = [serialize P d])
    by (unfold x; rewrite sendQueue_enqueue, Hy; reflexivity).
  assert (Hsend : send P d y = connect P x).
  { unfold send. replace (authorized (this y)) with false by (rewrite Hy; reflexivity).
    rewrite andb_false_r. reflexivity. }
  assert (Hcx : context_set x = true)
    by (rewrite Hx; unfold context_set; cbn [upd this url sessionId set_sendQueue];
        rewrite Hy; exact Hc).
  assert (Hux : usable x = false)
    by (rewrite Hx; unfold usable; cbn [upd this ws set_sendQueue]; rewrite Hy; reflexivity).
  assert (Hsx : state (this x) <> connecting)
    by (rewrite Hx; cbn [upd this state set_sendQueue]; rewrite Hy; discriminate).
  assert (Hex : endpoint_of x = endpoint_of w)
    by (rewrite Hx; unfold endpoint_of; cbn [upd this url set_sendQueue];
        rewrite Hy; reflexivity).
  assert (Hcalls : calls (win x) = calls (win y)) by (rewrite Hx; reflexivity).
  assert (Hsock : sockets (win x) = sockets (win w))
    by (rewrite Hx; cbn [upd win]; rewrite Hy; reflexivity).
  assert (Hlog : log (win x) = log (win y)) by (rewrite Hx; reflexivity).
  destruct (connect_constructs P x Hcx Hux Hsx)
    as (C1 & C2 & _ & _ & C5 & C6 & _ & _ & _ & _ & C11);
    [rewrite Hcalls, Hex; exact Hok|].
  rewrite Hsend. rewrite C1, C2, C5, C6, C11, Hq, Hsock, Hex, Hlog.
  repeat split.
  - rewrite !attempts_app. rewrite Hy. cbn [win log]. rewrite !attempts_app.
    destruct (ws (this w)); cbn; rewrite ?app_nil_r; reflexivity.
  - rewrite transports_created_app. fold y.
    replace (transports_created (log (win y)))
      with (transports_created (log (win w)))
      by (symmetry; apply transports_created_close).
    reflexivity.
Qed.

Lemma send_after_close_reconnects_witness :
  explicitlyClosed (this closed_session) = true
  /\ sendQueue (this (send (Sample.platform []) (Text "again") closed_session)) =
     ["again"]
  /\ state (this (send (Sample.platform []) (Text "again") closed_session)) =
     connecting.
Proof.
  split; [reflexivity|].
  destruct (send_after_close_reconnects (Sample.platform []) (Text "again")
              open_session eq_refl eq_refl) as (Hq & _ & Hst & _).
  split; [exact Hq|exact Hst].
Defined.
